(* ===== verification/_CoqProject ===== *)
-Q . S2P
Prelude.v
Js.v
Regex.v
RateLimit.v
Dates.v
Base64.v
Concurrency.v
Timers.v
World.v
Url.v
Forms.v
StaticFiles.v
Json.v
Gateway.v
RefreshTokens.v
Auth.v
Sessions.v
Families.v
Cleanup.v
Mail.v
Accounts.v
OAuthState.v
MailSync.v
Messages.v
Isolation.v
Providers.v
SyncEvents.v
Heartbeat.v
ApiClient.v
Logging.v
AuthGuard.v
Startup.v
Ownership.v
Browser.v
Queue.v
SyncWorker.v
Notify.v
Routes.v
UsersRoutes.v
Views.v
WebApp.v
NewMail.v
Widgets.v
Ingress.v
Tokens.v
Download.v
Processes.v
