(* ===== verification/Prelude.v ===== *)
(** * Finlytic: a verification library

    Finlytic is a set of services that read a user's mail: a gateway in front, a
    user-management service that owns sessions, an email-ingestion service that
    connects mailboxes and synchronises them, and a web application.  This library
    models their own logic, written in TypeScript under [src/], as executable Rocq
    definitions, and proves what makes it correct.

    ** How the parts interact

    A browser talks to the gateway alone.  The gateway limits the rate of requests
    (RateLimit), answers files of the web root (StaticFiles), matches the path with
    its routes, verifies access tokens and forwards the rest (Gateway, over Url for
    the targets it resolves).  User-management signs users in and rotates their
    refresh tokens (RefreshTokens, Auth; what interleaved requests do to them is in
    Sessions, and what they do to families of tokens in Families).  The browser's client
    shares one refresh among all its calls (ApiClient), because a refresh token presented
    twice revokes its family; Browser puts several pages, their common cookie, requests
    and answers that may be lost, and the service together.

    Email-ingestion connects a mailbox through a signed state that a provider's
    redirect brings back (OAuthState), keeps the tokens encrypted and refreshes
    them (Accounts), asks Gmail and Zoho through one interface (Mail, Providers),
    stores what a run finds (MailSync) and serves it (Messages).  Runs are jobs of a
    queue that requests and a clock fill (Queue) and workers empty (SyncWorker); the
    end of a run is published to the event streams of the browsers (SyncEvents).

    Each service checks the token of a request again (AuthGuard), logs under the id
    of the request (Logging) and starts on an environment it has validated (Startup,
    Processes).  Its controllers make one table of routes over its whole state (Routes,
    UsersRoutes), and what a request or a run may change of that state is in Ownership.
    The web application renders its state and offers handlers (Views), whose effects
    and queries are in WebApp, down to the elements its widgets are made of (Widgets).

    Five things are followed across the services: a request, from the browser through
    the gateway to a route (Ingress); an access token, from the sign-in that issues it to
    the guards that check it (Tokens); a sync, from the request for it to the event its
    page is told of (Notify); new mail, from the provider through a run to the rows of the
    page (NewMail); the original of a message, from the object store through the gateway to
    the disk of the user (Download).

    ** Files and sources

    - Prelude (this file): results, programs with atomic effects, [run], the
      tactic [run_simpl].  Js, Regex, Dates, Base64, Forms, Json: the operations of
      JavaScript and Node the sources use, with their laws; the round trips of
      base64url, of URLSearchParams and of JSON are proved, not assumed.
    - Concurrency: programs whose atomic steps interleave with each other and with
      an environment; a rely-guarantee logic ([rg], [pool_rg]), step invariants
      ([each_step], [along]), potentials ([pays]), what threads hold between their steps
      ([owns]) and one program in two worlds ([lock]); programs on a part of a state
      ([zoom]).
    - Timers: [setInterval], and [setTimeout] of a socket.
    - World: exceptions, the state of a service (data, clock, randomness, whether
      the database answers, the log of outside calls) and the interface [Table]
      of what is relied on of Prisma, with its laws and an instance.
    - RateLimit: [services/gateway/src/rate-limit.ts].  Url: the URL parser of the
      platform.  StaticFiles: [static.ts].  Gateway: [routes.ts], [jwt.ts],
      [proxy.ts], [http.ts], [server.ts], [config.ts].
    - RefreshTokens: [services/user-management/src/auth/refresh-token.service.ts]
      and the cleanup service.  Auth: [auth.service.ts], [auth.controller.ts], the
      password hasher, the cookie, the DTOs and [users/].  Sessions: the theorems
      on both.  Families: what all requests keep of the families of tokens.  Cleanup: the
      timer of the sweeps, and the theorems on them.
    - Mail: [services/email-ingestion/src/mail/] (interface and registry) and the
      rows.  Accounts: [crypto/] and [accounts/].  OAuthState: [oauth/].  MailSync:
      [storage/], [messages/message-ingestion.service.ts] and
      [sync/mail-sync.service.ts].  Messages: [messages/messages.service.ts] and
      its controller, and Isolation what they show.  Providers: [mail/providers/].
      Ownership: the statements of Accounts and Messages as what they may change.
    - SyncEvents: [queue/sync-events.service.ts], the events route of
      [accounts/accounts.controller.ts], and [api/sse.ts] and
      [accounts/useSyncEvents.ts] of [apps/web/src].  ApiClient: [api/client.ts]
      of the same.  Browser: pages of [client.ts] over the routes of Auth.  Heartbeat:
      the comments of the events route against the time-out of [proxy.ts].
    - Logging: [logging/] of both services (their files are the same),
      [gateway/src/logger.ts] and the crash handlers of [gateway/src/main.ts].
      AuthGuard: [packages/auth-lib/src/] and [users/users.controller.ts].  Startup:
      [config/env.validation.ts] of both services, [gateway/src/config.ts], the
      constructors that read the environment, the bucket made at start, the request
      ids of [main.ts] and [app.service.ts].  Processes: [main.ts] of the three services,
      [main.worker.ts], [prisma/prisma.service.ts] and the hooks of the providers.
    - Routes: the controllers of email-ingestion ([accounts/], [messages/], [oauth/],
      [app.controller.ts]) as one table.  UsersRoutes: those of user-management, with the
      proxy [main.ts] trusts and the validation of bodies.
    - Queue: [queue/sync-queue.service.ts], [queue/queue.module.ts],
      [sync/sync-scheduler.service.ts], [sync/mail-sync.processor.ts] and
      [requestSync] of [accounts/accounts.service.ts].  SyncWorker: what becomes of
      a job.
    - Views: the components of [apps/web/src] as the trees they return.  WebApp:
      [auth/AuthProvider.tsx], the state of the components, [theme.ts], the queries
      and [messages/download.ts].  Widgets: [components/ui/].
    - Ingress: what [proxy.ts] sends, as the routes of the services receive it.  Tokens:
      [auth/auth.module.ts] and [auth/token.service.ts] against [jwt.ts] and
      [packages/auth-lib].  Notify: requests, workers, the events of the queue and the
      streams as one transition system, over Queue, SyncWorker and SyncEvents.  NewMail:
      what a job asks of the provider and stores, over MailSync and Queue, and the pages
      WebApp loads after it.  Download: the [raw] route of [messages.controller.ts], the body
      in [proxy.ts] and [messages/download.ts], as three pipes in a row.

    An [async] function is a [prog]: the tree of its awaited calls, each of which
    is atomic (one SQL statement, one request, one read of the clock), so that what
    happens between two of them is a matter of the theorem.  What a function throws
    is a value of [exn]; the state it changed stays changed, as in the sources,
    which use no transaction.  A function without [await] is a function of its
    state.  A string is a Rocq [string], a byte per character: in the gateway the
    Latin-1 units in which Node hands over a request, elsewhere UTF-8.

    ** What the theorems show

    - Requests: whatever a request does, with any others between its steps, leaves the
      accounts, jobs, messages, objects and streams of other users alone; one that comes
      through the gateway changes nothing of a user without a token or a signed state of
      theirs; a route behind the guard does nothing without a token that verifies.  The
      link the page offers to connect a first mailbox carries none (a finding).
    - Rate limiting: no client gets more than twice its quota, less one, in any
      interval of one window, and sweeping changes no decision; what the limiter
      remembers is bounded by the requests of the last windows.
    - Gateway: exactly the tokens that check out are accepted; what reaches a
      service is authorised, carries the gateway's own forwarding headers and no
      hop-by-hop header; a plain request is forwarded as configured; a client gets
      at most one head.  A target that starts with two slashes is forwarded to the
      host it names, and one that names none stops the process: both are findings.
    - Static files: nothing outside the web root is served.
    - Sessions: under any interleaving one refresh token is answered with a session
      at most once; a replay leaves no live token in the family, unless it overlaps
      the rotation (a finding); under any interleaving, outages included, a family
      never has two tokens that are not revoked and has one owner; each request does what it means to on every branch.  A new session records the
      address the client connected to the gateway from.  The access token of a sign-in
      names its user to every verifier for exactly the time its answer says.  A sweep
      takes every token that had expired, and no later request can tell that it ran, unless
      it presents a token the sweep took (a finding).
    - Accounts: encryption round trips and separates purposes; a failing provider
      never disables an account; partial consent is refused; a reconnection keeps
      what it must.  A state is accepted once, for ten minutes, for its user.
    - Synchronisation: whatever interleaves or fails, no row points to a missing
      object; the runs of the workers change the rows of the owner of their account
      alone; a run stores every id it is given; a Zoho run takes the newest two
      hundred messages and moves the cursor past the others (a finding).
    - Providers: Zoho's requests go to its table of data centres alone; a grant is
      reported gone exactly when the provider says so.
    - Messages: following the cursors lists each message once, whatever arrives
      meanwhile; nobody reads the mail of another, and what a user reads does not
      depend on it, but for a page that starts at someone else's message (a finding); a
      limit that is no whole number is refused by the database (a finding).  A download
      saves the whole original or nothing, wherever a connection breaks.
    - Browser: every event of an account of its user is delivered once, however the
      stream is cut, unless line endings are rewritten (a finding); a stream on which
      nothing happens is kept open by its comments; reconnection backs off; one refresh
      is out at a time and a burst of 401s costs one.  One page presents no spent token as
      long as no answer to a refresh is lost; an answer that is lost, a page that is loaded
      again while it waits for one, and two pages that share a session lose it (findings),
      and a sign-out can be overtaken by a refresh (a finding).
    - Queue: requests for an account that overlap each other and the workers all get a
      run, if they succeed, whatever becomes of those for other accounts (one that fails
      can take the job of another for its account with it: a finding); a user can
      queue only their own accounts, the clock queues all active ones.  Workers make
      a bounded number of steps for each job; a fair one ends it; the job of an
      account that is gone or not active is not retried.  Overlapping requests for an
      account that succeed, whatever is asked for after them one at a time, lead to the end
      of a sync of it, and the open page of the owner is told how it ended.
    - Services: the guard takes a forwarded token for the user the gateway verified;
      a call of the logger is one line of JSON whose fields no text can change, and a
      crash is logged before the process exits with an error; a validated environment
      is well typed and every constructor accepts it.  No service listens, in any state
      of its start, before its hooks have run and it is configured; the gateway stops as soon as the last
      client that was being answered has left, which an open page never does (a finding).
    - Web application: the page offers exactly what a user may do, and its widgets offer
      the same; an open message can be closed; with nobody signed in it caches no answer,
      makes no query, asks for no events and offers the sign-in form alone, but a selection
      survives a sign-out and a refresh that fails leaves the page loading for good (both
      findings); the theme on screen is the one chosen; loading every page of a
      mailbox, from the query string of the client to the listing of the service,
      shows each message once.  After a sync that completed it shows every message the
      provider named to it and did not report gone.

    ** Interfaces and hypotheses

    Code outside [src/] is a parameter.  [Table] and [TableLaws] are Prisma on one
    table, [Cipher] and [CipherLaws] AES-GCM and its encoding, [AdapterLaws] what
    the services rely on of a provider (which Providers proves of both adapters),
    [JobQueue] and [JobQueueLaws] BullMQ's queue, [Workers] and [WorkerLaws] what its workers
    do to it (stalled jobs included), [JwtService] and [JwtLaws] the verification of @nestjs/jwt,
    [Zod] and [ZodLaws] the schemas of zod, [ProxyAddr] what Express makes of forwarding
    headers, [JwtSigner] and [SigningLaws] the tokens @nestjs/jwt signs, [ClassNames],
    [Rendering] and [RenderingLaws] the packages of class names and Base UI, [Nest] and
    [NestLaws] what Nest does with the hooks of a module.  Where a part is a state of its
    own, [Lens] says how it is a part of the whole.
    Password digests, SHA-256, HMAC, JWT verification, random sources, mailparser,
    the object store's availability and the network are functions; where a law is
    needed it is a named hypothesis.  Every theorem with a hypothesis has a witness
    in which the parameters are concrete functions.

    ** Fuel

    Few loops are not structural.  [collect] of MailSync takes the number of
    pages it may read and is shown to end when the provider's pages do;
    [all_pages] of Messages is given one page more than the mailbox has messages
    and never runs out, nor does [load_all] of WebApp, its client; the readers of Json
    and the frame loop of SyncEvents are given a bound on what they consume, shown to be
    enough.

    ** What is not modelled

    The declarations of modules, which only say what the frameworks wire together, how many
    jobs a worker of BullMQ runs at once ([concurrency], which only it reads: the theorems
    are for any number), and the connection strings of the Prisma clients; React, TanStack Query and Base UI (what they
    do with a component's state, queries and elements is stated where it is used); the
    classes of the components other than the widgets, and other styling.

    Columns that Prisma maintains by itself ([updatedAt]) keep their value. *)

From Stdlib Require Export ZArith Lia.
From Stdlib Require Ascii.
Export (notations) Ascii.
From stdpp Require Export base tactics option list strings gmap fin_maps sorting.

Set Default Proof Using "Type".

Declare Scope service_scope.
Delimit Scope service_scope with service.
Open Scope service_scope.

(** ** Results: a value or a thrown error *)

Inductive result (E A : Type) : Type :=
| Ok (a : A)
| Err (e : E).

Arguments Ok {E A} a.
Arguments Err {E A} e.

Definition is_ok {E A} (r : result E A) : bool :=
  match r with Ok _ => true | Err _ => false end.

#[export] Instance result_eq_dec {E A} `{EqDecision E, EqDecision A} :
  EqDecision (result E A).
Proof. solve_decision. Defined.

(** ** Programs with atomic effects

    An [async] function of the services is a sequence of awaited calls, each of
    which is atomic (one SQL statement, one object-store request, one read of
    the clock) while anything may happen between two of them.  [prog S A] is
    the tree of such a function over a shared state [S]: [Atomic op k] performs
    [op] on the state and goes on with the value it returned. *)

Inductive prog (S A : Type) : Type :=
| Done (a : A)
| Atomic (B : Type) (op : S -> B * S) (k : B -> prog S A).

Arguments Done {S A} a.
Arguments Atomic {S A B} op k.

Fixpoint pbind {S A B} (p : prog S A) (f : A -> prog S B) : prog S B :=
  match p with
  | Done a => f a
  | Atomic op k => Atomic op (fun b => pbind (k b) f)
  end.

(** [run p s] executes [p] from [s] with nothing in between its steps. *)
Fixpoint run {S A} (p : prog S A) (s : S) : A * S :=
  match p with
  | Done a => (a, s)
  | Atomic op k => let '(b, s') := op s in run (k b) s'
  end.

(** [io S E A] is a function that may throw an [E]: the state it has changed
    stays changed, there is no rollback. *)
Definition io (S E A : Type) : Type := prog S (result E A).

Definition ret {S E A} (a : A) : io S E A := Done (Ok a).

Definition throw {S E A} (e : E) : io S E A := Done (Err e).

Definition perform {S E A} (op : S -> result E A * S) : io S E A :=
  Atomic op Done.

(** A step that reads the state. *)
Definition reads {S E A} (f : S -> A) : io S E A :=
  perform (fun s => (Ok (f s), s)).

(** A step that changes the state and cannot fail. *)
Definition modify {S E} (f : S -> S) : io S E unit :=
  perform (fun s => (Ok tt, f s)).

Definition io_bind {S E A B} (m : io S E A) (f : A -> io S E B) : io S E B :=
  pbind m (fun r => match r with Ok a => f a | Err e => throw e end).

(** [try { m } catch (e) { h e }] *)
Definition try_catch {S E A} (m : io S E A) (h : E -> io S E A) : io S E A :=
  pbind m (fun r => match r with Ok a => ret a | Err e => h e end).

Notation "'let!' x := m 'in' k" := (io_bind m (fun x => k))
  (at level 10, x pattern, m at level 100, k at level 200) : service_scope.

Notation "m ;! k" := (io_bind m (fun _ => k))
  (at level 100, k at level 200, right associativity) : service_scope.

(** [for (const x of l) body], the loop of an [async] function. *)
Fixpoint for_each {S E A} (l : list A) (body : A -> io S E unit) : io S E unit :=
  match l with
  | [] => ret tt
  | x :: l' => body x ;! for_each l' body
  end.

(** ** Lists *)

Lemma sum_list_insert (l : list nat) (i x y : nat) :
  l !! i = Some x -> sum_list (<[i := y]> l) + x = sum_list l + y.
Proof.
  revert i. induction l as [|z l IH]; intros [|i] Hi; simplify_eq/=; [lia|].
  specialize (IH i Hi). lia.
Qed.

Lemma sum_list_lookup (l : list nat) (i x : nat) : l !! i = Some x -> x <= sum_list l.
Proof.
  revert i. induction l as [|z l IH]; intros [|i] Hi; simplify_eq/=; [lia|].
  specialize (IH i Hi). lia.
Qed.

Lemma sum_list_lookup_two (l : list nat) (i j x y : nat) :
  i <> j -> l !! i = Some x -> l !! j = Some y -> x + y <= sum_list l.
Proof.
  intros Hij Hi Hj. pose proof (sum_list_insert l i x 0 Hi) as Hs.
  assert (<[i := 0]> l !! j = Some y) as Hj' by (by rewrite list_lookup_insert_ne).
  pose proof (sum_list_lookup _ _ _ Hj'). lia.
Qed.

Lemma sum_list_zeros (n : nat) : sum_list (replicate n 0) = 0.
Proof. induction n; simpl; lia. Qed.

(** ** Equations of [run] *)

Section Run.
Context {S E : Type}.

Lemma run_pbind {A B} (p : prog S A) (f : A -> prog S B) (s : S) :
  run (pbind p f) s = let '(a, s') := run p s in run (f a) s'.
Proof.
  revert s. induction p as [a|X op k IH]; intros s; simpl; [done|].
  destruct (op s) as [b s']. apply IH.
Qed.

Lemma run_bind {A B} (m : io S E A) (f : A -> io S E B) (s : S) :
  run (io_bind m f) s =
  match run m s with
  | (Ok a, s') => run (f a) s'
  | (Err e, s') => (Err e, s')
  end.
Proof. unfold io_bind. rewrite run_pbind. by destruct (run m s) as [[] ?]. Qed.

(** A sequence that returned did so through its first part. *)
Lemma run_bind_ok {A B} (m : io S E A) (f : A -> io S E B) (b : B) (s s' : S) :
  run (io_bind m f) s = (Ok b, s') ->
  exists a s1, run m s = (Ok a, s1) /\ run (f a) s1 = (Ok b, s').
Proof.
  rewrite run_bind. destruct (run m s) as [[a|e] s1] eqn:Hm; [|done]. intros Hf. by exists a, s1.
Qed.

Lemma run_try {A} (m : io S E A) (h : E -> io S E A) (s : S) :
  run (try_catch m h) s =
  match run m s with
  | (Ok a, s') => (Ok a, s')
  | (Err e, s') => run (h e) s'
  end.
Proof. unfold try_catch. rewrite run_pbind. by destruct (run m s) as [[] ?]. Qed.

Lemma run_perform {A} (op : S -> result E A * S) (s : S) :
  run (perform op) s = op s.
Proof. unfold perform. simpl. by destruct (op s). Qed.

Lemma run_reads {A} (f : S -> A) (s : S) :
  run (reads (E:=E) f) s = (Ok (f s), s).
Proof. done. Qed.

Lemma run_modify (f : S -> S) (s : S) : run (modify (E:=E) f) s = (Ok tt, f s).
Proof. done. Qed.

Lemma run_ret {A} (a : A) (s : S) : run (ret (E:=E) a) s = (Ok a, s).
Proof. done. Qed.

Lemma run_throw {A} (e : E) (s : S) : run (throw (A:=A) e) s = (Err e, s).
Proof. done. Qed.
End Run.

#[global] Arguments run : simpl never.

Create Rewrite HintDb run.
#[export] Hint Rewrite @run_bind @run_try @run_perform @run_reads @run_modify
  @run_ret @run_throw : run.

(** [run_simpl] symbolically executes the program of the goal. *)
Ltac run_simpl := repeat (autorewrite with run; simpl).
