(* ===== verification/Js.v ===== *)
(** * The string operations of JavaScript the services use

    A JavaScript string is a Rocq [string], one [ascii] per code unit.  The
    operations below are the ones of [String.prototype] and [Array.prototype]
    that the code under [src/] calls, with the laws its theorems need. *)

From S2P Require Import Prelude.

Abbreviation ascii_eqb := Ascii.eqb.

Definition code (c : Ascii.ascii) : nat := Ascii.nat_of_ascii c.

(** ** Splitting, joining and slicing *)

(** [s.split(c)] for a one-character separator. *)
Fixpoint split_on (c : Ascii.ascii) (s : string) : list string :=
  match s with
  | EmptyString => [""]
  | String a s' =>
      if ascii_eqb a c then "" :: split_on c s'
      else match split_on c s' with
           | [] => [String a ""]
           | w :: ws => String a w :: ws
           end
  end.

(** [l.join(sep)] *)
Fixpoint str_join (sep : string) (l : list string) : string :=
  match l with
  | [] => ""
  | [x] => x
  | x :: l' => x +:+ sep +:+ str_join sep l'
  end.

Fixpoint sdrop (n : nat) (s : string) : string :=
  match n, s with
  | O, _ => s
  | S n', EmptyString => EmptyString
  | S n', String _ s' => sdrop n' s'
  end.

Fixpoint stake (n : nat) (s : string) : string :=
  match n, s with
  | O, _ => EmptyString
  | S n', EmptyString => EmptyString
  | S n', String a s' => String a (stake n' s')
  end.

(** [s.startsWith(p)] *)
Fixpoint starts_with (p s : string) : bool :=
  match p, s with
  | EmptyString, _ => true
  | String a p', String b s' => ascii_eqb a b && starts_with p' s'
  | String _ _, EmptyString => false
  end.

(** [s.endsWith(c)] and [s.slice(0, -1)] for a single character. *)
Fixpoint ends_with_char (c : Ascii.ascii) (s : string) : bool :=
  match s with
  | EmptyString => false
  | String a EmptyString => ascii_eqb a c
  | String _ s' => ends_with_char c s'
  end.

Fixpoint drop_last (s : string) : string :=
  match s with
  | EmptyString => EmptyString
  | String _ EmptyString => EmptyString
  | String a s' => String a (drop_last s')
  end.

(** [s.indexOf(p)], [None] for the -1 of JavaScript. *)
Fixpoint index_of (p s : string) : option nat :=
  if starts_with p s then Some O
  else match s with
       | EmptyString => None
       | String _ s' => S <$> index_of p s'
       end.

(** [s.includes(p)] *)
Definition includes (p s : string) : bool :=
  match index_of p s with Some _ => true | None => false end.

(** ** Case and blanks *)

Definition is_blank (c : Ascii.ascii) : bool :=
  let n := code c in
  (Nat.leb 9 n && Nat.leb n 13) || Nat.eqb n 32 || Nat.eqb n 160.

Definition lower_char (c : Ascii.ascii) : Ascii.ascii :=
  let n := code c in
  if Nat.leb 65 n && Nat.leb n 90 then Ascii.ascii_of_nat (n + 32) else c.

Definition upper_char (c : Ascii.ascii) : Ascii.ascii :=
  let n := code c in
  if Nat.leb 97 n && Nat.leb n 122 then Ascii.ascii_of_nat (n - 32) else c.

Fixpoint smap (f : Ascii.ascii -> Ascii.ascii) (s : string) : string :=
  match s with
  | EmptyString => EmptyString
  | String a s' => String (f a) (smap f s')
  end.

Definition to_lower : string -> string := smap lower_char.

Definition to_upper : string -> string := smap upper_char.

Fixpoint srev_app (s acc : string) : string :=
  match s with
  | EmptyString => acc
  | String a s' => srev_app s' (String a acc)
  end.

Definition srev (s : string) : string := srev_app s "".

Fixpoint trim_start (s : string) : string :=
  match s with
  | EmptyString => EmptyString
  | String a s' => if is_blank a then trim_start s' else s
  end.

(** [s.trim()] *)
Definition trim (s : string) : string := srev (trim_start (srev (trim_start s))).

(** ** Truthiness and [x || undefined] *)

(** [Boolean(s)] of a string. *)
Definition truthy (s : string) : bool :=
  match s with EmptyString => false | _ => true end.

(** [s || undefined] *)
Definition or_undefined (s : string) : option string :=
  if truthy s then Some s else None.

(** A present and non-empty optional string: [if (x)] on [string | undefined]. *)
Definition otruthy (o : option string) : bool :=
  match o with Some s => truthy s | None => false end.

(** ** Printing integers: [String(n)] *)

Fixpoint digits_of (fuel : nat) (n : Z) (acc : string) : string :=
  let d := Ascii.ascii_of_nat (48 + Z.to_nat (n mod 10)) in
  match fuel with
  | O => String d acc
  | S f => if (n <? 10)%Z then String d acc else digits_of f (n / 10) (String d acc)
  end.

(** Enough fuel: a number has at most as many decimal digits as bits. *)
Definition string_of_Z (n : Z) : string :=
  if (n <? 0)%Z then "-" +:+ digits_of (Z.to_nat (Z.log2 (- n))) (- n) ""
  else digits_of (Z.to_nat (Z.log2 n)) n "".

(** ** Occurrence of a character *)

Fixpoint occurs (c : Ascii.ascii) (s : string) : bool :=
  match s with
  | EmptyString => false
  | String a s' => ascii_eqb a c || occurs c s'
  end.

(** ** Lemmas *)

Lemma ascii_eqb_spec' (a b : Ascii.ascii) :
  if ascii_eqb a b then a = b else a <> b.
Proof. destruct (Ascii.eqb_spec a b); done. Qed.

Ltac ascii_case a b :=
  let H := fresh "Hc" in
  pose proof (ascii_eqb_spec' a b) as H; destruct (ascii_eqb a b) eqn:?; [subst|].

Lemma append_nil_r (s : string) : s +:+ "" = s.
Proof. induction s as [|a s IH]; [done|]. change (String a (s +:+ "") = String a s). by rewrite IH. Qed.

Lemma append_nil_l (s : string) : "" +:+ s = s.
Proof. done. Qed.

Lemma append_cons (a : Ascii.ascii) (s t : string) :
  String a s +:+ t = String a (s +:+ t).
Proof. done. Qed.

Lemma append_assoc (s t u : string) : (s +:+ t) +:+ u = s +:+ (t +:+ u).
Proof. induction s as [|a s IH]; [done|]. rewrite !append_cons. by rewrite IH. Qed.

Lemma append_inj_l (s t u : string) : s +:+ t = s +:+ u -> t = u.
Proof.
  induction s as [|a s IH]; [done|]. rewrite !append_cons. intros [= H]. by apply IH.
Qed.

Lemma occurs_app (c : Ascii.ascii) (s t : string) :
  occurs c (s +:+ t) = occurs c s || occurs c t.
Proof.
  induction s as [|a s IH]; [done|]. rewrite append_cons. simpl.
  by rewrite IH, orb_assoc.
Qed.

Lemma sdrop_append (s t : string) : sdrop (String.length s) (s +:+ t) = t.
Proof. induction s as [|a s IH]; done. Qed.

Lemma starts_with_append (p s : string) : starts_with p (p +:+ s) = true.
Proof.
  induction p as [|a p IH]; [done|]. rewrite append_cons. simpl.
  by rewrite Ascii.eqb_refl, IH.
Qed.

Lemma starts_with_refl (p : string) : starts_with p p = true.
Proof. rewrite <- (append_nil_r p) at 2. apply starts_with_append. Qed.

Lemma starts_with_spec (p s : string) :
  starts_with p s = true <-> exists t, s = p +:+ t.
Proof.
  split; [|intros [t ->]; apply starts_with_append].
  revert s. induction p as [|a p IH]; intros s H; [by exists s|].
  destruct s as [|b s]; [done|]. simpl in H.
  apply andb_true_iff in H as [Hab H]. apply Ascii.eqb_eq in Hab as ->.
  destruct (IH s H) as [t ->]. by exists t.
Qed.

Lemma split_on_nonempty (c : Ascii.ascii) (s : string) : split_on c s <> [].
Proof. destruct s; simpl; [done|]. case_match; [done|]. by case_match. Qed.

(** [s.split(c).join(c) = s] *)
Lemma join_split_on (c : Ascii.ascii) (s : string) :
  str_join (String c "") (split_on c s) = s.
Proof.
  induction s as [|a s IH]; [done|]. simpl.
  pose proof (split_on_nonempty c s) as Hne.
  ascii_case a c.
  - destruct (split_on c s) as [|w ws]; [done|].
    change (str_join (String c "") ("" :: w :: ws))
      with (String c (str_join (String c "") (w :: ws))).
    by rewrite IH.
  - destruct (split_on c s) as [|w ws]; [done|].
    destruct ws as [|w' ws]; simpl in *; [by rewrite IH|].
    rewrite append_cons. by rewrite IH.
Qed.

Lemma split_on_no_sep (c : Ascii.ascii) (s : string) :
  occurs c s = false -> split_on c s = [s].
Proof.
  induction s as [|a s IH]; [done|]. simpl. intros H.
  apply orb_false_iff in H as [-> H]. by rewrite IH.
Qed.

Lemma split_on_app_sep (c : Ascii.ascii) (s t : string) :
  occurs c s = false -> split_on c (s +:+ String c t) = s :: split_on c t.
Proof.
  induction s as [|a s IH]; [intros _; simpl; by rewrite Ascii.eqb_refl|].
  rewrite append_cons. simpl. intros H. apply orb_false_iff in H as [-> H].
  by rewrite IH.
Qed.

(** [l.join(c).split(c) = l] when no element holds the separator. *)
Lemma split_on_join (c : Ascii.ascii) (l : list string) :
  l <> [] -> Forall (fun w => occurs c w = false) l ->
  split_on c (str_join (String c "") l) = l.
Proof.
  induction l as [|w l IH]; [done|]. intros _ Hall.
  inversion Hall as [|? ? Hw Hl]; subst.
  destruct l as [|w' l]; [by apply split_on_no_sep|].
  change (str_join (String c "") (w :: w' :: l))
    with (w +:+ String c (str_join (String c "") (w' :: l))).
  rewrite split_on_app_sep by done. by rewrite IH.
Qed.

Lemma split_on_pieces (c : Ascii.ascii) (s : string) :
  Forall (fun w => occurs c w = false) (split_on c s).
Proof.
  induction s as [|a s IH]; [by repeat constructor|]. simpl.
  ascii_case a c; [by constructor|].
  destruct (split_on c s) as [|w ws]; [by repeat constructor; simpl; rewrite Heqb|].
  inversion IH; subst. constructor; [|done]. simpl. by rewrite Heqb.
Qed.

(** Two ways to cut a string at the last separator agree. *)
Lemma append_sep_inj (c : Ascii.ascii) (s1 s2 t1 t2 : string) :
  occurs c t1 = false -> occurs c t2 = false ->
  s1 +:+ String c t1 = s2 +:+ String c t2 -> s1 = s2 /\ t1 = t2.
Proof.
  intros H1 H2. revert s2.
  induction s1 as [|a s1 IH]; intros [|b s2]; rewrite ?append_cons; simpl; intros [= E].
  - by subst.
  - subst. by rewrite occurs_app in H1; simpl in H1; rewrite Ascii.eqb_refl, orb_true_r in H1.
  - subst. by rewrite occurs_app in H2; simpl in H2; rewrite Ascii.eqb_refl, orb_true_r in H2.
  - destruct (IH s2) as [-> ->]; [done|]. by subst.
Qed.

#[export] Hint Rewrite append_nil_l append_nil_r append_assoc sdrop_append starts_with_append : run.
