(* ===== verification/Regex.v ===== *)
(** * Regular expressions

    The subset of JavaScript's regular expressions that the services write
    (literals, character classes, alternation, repetition), matched by
    derivatives.  [re_lang] is the usual denotation and [matches_iff] says that
    the executable matcher decides it. *)

From S2P Require Import Prelude Js.

Inductive re : Type :=
| RNone
| REps
| RClass (p : Ascii.ascii -> bool)
| RSeq (r1 r2 : re)
| RAlt (r1 r2 : re)
| RStar (r : re).

Inductive re_lang : re -> string -> Prop :=
| L_eps : re_lang REps ""
| L_class p a : p a = true -> re_lang (RClass p) (String a "")
| L_seq r1 r2 s1 s2 :
    re_lang r1 s1 -> re_lang r2 s2 -> re_lang (RSeq r1 r2) (s1 +:+ s2)
| L_alt_l r1 r2 s : re_lang r1 s -> re_lang (RAlt r1 r2) s
| L_alt_r r1 r2 s : re_lang r2 s -> re_lang (RAlt r1 r2) s
| L_star_nil r : re_lang (RStar r) ""
| L_star_cons r s1 s2 :
    re_lang r s1 -> re_lang (RStar r) s2 -> re_lang (RStar r) (s1 +:+ s2).

Fixpoint nullable (r : re) : bool :=
  match r with
  | RNone | RClass _ => false
  | REps | RStar _ => true
  | RSeq r1 r2 => nullable r1 && nullable r2
  | RAlt r1 r2 => nullable r1 || nullable r2
  end.

Fixpoint deriv (a : Ascii.ascii) (r : re) : re :=
  match r with
  | RNone | REps => RNone
  | RClass p => if p a then REps else RNone
  | RSeq r1 r2 =>
      if nullable r1 then RAlt (RSeq (deriv a r1) r2) (deriv a r2)
      else RSeq (deriv a r1) r2
  | RAlt r1 r2 => RAlt (deriv a r1) (deriv a r2)
  | RStar r' => RSeq (deriv a r') (RStar r')
  end.

(** [/^r$/.test(s)] *)
Fixpoint matches (r : re) (s : string) : bool :=
  match s with
  | EmptyString => nullable r
  | String a s' => matches (deriv a r) s'
  end.

(** Literals, [[^c]], [r+] and [r{m,n}]. *)
Fixpoint lit (s : string) : re :=
  match s with
  | EmptyString => REps
  | String a s' => RSeq (RClass (ascii_eqb a)) (lit s')
  end.

Definition not_char (c : Ascii.ascii) : re := RClass (fun a => negb (ascii_eqb a c)).

Definition plus (r : re) : re := RSeq r (RStar r).

Fixpoint upto (n : nat) (r : re) : re :=
  match n with O => REps | S n' => RAlt REps (RSeq r (upto n' r)) end.

Ltac inv_lang :=
  match goal with
  | H : re_lang RNone _ |- _ => inversion H
  | H : re_lang REps _ |- _ => inversion H; subst; clear H
  | H : re_lang (RClass _) _ |- _ => inversion H; subst; clear H
  | H : re_lang (RSeq _ _) _ |- _ => inversion H; subst; clear H
  | H : re_lang (RAlt _ _) _ |- _ => inversion H; subst; clear H
  end.

#[local] Hint Constructors re_lang : core.

Lemma seq_iff (r1 r2 : re) (s : string) :
  re_lang (RSeq r1 r2) s <->
  exists s1 s2, s = s1 +:+ s2 /\ re_lang r1 s1 /\ re_lang r2 s2.
Proof.
  split; [intros H; inv_lang; eauto 6|].
  intros (s1 & s2 & -> & H1 & H2). auto.
Qed.

Lemma alt_iff (r1 r2 : re) (s : string) :
  re_lang (RAlt r1 r2) s <-> re_lang r1 s \/ re_lang r2 s.
Proof. split; [intros H; inv_lang; auto|intros []; auto]. Qed.

Lemma nullable_iff (r : re) : nullable r = true <-> re_lang r "".
Proof.
  induction r as [| |p|r1 IH1 r2 IH2|r1 IH1 r2 IH2|r IH]; simpl.
  - split; [done|inversion 1].
  - split; [auto|done].
  - split; [done|inversion 1].
  - rewrite andb_true_iff, IH1, IH2. split.
    + intros [H1 H2]. by apply (L_seq r1 r2 "" "").
    + intros (s1 & s2 & Heq & H1 & H2)%seq_iff. by destruct s1, s2.
  - rewrite orb_true_iff, IH1, IH2. split; [intros []; auto|].
    inversion 1; auto.
  - split; auto.
Qed.

(** A non-empty word of [r*] starts with a non-empty word of [r]. *)
Lemma star_cons_inv (r : re) (a : Ascii.ascii) (s : string) :
  re_lang (RStar r) (String a s) ->
  exists s1 s2, s = s1 +:+ s2 /\ re_lang r (String a s1) /\ re_lang (RStar r) s2.
Proof.
  remember (RStar r) as r' eqn:Er. remember (String a s) as w eqn:Ew.
  intros H. revert a s Er Ew.
  induction H as [| | | | | |r0 s1 s2 H1 IH1 H2 IH2]; intros a0 s0 Er Ew; try done.
  injection Er as ->. destruct s1 as [|b s1].
  - simpl in Ew. by apply IH2.
  - rewrite append_cons in Ew. injection Ew as -> <-. by exists s1, s2.
Qed.

Lemma deriv_iff (a : Ascii.ascii) (r : re) (s : string) :
  re_lang (deriv a r) s <-> re_lang r (String a s).
Proof.
  revert s. induction r as [| |p|r1 IH1 r2 IH2|r1 IH1 r2 IH2|r IH]; intros s; simpl.
  - split; inversion 1.
  - split; inversion 1.
  - destruct (p a) eqn:Hp; split; intros H; inv_lang; try congruence; by constructor.
  - assert (re_lang (RSeq (deriv a r1) r2) s ->
            re_lang (RSeq r1 r2) (String a s)) as Hfwd.
    { intros H. inv_lang. rewrite <- append_cons. constructor; [by apply IH1|done]. }
    assert (re_lang (RSeq r1 r2) (String a s) ->
            re_lang (RSeq (deriv a r1) r2) s \/
            (nullable r1 = true /\ re_lang (deriv a r2) s)) as Hbwd.
    { intros (s1 & s2 & Heq & H1 & H2)%seq_iff.
      destruct s1 as [|b s1]; [rewrite append_nil_l in Heq|].
      - subst. right. split; [by apply nullable_iff|by apply IH2].
      - rewrite append_cons in Heq. injection Heq as <- ->.
        left. apply seq_iff. exists s1, s2. split; [done|]. split; [by apply IH1|done]. }
    destruct (nullable r1) eqn:Hn; split; intros H.
    + inv_lang; [by apply Hfwd|].
      apply (L_seq r1 r2 "" (String a s)); [by apply nullable_iff|by apply IH2].
    + destruct (Hbwd H) as [|[]]; auto.
    + by apply Hfwd.
    + destruct (Hbwd H) as [|[]]; [done|congruence].
  - split; intros H; inv_lang;
      first [by apply L_alt_l, IH1 | by apply L_alt_r, IH2].
  - split.
    + intros H. inv_lang. rewrite <- append_cons. constructor; [by apply IH|done].
    + intros H. destruct (star_cons_inv _ _ _ H) as (s1 & s2 & -> & H1 & H2).
      constructor; [by apply IH|done].
Qed.

(** The matcher decides membership in the language of the pattern. *)
Lemma matches_iff (r : re) (s : string) : matches r s = true <-> re_lang r s.
Proof.
  revert r. induction s as [|a s IH]; intros r; simpl; [apply nullable_iff|].
  rewrite IH. apply deriv_iff.
Qed.

Lemma lit_iff (s t : string) : re_lang (lit s) t <-> t = s.
Proof.
  revert t. induction s as [|a s IH]; intros t; simpl; split.
  - by inversion 1.
  - intros ->. constructor.
  - intros (s1 & s2 & -> & H1 & H2)%seq_iff. inv_lang.
    apply IH in H2 as ->. match goal with H : _ = true |- _ => apply Ascii.eqb_eq in H as -> end.
    done.
  - intros ->. change (String a s) with (String a "" +:+ s).
    constructor; [constructor; apply Ascii.eqb_refl|by apply IH].
Qed.

Lemma seq_lit_iff (p : string) (r : re) (s : string) :
  re_lang (RSeq (lit p) r) s <-> exists t, s = p +:+ t /\ re_lang r t.
Proof.
  split.
  - intros H. inv_lang. match goal with H : re_lang (lit _) _ |- _ => apply lit_iff in H as -> end.
    eauto.
  - intros (t & -> & Ht). constructor; [by apply lit_iff|done].
Qed.

Lemma star_class_iff (p : Ascii.ascii -> bool) (s : string) :
  re_lang (RStar (RClass p)) s <->
  Forall (fun a => p a = true) (String.list_ascii_of_string s).
Proof.
  split.
  - induction s as [|a s IH]; intros H; simpl; [constructor|].
    destruct (star_cons_inv _ _ _ H) as (s1 & s2 & -> & H1 & H2).
    inversion H1; subst. constructor; [done|]. by apply IH.
  - induction s as [|a s IH]; simpl; intros H; [constructor|].
    inversion H; subst. change (String a s) with (String a "" +:+ s).
    constructor; [by constructor|by apply IH].
Qed.

(** [[^c]+] : a non-empty string without [c]. *)
Lemma plus_not_char_iff (c : Ascii.ascii) (s : string) :
  re_lang (plus (not_char c)) s <-> s <> "" /\ occurs c s = false.
Proof.
  assert (forall t, Forall (fun a => negb (ascii_eqb a c) = true)
                      (String.list_ascii_of_string t) <-> occurs c t = false) as Hocc.
  { induction t as [|a t IH]; simpl; [split; [done|constructor]|].
    rewrite Forall_cons, IH, orb_false_iff, negb_true_iff. done. }
  unfold plus, not_char. split.
  - intros (s1 & s2 & -> & H1 & Hs%star_class_iff%Hocc)%seq_iff. inv_lang.
    rewrite append_cons. split; [done|]. rewrite append_nil_l. simpl.
    rewrite Hs, orb_false_r. by apply negb_true_iff.
  - intros [Hne Ho]. destruct s as [|a s]; [done|]. simpl in Ho.
    apply orb_false_iff in Ho as [Ha Ho].
    change (String a s) with (String a "" +:+ s). constructor.
    + constructor. by rewrite Ha.
    + by apply star_class_iff, Hocc.
Qed.
