(* ===== verification/RateLimit.v ===== *)
(** * The gateway's rate limiter

    [services/gateway/src/rate-limit.ts]: the table of rules, the fixed-window
    counters kept per client and rule, and the sweep that forgets them.  Times
    are integer milliseconds. *)

From S2P Require Import Prelude Js Regex.

Local Open Scope Z_scope.

Module Limiter.

Record Rule := mkRule {
  id : string;
  method : option string;
  pattern : re;
  max : Z;
}.

Record Decision := mkDecision {
  allowed : bool;
  limit : Z;
  remaining : Z;
  retryAfterSeconds : Z;
}.

Definition WINDOW_MS : Z := 60000.

(** [[^/]+] *)
Definition segment : re := plus (not_char "/"%char).

Definition RULES : list Rule :=
  [ mkRule "auth-login" (Some "POST") (lit "/api/auth/login") 5;
    mkRule "auth-register" (Some "POST") (lit "/api/auth/register") 5;
    mkRule "auth-refresh" (Some "POST") (lit "/api/auth/refresh") 20;
    mkRule "account-actions" (Some "POST")
      (RSeq (lit "/api/accounts/")
         (RSeq segment (RSeq (lit "/") (RAlt (lit "preview") (lit "sync"))))) 10;
    mkRule "message-raw" (Some "GET")
      (RSeq (lit "/api/accounts/")
         (RSeq segment (RSeq (lit "/messages/") (RSeq segment (lit "/raw"))))) 20 ].

Definition DEFAULT_RULE : Rule := mkRule "default" None (RStar (RClass (fun _ => true))) 100.

Definition rule_applies (m pathname : string) (rule : Rule) : bool :=
  match method rule with
  | None => true
  | Some m' => bool_decide (m' = m)
  end && matches (pattern rule) pathname.

Definition ruleFor (m pathname : string) : Rule :=
  default DEFAULT_RULE (List.find (rule_applies m pathname) RULES).

Record Counter := mkCounter { windowStart : Z; count : Z }.

#[export] Instance counter_eq_dec : EqDecision Counter.
Proof. solve_decision. Defined.

(** [`${client}|${rule.id}`] *)
Definition bucket_key (client : string) (rule : Rule) : string :=
  client +:+ "|" +:+ id rule.

(** [Math.ceil(n / 1000)] *)
Definition ceil_seconds (n : Z) : Z := - (- n / 1000).

Definition check (windowMs : Z) (client m pathname : string) (now : Z)
    (counters : gmap string Counter) : Decision * gmap string Counter :=
  let rule := ruleFor m pathname in
  let key := bucket_key client rule in
  let fresh :=
    (mkDecision true (max rule) (max rule - 1) 0, <[key := mkCounter now 1]> counters) in
  match counters !! key with
  | None => fresh
  | Some counter =>
      if windowMs <=? now - windowStart counter then fresh
      else
        let counter' := mkCounter (windowStart counter) (count counter + 1) in
        let ok := count counter' <=? max rule in
        let elapsed := now - windowStart counter in
        (mkDecision ok (max rule) (Z.max (max rule - count counter') 0)
           (if ok then 0 else ceil_seconds (windowMs - elapsed)),
         <[key := counter']> counters)
  end.

(** The counters that [prune] keeps. *)
Definition open_window (windowMs now : Z) (c : Counter) : Prop :=
  now - windowStart c < windowMs.

#[export] Instance open_window_dec windowMs now c : base.Decision (open_window windowMs now c).
Proof. unfold open_window. apply _. Defined.

Definition prune (windowMs now : Z) (counters : gmap string Counter) :
  gmap string Counter :=
  filter (fun kc => open_window windowMs now kc.2) counters.

(** ** Sequences of calls *)

Inductive rl_call :=
| CCheck (client m pathname : string) (now : Z)
| CPrune (now : Z).

Definition call_time (c : rl_call) : Z :=
  match c with CCheck _ _ _ now => now | CPrune now => now end.

Definition call_step (windowMs : Z) (c : rl_call) (st : gmap string Counter) :
  option Decision * gmap string Counter :=
  match c with
  | CCheck client m pathname now =>
      let '(d, st') := check windowMs client m pathname now st in (Some d, st')
  | CPrune now => (None, prune windowMs now st)
  end.

Fixpoint calls (windowMs : Z) (cs : list rl_call) (st : gmap string Counter) :
  list (option Decision) :=
  match cs with
  | [] => []
  | c :: cs' => let '(d, st') := call_step windowMs c st in d :: calls windowMs cs' st'
  end.

(** Was the call a request of the bucket at a time in [lo, hi) that got through? *)
Definition counted (key : string) (lo hi : Z) (c : rl_call) (d : option Decision) : Z :=
  match c, d with
  | CCheck client m pathname now, Some d =>
      if bool_decide (bucket_key client (ruleFor m pathname) = key) &&
         (lo <=? now) && (now <? hi) && allowed d then 1 else 0
  | _, _ => 0
  end.

Fixpoint admitted (windowMs : Z) (key : string) (lo hi : Z) (cs : list rl_call)
    (st : gmap string Counter) : Z :=
  match cs with
  | [] => 0
  | c :: cs' =>
      let '(d, st') := call_step windowMs c st in
      counted key lo hi c d + admitted windowMs key lo hi cs' st'
  end.

(** Calls in the order of the clock, none before [t]. *)
Fixpoint chronological (t : Z) (cs : list rl_call) : Prop :=
  match cs with
  | [] => True
  | c :: cs' => t <= call_time c /\ chronological (call_time c) cs'
  end.

(** ** The rule table *)

Lemma rule_in_table (m p : string) : ruleFor m p ∈ DEFAULT_RULE :: RULES.
Proof.
  unfold ruleFor. destruct (List.find _ RULES) as [r|] eqn:E; simpl; [|by left].
  right. apply List.find_some in E as [E _]. by apply list_elem_of_In.
Qed.

Lemma rule_ids_plain (r : Rule) :
  r ∈ DEFAULT_RULE :: RULES -> occurs "|"%char (id r) = false.
Proof.
  intros H. unfold RULES in H. repeat (apply elem_of_cons in H as [->|H]; [done|]). by inversion H.
Qed.

Lemma rule_ids_distinct (r1 r2 : Rule) :
  r1 ∈ DEFAULT_RULE :: RULES -> r2 ∈ DEFAULT_RULE :: RULES -> id r1 = id r2 -> r1 = r2.
Proof.
  intros H1 H2 Hid. unfold RULES in *.
  repeat (apply elem_of_cons in H1 as [->|H1]);
    repeat (apply elem_of_cons in H2 as [->|H2]); try done; by inversion H1 || by inversion H2.
Qed.

Lemma rule_max_pos (r : Rule) : r ∈ DEFAULT_RULE :: RULES -> 1 <= max r.
Proof.
  intros H. unfold RULES in H.
  repeat (apply elem_of_cons in H as [->|H]; [simpl; lia|]). by inversion H.
Qed.

Lemma bucket_key_inj (c1 c2 : string) (r1 r2 : Rule) :
  r1 ∈ DEFAULT_RULE :: RULES -> r2 ∈ DEFAULT_RULE :: RULES ->
  bucket_key c1 r1 = bucket_key c2 r2 -> c1 = c2 /\ r1 = r2.
Proof.
  intros H1 H2 E. apply (append_sep_inj "|"%char) in E as [-> E];
    [|by apply rule_ids_plain|by apply rule_ids_plain].
  split; [done|]. by apply rule_ids_distinct.
Qed.

(** ** One bucket *)

(** What a request does to its own bucket. *)
Definition bucket (windowMs mx now : Z) (o : option Counter) : bool * Counter :=
  match o with
  | None => (true, mkCounter now 1)
  | Some c =>
      if windowMs <=? now - windowStart c then (true, mkCounter now 1)
      else (count c + 1 <=? mx, mkCounter (windowStart c) (count c + 1))
  end.

Lemma check_bucket (W : Z) (client m p : string) (now : Z) (st : gmap string Counter) :
  let key := bucket_key client (ruleFor m p) in
  let b := bucket W (max (ruleFor m p)) now (st !! key) in
  allowed (check W client m p now st).1 = b.1 /\
  (check W client m p now st).2 = <[key := b.2]> st.
Proof. unfold check, bucket. repeat case_match; simplify_eq/=; done. Qed.

Lemma prune_lookup (W now : Z) (st : gmap string Counter) (key : string) :
  prune W now st !! key =
  match st !! key with
  | Some c => if decide (open_window W now c) then Some c else None
  | None => None
  end.
Proof.
  unfold prune. destruct (st !! key) as [c|] eqn:E.
  - case_decide as Ho.
    + by apply map_lookup_filter_Some.
    + apply map_lookup_filter_None. right. intros c' Hc'. by simplify_eq.
  - apply map_lookup_filter_None. by left.
Qed.

(** The three ways a call can treat the bucket of a client and a rule. *)
Inductive bucket_view (W mx lo hi : Z) (c : rl_call) (o o' : option Counter) (n : Z) : Prop :=
| View_hit :
    n = (if (lo <=? call_time c) && (call_time c <? hi) &&
            (bucket W mx (call_time c) o).1 then 1 else 0) ->
    o' = Some (bucket W mx (call_time c) o).2 -> bucket_view W mx lo hi c o o' n
| View_other : n = 0 -> o' = o -> bucket_view W mx lo hi c o o' n
| View_swept b :
    o = Some b -> W <= call_time c - windowStart b -> n = 0 -> o' = None ->
    bucket_view W mx lo hi c o o' n.

Section Window.
Context (W : Z) (client : string) (rule : Rule).
Context (Hrule : rule ∈ DEFAULT_RULE :: RULES).

Abbreviation key := (bucket_key client rule).

Lemma call_view (lo hi : Z) (c : rl_call) (st : gmap string Counter) :
  let '(d, st') := call_step W c st in
  bucket_view W (max rule) lo hi c (st !! key) (st' !! key) (counted key lo hi c d).
Proof.
  destruct c as [cl m p now|now]; simpl.
  - destruct (check_bucket W cl m p now st) as [Hd Hst].
    destruct (check W cl m p now st) as [d st']. simpl in *. subst st'.
    destruct (decide (bucket_key cl (ruleFor m p) = key)) as [E|E].
    + pose proof (bucket_key_inj _ _ _ _ (rule_in_table m p) Hrule E) as [-> Hr].
      rewrite Hr in *. rewrite bool_decide_eq_true_2 by done. rewrite Hd.
      apply View_hit; [done|]. simpl. by rewrite lookup_insert_eq.
    + rewrite bool_decide_eq_false_2 by done.
      apply View_other; [done|]. by apply lookup_insert_ne.
  - rewrite prune_lookup. destruct (st !! key) as [b|]; [|by apply View_other].
    case_decide as Ho; [by apply View_other|].
    eapply View_swept; [done| |done|done]. unfold open_window in Ho. simpl. lia.
Qed.

(** Takes the first call of an [admitted] goal apart, by its [bucket_view]. *)
Ltac first_call lo hi c st :=
  let Hview := fresh "Hview" in
  cbn [admitted]; pose proof (call_view lo hi c st) as Hview;
  destruct (call_step W c st) as [d st'];
  destruct Hview as [Hn Ho|Hn Ho|b'' Hb'' Hexp Hn Ho]; rewrite Hn.

Lemma admitted_past (cs : list rl_call) (t lo hi : Z) (st : gmap string Counter) :
  chronological t cs -> hi <= t -> admitted W key lo hi cs st = 0.
Proof.
  revert t st. induction cs as [|c cs IH]; intros t st; [done|].
  intros [Ht Hc] Hhi. cbn [admitted].
  pose proof (call_view lo hi c st) as Hview.
  destruct (call_step W c st) as [d st'].
  rewrite (IH (call_time c) st') by (done || lia).
  destruct Hview as [Hn _|Hn _|b _ _ Hn _]; rewrite Hn; [|lia|lia].
  destruct (Z.ltb_spec (call_time c) hi); [lia|]. by rewrite andb_false_r.
Qed.

(** A window that opened inside the interval admits what is left of its quota. *)
Lemma admitted_same_window (cs : list rl_call) (t lo : Z) (st : gmap string Counter) (b : Counter) :
  chronological t cs -> st !! key = Some b -> lo <= windowStart b ->
  admitted W key lo (lo + W) cs st <= Z.max 0 (max rule - count b).
Proof.
  revert t st b. induction cs as [|c cs IH]; intros t st b; [simpl; lia|].
  intros [Ht Hc] Hb Hlo. first_call lo (lo + W) c st.
  - rewrite Hb in *. simpl in *.
    destruct (Z.leb_spec W (call_time c - windowStart b)) as [Hx|Hx]; simpl in *.
    + rewrite (admitted_past cs (call_time c)) by (done || lia).
      destruct (Z.ltb_spec (call_time c) (lo + W)); [lia|].
      rewrite andb_false_r. simpl. lia.
    + pose proof (IH _ _ _ Hc Ho Hlo) as IH'. simpl in IH'.
      destruct (Z.leb_spec (count b + 1) (max rule)); repeat case_match; simpl in *; lia.
  - rewrite Hb in Ho. pose proof (IH _ _ _ Hc Ho Hlo). lia.
  - simplify_eq. rewrite (admitted_past cs (call_time c)) by (done || lia). lia.
Qed.

Lemma admitted_none (cs : list rl_call) (t lo : Z) (st : gmap string Counter) :
  chronological t cs -> st !! key = None -> lo <= t ->
  admitted W key lo (lo + W) cs st <= max rule.
Proof.
  pose proof (rule_max_pos rule Hrule) as Hpos.
  revert t st. induction cs as [|c cs IH]; intros t st; [simpl; lia|].
  intros [Ht Hc] Hb Hlo. first_call lo (lo + W) c st.
  - rewrite Hb in *. simpl in *.
    pose proof (admitted_same_window cs _ lo _ _ Hc Ho) as IH'. simpl in IH'.
    case_match; lia.
  - rewrite Hb in Ho. pose proof (IH _ _ Hc Ho). lia.
  - congruence.
Qed.

Lemma admitted_after (cs : list rl_call) (t lo : Z) (st : gmap string Counter) (b : Counter) :
  chronological t cs -> st !! key = Some b -> lo <= t ->
  admitted W key lo (lo + W) cs st <= Z.max 0 (max rule - count b) + max rule.
Proof.
  pose proof (rule_max_pos rule Hrule) as Hpos.
  revert t st b. induction cs as [|c cs IH]; intros t st b; [simpl; lia|].
  intros [Ht Hc] Hb Hlo. first_call lo (lo + W) c st.
  - rewrite Hb in *. simpl in *.
    destruct (Z.leb_spec W (call_time c - windowStart b)) as [Hx|Hx]; simpl in *.
    + pose proof (admitted_same_window cs _ lo _ _ Hc Ho) as IH'. simpl in IH'.
      case_match; lia.
    + pose proof (IH _ _ _ Hc Ho) as IH'. simpl in IH'.
      destruct (Z.leb_spec (count b + 1) (max rule)); repeat case_match; simpl in *; lia.
  - rewrite Hb in Ho. pose proof (IH _ _ _ Hc Ho). lia.
  - pose proof (admitted_none cs _ lo _ Hc Ho). lia.
Qed.

(** Every counter of the bucket has counted at least the request that made it. *)
Definition counter_ok (o : option Counter) : Prop :=
  match o with Some c => 1 <= count c | None => True end.

Lemma bucket_ok (mx now : Z) (o : option Counter) :
  counter_ok o -> counter_ok (Some (bucket W mx now o).2).
Proof. unfold bucket. destruct o as [c|]; simpl; [|lia]. case_match; simpl; lia. Qed.

Lemma admitted_bound (cs : list rl_call) (t lo : Z) (st : gmap string Counter) :
  chronological t cs -> counter_ok (st !! key) ->
  admitted W key lo (lo + W) cs st <= 2 * max rule - 1.
Proof.
  pose proof (rule_max_pos rule Hrule) as Hpos.
  revert t st. induction cs as [|c cs IH]; intros t st; [simpl; lia|].
  intros Hch Hok. destruct (Z_lt_le_dec (call_time c) lo) as [Hlt|Hge].
  - destruct Hch as [Ht Hc]. first_call lo (lo + W) c st.
    + destruct (Z.leb_spec lo (call_time c)); [lia|]. simpl.
      apply (IH _ _ Hc). rewrite Ho. by apply bucket_ok.
    + pose proof (IH _ st' Hc) as IH'. rewrite Ho in IH'. specialize (IH' Hok). lia.
    + pose proof (IH _ st' Hc) as IH'. rewrite Ho in IH'. specialize (IH' I). lia.
  - assert (chronological (call_time c) (c :: cs)) as Hch'
      by (destruct Hch; by split).
    destruct (st !! key) as [b|] eqn:Hb.
    + pose proof (admitted_after _ _ lo _ _ Hch' Hb Hge). simpl in Hok. lia.
    + pose proof (admitted_none _ _ lo _ Hch' Hb Hge). lia.
Qed.
End Window.

(** ** The sweep changes no decision *)

(** The state of a limiter that has swept, beside one that has not: the only
    counters missing are those whose window is over at time [t]. *)
Definition swept (W t : Z) (st st0 : gmap string Counter) : Prop :=
  forall key, st !! key = st0 !! key \/
    (st !! key = None /\ exists c, st0 !! key = Some c /\ W <= t - windowStart c).

Definition is_check (c : rl_call) : bool :=
  match c with CCheck _ _ _ _ => true | CPrune _ => false end.

Definition checks_only (cs : list rl_call) : list rl_call :=
  List.filter is_check cs.

Lemma swept_later (W t t' : Z) (st st0 : gmap string Counter) :
  swept W t st st0 -> t <= t' -> swept W t' st st0.
Proof.
  intros H Hle key. destruct (H key) as [|(Hn & c & Hc & Ht)]; [by left|].
  right. split; [done|]. exists c. split; [done|lia].
Qed.

Lemma swept_prune (W t : Z) (st st0 : gmap string Counter) :
  swept W t st st0 -> swept W t (prune W t st) st0.
Proof.
  intros H key. rewrite prune_lookup.
  destruct (H key) as [->|(-> & Hc)]; [|by right].
  destruct (st0 !! key) as [c|]; [|by left].
  case_decide as Ho; [by left|]. right. split; [done|].
  exists c. split; [done|]. unfold open_window in Ho. lia.
Qed.

Lemma swept_check (W t : Z) (client m p : string) (st st0 : gmap string Counter) :
  swept W t st st0 ->
  (check W client m p t st).1 = (check W client m p t st0).1 /\
  swept W t (check W client m p t st).2 (check W client m p t st0).2.
Proof.
  intros H. set (key := bucket_key client (ruleFor m p)).
  assert (forall c, swept W t (<[key := c]> st) (<[key := c]> st0)) as Hins.
  { intros c k. destruct (decide (k = key)) as [->|Hk]; [left; by rewrite !lookup_insert_eq|].
    rewrite !lookup_insert_ne by done. apply H. }
  unfold check. fold key. destruct (H key) as [->|(-> & c & -> & Ht)].
  - repeat case_match; simpl; split; first [done|apply Hins].
  - destruct (Z.leb_spec W (t - windowStart c)); [|lia]. simpl. split; [done|apply Hins].
Qed.

Lemma calls_swept (W t : Z) (cs : list rl_call) (st st0 : gmap string Counter) :
  swept W t st st0 -> chronological t cs ->
  omap (fun d => d) (calls W cs st) = omap (fun d => d) (calls W (checks_only cs) st0).
Proof.
  revert t st st0. induction cs as [|c cs IH]; intros t st st0 H; [done|].
  intros [Ht Hc]. apply (swept_later _ _ _ _ _ H) in Ht as H'.
  destruct c as [cl m p now|now]; simpl in *.
  - destruct (swept_check W now cl m p st st0 H') as [Hd Hs].
    destruct (check W cl m p now st) as [d st'], (check W cl m p now st0) as [d0 st0'].
    simpl in *. subst. f_equal. by apply (IH now).
  - apply (IH now); [by apply swept_prune|done].
Qed.

(** ** Bursts *)

Fixpoint burst (W : Z) (client m p : string) (nows : list Z) (st : gmap string Counter) :
  list bool :=
  match nows with
  | [] => []
  | now :: nows' =>
      let '(d, st') := check W client m p now st in
      allowed d :: burst W client m p nows' st'
  end.

Lemma burst_in_window (W : Z) (client m p : string) (nows : list Z)
    (st : gmap string Counter) (c : Counter) :
  st !! bucket_key client (ruleFor m p) = Some c ->
  Forall (fun now => now < windowStart c + W) nows ->
  burst W client m p nows st =
  map (fun k => count c + Z.of_nat k <=? max (ruleFor m p)) (seq 1 (length nows)).
Proof.
  revert st c. induction nows as [|now nows IH]; intros st c Hc Hall; [done|].
  apply Forall_cons in Hall as [Hnow Hall]. cbn [burst].
  destruct (check_bucket W client m p now st) as [Hd Hst].
  rewrite Hc in Hd, Hst. unfold bucket in *.
  destruct (Z.leb_spec W (now - windowStart c)); [lia|]. simpl in *.
  destruct (check W client m p now st) as [d st']. simpl in *. subst st'. rewrite Hd.
  f_equal. rewrite <- (List.seq_shift _ 1), List.map_map.
  rewrite (IH _ (mkCounter (windowStart c) (count c + 1))).
  - apply List.map_ext. intros k. simpl. f_equal. lia.
  - by rewrite lookup_insert_eq.
  - done.
Qed.

(** ** Properties *)

(** C7: in any chronological sequence of requests and sweeps, started on an
    empty limiter, the requests of one client under one rule that get through
    in any interval as long as the window number at most twice the rule's
    limit, less one: the "up to 2x the limit" the source's comment concedes. *)
Theorem window_quota (W : Z) (client m pathname : string) (cs : list rl_call) (t lo : Z)
    (Hcs : chronological t cs) :
  admitted W (bucket_key client (ruleFor m pathname)) lo (lo + W) cs ∅
  <= 2 * max (ruleFor m pathname) - 1.
Proof. eapply admitted_bound; [apply rule_in_table|done|by rewrite lookup_empty]. Qed.

Definition login_calls : list rl_call :=
  map (CCheck "203.0.113.7" "POST" "/api/auth/login")
    [0; 59000; 59000; 59000; 59000; 59000; 60000; 60000; 60000; 60000; 60000; 60000].

(** The bound is reached: nine logins pass in the minute that starts at 59s. *)
Lemma window_quota_witness :
  admitted WINDOW_MS (bucket_key "203.0.113.7" (ruleFor "POST" "/api/auth/login"))
    59000 (59000 + WINDOW_MS) login_calls ∅ = 9 /\
  admitted WINDOW_MS (bucket_key "203.0.113.7" (ruleFor "POST" "/api/auth/login"))
    59000 (59000 + WINDOW_MS) login_calls ∅ <= 2 * 5 - 1.
Proof.
  split; [by vm_compute|].
  apply (window_quota WINDOW_MS "203.0.113.7" "POST" "/api/auth/login" login_calls 0 59000).
  simpl. repeat split; lia.
Defined.

(** A client that has no open window gets exactly the rule's limit of
    requests through while the window that its first request opens lasts: the
    request number [k] is allowed if and only if [k <= max]. *)
Theorem burst_exact (W : Z) (client m pathname : string) (st : gmap string Counter)
    (t : Z) (later : list Z)
    (Hfresh : forall c, st !! bucket_key client (ruleFor m pathname) = Some c ->
              W <= t - windowStart c)
    (Hlater : Forall (fun now => now < t + W) later) :
  burst W client m pathname (t :: later) st =
  map (fun k => Z.of_nat k <=? max (ruleFor m pathname)) (seq 1 (S (length later))).
Proof.
  cbn [burst]. destruct (check_bucket W client m pathname t st) as [Hd Hst].
  assert (bucket W (max (ruleFor m pathname)) t
            (st !! bucket_key client (ruleFor m pathname)) = (true, mkCounter t 1)) as E.
  { destruct (st !! _) as [c|] eqn:Ec; [|done]. simpl. specialize (Hfresh c eq_refl).
    by destruct (Z.leb_spec W (t - windowStart c)); [|lia]. }
  rewrite E in Hd, Hst. destruct (check W client m pathname t st) as [d st'].
  simpl in Hd, Hst. subst st'. rewrite Hd.
  pose proof (rule_max_pos _ (rule_in_table m pathname)) as Hpos.
  cbn [seq List.map]. f_equal; [by destruct (Z.leb_spec (Z.of_nat 1) (max (ruleFor m pathname))); [|lia]|].
  rewrite <- (List.seq_shift _ 1), List.map_map.
  rewrite (burst_in_window _ _ _ _ _ _ (mkCounter t 1)).
  - apply List.map_ext. intros k. f_equal. simpl. lia.
  - by rewrite lookup_insert_eq.
  - done.
Qed.

Lemma burst_exact_witness :
  burst WINDOW_MS "203.0.113.7" "POST" "/api/auth/login" [1000; 1000; 1000; 1000; 1000; 1000] ∅ =
  [true; true; true; true; true; false].
Proof.
  apply (burst_exact WINDOW_MS "203.0.113.7" "POST" "/api/auth/login" ∅ 1000
           [1000; 1000; 1000; 1000; 1000]).
  - intros c Hc. by rewrite lookup_empty in Hc.
  - by repeat constructor.
Defined.

(** C8: sweeping is invisible: whatever [prune] calls are interleaved with the
    requests, as long as the clock does not go back, every request gets the
    decision it would have got from a limiter that never forgets. *)
Theorem prune_invisible (W t : Z) (cs : list rl_call) (Hcs : chronological t cs) :
  omap (fun d => d) (calls W cs ∅) = omap (fun d => d) (calls W (checks_only cs) ∅).
Proof. apply (calls_swept W t); [by left|done]. Qed.

Lemma prune_invisible_witness :
  let cs := [CCheck "a" "POST" "/api/auth/login" 5; CPrune 60004; CPrune 60005;
             CCheck "a" "POST" "/api/auth/login" 60006] in
  omap (fun d => d) (calls WINDOW_MS cs ∅) =
  omap (fun d => d) (calls WINDOW_MS (checks_only cs) ∅).
Proof. apply (prune_invisible WINDOW_MS 0). simpl. repeat split; lia. Defined.

(** The counters after some calls. *)
Definition counters_after (W : Z) (cs : list rl_call) (st : gmap string Counter) : gmap string Counter :=
  fold_left (fun st c => (call_step W c st).2) cs st.

(** The bucket of a request later than [lo]. *)
Definition recent_key (lo : Z) (c : rl_call) : option string :=
  match c with
  | CCheck client m p now => if lo <? now then Some (bucket_key client (ruleFor m p)) else None
  | CPrune _ => None
  end.

(** Every counter began with a request of its bucket. *)
Definition begun_by (cs : list rl_call) (st : gmap string Counter) : Prop :=
  forall key c, st !! key = Some c -> forall lo, lo < windowStart c -> key ∈ omap (recent_key lo) cs.

Lemma begun_step (W : Z) (cs : list rl_call) (c : rl_call) (st : gmap string Counter) :
  begun_by cs st -> begun_by (cs ++ [c]) (call_step W c st).2.
Proof.
  intros Hb key b Hkey lo Hlo. rewrite omap_app, elem_of_app. destruct c as [cl m p now|now]; simpl in *.
  - destruct (check_bucket W cl m p now st) as [_ Hst]. destruct (check W cl m p now st) as [d st'].
    simpl in *. subst st'. set (k := bucket_key cl (ruleFor m p)) in *.
    destruct (decide (key = k)) as [->|Hne]; [|rewrite lookup_insert_ne in Hkey by done; left; by apply (Hb key b)].
    rewrite lookup_insert_eq in Hkey. injection Hkey as <-. unfold bucket in Hlo.
    destruct (st !! k) as [b'|] eqn:Eb; [destruct (Z.leb_spec W (now - windowStart b'))|]; simpl in Hlo;
      [|left; by apply (Hb k b')|]; right; rewrite (proj2 (Z.ltb_lt _ _) Hlo); by left.
  - left. rewrite prune_lookup in Hkey. destruct (st !! key) as [b'|] eqn:Eb; [|done].
    case_decide; [|done]. injection Hkey as <-. by apply (Hb key b').
Qed.

Lemma begun_after (W : Z) (cs : list rl_call) : begun_by cs (counters_after W cs ∅).
Proof.
  induction cs as [|c cs IH] using rev_ind; [by intros key c E; cbn in E; rewrite lookup_empty in E|].
  unfold counters_after. rewrite fold_left_app. by apply begun_step.
Qed.

Lemma recent_step (W p : Z) (c : rl_call) (st : gmap string Counter) : p - W < call_time c ->
  (forall key b, st !! key = Some b -> p - W < windowStart b) ->
  forall key b, (call_step W c st).2 !! key = Some b -> p - W < windowStart b.
Proof.
  intros Ht Hst key b. destruct c as [cl m q now|now]; simpl in *.
  - destruct (check_bucket W cl m q now st) as [_ E]. destruct (check W cl m q now st) as [d st']. simpl in *.
    subst st'. rewrite lookup_insert_Some. intros [[_ <-]|[_ Hb]]; [|by apply (Hst key)]. unfold bucket.
    destruct (st !! _) as [b'|] eqn:Eb; [destruct (Z.leb_spec W (now - windowStart b'))|]; simpl; [done| |done].
    by apply (Hst _ b' Eb).
  - rewrite prune_lookup. destruct (st !! key) as [b'|] eqn:Eb; [|done]. case_decide; [|done].
    intros [= <-]. by apply (Hst key).
Qed.

Lemma recent_after (W p : Z) (cs : list rl_call) (t : Z) (st : gmap string Counter) : 0 < W -> p <= t ->
  chronological t cs -> (forall key b, st !! key = Some b -> p - W < windowStart b) ->
  forall key b, counters_after W cs st !! key = Some b -> p - W < windowStart b.
Proof.
  intros HW. revert t st. induction cs as [|c cs IH]; intros t st Ht Hc Hst; [done|].
  destruct Hc as [Hct Hc]. apply (IH (call_time c)); [lia|done|]. apply recent_step; [lia|done].
Qed.

Lemma size_list_to_set_le (l : list string) : (size (list_to_set l : gset string) <= length l)%nat.
Proof.
  induction l as [|x l IH]; [done|]. rewrite list_to_set_cons, size_union_alt, size_singleton. cbn [length].
  apply le_n_S. transitivity (size (list_to_set l : gset string)); [|done]. apply subseteq_size. set_solver.
Qed.

(** What the limiter remembers is bounded by recent traffic: after a sweep at [p] it never
    holds more counters than there have been requests since a window before [p], however
    many clients it has seen before. *)
Theorem memory_bounded (W p t : Z) (pre post : list rl_call) :
  0 < W -> chronological t (pre ++ CPrune p :: post) ->
  (size (counters_after W (pre ++ CPrune p :: post) ∅) <= length (omap (recent_key (p - W)) (pre ++ CPrune p :: post)))%nat.
Proof.
  intros HW Hc. set (cs := pre ++ CPrune p :: post) in *.
  assert (forall key b, counters_after W cs ∅ !! key = Some b -> p - W < windowStart b) as Hrecent.
  { unfold cs, counters_after. rewrite fold_left_app. simpl.
    apply (recent_after W p post p); [done|lia| |].
    - subst cs. revert t Hc. induction pre as [|c pre IH]; intros t; simpl; [by intros [_ Hc]|intros [_ Hc]; by apply (IH (call_time c))].
    - intros key b. rewrite prune_lookup. destruct (_ !! key) as [b'|]; [|done]. case_decide as Ho; [|done].
      intros [= <-]. unfold open_window in Ho. lia. }
  rewrite <- size_dom. transitivity (size (list_to_set (omap (recent_key (p - W)) cs) : gset string)).
  - apply subseteq_size. intros key [b Hb]%elem_of_dom. apply elem_of_list_to_set.
    by apply (begun_after W cs key b Hb), Hrecent with key.
  - apply size_list_to_set_le.
Qed.

Lemma memory_bounded_witness :
  let cs := [CCheck "a" "GET" "/x" 5; CCheck "b" "GET" "/x" 10; CPrune 60010; CCheck "c" "GET" "/x" 60020] in
  (size (counters_after WINDOW_MS cs ∅) <= 1)%nat.
Proof.
  apply (memory_bounded WINDOW_MS 60010 0 [CCheck "a" "GET" "/x" 5; CCheck "b" "GET" "/x" 10]
    [CCheck "c" "GET" "/x" 60020]); [unfold WINDOW_MS; lia|simpl; repeat split; lia].
Defined.

(** A refused request is told to wait a positive number of seconds, no
    longer than the window needs to run out to the next full second, and a
    request of the same bucket made after that wait is let through. *)
Theorem retry_after_sound (W : Z) (client m pathname : string) (now now' : Z)
    (st : gmap string Counter)
    (Hdenied : allowed (check W client m pathname now st).1 = false)
    (Hwait : now + 1000 * retryAfterSeconds (check W client m pathname now st).1 <= now') :
  0 < retryAfterSeconds (check W client m pathname now st).1 /\
  (exists c, st !! bucket_key client (ruleFor m pathname) = Some c /\
     1000 * retryAfterSeconds (check W client m pathname now st).1
     < windowStart c + W - now + 1000) /\
  allowed (check W client m pathname now' (check W client m pathname now st).2).1 = true.
Proof.
  revert Hdenied Hwait. unfold check at 1 2 3 4.
  destruct (st !! _) as [c|] eqn:Ec; [|done].
  destruct (Z.leb_spec W (now - windowStart c)) as [|Hopen]; [done|].
  simpl. intros -> Hwait. simpl in *. unfold ceil_seconds in *.
  pose proof (Z.div_mod (- (W - (now - windowStart c))) 1000 ltac:(lia)) as Hdiv.
  pose proof (Z.mod_pos_bound (- (W - (now - windowStart c))) 1000 ltac:(lia)) as Hmod.
  split; [lia|]. split; [exists c; split; [done|lia]|].
  unfold check. rewrite Ec.
  destruct (Z.leb_spec W (now - windowStart c)); [lia|].
  simpl. rewrite lookup_insert_eq. simpl.
  destruct (Z.leb_spec W (now' - windowStart c)); [done|lia].
Qed.

Lemma retry_after_sound_witness :
  let st := {[ "a|auth-login" := mkCounter 1000 5 ]} in
  let d := (check WINDOW_MS "a" "POST" "/api/auth/login" 11000 st).1 in
  0 < retryAfterSeconds d /\ retryAfterSeconds d = 50.
Proof.
  split; [|by vm_compute].
  apply (retry_after_sound WINDOW_MS "a" "POST" "/api/auth/login" 11000 61000
           {[ "a|auth-login" := mkCounter 1000 5 ]}); by vm_compute.
Defined.

(** The rule for account actions governs exactly the POSTs to
    [/api/accounts/<id>/preview] and [/api/accounts/<id>/sync] for a one-segment
    id, so all of a client's mailboxes share one budget. *)
Theorem account_actions_rule (m pathname : string) :
  id (ruleFor m pathname) = "account-actions" <->
  m = "POST" /\ exists acc action,
    pathname = "/api/accounts/" +:+ acc +:+ "/" +:+ action /\
    acc <> "" /\ occurs "/"%char acc = false /\ (action = "preview" \/ action = "sync").
Proof.
  assert (matches (pattern (mkRule "account-actions" (Some "POST")
      (RSeq (lit "/api/accounts/")
         (RSeq segment (RSeq (lit "/") (RAlt (lit "preview") (lit "sync"))))) 10)) pathname = true
    <-> exists acc action, pathname = "/api/accounts/" +:+ acc +:+ "/" +:+ action /\
    acc <> "" /\ occurs "/"%char acc = false /\ (action = "preview" \/ action = "sync")) as Hpat.
  { rewrite matches_iff. cbn [pattern]. rewrite seq_lit_iff. split.
    - intros (t & -> & (acc & u & -> & Hacc & Hu)%seq_iff).
      apply plus_not_char_iff in Hacc as [Hne Hocc].
      apply seq_lit_iff in Hu as (act & -> & Hact). exists acc, act.
      split; [done|]. split; [done|]. split; [done|].
      by apply alt_iff in Hact as [->%lit_iff| ->%lit_iff]; [left|right].
    - intros (acc & act & -> & Hne & Hocc & Hact). eexists. split; [done|].
      apply seq_iff. exists acc, ("/" +:+ act). split; [done|].
      split; [by apply plus_not_char_iff|]. apply seq_lit_iff. exists act. split; [done|].
      apply alt_iff. rewrite !lit_iff. done. }
  assert (forall s, matches (lit s) pathname = true -> pathname = s) as Hlit
    by (intros s Hs; by apply matches_iff, lit_iff in Hs).
  unfold ruleFor, RULES, rule_applies. cbn [List.find method pattern].
  rewrite <- Hpat. cbn [pattern].
  destruct (decide (m = "POST")) as [->|Hm].
  - rewrite !bool_decide_eq_true_2 by done. cbn [andb].
    destruct (matches (lit "/api/auth/login") _) eqn:E1; [apply Hlit in E1 as ->; by vm_compute; intuition|].
    destruct (matches (lit "/api/auth/register") _) eqn:E2; [apply Hlit in E2 as ->; by vm_compute; intuition|].
    destruct (matches (lit "/api/auth/refresh") _) eqn:E3; [apply Hlit in E3 as ->; by vm_compute; intuition|].
    destruct (matches _ pathname); simpl; intuition congruence.
  - rewrite !(bool_decide_eq_false_2 ("POST" = m)) by congruence. cbn [andb].
    destruct (bool_decide _ && _); simpl; intuition congruence.
Qed.

End Limiter.
