(* ===== verification/Dates.v ===== *)
(** * Dates

    The part of JavaScript's [Date] the services use: the UTC year, month and
    day of a time value and [toISOString], on the proleptic Gregorian calendar.
    Times are integer milliseconds since the epoch. *)

From S2P Require Import Prelude Js.

Local Open Scope Z_scope.

Definition MS_PER_DAY : Z := 86400000.

(** Days since 0000-03-01 that start an era of 400 years, and what is left. *)
Definition shifted_day (t : Z) : Z := t / MS_PER_DAY + 719468.

Definition day_of_era (t : Z) : Z := shifted_day t mod 146097.

Definition year_of_era (doe : Z) : Z :=
  (doe - doe / 1460 + doe / 36524 - doe / 146096) / 365.

Definition day_of_year (doe : Z) : Z :=
  let yoe := year_of_era doe in doe - (365 * yoe + yoe / 4 - yoe / 100).

(** Month counted from March. *)
Definition month_shifted (doe : Z) : Z := (5 * day_of_year doe + 2) / 153.

(** [getUTCMonth() + 1] *)
Definition utc_month (t : Z) : Z :=
  let mp := month_shifted (day_of_era t) in if mp <? 10 then mp + 3 else mp - 9.

(** [getUTCFullYear()] *)
Definition utc_year (t : Z) : Z :=
  year_of_era (day_of_era t) + (shifted_day t / 146097) * 400 +
  (if utc_month t <=? 2 then 1 else 0).

(** [getUTCDate()] *)
Definition utc_day (t : Z) : Z :=
  let doe := day_of_era t in day_of_year doe - (153 * month_shifted doe + 2) / 5 + 1.

(** ECMAScript's [DayFromYear]. *)
Definition day_from_year (y : Z) : Z :=
  365 * (y - 1970) + (y - 1969) / 4 - (y - 1901) / 100 + (y - 1601) / 400.

(** [s.padStart(n, '0')] *)
Definition pad_zeros (n : nat) (s : string) : string :=
  Nat.iter (n - String.length s) (String "0"%char) s.

(** The year of [toISOString]: four digits, or a sign and six. *)
Definition iso_year (y : Z) : string :=
  if (0 <=? y) && (y <=? 9999) then pad_zeros 4 (string_of_Z y)
  else (if y <? 0 then "-" else "+") +:+ pad_zeros 6 (string_of_Z (Z.abs y)).

Definition pad2 (n : Z) : string := pad_zeros 2 (string_of_Z n).

(** [new Date(t).toISOString()] *)
Definition toISOString (t : Z) : string :=
  let ms := t mod MS_PER_DAY in
  iso_year (utc_year t) +:+ "-" +:+ pad2 (utc_month t) +:+ "-" +:+ pad2 (utc_day t) +:+
  "T" +:+ pad2 (ms / 3600000) +:+ ":" +:+ pad2 (ms / 60000 mod 60) +:+ ":" +:+
  pad2 (ms / 1000 mod 60) +:+ "." +:+ pad_zeros 3 (string_of_Z (ms mod 1000)) +:+ "Z".

Example iso_epoch : toISOString 0 = "1970-01-01T00:00:00.000Z".
Proof. by vm_compute. Qed.

Example iso_leap : toISOString 1709210096789 = "2024-02-29T12:34:56.789Z".
Proof. by vm_compute. Qed.

Example iso_before : toISOString (-1) = "1969-12-31T23:59:59.999Z".
Proof. by vm_compute. Qed.

(** ** The calendar of one era, checked day by day *)

Definition era_year (doe : Z) : Z :=
  let mp := month_shifted doe in
  year_of_era doe + (if (if mp <? 10 then mp + 3 else mp - 9) <=? 2 then 1 else 0).

Lemma day_of_era_bound (t : Z) : 0 <= day_of_era t < 146097.
Proof. apply Z.mod_pos_bound. lia. Qed.

Lemma day_of_year_bound (doe : Z) : 0 <= doe < 146097 -> 0 <= day_of_year doe <= 365.
Proof.
  intros H. unfold day_of_year, year_of_era. Z.to_euclidean_division_equations. lia.
Qed.

Lemma year_of_era_bound (doe : Z) : 0 <= doe < 146097 -> 0 <= year_of_era doe <= 399.
Proof. intros H. unfold year_of_era. Z.to_euclidean_division_equations. lia. Qed.

Lemma era_year_spec (doe : Z) :
  0 <= doe < 146097 ->
  day_from_year (era_year doe) <= doe - 719468 < day_from_year (era_year doe + 1).
Proof.
  intros H. pose proof (day_of_year_bound doe H) as Hd. pose proof (year_of_era_bound doe H) as Hy.
  assert (doe = 365 * year_of_era doe + year_of_era doe / 4 - year_of_era doe / 100
          + day_of_year doe) as Hdoe by (unfold day_of_year; lia).
  assert (day_of_year doe = 365 -> (year_of_era doe + 1) / 4 - (year_of_era doe + 1) / 100
          + (year_of_era doe + 1) / 400 = year_of_era doe / 4 - year_of_era doe / 100 + 1) as Hleap.
  { unfold day_of_year, year_of_era. Z.to_euclidean_division_equations. lia. }
  unfold era_year, month_shifted. set (y := year_of_era doe) in *. set (d := day_of_year doe) in *.
  unfold day_from_year. clearbody y d. clear H.
  Z.to_euclidean_division_equations. repeat case_match; lia.
Qed.

Lemma day_from_year_era (y e : Z) :
  day_from_year (y + e * 400) = day_from_year y + e * 146097.
Proof.
  unfold day_from_year.
  replace (y + e * 400 - 1969) with (y - 1969 + (e * 100) * 4) by lia.
  replace (y + e * 400 - 1901) with (y - 1901 + (e * 4) * 100) by lia.
  replace (y + e * 400 - 1601) with (y - 1601 + e * 400) by lia.
  rewrite !Z.div_add by lia. lia.
Qed.

Lemma utc_year_era (t : Z) :
  utc_year t = era_year (day_of_era t) + (shifted_day t / 146097) * 400.
Proof. unfold utc_year, era_year, utc_month. lia. Qed.

(** The year of a time value is the one whose days enclose it. *)
Lemma utc_year_spec (t : Z) :
  day_from_year (utc_year t) <= t / MS_PER_DAY < day_from_year (utc_year t + 1).
Proof.
  pose proof (era_year_spec _ (day_of_era_bound t)) as Hera.
  rewrite utc_year_era.
  replace (era_year (day_of_era t) + shifted_day t / 146097 * 400 + 1)
    with (era_year (day_of_era t) + 1 + shifted_day t / 146097 * 400) by lia.
  rewrite !day_from_year_era.
  pose proof (Z.div_mod (shifted_day t) 146097 ltac:(lia)) as Hdm.
  fold (day_of_era t) in Hdm. unfold shifted_day in *. lia.
Qed.

Lemma utc_month_range (t : Z) : 1 <= utc_month t <= 12.
Proof.
  pose proof (day_of_year_bound _ (day_of_era_bound t)) as Hd.
  unfold utc_month, month_shifted. Z.to_euclidean_division_equations. case_match; lia.
Qed.
