(* ===== verification/Base64.v ===== *)
(** * base64url

    [Buffer.from(bytes).toString('base64url')] and [Buffer.from(s, 'base64url')]
    of Node: no padding is written; reading ends at the first [=], skips what else is
    not of the alphabet and takes the letters of plain base64 too. *)

From S2P Require Import Prelude Js.
From Stdlib Require Import ZifyNat.

#[local] Ltac Zify.zify_post_hook ::= Z.to_euclidean_division_equations.

(** The letter of six bits. *)
Definition letter (n : nat) : Ascii.ascii :=
  Ascii.ascii_of_nat
    (if Nat.ltb n 26 then 65 + n
     else if Nat.ltb n 52 then 71 + n
     else if Nat.ltb n 62 then n - 4
     else if Nat.eqb n 62 then 45 else 95).

Definition sextet (c : Ascii.ascii) : option nat :=
  let n := code c in
  if Nat.leb 65 n && Nat.leb n 90 then Some (n - 65)
  else if Nat.leb 97 n && Nat.leb n 122 then Some (n - 71)
  else if Nat.leb 48 n && Nat.leb n 57 then Some (n + 4)
  else if Nat.eqb n 45 || Nat.eqb n 43 then Some 62
  else if Nat.eqb n 95 || Nat.eqb n 47 then Some 63
  else None.

(** The sextets of the bytes of a string. *)
Fixpoint to_sextets (s : string) : list nat :=
  match s with
  | EmptyString => []
  | String a EmptyString => [code a / 4; (code a mod 4) * 16]
  | String a (String b EmptyString) =>
      [code a / 4; (code a mod 4) * 16 + code b / 16; (code b mod 16) * 4]
  | String a (String b (String c s')) =>
      code a / 4 :: (code a mod 4) * 16 + code b / 16
        :: (code b mod 16) * 4 + code c / 64 :: code c mod 64 :: to_sextets s'
  end.

Fixpoint of_sextets (l : list nat) : string :=
  match l with
  | [] | [_] => EmptyString
  | [x; y] => String (Ascii.ascii_of_nat (x * 4 + y / 16)) EmptyString
  | [x; y; z] =>
      String (Ascii.ascii_of_nat (x * 4 + y / 16))
        (String (Ascii.ascii_of_nat ((y mod 16) * 16 + z / 4)) EmptyString)
  | x :: y :: z :: t :: l' =>
      String (Ascii.ascii_of_nat (x * 4 + y / 16))
        (String (Ascii.ascii_of_nat ((y mod 16) * 16 + z / 4))
          (String (Ascii.ascii_of_nat ((z mod 4) * 64 + t)) (of_sextets l')))
  end.

Fixpoint letters (l : list nat) : string :=
  match l with [] => EmptyString | n :: l' => String (letter n) (letters l') end.

(** What is read of a text: its letters, up to the padding. *)
Fixpoint read_letters (s : string) : list nat :=
  match s with
  | EmptyString => []
  | String c s' =>
      if ascii_eqb c "="%char then []
      else match sextet c with Some n => n :: read_letters s' | None => read_letters s' end
  end.

Definition base64url (s : string) : string := letters (to_sextets s).

Definition from_base64url (s : string) : string := of_sextets (read_letters s).

(** ** Laws *)

Lemma code_bound (c : Ascii.ascii) : code c < 256.
Proof. apply Ascii.nat_ascii_bounded. Qed.

Lemma ascii_of_code (c : Ascii.ascii) : Ascii.ascii_of_nat (code c) = c.
Proof. apply Ascii.ascii_nat_embedding. Qed.

Lemma below_64 (P : nat -> Prop) : (Forall P (seq 0 64)) -> forall n, n < 64 -> P n.
Proof. intros Hall n Hn. rewrite Forall_forall in Hall. apply Hall, elem_of_seq. lia. Qed.

Lemma sextet_letter (n : nat) : n < 64 -> sextet (letter n) = Some n.
Proof. revert n. apply below_64. repeat constructor. Qed.

Lemma letter_plain (n : nat) :
  n < 64 -> ascii_eqb (letter n) "."%char = false.
Proof. revert n. apply below_64. repeat constructor. Qed.

Lemma letter_unpadded (n : nat) : n < 64 -> ascii_eqb (letter n) "="%char = false.
Proof. revert n. apply below_64. repeat constructor. Qed.

(** Induction three bytes at a time. *)
Lemma bytes_ind (P : string -> Prop) :
  P "" -> (forall a, P (String a "")) -> (forall a b, P (String a (String b ""))) ->
  (forall a b c s, P s -> P (String a (String b (String c s)))) -> forall s, P s.
Proof.
  intros H0 H1 H2 H3. fix IH 1. intros [|a [|b [|c s]]]; [done|apply H1|apply H2|apply H3, IH].
Qed.

Lemma to_sextets_bound (s : string) : Forall (fun n => n < 64) (to_sextets s).
Proof.
  induction s as [|a|a b|a b c s IH] using bytes_ind; cbn [to_sextets]; [constructor|..];
    pose proof (code_bound a); try pose proof (code_bound b); try pose proof (code_bound c);
    repeat (apply Forall_cons; split; [lia|]); auto.
Qed.

Lemma of_to_sextets (s : string) : of_sextets (to_sextets s) = s.
Proof.
  induction s as [|a|a b|a b c s IH] using bytes_ind; cbn [to_sextets of_sextets]; [done|..].
  - pose proof (code_bound a).
    replace (code a / 4 * 4 + code a mod 4 * 16 / 16) with (code a) by lia. by rewrite ascii_of_code.
  - pose proof (code_bound a). pose proof (code_bound b).
    replace (code a / 4 * 4 + (code a mod 4 * 16 + code b / 16) / 16) with (code a) by lia.
    replace ((code a mod 4 * 16 + code b / 16) mod 16 * 16 + code b mod 16 * 4 / 4) with (code b) by lia.
    by rewrite !ascii_of_code.
  - pose proof (code_bound a). pose proof (code_bound b). pose proof (code_bound c).
    replace (code a / 4 * 4 + (code a mod 4 * 16 + code b / 16) / 16) with (code a) by lia.
    replace ((code a mod 4 * 16 + code b / 16) mod 16 * 16 + (code b mod 16 * 4 + code c / 64) / 4)
      with (code b) by lia.
    replace ((code b mod 16 * 4 + code c / 64) mod 4 * 64 + code c mod 64) with (code c) by lia.
    by rewrite !ascii_of_code, IH.
Qed.

Lemma read_letters_letters (l : list nat) :
  Forall (fun n => n < 64) l -> read_letters (letters l) = l.
Proof.
  induction 1 as [|n l Hn Hl IH]; [done|]. simpl.
  by rewrite letter_unpadded, sextet_letter, IH.
Qed.

(** Reading undoes writing. *)
Lemma from_base64url_base64url (s : string) : from_base64url (base64url s) = s.
Proof.
  unfold from_base64url, base64url.
  by rewrite read_letters_letters, of_to_sextets by apply to_sextets_bound.
Qed.

Lemma base64url_no_dot (s : string) : occurs "."%char (base64url s) = false.
Proof.
  unfold base64url. induction (to_sextets_bound s) as [|n l Hn _ IH]; [done|]. simpl.
  by rewrite letter_plain.
Qed.

Lemma base64url_truthy (s : string) : truthy (base64url s) = truthy s.
Proof. by destruct s as [|a [|b [|c s]]]. Qed.
