(* ===== verification/Concurrency.v ===== *)
(** * Interleaving

    Several programs over one state, whose atomic steps interleave with each
    other and with steps of the environment (the clock, other requests, another
    replica).  [rg] is a small rely-guarantee logic for such programs, [wp] the same
    without a guarantee, and [pool_rg] its soundness; [yields] bounds what a program can
    still return; [pays] and [owns] account for what threads hold between their steps, and
    [lock] compares a program with itself in another world. *)

From S2P Require Import Prelude.
From stdpp Require Export relations.

Section Interleaving.
Context {S A : Type}.

(** One atomic step of a thread. *)
Definition tstep (p : prog S A) (s : S) : option (prog S A * S) :=
  match p with
  | Done _ => None
  | Atomic op k => let '(b, s') := op s in Some (k b, s')
  end.

Definition config : Type := list (prog S A) * S.

Inductive cstep (env : S -> S -> Prop) : config -> config -> Prop :=
| CThread i p p' ps s s' :
    ps !! i = Some p -> tstep p s = Some (p', s') ->
    cstep env (ps, s) (<[i := p']> ps, s')
| CEnv ps s s' : env s s' -> cstep env (ps, s) (ps, s').

(** [schedule order c] lets the threads of [order] take a step each, in this order. *)
Fixpoint schedule (order : list nat) (c : config) : config :=
  match order with
  | [] => c
  | i :: order' =>
      schedule order'
        (match c.1 !! i with
         | Some p => match tstep p c.2 with
                     | Some (p', s') => (<[i := p']> c.1, s')
                     | None => c
                     end
         | None => c
         end)
  end.

Lemma schedule_reachable (env : S -> S -> Prop) (order : list nat) (c : config) :
  rtc (cstep env) c (schedule order c).
Proof.
  revert c. induction order as [|i order IH]; intros [ps s]; simpl; [done|].
  destruct (ps !! i) as [p|] eqn:Hp; [|apply IH].
  destruct (tstep p s) as [[p' s']|] eqn:Hs; [|apply IH].
  eapply rtc_l; [by eapply CThread|apply IH].
Qed.

(** The next step of a thread that has one. *)
Lemma schedule_step (i : nat) (c : config) :
  match c.1 !! i with Some (Atomic _ _) => true | _ => false end = true ->
  exists p p' s', c.1 !! i = Some p /\ tstep p c.2 = Some (p', s') /\ schedule [i] c = (<[i := p']> c.1, s').
Proof.
  cbn [schedule]. destruct (c.1 !! i) as [[a|B op k]|]; [done| |done]. intros _. simpl.
  destruct (op c.2) as [b s'] eqn:E. exists (Atomic op k), (k b), s'. simpl. by rewrite E.
Qed.

Lemma cstep_length (env : S -> S -> Prop) (c c' : config) :
  cstep env c c' -> length c'.1 = length c.1.
Proof. inversion 1; subst; simpl; [apply length_insert|done]. Qed.

(** An invariant of the steps holds in every reachable configuration. *)
Lemma reachable_ind (env : S -> S -> Prop) (I : config -> Prop) (c c' : config) :
  I c -> (forall c1 c2, I c1 -> cstep env c1 c2 -> I c2) ->
  rtc (cstep env) c c' -> I c'.
Proof. intros Hc Hstep. induction 1; eauto. Qed.

(** A thread that runs alone computes [run]. *)
Lemma run_steps (p : prog S A) (s : S) :
  rtc (fun c c' => tstep c.1 c.2 = Some c') (p, s)
    (Done (run p s).1, (run p s).2).
Proof.
  revert s. induction p as [a|B op k IH]; intros s; [done|].
  change (run (Atomic op k) s) with (let '(b, s') := op s in run (k b) s').
  destruct (op s) as [b s'] eqn:E. eapply rtc_l; [simpl; by rewrite E|apply IH].
Qed.

Lemma run_cstep (env : S -> S -> Prop) (p : prog S A) (s : S) :
  rtc (cstep env) ([p], s) ([Done (run p s).1], (run p s).2).
Proof.
  apply (rtc_congruence (R := fun c c' => tstep c.1 c.2 = Some c') (fun c : prog S A * S => ([c.1], c.2))
    (cstep env) (p, s) (Done (run p s).1, (run p s).2)); [|apply run_steps].
  intros [q t] [q' t'] Ht. by apply (CThread env 0 q q' [q]).
Qed.

(** ** What a program can still return *)

Fixpoint yields (P : A -> Prop) (p : prog S A) : Prop :=
  match p with
  | Done a => P a
  | Atomic op k => forall b, yields P (k b)
  end.

Lemma yields_tstep (P : A -> Prop) (p p' : prog S A) (s s' : S) :
  yields P p -> tstep p s = Some (p', s') -> yields P p'.
Proof. destruct p as [a|B op k]; simpl; [done|]. intros H. destruct (op s); naive_solver. Qed.

Lemma yields_mono (P P' : A -> Prop) (p : prog S A) :
  (forall a, P a -> P' a) -> yields P p -> yields P' p.
Proof. intros HP. induction p as [a|B op k IH]; simpl; [apply HP|]. eauto. Qed.

(** ** What holds before and after every step of a program that runs alone *)

Fixpoint along (P : S -> Prop) (p : prog S A) (s : S) : Prop :=
  P s /\ match p with
         | Done _ => True
         | Atomic op k => along P (k (op s).1) (op s).2
         end.

Lemma along_reached (P : S -> Prop) (p p' : prog S A) (s s' : S) :
  along P p s -> rtc (fun c c' => tstep c.1 c.2 = Some c') (p, s) (p', s') -> P s'.
Proof.
  intros Hp Hrun.
  assert (forall c c' : prog S A * S, rtc (fun c c' => tstep c.1 c.2 = Some c') c c' ->
    along P c.1 c.2 -> along P c'.1 c'.2) as Hall.
  { induction 1 as [|[q t] [q' t'] c Ht _ IH]; [done|]. intros Hq. apply IH. simpl in *.
    destruct q as [a|B op k]; [done|]. destruct Hq as [_ Hq]. simpl in Ht. destruct (op t). by injection Ht as <- <-. }
  apply Hall in Hrun; [|done]. by destruct p', Hrun.
Qed.

(** ** What every step does *)

(** Every atomic step of [p], from whatever state it finds, is in [R]. *)
Fixpoint each_step (R : S -> S -> Prop) (p : prog S A) : Prop :=
  match p with
  | Done _ => True
  | Atomic op k => (forall s, R s (op s).2) /\ forall b, each_step R (k b)
  end.

Lemma each_step_tstep (R : S -> S -> Prop) (p p' : prog S A) (s s' : S) :
  each_step R p -> tstep p s = Some (p', s') -> R s s' /\ each_step R p'.
Proof.
  destruct p as [a|B op k]; simpl; [done|]. intros [HR Hk] E.
  specialize (HR s). destruct (op s) as [b t]. by simplify_eq/=.
Qed.

Lemma each_step_pool (R env : S -> S -> Prop) (c c' : config) :
  (forall s s', env s s' -> R s s') -> (forall p, p ∈ c.1 -> each_step R p) ->
  rtc (cstep env) c c' -> rtc R c.2 c'.2.
Proof.
  intros Henv Hall Hreach.
  apply (reachable_ind env
    (fun c' => rtc R c.2 c'.2 /\ forall p, p ∈ c'.1 -> each_step R p) c c'); [done| |done].
  intros c1 c2 [HR Hp] Hstep. inversion Hstep as [i p p' ps s s' Hi Ht|ps s s' He]; subst; simpl in *.
  - destruct (each_step_tstep R p p' s s') as [HRs Hp']; [|done|].
    { apply Hp. by eapply list_elem_of_lookup_2. }
    split; [by eapply rtc_r|]. intros q Hq.
    apply list_elem_of_lookup in Hq as [j Hj].
    destruct (decide (i = j)) as [->|Hij].
    + rewrite list_lookup_insert_eq in Hj by (by eapply lookup_lt_Some). by simplify_eq.
    + rewrite list_lookup_insert_ne in Hj by done. apply Hp. by eapply list_elem_of_lookup_2.
  - split; [|done]. eapply rtc_r; [done|by apply Henv].
Qed.

(** A program that runs alone does steps of [R]. *)
Lemma each_step_run (R : S -> S -> Prop) (p : prog S A) (s : S) :
  each_step R p -> rtc R s (run p s).2.
Proof.
  revert s. induction p as [a|B op k IH]; intros s Hp; [done|]. destruct Hp as [Hop Hk].
  change (run (Atomic op k) s) with (let '(b, s') := op s in run (k b) s').
  specialize (Hop s). destruct (op s) as [b s']. eapply rtc_l; [done|]. by apply IH.
Qed.

(** ** Potential

    [pays I Phi post c p]: in states that satisfy [I], a thread [p] holding [c]
    credits never adds to the potential [Phi] more than it gives up of its
    credits, and ends with a value and credits that satisfy [post]. *)
Fixpoint pays (I : S -> Prop) (Phi : S -> nat) (post : A -> nat -> Prop) (c : nat)
    (p : prog S A) : Prop :=
  match p with
  | Done a => post a c
  | Atomic op k =>
      forall s, I s -> I (op s).2 /\
        exists c', Phi (op s).2 + c' <= Phi s + c /\ pays I Phi post c' (k (op s).1)
  end.

Lemma pays_mono (I : S -> Prop) (Phi : S -> nat) (post post' : A -> nat -> Prop)
    (c : nat) (p : prog S A) :
  (forall a c', post a c' -> post' a c') -> pays I Phi post c p -> pays I Phi post' c p.
Proof.
  intros Hpost. revert c. induction p as [a|B op k IH]; simpl; intros c Hp; [auto|].
  intros s Hs. destruct (Hp s Hs) as (HI & c' & Hle & Hk). split; [done|].
  exists c'. split; [done|]. by apply IH.
Qed.

Lemma pays_pool (I : S -> Prop) (Phi : S -> nat) (post : A -> nat -> Prop)
    (env : S -> S -> Prop) (cs : list nat) (c c' : config) :
  (forall s s', env s s' -> I s -> I s' /\ Phi s' <= Phi s) ->
  I c.2 -> Forall2 (pays I Phi post) cs c.1 -> rtc (cstep env) c c' ->
  exists cs', I c'.2 /\ Forall2 (pays I Phi post) cs' c'.1 /\
    Phi c'.2 + sum_list cs' <= Phi c.2 + sum_list cs.
Proof.
  intros Henv HI Hcs Hreach.
  apply (reachable_ind env (fun c' => exists cs', I c'.2 /\
    Forall2 (pays I Phi post) cs' c'.1 /\
    Phi c'.2 + sum_list cs' <= Phi c.2 + sum_list cs) c c'); [by exists cs| |done].
  intros c1 c2 (ds & HI1 & Hds & Hle) Hstep.
  inversion Hstep as [i p p' ps s s' Hi Ht|ps s s' He]; subst; simpl in *.
  - destruct (Forall2_lookup_r _ _ _ _ _ Hds Hi) as (d & Hd & Hp).
    destruct p as [a|B op k]; simpl in Ht; [done|].
    destruct (Hp s HI1) as (HI2 & d' & Hd' & Hk).
    destruct (op s) as [b t]. simplify_eq/=.
    exists (<[i := d']> ds). split; [done|]. split; [by apply Forall2_insert|].
    pose proof (sum_list_insert ds i d d' Hd). lia.
  - destruct (Henv s s' He HI1). exists ds. split; [done|]. split; [done|lia].
Qed.

(** ** Rights

    [owns I post c p]: whatever the others hold, a thread [p] that holds the rights [c]
    keeps the invariant [I] of the state and of all the rights held, exchanging its own
    ones as it goes; it ends with a value and rights that satisfy [post]. *)
Section Rights.
Context {X : Type} (I : S -> list X -> Prop).

Fixpoint owns (post : A -> list X -> Prop) (c : list X) (p : prog S A) : Prop :=
  match p with
  | Done a => post a c
  | Atomic op k =>
      forall s frame, I s (c ++ frame) ->
        exists c', I (op s).2 (c' ++ frame) /\ owns post c' (k (op s).1)
  end.

Lemma owns_mono (post post' : A -> list X -> Prop) (c : list X) (p : prog S A) :
  (forall a c', post a c' -> post' a c') -> owns post c p -> owns post' c p.
Proof.
  intros Hpost. revert c. induction p as [a|B op k IH]; simpl; intros c Hp; [auto|].
  intros s frame Hs. destruct (Hp s frame Hs) as (c' & HI & Hk). exists c'. split; [done|by apply IH].
Qed.

(** A program whose steps keep the invariant whatever is held. *)
Lemma owns_idle (post : A -> list X -> Prop) (c : list X) (p : prog S A) :
  each_step (fun s s' => forall held, I s held -> I s' held) p -> (forall a, post a c) -> owns post c p.
Proof.
  intros Hp Hpost. induction p as [a|B op k IH]; simpl in *; [auto|]. destruct Hp as [Hop Hk].
  intros s frame Hs. exists c. split; [by apply Hop|auto].
Qed.

Lemma concat_frame (cs : list (list X)) (i : nat) (c : list X) :
  cs !! i = Some c -> exists frame, forall c', List.concat (<[i := c']> cs) ≡ₚ c' ++ frame.
Proof.
  revert i. induction cs as [|d cs IH]; intros [|i] Hi; try done; simpl in *.
  - exists (List.concat cs). done.
  - destruct (IH i Hi) as [frame Hf]. exists (d ++ frame). intros c'. rewrite (Hf c').
    by rewrite !app_assoc, (Permutation_app_comm d c').
Qed.

Lemma owns_pool (post : A -> list X -> Prop) (env : S -> S -> Prop) (cs : list (list X)) (c c' : config) :
  (forall s held held', held ≡ₚ held' -> I s held -> I s held') ->
  (forall s s' held, env s s' -> I s held -> I s' held) ->
  I c.2 (List.concat cs) -> Forall2 (owns post) cs c.1 -> rtc (cstep env) c c' ->
  exists cs', I c'.2 (List.concat cs') /\ Forall2 (owns post) cs' c'.1.
Proof.
  intros Hperm Henv HI Hcs Hreach.
  apply (reachable_ind env (fun c' => exists cs', I c'.2 (List.concat cs') /\ Forall2 (owns post) cs' c'.1) c c');
    [by exists cs| |done].
  intros c1 c2 (ds & HI1 & Hds) Hstep.
  inversion Hstep as [i p p' ps s s' Hi Ht|ps s s' He]; subst; simpl in *; [|by exists ds; eauto].
  destruct (Forall2_lookup_r _ _ _ _ _ Hds Hi) as (d & Hd & Hp).
  destruct (concat_frame ds i d Hd) as [frame Hf].
  destruct p as [a|B op k]; simpl in Ht; [done|].
  destruct (Hp s frame) as (d' & HI2 & Hk).
  { eapply Hperm; [apply (Hf d)|]. by rewrite list_insert_id. }
  destruct (op s) as [b t]. simplify_eq/=.
  exists (<[i := d']> ds). split; [by eapply Hperm; [symmetry; apply Hf|]|by apply Forall2_insert].
Qed.
End Rights.

(** ** Two worlds

    [lock R Q p q]: run step by step from states that [R] relates, the two programs stay
    in such states, and end together with values that [Q] relates. *)
Section Lockstep.
Context (R : S -> S -> Prop).

Fixpoint lock (Q : A -> A -> Prop) (p q : prog S A) : Prop :=
  match p, q with
  | Done a, Done b => Q a b
  | Atomic op k, Atomic op' k' =>
      forall s s', R s s' -> R (op s).2 (op' s').2 /\ lock Q (k (op s).1) (k' (op' s').1)
  | _, _ => False
  end.

Lemma lock_mono (Q Q' : A -> A -> Prop) (p q : prog S A) :
  (forall a b, Q a b -> Q' a b) -> lock Q p q -> lock Q' p q.
Proof.
  intros HQ. revert q. induction p as [a|B op k IH]; intros [b|C op' k']; simpl; try done; [apply HQ|].
  intros H s s' Hs. destruct (H s s' Hs). split; [done|by apply IH].
Qed.

Lemma lock_tstep (Q : A -> A -> Prop) (p q p' : prog S A) (s t s' : S) :
  lock Q p q -> R s t -> tstep p s = Some (p', s') ->
  exists q' t', tstep q t = Some (q', t') /\ lock Q p' q' /\ R s' t'.
Proof.
  destruct p as [a|B op k], q as [b|C op' k']; try done. simpl. intros H Hs E. specialize (H s t Hs).
  destruct (op s) as [b s1], (op' t) as [b' t1]. simplify_eq/=. destruct H. by exists (k' b'), t1.
Qed.

(** What a pool of threads can do from a state, it can do from a related one. *)
Lemma lock_pool (Q : A -> A -> Prop) (env : S -> S -> Prop) (c d c' : config) :
  (forall s t s', env s s' -> R s t -> exists t', env t t' /\ R s' t') ->
  Forall2 (lock Q) c.1 d.1 -> R c.2 d.2 -> rtc (cstep env) c c' ->
  exists d', rtc (cstep env) d d' /\ Forall2 (lock Q) c'.1 d'.1 /\ R c'.2 d'.2.
Proof.
  intros Henv Hl HR Hreach.
  apply (reachable_ind env (fun c' => exists d', rtc (cstep env) d d' /\ Forall2 (lock Q) c'.1 d'.1 /\ R c'.2 d'.2) c c');
    [by exists d| |done].
  intros c1 c2 ([qs t] & Hd & Hl1 & HR1) Hstep.
  inversion Hstep as [i p p' ps s s' Hi Ht|ps s s' He]; subst; simpl in *.
  - destruct (Forall2_lookup_l _ _ _ _ _ Hl1 Hi) as (q & Hq & Hpq).
    destruct (lock_tstep Q p q p' s t s' Hpq HR1 Ht) as (q' & t' & Hqt & Hpq' & HR').
    exists (<[i := q']> qs, t'). split; [eapply rtc_r; [exact Hd|by eapply CThread]|].
    split; [by apply Forall2_insert|done].
  - destruct (Henv s t s' He HR1) as (t' & He' & HR'). exists (qs, t').
    split; [eapply rtc_r; [exact Hd|by apply CEnv]|done].
Qed.
End Lockstep.

Lemma lock_flip (R : S -> S -> Prop) (Q : A -> A -> Prop) (p q : prog S A) :
  lock R Q p q -> lock (flip R) (flip Q) q p.
Proof.
  revert q. induction p as [a|B op k IH]; intros [b|C op' k']; simpl; try done.
  intros H s s' Hs. destruct (H s' s Hs). split; [done|by apply IH].
Qed.

(** ** Rely-guarantee *)

(** [rg R G p Q s]: from [s], whatever steps of [R] other threads interpose, every
    step of [p] is in [G] and amounts to steps of [R], and the value [p] returns
    satisfies [Q] from then on. *)
Fixpoint rg (R G : S -> S -> Prop) (p : prog S A) (Q : A -> S -> Prop) (s : S) : Prop :=
  match p with
  | Done a => forall s', rtc R s s' -> Q a s'
  | Atomic op k =>
      forall s', rtc R s s' ->
        (G s' (op s').2 /\ rtc R s' (op s').2) /\ rg R G (k (op s').1) Q (op s').2
  end.

Lemma rg_env (R G : S -> S -> Prop) (p : prog S A) (Q : A -> S -> Prop) (s s' : S) :
  rg R G p Q s -> rtc R s s' -> rg R G p Q s'.
Proof.
  destruct p as [a|B op k]; simpl; intros H Hs s'' Hs''; apply H; by transitivity s'.
Qed.

Lemma rg_mono (R G : S -> S -> Prop) (p : prog S A) (Q Q' : A -> S -> Prop) (s : S) :
  (forall a s', Q a s' -> Q' a s') -> rg R G p Q s -> rg R G p Q' s.
Proof.
  intros HQ. revert s. induction p as [a|B op k IH]; simpl; intros s H; [eauto|].
  intros s' Hs'. destruct (H s' Hs') as [HR Hw]. split; [done|]. by apply IH.
Qed.

Lemma rg_tstep (R G : S -> S -> Prop) (p p' : prog S A) (Q : A -> S -> Prop) (s s' : S) :
  rg R G p Q s -> tstep p s = Some (p', s') -> G s s' /\ rtc R s s' /\ rg R G p' Q s'.
Proof.
  destruct p as [a|B op k]; simpl; [done|]. intros H E.
  destruct (H s (rtc_refl _ _)) as [[HG HR] Hw]. destruct (op s) as [b s'']. by simplify_eq/=.
Qed.

(** Threads verified one by one stay verified together, each with its guarantee. *)
Lemma pool_rg (R env : S -> S -> Prop) (G : nat -> S -> S -> Prop) (Q : nat -> A -> S -> Prop)
    (c c' : config) :
  (forall s s', env s s' -> rtc R s s') ->
  (forall i p, c.1 !! i = Some p -> rg R (G i) p (Q i) c.2) ->
  rtc (cstep env) c c' ->
  rtc R c.2 c'.2 /\ forall i p, c'.1 !! i = Some p -> rg R (G i) p (Q i) c'.2.
Proof.
  intros Henv Hc Hreach.
  apply (reachable_ind env
    (fun c' => rtc R c.2 c'.2 /\ forall i p, c'.1 !! i = Some p -> rg R (G i) p (Q i) c'.2) c c');
    [by split| |done].
  intros c1 c2 [HR Hw] Hstep. inversion Hstep as [i p p' ps s s' Hp Ht|ps s s' He]; subst; simpl in *.
  - destruct (rg_tstep R (G i) p p' (Q i) s s' (Hw i p Hp) Ht) as (_ & HR' & Hw').
    split; [by transitivity s|]. intros j q Hq.
    destruct (decide (i = j)) as [->|Hij].
    + rewrite list_lookup_insert_eq in Hq by (by eapply lookup_lt_Some). by simplify_eq.
    + rewrite list_lookup_insert_ne in Hq by done. eapply rg_env; [by apply Hw|done].
  - apply Henv in He. split; [by transitivity s|]. intros j q Hq.
    eapply rg_env; [by apply Hw|done].
Qed.

(** One thread among steps of the environment. *)
Lemma alone_rg (R : S -> S -> Prop) (Q : A -> S -> Prop) (p : prog S A) (s : S) (c : config) (a : A) :
  rg R (fun _ _ => True) p Q s -> rtc (cstep R) ([p], s) c -> c.1 = [Done a] -> Q a c.2.
Proof.
  intros Hp Hreach Ha.
  destruct (pool_rg R R (fun _ _ _ => True) (fun _ => Q) ([p], s) c) as [_ Hw]; [apply rtc_once| |done|].
  - intros [|i] q Hq; [|done]. by injection Hq as <-.
  - specialize (Hw 0 (Done a)). rewrite Ha in Hw. by apply (Hw eq_refl).
Qed.
End Interleaving.

(** The judgement without a guarantee of its own. *)
Abbreviation wp R := (rg R (fun _ _ => True)).

Section Bind.
Context {S A B : Type}.

Lemma tstep_pbind (m m' : prog S A) (f : A -> prog S B) (s s' : S) :
  tstep m s = Some (m', s') -> tstep (pbind m f) s = Some (pbind m' f, s').
Proof.
  destruct m as [a|X op k]; simpl; [done|]. destruct (op s) as [b t]. by intros [= <- <-].
Qed.

Lemma yields_pbind (P : A -> Prop) (Q : B -> Prop) (m : prog S A) (f : A -> prog S B) :
  yields P m -> (forall a, P a -> yields Q (f a)) -> yields Q (pbind m f).
Proof. intros Hm Hf. induction m as [a|X op k IH]; simpl in *; eauto. Qed.

Lemma each_step_pbind (R : S -> S -> Prop) (m : prog S A) (f : A -> prog S B) :
  each_step R m -> (forall a, each_step R (f a)) -> each_step R (pbind m f).
Proof. intros Hm Hf. induction m as [a|X op k IH]; simpl in *; [auto|]. naive_solver. Qed.

Lemma pays_pbind (I : S -> Prop) (Phi : S -> nat) (post : B -> nat -> Prop) (c : nat)
    (m : prog S A) (f : A -> prog S B) :
  pays I Phi (fun a c' => pays I Phi post c' (f a)) c m -> pays I Phi post c (pbind m f).
Proof.
  revert c. induction m as [a|X op k IH]; simpl; intros c H; [done|].
  intros s Hs. destruct (H s Hs) as (HI & c' & Hle & Hk). split; [done|].
  exists c'. split; [done|]. by apply IH.
Qed.

Lemma owns_pbind {X} (I : S -> list X -> Prop) (post : B -> list X -> Prop) (c : list X)
    (m : prog S A) (f : A -> prog S B) :
  owns I (fun a c' => owns I post c' (f a)) c m -> owns I post c (pbind m f).
Proof.
  revert c. induction m as [a|Y op k IH]; simpl; intros c H; [done|].
  intros s frame Hs. destruct (H s frame Hs) as (c' & HI & Hk). exists c'. split; [done|by apply IH].
Qed.

Lemma lock_pbind (R : S -> S -> Prop) (Q : B -> B -> Prop) (m m' : prog S A) (f g : A -> prog S B) :
  lock R (fun a b => lock R Q (f a) (g b)) m m' -> lock R Q (pbind m f) (pbind m' g).
Proof.
  revert m'. induction m as [a|X op k IH]; intros [b|Y op' k']; simpl; try done.
  intros H s s' Hs. destruct (H s s' Hs). split; [done|by apply IH].
Qed.

Lemma rg_pbind (R G : S -> S -> Prop) (m : prog S A) (f : A -> prog S B)
    (Q : B -> S -> Prop) (s : S) :
  rg R G m (fun a s' => rg R G (f a) Q s') s -> rg R G (pbind m f) Q s.
Proof.
  revert s. induction m as [a|X op k IH]; simpl; intros s H; [by apply H|].
  intros s' Hs'. destruct (H s' Hs') as [HR Hw]. split; [done|]. by apply IH.
Qed.
End Bind.

Section IoSteps.
Context {S E : Type}.

Lemma each_step_bind {A B} (R : S -> S -> Prop) (m : io S E A) (f : A -> io S E B) :
  each_step R m -> (forall a, each_step R (f a)) -> each_step R (io_bind m f).
Proof. intros Hm Hf. apply each_step_pbind; [done|]. by intros [a|e]. Qed.

Lemma each_step_try {A} (R : S -> S -> Prop) (m : io S E A) (h : E -> io S E A) :
  each_step R m -> (forall e, each_step R (h e)) -> each_step R (try_catch m h).
Proof. intros Hm Hf. apply each_step_pbind; [done|]. by intros [a|e]. Qed.

Lemma along_perform {A} (P : S -> Prop) (op : S -> result E A * S) (s : S) :
  P s -> P (op s).2 -> along P (perform op) s.
Proof. by repeat split. Qed.

Lemma along_bind {A B} (P : S -> Prop) (m : io S E A) (f : A -> io S E B) (s : S) :
  along P m s -> (forall a s', run m s = (Ok a, s') -> along P (f a) s') -> along P (io_bind m f) s.
Proof.
  revert s. induction m as [[a|e]|X op k IH]; intros s Hm Hf.
  - by apply Hf.
  - exact Hm.
  - destruct Hm as [Hs Hm]. split; [done|]. apply IH; [done|]. intros a s' E'. apply Hf.
    change (run (Atomic op k) s) with (let '(b, s1) := op s in run (k b) s1). by destruct (op s).
Qed.

Lemma each_step_perform {A} (R : S -> S -> Prop) (op : S -> result E A * S) :
  (forall s, R s (op s).2) -> each_step R (perform op).
Proof. by split. Qed.

Lemma pays_bind {A B} (I : S -> Prop) (Phi : S -> nat) (post : result E B -> nat -> Prop)
    (c : nat) (m : io S E A) (f : A -> io S E B) :
  pays I Phi (fun r c' => match r with
                          | Ok a => pays I Phi post c' (f a)
                          | Err e => post (Err e) c'
                          end) c m ->
  pays I Phi post c (io_bind m f).
Proof. intros H. apply pays_pbind. eapply pays_mono; [|exact H]. by intros [a|e]. Qed.

Lemma owns_bind {A B X} (I : S -> list X -> Prop) (post : result E B -> list X -> Prop) (c : list X)
    (m : io S E A) (f : A -> io S E B) :
  owns I (fun r c' => match r with
                      | Ok a => owns I post c' (f a)
                      | Err e => post (Err e) c'
                      end) c m ->
  owns I post c (io_bind m f).
Proof. intros H. apply owns_pbind. eapply owns_mono; [|exact H]. by intros [a|e]. Qed.

Lemma owns_perform {A X} (I : S -> list X -> Prop) (post : result E A -> list X -> Prop) (c : list X)
    (op : S -> result E A * S) :
  (forall s frame, I s (c ++ frame) ->
     exists c', I (op s).2 (c' ++ frame) /\ post (op s).1 c') ->
  owns I post c (perform op).
Proof. done. Qed.

(** Both worlds go on, or both throw the same. *)
Definition both {A} (Q : A -> A -> Prop) (r r' : result E A) : Prop :=
  match r, r' with
  | Ok a, Ok b => Q a b
  | Err e, Err e' => e = e'
  | _, _ => False
  end.

Lemma both_refl {A} (Q : A -> A -> Prop) (r : result E A) : (forall a, r = Ok a -> Q a a) -> both Q r r.
Proof. destruct r; [|done]. intros H. by apply H. Qed.

Lemma lock_bind {A B} (R : S -> S -> Prop) (P : A -> A -> Prop) (Q : B -> B -> Prop) (m m' : io S E A)
    (f g : A -> io S E B) :
  lock R (both P) m m' -> (forall a b, P a b -> lock R (both Q) (f a) (g b)) ->
  lock R (both Q) (io_bind m f) (io_bind m' g).
Proof.
  intros Hm Hf. apply lock_pbind. eapply lock_mono; [|exact Hm]. intros [a|e] [b|e'] H; try done; by apply Hf.
Qed.

Lemma lock_try {A} (R : S -> S -> Prop) (Q : A -> A -> Prop) (m m' : io S E A) (h h' : E -> io S E A) :
  lock R (both Q) m m' -> (forall e, lock R (both Q) (h e) (h' e)) ->
  lock R (both Q) (try_catch m h) (try_catch m' h').
Proof.
  intros Hm Hh. apply lock_pbind. eapply lock_mono; [|exact Hm]. intros [a|e] [b|e'] H; try done.
  simpl in H. subst e'. apply Hh.
Qed.

Lemma lock_perform {A} (R : S -> S -> Prop) (Q : A -> A -> Prop) (op op' : S -> result E A * S) :
  (forall s s', R s s' -> R (op s).2 (op' s').2 /\ both Q (op s).1 (op' s').1) ->
  lock R (both Q) (perform op) (perform op').
Proof. done. Qed.

Lemma pays_perform {A} (I : S -> Prop) (Phi : S -> nat) (post : result E A -> nat -> Prop)
    (c : nat) (op : S -> result E A * S) :
  (forall s, I s -> I (op s).2 /\
     exists c', Phi (op s).2 + c' <= Phi s + c /\ post (op s).1 c') ->
  pays I Phi post c (perform op).
Proof. done. Qed.

(** A program all of whose steps keep [I] and do not add to [Phi] keeps the
    credits it was given. *)
Lemma pays_idle {A} (I : S -> Prop) (Phi : S -> nat) (post : A -> nat -> Prop) (c : nat)
    (p : prog S A) :
  each_step (fun s s' => I s -> I s' /\ Phi s' <= Phi s) p -> (forall a, post a c) ->
  pays I Phi post c p.
Proof.
  intros Hp Hpost. induction p as [a|B op k IH]; simpl in *; [auto|].
  destruct Hp as [Hop Hk]. intros s Hs. destruct (Hop s Hs). split; [done|].
  exists c. split; [lia|auto].
Qed.
End IoSteps.

Section IoRules.
Context {S E : Type} (R G : S -> S -> Prop).

Lemma rg_bind {A B} (m : io S E A) (f : A -> io S E B) (Q : result E B -> S -> Prop) (s : S) :
  rg R G m (fun r s' => match r with
                      | Ok a => rg R G (f a) Q s'
                      | Err e => forall s'', rtc R s' s'' -> Q (Err e) s''
                      end) s ->
  rg R G (io_bind m f) Q s.
Proof.
  intros H. apply rg_pbind. eapply rg_mono; [|exact H]. intros [a|e] s'; auto.
Qed.

(** What is known of a program that goes on, of its first part. *)
Lemma rg_bind_inv {A B} (m : io S E A) (f : A -> io S E B) (Q : result E B -> S -> Prop) (s : S) :
  rg R G (io_bind m f) Q s ->
  rg R G m (fun r s' => match r with
                      | Ok a => rg R G (f a) Q s'
                      | Err e => forall s'', rtc R s' s'' -> Q (Err e) s''
                      end) s.
Proof.
  unfold io_bind. revert s. induction m as [[a|e]|X op k IH]; simpl; intros s Hw s' Hs'.
  - by eapply rg_env.
  - intros s'' Hs''. apply Hw. by transitivity s'.
  - destruct (Hw s' Hs') as [HR Hv]. split; [done|]. by apply IH.
Qed.

Lemma rg_and {A} (p : prog S A) (Q Q' : A -> S -> Prop) (s : S) :
  rg R G p Q s -> rg R G p Q' s -> rg R G p (fun a s' => Q a s' /\ Q' a s') s.
Proof.
  revert s. induction p as [a|X op k IH]; simpl; intros s H H' s' Hs'; [auto|].
  destruct (H s' Hs') as [HR Hw], (H' s' Hs') as [_ Hw']. split; [done|]. by apply IH.
Qed.

Lemma rg_try {A} (m : io S E A) (h : E -> io S E A) (Q : result E A -> S -> Prop) (s : S) :
  rg R G m (fun r s' => match r with
                      | Ok a => forall s'', rtc R s' s'' -> Q (Ok a) s''
                      | Err e => rg R G (h e) Q s'
                      end) s ->
  rg R G (try_catch m h) Q s.
Proof.
  intros H. apply rg_pbind. eapply rg_mono; [|exact H]. intros [a|e] s'; auto.
Qed.

Lemma rg_perform {A} (op : S -> result E A * S) (Q : result E A -> S -> Prop) (s : S) :
  (forall s', rtc R s s' -> (G s' (op s').2 /\ rtc R s' (op s').2) /\
     forall s'', rtc R (op s').2 s'' -> Q (op s').1 s'') ->
  rg R G (perform op) Q s.
Proof. intros H s' Hs'. apply (H s' Hs'). Qed.

(** Of a judgement without a guarantee of its own. *)
Lemma wp_perform {A} (op : S -> result E A * S) (Q : result E A -> S -> Prop) (s : S) :
  (forall s', rtc R s s' -> rtc R s' (op s').2 /\
     forall s'', rtc R (op s').2 s'' -> Q (op s').1 s'') ->
  wp R (perform op) Q s.
Proof. intros H s' Hs'. destruct (H s' Hs'). by split. Qed.

Lemma rg_ret {A} (a : A) (Q : result E A -> S -> Prop) (s : S) :
  (forall s', rtc R s s' -> Q (Ok a) s') -> rg R G (ret a) Q s.
Proof. done. Qed.

Lemma rg_throw {A} (e : E) (Q : result E A -> S -> Prop) (s : S) :
  (forall s', rtc R s s' -> Q (Err e) s') -> rg R G (throw e) Q s.
Proof. done. Qed.
End IoRules.

(** ** Programs on a part of the state

    A component's programs run on the component's own state, which is a part of
    that of the service. *)

(** [view] is a part of a state [T], [put] puts another in its place. *)
Class Lens {S T : Type} (view : T -> S) (put : S -> T -> T) : Prop := {
  view_put s t : view (put s t) = s;
  put_view t : put (view t) t = t;
  put_put s s' t : put s (put s' t) = put s t;
}.

Section Zoom.
Context {S T : Type} (view : T -> S) (put : S -> T -> T).

Fixpoint zoom {A} (p : prog S A) : prog T A :=
  match p with
  | Done a => Done a
  | Atomic op k => Atomic (fun t => let '(b, s) := op (view t) in (b, put s t)) (fun b => zoom (k b))
  end.

Context `{!Lens view put}.

Lemma run_zoom {A} (p : prog S A) (t : T) :
  run (zoom p) t = ((run p (view t)).1, put (run p (view t)).2 t).
Proof.
  revert t. induction p as [a|B op k IH]; intros t;
    [change ((a, t) = (a, put (view t) t)); by rewrite put_view|].
  change (run (zoom (Atomic op k)) t)
    with (let '(b, t') := (let '(b, s) := op (view t) in (b, put s t)) in run (zoom (k b)) t').
  change (run (Atomic op k) (view t)) with (let '(b, s') := op (view t) in run (k b) s').
  destruct (op (view t)) as [b s]. by rewrite IH, view_put, put_put.
Qed.

(** What is proved of a program on its part holds of it on the whole. *)
Lemma rg_zoom {A} (R G : S -> S -> Prop) (R' G' : T -> T -> Prop) (p : prog S A)
    (Q : A -> S -> Prop) (t : T) :
  (forall t t', R' t t' -> R (view t) (view t')) ->
  (forall t s, G (view t) s -> rtc R (view t) s -> G' t (put s t) /\ rtc R' t (put s t)) ->
  rg R G p Q (view t) -> rg R' G' (zoom p) (fun a t' => Q a (view t')) t.
Proof.
  intros HR HG. assert (Hrtc : forall t t', rtc R' t t' -> rtc R (view t) (view t')).
  { intros x y Hxy. induction Hxy as [|x y z Hxy _ IH]; [done|]. eapply rtc_l; [by apply HR|done]. }
  revert t. induction p as [a|B op k IH]; intros t H; [intros t' Ht'; by apply H, Hrtc|].
  intros t' Ht'. destruct (H (view t') (Hrtc _ _ Ht')) as [[Hg Hr] Hk].
  destruct (op (view t')) as [b s]. simpl in *. split; [by apply HG|].
  apply IH. by rewrite view_put.
Qed.
End Zoom.

(** ** Programs that are safe wherever they start *)

Section Safe.
Context {S : Type} (R : S -> S -> Prop).

(** Every step of [p], whatever happens in between, is in [R]. *)
Definition safe {A} (p : prog S A) : Prop := forall s, wp R p (fun _ _ => True) s.

Lemma rtc_stable (P : S -> Prop) (s s' : S) :
  (forall x y, R x y -> P x -> P y) -> rtc R s s' -> P s -> P s'.
Proof. intros HP Hs. induction Hs; eauto. Qed.

(** A fact that [R] keeps still holds at the end. *)
Lemma rg_frame {A} (G : S -> S -> Prop) (p : prog S A) (Q : A -> S -> Prop) (P : S -> Prop) (s : S) :
  (forall s s', R s s' -> P s -> P s') -> P s -> rg R G p Q s -> rg R G p (fun a s' => Q a s' /\ P s') s.
Proof.
  intros HP. revert s. induction p as [a|B op k IH]; simpl; intros s Hs H s' Hs'.
  - split; [by apply H|]. by apply (rtc_stable P s s').
  - destruct (H s' Hs') as [HG Hk]. split; [done|]. apply IH; [|done].
    apply (rtc_stable P s' (op s').2 HP (proj2 HG)). by apply (rtc_stable P s s').
Qed.

(** The second part of a program may rely on what [R] keeps. *)
Lemma rg_bind_stable {E A B} (G : S -> S -> Prop) (P : S -> Prop) (m : io S E A) (f : A -> io S E B) (s : S) :
  (forall s s', R s s' -> P s -> P s') -> P s ->
  rg R G m (fun _ _ => True) s -> (forall a s', P s' -> rg R G (f a) (fun _ _ => True) s') ->
  rg R G (io_bind m f) (fun _ _ => True) s.
Proof.
  intros HP Hs Hm Hf. apply rg_bind. eapply rg_mono; [|apply (rg_frame G m (fun _ _ => True) P); done].
  intros [a|e] s' [_ Hs']; [by apply Hf|done].
Qed.

(** A program each of whose steps keeps to the guarantee, wherever it is taken. *)
Lemma rg_each_step {A} (G : S -> S -> Prop) (p : prog S A) (s : S) :
  each_step (fun s s' => G s s' /\ rtc R s s') p -> rg R G p (fun _ _ => True) s.
Proof.
  revert s. induction p as [a|B op k IH]; simpl; intros s; [done|]. intros [Hop Hk] s' _.
  split; [apply Hop|]. apply IH, Hk.
Qed.

(** A fact that [R] keeps, next to steps that are in [R] anyway. *)
Lemma wp_stable {A} (p : prog S A) (P : S -> Prop) (s : S) :
  (forall s s', R s s' -> P s -> P s') -> each_step R p -> P s -> wp R p (fun _ s' => P s') s.
Proof.
  intros HP Hp Hs. eapply rg_mono; [|apply (rg_frame _ p (fun _ _ => True) P); [done|done|]].
  { by intros a s' []. }
  apply rg_each_step. induction p as [a|B op k IH]; [done|]. destruct Hp as [Hop Hk].
  split; [intros s'; split; [done|by apply rtc_once]|]. intros b. by apply IH.
Qed.

Lemma safe_each_step {A} (p : prog S A) : each_step R p -> safe p.
Proof. intros Hp s. by apply (wp_stable p (fun _ => True)). Qed.

Lemma safe_pbind {A B} (m : prog S A) (f : A -> prog S B) :
  safe m -> (forall a, safe (f a)) -> safe (pbind m f).
Proof.
  intros Hm Hf s. apply rg_pbind. eapply rg_mono; [|apply Hm]. intros a s' _. apply Hf.
Qed.

Lemma safe_bind {E A B} (m : io S E A) (f : A -> io S E B) :
  safe m -> (forall a, safe (f a)) -> safe (io_bind m f).
Proof. intros Hm Hf. apply safe_pbind; [done|]. intros [a|e]; [done|]. by intros s s'. Qed.

Lemma safe_try {E A} (m : io S E A) (h : E -> io S E A) :
  safe m -> (forall e, safe (h e)) -> safe (try_catch m h).
Proof. intros Hm Hf. apply safe_pbind; [done|]. intros [a|e]; [|done]. by intros s s'. Qed.

Lemma safe_done {A} (a : A) : safe (Done a).
Proof. by intros s s'. Qed.
End Safe.

#[global] Arguments each_step : simpl never.
#[global] Arguments pays : simpl never.
#[global] Arguments lock : simpl never.
#[global] Arguments owns : simpl never.
#[global] Arguments yields : simpl never.
#[global] Arguments rg : simpl never.
