(* ===== verification/Timers.v ===== *)
(** * Interval timers

    [setInterval] of Node: a callback is run in a turn of the event loop, when it is due,
    and is due again a period after it was run.  The loop may be late; how late bounds how
    far apart two runs are. *)

From S2P Require Import Prelude.

Local Open Scope Z_scope.

(** When an armed interval is due; [None] once it is cleared. *)
Definition timer := option Z.

Section Interval.
Context (period : Z).

(** [setInterval(callback, period)] *)
Definition setInterval (now : Z) : timer := Some (now + period).

(** [clearInterval(timer)] *)
Definition clearInterval (t : timer) : timer := None.

(** A turn of the event loop: is the callback run, and when is it due next? *)
Definition turn (now : Z) (t : timer) : bool * timer :=
  match t with
  | Some due => if due <=? now then (true, setInterval now) else (false, t)
  | None => (false, None)
  end.

(** The turns of the event loop, and those that run the callback. *)
Fixpoint ticks (turns : list Z) (t : timer) : list Z :=
  match turns with
  | [] => []
  | now :: turns' => let '(fires, t') := turn now t in
      if fires then now :: ticks turns' t' else ticks turns' t'
  end.

(** Turns that follow each other, from [start] on, no more than [gap] apart. *)
Fixpoint brisk (gap start : Z) (turns : list Z) : Prop :=
  match turns with
  | [] => True
  | now :: turns' => start <= now <= start + gap /\ brisk gap now turns'
  end.

Lemma last_turn (prev x : Z) (turns : list Z) : default prev (last (x :: turns)) = default x (last turns).
Proof. rewrite last_cons. by destruct (last turns). Qed.

Context (Hperiod : 0 < period).

Lemma ticks_due (gap : Z) (turns : list Z) (prev due now : Z) :
  0 <= gap -> brisk gap prev turns -> prev < due -> due + gap <= now <= default prev (last turns) ->
  exists t, t ∈ ticks turns (Some due) /\ now - period - gap < t <= now.
Proof.
  intros Hg. revert prev due. induction turns as [|x turns IH]; intros prev due; [simpl; intros []; lia|].
  intros [Hx Hb] Hd Hn. rewrite last_turn in Hn. simpl. destruct (due <=? x) eqn:Hdue; cbn iota beta.
  - apply Z.leb_le in Hdue. destruct (decide (x + period + gap <= now)) as [Hle|Hlt].
    + destruct (IH x (x + period)) as (t & Ht & Hr); [done|lia|lia|]. exists t. split; [by right|done].
    + exists x. split; [by left|lia].
  - apply Z.leb_gt in Hdue. by apply (IH x due).
Qed.

(** In any stretch of a period and a turn the callback is run, from the first period on. *)
Lemma ticks_regularly (gap start now : Z) (turns : list Z) :
  0 <= gap -> brisk gap start turns -> start + period + gap <= now <= default start (last turns) ->
  exists t, t ∈ ticks turns (setInterval start) /\ now - period - gap < t <= now.
Proof. intros Hg Hb Hn. apply (ticks_due gap turns start); [done..|lia|done]. Qed.
End Interval.

(** ** Inactivity

    [socket.setTimeout(limit)]: does a socket that was last active at [prev], and is again
    at each of [arrivals], stay silent for [limit] before [until]? *)
Fixpoint times_out (limit prev : Z) (arrivals : list Z) (until : Z) : bool :=
  match arrivals with
  | [] => limit <=? until - prev
  | a :: arrivals' => (limit <=? Z.min a until - prev) || times_out limit a arrivals' until
  end.

(** A socket that times out has been silent. *)
Lemma times_out_silence (limit : Z) (arrivals : list Z) (prev until : Z) :
  StronglySorted Z.le (prev :: arrivals) -> times_out limit prev arrivals until = true ->
  exists t, prev <= t /\ t + limit <= until /\ forall a, a ∈ arrivals -> ~ (t < a < t + limit).
Proof.
  revert prev. induction arrivals as [|a arrivals IH]; intros prev Hs; simpl.
  - intros Hl%Z.leb_le. exists prev. split; [lia|]. split; [lia|]. by intros a Ha%not_elem_of_nil.
  - apply StronglySorted_inv in Hs as [Hs Hp]. intros [Hl%Z.leb_le|Ht]%orb_true_iff.
    + exists prev. split; [lia|]. split; [lia|]. intros b Hb. apply StronglySorted_inv in Hs as [_ Ha].
      rewrite Forall_forall in Ha. apply elem_of_cons in Hb as [->|Hb]; [lia|]. specialize (Ha b Hb). lia.
    + destruct (IH a Hs Ht) as (t & Hat & Hl & Hno). rewrite Forall_forall in Hp.
      assert (prev <= a) by (apply Hp; by left). exists t. split; [lia|]. split; [done|].
      intros b [->|Hb]%elem_of_cons; [lia|by apply Hno].
Qed.

(** What is written at the ticks of an interval, and arrives within [delay], keeps a socket
    busy whose limit is longer than the period, a turn and the delay together, whatever
    else arrives. *)
Lemma ticks_keep_busy (period limit gap delay start first until : Z) (turns arrivals : list Z) :
  0 < period -> 0 <= gap -> 0 <= delay -> period + gap + delay < limit ->
  brisk gap start turns -> start <= first -> until <= default start (last turns) ->
  StronglySorted Z.le (first :: arrivals) ->
  (forall w, w ∈ ticks period turns (setInterval period start) -> exists a, a ∈ arrivals /\ w <= a <= w + delay) ->
  times_out limit first arrivals until = false.
Proof.
  intros Hp Hg Hd Hl Hb Hf Hu Hs Hw. apply not_true_is_false. intros Ht.
  destruct (times_out_silence limit arrivals first until Hs Ht) as (t & Hft & Htl & Hno).
  destruct (ticks_regularly period Hp gap start (t + period + gap) turns) as (w & Hin & Hr); [done|done|lia|].
  destruct (Hw w Hin) as (a & Ha & Har). apply (Hno a Ha). lia.
Qed.
