(* ===== verification/World.v ===== *)
(** * The world a service runs in

    The exceptions handlers throw, the state shared by the requests of one
    service (its data, the clock, the source of randomness, whether the
    database answers, the calls made to outside code), and the interface the
    services rely on of the Prisma client. *)

From S2P Require Import Prelude Js.

(** ** Exceptions *)

Inductive exn : Type :=
| BadRequestException (msg : string)
| UnauthorizedException (msg : string)
| ForbiddenException (msg : string)
| NotFoundException (msg : string)
| ConflictException (msg : string)
| BadGatewayException (msg : string)
| ServiceUnavailableException (msg : string)
| UnrecoverableError (msg : string)
| ProviderAuthRevokedError (provider detail : string)
| PrismaClientKnownRequestError (code : string)
| TokenError (msg : string)
| TypeError (msg : string)
| SyntaxError (msg : string)
| Error (msg : string).

#[export] Instance exn_eq_dec : EqDecision exn.
Proof. solve_decision. Defined.

(** [error.message] *)
Definition message (e : exn) : string :=
  match e with
  | BadRequestException m | UnauthorizedException m | ForbiddenException m
  | NotFoundException m | ConflictException m | BadGatewayException m
  | ServiceUnavailableException m | UnrecoverableError m | TokenError m | TypeError m
  | SyntaxError m | Error m => m
  | ProviderAuthRevokedError p d => p +:+ " rejected the refresh token: " +:+ d
  | PrismaClientKnownRequestError c => c
  end.

(** What a query throws when the database does not answer. *)
Definition DbUnavailable : exn := PrismaClientKnownRequestError "P1001".

Definition P2002 : exn := PrismaClientKnownRequestError "P2002".
Definition P2003 : exn := PrismaClientKnownRequestError "P2003".
Definition P2025 : exn := PrismaClientKnownRequestError "P2025".

(** ** The state of a running service *)

Record world (D : Type) : Type := mkWorld {
  data : D;
  clock : Z;              (* milliseconds since the epoch *)
  draws : nat;            (* random values drawn so far *)
  db_up : bool;
  calls : list (string * list string);  (* calls to outside code, newest first *)
}.

Arguments mkWorld {D} _ _ _ _ _.
Arguments data {D} _.
Arguments clock {D} _.
Arguments draws {D} _.
Arguments db_up {D} _.
Arguments calls {D} _.

Section Effects.
Context {D : Type}.

Definition with_data (d : D) (w : world D) : world D :=
  mkWorld d (clock w) (draws w) (db_up w) (calls w).

(** [Date.now()], [new Date()] *)
Definition Date_now : io (world D) exn Z := reads clock.

(** One value of a source of randomness. *)
Definition draw {X} (source : nat -> X) : io (world D) exn X :=
  perform (fun w => (Ok (source (draws w)),
    mkWorld (data w) (clock w) (S (draws w)) (db_up w) (calls w))).

(** A call to outside code, which the log remembers. *)
Definition external {X} (name : string) (args : list string) (value : X) :
  io (world D) exn X :=
  perform (fun w => (Ok value,
    mkWorld (data w) (clock w) (draws w) (db_up w) ((name, args) :: calls w))).

(** A call whose answer depends on the outside: on how many calls came before. *)
Definition ask {X} (name : string) (args : list string) (answer : nat -> result exn X) :
  io (world D) exn X :=
  perform (fun w => (answer (length (calls w)),
    mkWorld (data w) (clock w) (draws w) (db_up w) ((name, args) :: calls w))).

(** One statement sent to the database, which knows the time for the columns
    that default to [now()]. *)
Definition query_at {X} (op : Z -> D -> result exn X * D) : io (world D) exn X :=
  perform (fun w =>
    if db_up w then let '(r, d) := op (clock w) (data w) in (r, with_data d w)
    else (Err DbUnavailable, w)).

Definition query {X} (op : D -> result exn X * D) : io (world D) exn X :=
  query_at (fun _ => op).
End Effects.

Section EffectRuns.
Context {D : Type}.

Lemma run_Date_now (w : world D) : run Date_now w = (Ok (clock w), w).
Proof. done. Qed.

Lemma run_draw {X} (source : nat -> X) (w : world D) :
  run (draw source) w =
  (Ok (source (draws w)), mkWorld (data w) (clock w) (S (draws w)) (db_up w) (calls w)).
Proof. done. Qed.

Lemma run_external {X} (name : string) (args : list string) (v : X) (w : world D) :
  run (external name args v) w =
  (Ok v, mkWorld (data w) (clock w) (draws w) (db_up w) ((name, args) :: calls w)).
Proof. done. Qed.

Lemma run_ask {X} (name : string) (args : list string) (f : nat -> result exn X) (w : world D) :
  run (ask name args f) w =
  (f (length (calls w)),
   mkWorld (data w) (clock w) (draws w) (db_up w) ((name, args) :: calls w)).
Proof. done. Qed.

Lemma run_query_at {X} (op : Z -> D -> result exn X * D) (w : world D) :
  run (query_at op) w =
  if db_up w then ((op (clock w) (data w)).1, with_data (op (clock w) (data w)).2 w)
  else (Err DbUnavailable, w).
Proof.
  unfold query_at. rewrite run_perform. destruct (db_up w); [|done].
  by destruct (op (clock w) (data w)).
Qed.

Lemma run_query {X} (op : D -> result exn X * D) (w : world D) :
  run (query op) w =
  if db_up w then ((op (data w)).1, with_data (op (data w)).2 w) else (Err DbUnavailable, w).
Proof.
  apply run_query_at.
Qed.
End EffectRuns.

#[export] Hint Rewrite @run_Date_now @run_draw @run_external @run_ask @run_query_at @run_query : run.

(** ** What the services rely on of Prisma

    A table of rows [Row] kept in a state [T].  The four operations and the
    contents [rows] are the interface; [TableLaws] is their documented meaning,
    up to the order in which the database keeps the rows. *)

Class Table (Row T : Type) := {
  rows : T -> list Row;
  t_insert : Row -> T -> T;
  t_update : (Row -> bool) -> (Row -> Row) -> T -> T;
  t_delete : (Row -> bool) -> T -> T;
  t_select : (Row -> bool) -> T -> list Row;
}.

Class TableLaws (Row T : Type) `{Table Row T} : Prop := {
  rows_insert r t : rows (t_insert r t) ≡ₚ r :: rows t;
  rows_update p f t :
    rows (t_update p f t) ≡ₚ List.map (fun r => if p r then f r else r) (rows t);
  rows_delete p t : rows (t_delete p t) ≡ₚ List.filter (fun r => negb (p r)) (rows t);
  select_filter p t : t_select p t ≡ₚ List.filter p (rows t);
}.

#[export] Hint Mode Table - ! : typeclass_instances.

(** Apply a lemma about tables that satisfy their laws. *)
Tactic Notation "law" uconstr(L) := apply L; try exact _.

(** A table that is a list: the laws can hold. *)
#[export] Instance list_table (Row : Type) : Table Row (list Row) := {
  rows := fun t => t;
  t_insert := fun r t => t ++ [r];
  t_update := fun p f t => List.map (fun r => if p r then f r else r) t;
  t_delete := fun p t => List.filter (fun r => negb (p r)) t;
  t_select := fun p t => List.filter p t;
}.

#[export] Instance list_table_laws (Row : Type) : TableLaws Row (list Row).
Proof. split; simpl; [|done..]. intros r t. symmetry. apply Permutation_cons_append. Qed.

Section Prisma.
Context {Row T : Type} `{Table Row T}.

Definition findFirst (where_ : Row -> bool) (t : T) : option Row :=
  List.hd_error (t_select where_ t).

Definition exists_row (where_ : Row -> bool) (t : T) : bool :=
  match findFirst where_ t with Some _ => true | None => false end.

(** [create] under the unique constraints [clash r]: P2002 when a stored row
    clashes with the new one. *)
Definition create (clash : Row -> Row -> bool) (r : Row) (t : T) : result exn Row * T :=
  if exists_row (clash r) t then (Err P2002, t) else (Ok r, t_insert r t).

Definition updateMany (where_ : Row -> bool) (f : Row -> Row) (t : T) : nat * T :=
  (length (t_select where_ t), t_update where_ f t).

Definition deleteMany (where_ : Row -> bool) (t : T) : nat * T :=
  (length (t_select where_ t), t_delete where_ t).

(** [update] of one row: P2025 when there is none. *)
Definition update (where_ : Row -> bool) (f : Row -> Row) (t : T) : result exn unit * T :=
  if exists_row where_ t then (Ok tt, t_update where_ f t) else (Err P2025, t).
End Prisma.

Section PrismaLaws.
Context {Row T : Type} `{TableLaws Row T}.
Implicit Types (t : T) (r : Row) (p : Row -> bool).

Lemma elem_of_filter' p (l : list Row) r : r ∈ List.filter p l <-> r ∈ l /\ p r = true.
Proof. rewrite !list_elem_of_In. apply List.filter_In. Qed.

Lemma elem_insert t r r' : r' ∈ rows (t_insert r t) <-> r' = r \/ r' ∈ rows t.
Proof. rewrite rows_insert. apply elem_of_cons. Qed.

Lemma elem_update t p f r' :
  r' ∈ rows (t_update p f t) <-> exists r, r ∈ rows t /\ r' = if p r then f r else r.
Proof.
  rewrite rows_update, list_elem_of_In, List.in_map_iff.
  setoid_rewrite list_elem_of_In. naive_solver.
Qed.

Lemma elem_delete t p r' : r' ∈ rows (t_delete p t) <-> r' ∈ rows t /\ p r' = false.
Proof. rewrite rows_delete, elem_of_filter', negb_true_iff. done. Qed.

Lemma elem_select t p r : r ∈ t_select p t <-> r ∈ rows t /\ p r = true.
Proof. rewrite select_filter. apply elem_of_filter'. Qed.

Lemma findFirst_Some t p r : findFirst p t = Some r -> r ∈ rows t /\ p r = true.
Proof.
  unfold findFirst. intros E. rewrite <- elem_select.
  destruct (t_select p t); [done|]. simpl in E. simplify_eq. by left.
Qed.

Lemma findFirst_None t p : findFirst p t = None <-> forall r, r ∈ rows t -> p r = false.
Proof.
  unfold findFirst. split.
  - intros E r Hr. destruct (p r) eqn:Hp; [|done].
    assert (r ∈ t_select p t) as Hs by (by apply elem_select).
    destruct (t_select p t); [by inversion Hs|done].
  - intros Hall. destruct (t_select p t) as [|r l] eqn:E; [done|].
    assert (r ∈ t_select p t) as Hs by (rewrite E; by left).
    apply elem_select in Hs as [Hr Hp]. by rewrite Hall in Hp.
Qed.

Lemma exists_row_true t p : exists_row p t = true <-> exists r, r ∈ rows t /\ p r = true.
Proof.
  unfold exists_row. destruct (findFirst p t) as [r|] eqn:E.
  - split; [|done]. intros _. exists r. by apply findFirst_Some in E.
  - split; [done|]. intros (r & Hr & Hp).
    by rewrite (proj1 (findFirst_None t p) E r Hr) in Hp.
Qed.

Lemma exists_row_false t p : exists_row p t = false <-> forall r, r ∈ rows t -> p r = false.
Proof.
  rewrite <- findFirst_None. unfold exists_row. by destruct (findFirst p t).
Qed.

(** With at most one row that a [where] can match, [findFirst] finds it. *)
Lemma findFirst_unique t p r :
  r ∈ rows t -> p r = true ->
  (forall r', r' ∈ rows t -> p r' = true -> r' = r) ->
  findFirst p t = Some r.
Proof.
  intros Hr Hp Huniq. destruct (findFirst p t) as [r'|] eqn:E.
  - apply findFirst_Some in E as [Hr' Hp']. f_equal. by apply Huniq.
  - rewrite (proj1 (findFirst_None t p) E r Hr) in Hp. done.
Qed.

Lemma count_zero t p :
  length (t_select p t) = 0 <-> forall r, r ∈ rows t -> p r = false.
Proof.
  rewrite <- findFirst_None. unfold findFirst. by destruct (t_select p t).
Qed.

Lemma select_unique t p r :
  NoDup (rows t) -> r ∈ rows t -> p r = true ->
  (forall r', r' ∈ rows t -> p r' = true -> r' = r) ->
  t_select p t = [r].
Proof.
  intros Hnd Hr Hp Huniq. apply Permutation_singleton_r. rewrite select_filter.
  apply NoDup_Permutation; [|apply NoDup_singleton|].
  - apply NoDup_ListNoDup. by apply List.NoDup_filter, NoDup_ListNoDup.
  - intros x. rewrite elem_of_filter', list_elem_of_singleton. naive_solver.
Qed.

Lemma select_none t p :
  (forall r, r ∈ rows t -> p r = false) -> t_select p t = [].
Proof. intros Hall. apply nil_length_inv. by apply count_zero. Qed.

(** A lookup by a unique column. *)
Lemma findFirst_key {K} `{EqDecision K} (key : Row -> K) t r :
  NoDup (List.map key (rows t)) -> r ∈ rows t ->
  findFirst (fun r' => bool_decide (key r' = key r)) t = Some r.
Proof.
  intros Hnd Hr. apply findFirst_unique; [done|by apply bool_decide_eq_true|].
  intros r' Hr' Hk%bool_decide_eq_true.
  apply list_elem_of_lookup in Hr as [i Hi], Hr' as [j Hj].
  assert (i = j) as ->; [|congruence].
  eapply (NoDup_lookup _ i j (key r) Hnd); rewrite list_lookup_fmap; [by rewrite Hi|].
  by rewrite Hj, <- Hk.
Qed.
End PrismaLaws.
