(* ===== verification/Url.v ===== *)
(** * URLs

    [new URL(input, base)] of the WHATWG URL standard, as far as the gateway and
    the providers use it: the scheme, the authority, the path with its dot
    segments and the query.  Strings are what [node:http] delivers, one latin-1
    character per byte.  The host parser (IDNA, IPv4, IPv6, ports) is a
    parameter: [None] where the standard says failure. *)

From S2P Require Import Prelude Js.

Record url := mkUrl {
  protocol : string;      (* without the colon *)
  authority : string;     (* as the host parser returned it *)
  segments : list string; (* the path, split at its slashes *)
  search : string;        (* with its [?], or empty *)
  opaque : option string; (* an opaque path, as in [mailto:x] *)
}.

Definition pathname (u : url) : string :=
  match opaque u with
  | Some p => p
  | None => "/" +:+ str_join "/" (segments u)
  end.

(** ** Characters *)

Definition is_alpha (c : Ascii.ascii) : bool :=
  let n := code c in
  (Nat.leb 65 n && Nat.leb n 90) || (Nat.leb 97 n && Nat.leb n 122).

Definition is_digit (c : Ascii.ascii) : bool :=
  let n := code c in Nat.leb 48 n && Nat.leb n 57.

(** Characters a scheme may hold after its first letter. *)
Definition is_scheme_char (c : Ascii.ascii) : bool :=
  is_alpha c || is_digit c || ascii_eqb c "+"%char || ascii_eqb c "-"%char || ascii_eqb c "."%char.

Definition hex_digit (n : nat) : Ascii.ascii :=
  Ascii.ascii_of_nat (if Nat.ltb n 10 then 48 + n else 55 + n).

(** [%XX] of a byte. *)
Definition percent (n : nat) : string :=
  String "%"%char (String (hex_digit (n / 16)) (String (hex_digit (n mod 16)) "")).

(** The percent-encoding of a character: its UTF-8 bytes. *)
Definition percent_encode (c : Ascii.ascii) : string :=
  let n := code c in
  if Nat.ltb n 128 then percent n
  else percent (192 + n / 64) +:+ percent (128 + n mod 64).

Definition encode_with (unsafe : Ascii.ascii -> bool) : string -> string :=
  fix go (s : string) : string :=
  match s with
  | EmptyString => EmptyString
  | String c s' => (if unsafe c then percent_encode c else String c "") +:+ go s'
  end.

Definition one_of (chars : string) (c : Ascii.ascii) : bool := occurs c chars.

Definition dquote : string := String (Ascii.ascii_of_nat 34) "".

(** The path percent-encode set and the special-query percent-encode set. *)
Definition path_unsafe (c : Ascii.ascii) : bool :=
  Nat.leb (code c) 32 || Nat.leb 127 (code c) || one_of (dquote +:+ "#<>?`{}") c.

Definition query_unsafe (c : Ascii.ascii) : bool :=
  Nat.leb (code c) 32 || Nat.leb 127 (code c) || one_of (dquote +:+ "#<>'") c.

(** ** Cutting the input *)

(** [s] up to the first character [p] accepts, and the rest from it on. *)
Fixpoint span_until (p : Ascii.ascii -> bool) (s : string) : string * string :=
  match s with
  | EmptyString => ("", "")
  | String c s' =>
      if p c then ("", s) else let '(a, b) := span_until p s' in (String c a, b)
  end.

(** [s] without the characters [p] accepts at its front. *)
Fixpoint drop_while (p : Ascii.ascii -> bool) (s : string) : string :=
  match s with
  | EmptyString => EmptyString
  | String c s' => if p c then drop_while p s' else s
  end.

Definition remove_all (p : Ascii.ascii -> bool) : string -> string :=
  fix go (s : string) : string :=
  match s with
  | EmptyString => EmptyString
  | String c s' => if p c then go s' else String c (go s')
  end.

(** The parser first strips control characters and blanks at both ends and
    removes tabs and newlines anywhere. *)
Definition preprocess (s : string) : string :=
  let c0 c := Nat.leb (code c) 32 in
  remove_all (fun c => one_of (String (Ascii.ascii_of_nat 9)
    (String (Ascii.ascii_of_nat 10) (String (Ascii.ascii_of_nat 13) ""))) c)
    (srev (drop_while c0 (srev (drop_while c0 s)))).

Definition is_slash (special : bool) (c : Ascii.ascii) : bool :=
  ascii_eqb c "/"%char || (special && ascii_eqb c "\"%char).

(** A path, its query and its fragment: [path?query#fragment]. *)
Definition cut_path (s : string) : string * string :=
  let '(beforeHash, _) := span_until (one_of "#") s in
  let '(p, q) := span_until (one_of "?") beforeHash in
  (p, match q with
      | String _ (String _ _ as q') => String "?"%char (encode_with query_unsafe q')
      | _ => ""
      end).

(** ** Paths *)

Fixpoint split_by (p : Ascii.ascii -> bool) (s : string) : list string :=
  match s with
  | EmptyString => [""]
  | String a s' =>
      if p a then "" :: split_by p s'
      else match split_by p s' with
           | [] => [String a ""]
           | w :: ws => String a w :: ws
           end
  end.

Definition single_dot (s : string) : bool :=
  bool_decide (to_lower s ∈ ["."; "%2e"]).

Definition double_dot (s : string) : bool :=
  bool_decide (to_lower s ∈ [".."; ".%2e"; "%2e."; "%2e%2e"]).

Definition shorten (path : list string) : list string := take (length path - 1) path.

(** The path state: [path] is what was read so far. *)
Fixpoint path_state (path segs : list string) : list string :=
  match segs with
  | [] => path
  | seg :: segs' =>
      let last := match segs' with [] => true | _ => false end in
      if double_dot seg then path_state (shorten path ++ if last then [""] else []) segs'
      else if single_dot seg then path_state (path ++ if last then [""] else []) segs'
      else path_state (path ++ [encode_with path_unsafe seg]) segs'
  end.

(** The path after a leading slash, from [base]. *)
Definition parse_path (special : bool) (base : list string) (s : string) : list string :=
  path_state base (split_by (is_slash special) s).

(** ** The parser *)

Definition special_scheme (s : string) : bool :=
  bool_decide (s ∈ ["http"; "https"; "ws"; "wss"; "ftp"]).

(** A leading [scheme:], lower-cased, and what follows it. *)
Definition cut_scheme (s : string) : option (string * string) :=
  match s with
  | String c _ =>
      if is_alpha c then
        let '(scheme, rest) := span_until (fun c => negb (is_scheme_char c)) s in
        match rest with
        | String ":" rest' => Some (to_lower scheme, rest')
        | _ => None
        end
      else None
  | EmptyString => None
  end.

Section Parser.
(** The authority of a URL of a special scheme: the standard's host parser,
    behind the user info and before the port. *)
Context (parse_host : string -> option string).
(** A URL of another scheme, or [file:]. *)
Context (parse_other : string -> string -> option url).

(** The authority, then the path. *)
Definition parse_authority (scheme : string) (s : string) : option url :=
  let rest := drop_while (is_slash true) s in
  let '(auth, tail) := span_until (fun c => is_slash true c || one_of "?#" c) rest in
  match parse_host auth with
  | None => None
  | Some a =>
      let '(p, q) := cut_path tail in
      Some (mkUrl scheme a (parse_path true [] (sdrop 1 p)) q None)
  end.

(** A reference relative to [base]. *)
Definition parse_relative (base : url) (s : string) : option url :=
  let '(p, q) := cut_path s in
  match p with
  | EmptyString =>
      Some (mkUrl (protocol base) (authority base) (segments base)
              (if includes "?" (span_until (one_of "#") s).1 then q else search base) None)
  | String c p' =>
      if is_slash true c then
        match p' with
        | String d _ =>
            if is_slash true d then parse_authority (protocol base) s
            else Some (mkUrl (protocol base) (authority base) (parse_path true [] p') q None)
        | EmptyString =>
            Some (mkUrl (protocol base) (authority base) (parse_path true [] p') q None)
        end
      else Some (mkUrl (protocol base) (authority base) (parse_path true (shorten (segments base)) p) q None)
  end.

(** [new URL(input, base)] for a base of a special scheme; [None] is the
    [TypeError] it throws. *)
Definition new_URL (input : string) (base : url) : option url :=
  let s := preprocess input in
  match cut_scheme s with
  | Some (scheme, rest) =>
      if special_scheme scheme then
        if bool_decide (scheme = protocol base) && negb (starts_with "//" rest)
        then parse_relative base rest
        else parse_authority scheme rest
      else parse_other scheme rest
  | None => parse_relative base s
  end.

(** [new URL(input)] *)
Definition new_URL_absolute (input : string) : option url :=
  match cut_scheme (preprocess input) with
  | Some (scheme, rest) =>
      if special_scheme scheme then parse_authority scheme rest else parse_other scheme rest
  | None => None
  end.
End Parser.

(** ** Targets without surprises

    A request target whose path the parser takes as it is: it starts with one
    slash, and its segments hold nothing the parser rewrites. *)

Fixpoint sall (p : Ascii.ascii -> bool) (s : string) : bool :=
  match s with
  | EmptyString => true
  | String c s' => p c && sall p s'
  end.

Definition plain_segment (s : string) : bool :=
  sall (fun c => negb (path_unsafe c || is_slash true c)) s
  && negb (single_dot s) && negb (double_dot s).

Definition plain_query (q : string) : bool := sall (fun c => negb (query_unsafe c)) q.

Definition plain_path (segs : list string) : bool :=
  match segs with
  | s :: _ => truthy s && forallb plain_segment segs
  | [] => false
  end.

(** [/a/b/c], and [?q] when there is a query. *)
Definition target (segs : list string) (q : string) : string :=
  "/" +:+ str_join "/" segs +:+ (if truthy q then "?" +:+ q else "").

Lemma sall_impl (p p' : Ascii.ascii -> bool) (s : string) :
  (forall c, p c = true -> p' c = true) -> sall p s = true -> sall p' s = true.
Proof.
  intros Hp. induction s as [|c s IH]; [done|]. simpl. rewrite !andb_true_iff.
  intros [Hc Hs]. auto.
Qed.

Lemma sall_app (p : Ascii.ascii -> bool) (s t : string) :
  sall p (s +:+ t) = sall p s && sall p t.
Proof.
  induction s as [|c s IH]; [done|]. rewrite append_cons. simpl. by rewrite IH, andb_assoc.
Qed.

Lemma sall_join (p : Ascii.ascii -> bool) (sep : string) (l : list string) :
  sall p sep = true -> forallb (sall p) l = true -> sall p (str_join sep l) = true.
Proof.
  intros Hsep. induction l as [|x l IH]; [done|]. simpl. intros [Hx Hl]%andb_true_iff.
  destruct l as [|y l]; [done|].
  change (sall p (x +:+ sep +:+ str_join sep (y :: l)) = true).
  rewrite !sall_app, Hx, Hsep. by apply IH.
Qed.

Lemma encode_with_safe (unsafe : Ascii.ascii -> bool) (s : string) :
  sall (fun c => negb (unsafe c)) s = true -> encode_with unsafe s = s.
Proof.
  induction s as [|c s IH]; [done|]. simpl. intros [Hc Hs]%andb_true_iff.
  apply negb_true_iff in Hc. by rewrite Hc, IH.
Qed.

Lemma span_until_all (p : Ascii.ascii -> bool) (s : string) :
  sall (fun c => negb (p c)) s = true -> span_until p s = (s, "").
Proof.
  induction s as [|c s IH]; [done|]. simpl. intros [Hc Hs]%andb_true_iff.
  apply negb_true_iff in Hc. by rewrite Hc, IH.
Qed.

Lemma span_until_app (p : Ascii.ascii -> bool) (s t : string) (c : Ascii.ascii) :
  sall (fun c => negb (p c)) s = true -> p c = true ->
  span_until p (s +:+ String c t) = (s, String c t).
Proof.
  induction s as [|d s IH]; intros Hs Hc.
  - change ("" +:+ String c t) with (String c t). simpl. by rewrite Hc.
  - simpl in Hs. apply andb_true_iff in Hs as [Hd Hs]. apply negb_true_iff in Hd.
    rewrite append_cons. simpl. by rewrite Hd, IH.
Qed.

Lemma drop_while_none (p : Ascii.ascii -> bool) (s : string) :
  sall (fun c => negb (p c)) s = true -> drop_while p s = s.
Proof.
  destruct s as [|c s]; [done|]. simpl. intros [Hc _]%andb_true_iff.
  apply negb_true_iff in Hc. by rewrite Hc.
Qed.

Lemma remove_all_none (p : Ascii.ascii -> bool) (s : string) :
  sall (fun c => negb (p c)) s = true -> remove_all p s = s.
Proof.
  induction s as [|c s IH]; [done|]. simpl. intros [Hc Hs]%andb_true_iff.
  apply negb_true_iff in Hc. by rewrite Hc, IH.
Qed.

Lemma srev_app_eq (s t acc : string) :
  srev_app (s +:+ t) acc = srev_app t (srev_app s acc).
Proof. revert acc. induction s as [|c s IH]; intros acc; [done|]. apply IH. Qed.

Lemma srev_app_srev (s acc : string) : srev_app s acc = srev s +:+ acc.
Proof.
  revert acc. unfold srev. induction s as [|c s IH]; intros acc; [done|]. simpl.
  by rewrite IH, (IH (String c "")), append_assoc.
Qed.

Lemma srev_involutive (s : string) : srev (srev s) = s.
Proof.
  induction s as [|c s IH]; [done|]. unfold srev at 2. simpl.
  rewrite srev_app_srev. unfold srev at 1. rewrite srev_app_eq.
  change (srev_app (srev s) "") with (srev (srev s)). by rewrite IH.
Qed.

Lemma sall_srev (p : Ascii.ascii -> bool) (s : string) : sall p (srev s) = sall p s.
Proof.
  induction s as [|c s IH]; [done|]. unfold srev. simpl.
  rewrite srev_app_srev, sall_app, IH. simpl. by rewrite andb_true_r, andb_comm.
Qed.

(** Printable characters survive the preprocessing. *)
Lemma preprocess_printable (s : string) :
  sall (fun c => negb (Nat.leb (code c) 32)) s = true -> preprocess s = s.
Proof.
  intros Hs. unfold preprocess. rewrite (drop_while_none _ s) by done.
  rewrite drop_while_none by (by rewrite sall_srev). rewrite srev_involutive.
  apply remove_all_none. eapply sall_impl; [|exact Hs]. intros c Hc.
  destruct (one_of _ c) eqn:E; [|done]. exfalso. unfold one_of in E. cbn [occurs] in E.
  repeat (apply orb_true_iff in E as [E|E]; [apply Ascii.eqb_eq in E as <-; by vm_compute in Hc|]).
  done.
Qed.

Lemma split_by_app (p : Ascii.ascii -> bool) (s t : string) (c : Ascii.ascii) :
  sall (fun c => negb (p c)) s = true -> p c = true ->
  split_by p (s +:+ String c t) = s :: split_by p t.
Proof.
  induction s as [|d s IH]; intros Hs Hc.
  - change ("" +:+ String c t) with (String c t). simpl. by rewrite Hc.
  - simpl in Hs. apply andb_true_iff in Hs as [Hd Hs]. apply negb_true_iff in Hd.
    rewrite append_cons. simpl. by rewrite Hd, IH.
Qed.

Lemma split_by_none (p : Ascii.ascii -> bool) (s : string) :
  sall (fun c => negb (p c)) s = true -> split_by p s = [s].
Proof.
  induction s as [|d s IH]; intros Hs; [done|]. simpl in *.
  apply andb_true_iff in Hs as [Hd Hs]. apply negb_true_iff in Hd. by rewrite Hd, IH.
Qed.

Lemma split_by_join (p : Ascii.ascii -> bool) (l : list string) :
  l <> [] -> p "/"%char = true -> forallb (sall (fun c => negb (p c))) l = true ->
  split_by p (str_join "/" l) = l.
Proof.
  intros Hne Hp. induction l as [|x l IH]; [done|]. simpl. intros [Hx Hl]%andb_true_iff.
  destruct l as [|y l]; [by apply split_by_none|].
  change (split_by p (x +:+ String "/"%char (str_join "/" (y :: l))) = x :: y :: l).
  rewrite split_by_app by done. by rewrite IH.
Qed.

Lemma path_state_plain (base segs : list string) :
  forallb plain_segment segs = true -> path_state base segs = base ++ segs.
Proof.
  revert base. induction segs as [|s segs IH]; intros base; simpl; [by rewrite app_nil_r|].
  intros [Hs Hsegs]%andb_true_iff. unfold plain_segment in Hs.
  apply andb_true_iff in Hs as [[Hc H1]%andb_true_iff H2].
  apply negb_true_iff in H1 as ->. apply negb_true_iff in H2 as ->.
  rewrite encode_with_safe, IH by
    first [done|eapply sall_impl; [|exact Hc]; intros c; simpl;
                rewrite !negb_true_iff, orb_false_iff; tauto].
  by rewrite <- app_assoc.
Qed.

Lemma plain_no (p : Ascii.ascii -> bool) (segs : list string) :
  (forall c, path_unsafe c || is_slash true c = false -> p c = false) ->
  forallb plain_segment segs = true -> forallb (sall (fun c => negb (p c))) segs = true.
Proof.
  intros Hp. rewrite !forallb_forall. intros Hall s Hs. specialize (Hall s Hs).
  unfold plain_segment in Hall. apply andb_true_iff in Hall as [[Hc _]%andb_true_iff _].
  eapply sall_impl; [|exact Hc]. intros c. simpl. rewrite !negb_true_iff. apply Hp.
Qed.

(** What the characters of a plain path are not. *)
Lemma unsafe_chars (c : Ascii.ascii) :
  path_unsafe c || is_slash true c = false ->
  Nat.leb (code c) 32 = false /\ one_of "?" c = false /\ one_of "#" c = false /\
  is_slash true c = false.
Proof.
  rewrite orb_false_iff. unfold path_unsafe. rewrite !orb_false_iff. intros [[[H1 _] H2] H3].
  split; [done|]. split; [|split; [|done]].
  - destruct (one_of "?" c) eqn:E; [|done]. apply orb_true_iff in E as [E|E]; [|done].
    apply Ascii.eqb_eq in E as <-. by vm_compute in H2.
  - destruct (one_of "#" c) eqn:E; [|done]. apply orb_true_iff in E as [E|E]; [|done].
    apply Ascii.eqb_eq in E as <-. by vm_compute in H2.
Qed.

Lemma query_chars (c : Ascii.ascii) :
  query_unsafe c = false -> Nat.leb (code c) 32 = false /\ one_of "#" c = false.
Proof.
  unfold query_unsafe. rewrite !orb_false_iff. intros [[H1 _] H2]. split; [done|].
  destruct (one_of "#" c) eqn:E; [|done]. apply orb_true_iff in E as [E|E]; [|done].
  apply Ascii.eqb_eq in E as <-. by vm_compute in H2.
Qed.

(** [?q], or nothing. *)
Definition query_part (q : string) : string := if truthy q then "?" +:+ q else "".

Lemma cut_path_plain (path q : string) :
  sall (fun c => negb (one_of "?" c)) path = true ->
  sall (fun c => negb (one_of "#" c)) path = true -> plain_query q = true ->
  cut_path (path +:+ query_part q) = (path, query_part q).
Proof.
  intros H1 H2 Hq. unfold cut_path.
  assert (sall (fun c => negb (one_of "#" c)) q = true) as Hq2.
  { eapply sall_impl; [|exact Hq]. intros c. simpl. rewrite !negb_true_iff.
    apply (fun H => proj2 (query_chars c H)). }
  rewrite span_until_all.
  2:{ rewrite sall_app, H2. unfold query_part. destruct (truthy q); [|done]. exact Hq2. }
  destruct q as [|c q]; simpl.
  - unfold query_part. simpl. rewrite append_nil_r, span_until_all by done. done.
  - change (query_part (String c q)) with (String "?"%char (String c q)).
    rewrite span_until_app by done. by rewrite (encode_with_safe query_unsafe (String c q)).
Qed.

Lemma plain_path_chars (p : Ascii.ascii -> bool) (segs : list string) :
  (forall c, path_unsafe c || is_slash true c = false -> p c = false) ->
  p "/"%char = false -> plain_path segs = true ->
  sall (fun c => negb (p c)) ("/" +:+ str_join "/" segs) = true.
Proof.
  intros Hp Hslash Hsegs. destruct segs as [|s0 segs0]; [done|].
  apply andb_true_iff in Hsegs as [_ Hpl].
  change ("/" +:+ ?x) with (String "/"%char x). cbn [sall]. rewrite Hslash.
  apply sall_join; [simpl; by rewrite Hslash|]. by apply plain_no.
Qed.

Lemma preprocess_target (segs : list string) (q : string) :
  plain_path segs = true -> plain_query q = true -> preprocess (target segs q) = target segs q.
Proof.
  intros Hsegs Hq. apply preprocess_printable. unfold target.
  rewrite <- append_assoc, sall_app, plain_path_chars; [|intros c Hc|done|done].
  2:{ apply (unsafe_chars c Hc). }
  destruct (truthy q); [|done].
  change (sall (fun c => negb (Nat.leb (code c) 32)) q = true).
  eapply sall_impl; [|exact Hq]. intros c. rewrite !negb_true_iff.
  intros Hc. apply (query_chars c Hc).
Qed.

Lemma parse_path_plain (segs : list string) :
  plain_path segs = true -> parse_path true [] (str_join "/" segs) = segs.
Proof.
  intros Hsegs. destruct segs as [|s0 segs0]; [done|]. apply andb_true_iff in Hsegs as [_ Hpl].
  unfold parse_path. rewrite split_by_join; [|done|done|].
  - by rewrite path_state_plain.
  - apply plain_no; [|done]. intros c Hc. apply (unsafe_chars c Hc).
Qed.

(** The parser takes a plain target as it is. *)
Lemma new_URL_plain (ph : string -> option string) (po : string -> string -> option url)
    (base : url) (segs : list string) (q : string) :
  plain_path segs = true -> plain_query q = true ->
  new_URL ph po (target segs q) base =
  Some (mkUrl (protocol base) (authority base) segs (query_part q) None).
Proof.
  intros Hsegs Hq. unfold new_URL. rewrite preprocess_target by done. unfold target.
  fold (query_part q). change (cut_scheme ("/" +:+ ?x)) with (@None (string * string)).
  cbv beta iota. unfold parse_relative. rewrite <- append_assoc, cut_path_plain;
    [|apply plain_path_chars|apply plain_path_chars|done];
    try (intros c Hc; apply (unsafe_chars c Hc)); try done.
  change ("/" +:+ ?x) with (String "/"%char x). cbn [is_slash ascii_eqb].
  change (is_slash true "/"%char) with true. cbv iota.
  pose proof (parse_path_plain segs Hsegs) as Hpath.
  rewrite Hpath. destruct (str_join "/" segs) as [|d rest] eqn:E; [done|].
  destruct (is_slash true d) eqn:Hd; [|done]. exfalso.
  destruct segs as [|[|c0 s0] segs0]; [done|done|].
  apply andb_true_iff in Hsegs as [_ [Hs _]%andb_true_iff].
  assert (c0 = d) as ->.
  { destruct segs0; simpl in E; rewrite ?append_cons in E; by injection E. }
  unfold plain_segment in Hs. simpl in Hs. rewrite Hd, orb_true_r in Hs. done.
Qed.

(** A target that starts with two slashes names a host of its own. *)
Lemma new_URL_authority (ph : string -> option string) (po : string -> string -> option url)
    (base : url) (host : string) (segs : list string) (q : string) :
  truthy host = true -> plain_segment host = true -> plain_path segs = true ->
  plain_query q = true ->
  new_URL ph po ("//" +:+ host +:+ target segs q) base =
  match ph host with
  | Some a => Some (mkUrl (protocol base) a segs (query_part q) None)
  | None => None
  end.
Proof.
  intros Hne Hhost Hsegs Hq. unfold target. fold (query_part q).
  set (path := "//" +:+ host +:+ "/" +:+ str_join "/" segs).
  assert (forall p, (forall c, path_unsafe c || is_slash true c = false -> p c = false) ->
    p "/"%char = false -> sall (fun c => negb (p c)) path = true) as Hall.
  { intros p Hp Hslash. unfold path.
    change ("//" +:+ ?x) with (String "/"%char (String "/"%char x)). cbn [sall].
    rewrite Hslash, sall_app, plain_path_chars by done. rewrite andb_true_r.
    pose proof (plain_no p [host] Hp) as H. simpl in H. rewrite !andb_true_r in H. by apply H. }
  assert ("//" +:+ host +:+ "/" +:+ str_join "/" segs +:+ query_part q = path +:+ query_part q) as ->.
  { unfold path. by rewrite !append_assoc. }
  unfold new_URL. rewrite preprocess_printable.
  2:{ rewrite sall_app, Hall; [|intros c Hc; apply (unsafe_chars c Hc)|done].
      unfold query_part. destruct (truthy q); [|done].
      change (sall (fun c => negb (Nat.leb (code c) 32)) q = true).
      eapply sall_impl; [|exact Hq]. intros c. rewrite !negb_true_iff.
      intros Hc. apply (query_chars c Hc). }
  change (cut_scheme (path +:+ query_part q)) with (@None (string * string)). cbv beta iota.
  unfold parse_relative. rewrite cut_path_plain;
    [|apply Hall; [intros c Hc; apply (unsafe_chars c Hc)|done]..|done].
  change path with (String "/"%char (String "/"%char (host +:+ "/" +:+ str_join "/" segs))) at 1.
  cbv beta iota. change (is_slash true "/"%char) with true. cbv iota.
  unfold parse_authority.
  assert (drop_while (is_slash true) (path +:+ query_part q) =
          host +:+ String "/"%char (str_join "/" segs +:+ query_part q)) as ->.
  { unfold path. rewrite !append_assoc. destruct host as [|c host]; [done|].
    unfold plain_segment in Hhost. simpl in Hhost. rewrite !andb_true_iff in Hhost.
    destruct Hhost as [[[Hc _] _] _]. apply negb_true_iff, orb_false_iff in Hc as [_ Hc].
    change (drop_while (is_slash true) (String c (host +:+ "/" +:+ str_join "/" segs +:+ query_part q))
            = String c host +:+ String "/"%char (str_join "/" segs +:+ query_part q)).
    cbn [drop_while]. by rewrite Hc. }
  rewrite span_until_app; [|..|done].
  2:{ unfold plain_segment in Hhost. apply andb_true_iff in Hhost as [[Hh _]%andb_true_iff _].
      eapply sall_impl; [|exact Hh]. intros c. rewrite !negb_true_iff. intros Hc.
      destruct (unsafe_chars c Hc) as (_ & H1 & H2 & H3). unfold one_of in *. simpl in *.
      by rewrite H3, orb_false_r in *; rewrite H1, H2. }
  destruct (ph host) as [a|]; [|done].
  change (String "/"%char (str_join "/" segs +:+ query_part q))
    with (("/" +:+ str_join "/" segs) +:+ query_part q).
  rewrite cut_path_plain; [|apply plain_path_chars; [|done|done]..|done];
    try (intros c Hc; apply (unsafe_chars c Hc)).
  change (sdrop 1 ("/" +:+ str_join "/" segs)) with (str_join "/" segs).
  by rewrite parse_path_plain.
Qed.
