(* ===== verification/Forms.v ===== *)
(** * application/x-www-form-urlencoded

    [URLSearchParams]: its serializer and its parser, and that one undoes the other.
    Strings are their UTF-8 bytes. *)

From S2P Require Import Prelude Js Url.

Local Open Scope nat_scope.

(** The letters the serializer leaves as they are; the bytes of all others are
    written [%XX]. *)
Definition form_safe (c : Ascii.ascii) : bool :=
  is_alpha c || is_digit c || one_of "*-._" c.

Definition form_char (c : Ascii.ascii) : string :=
  if form_safe c then String c ""
  else if ascii_eqb c " "%char then "+" else percent (code c).

Fixpoint form_encode (s : string) : string :=
  match s with EmptyString => EmptyString | String c s' => form_char c +:+ form_encode s' end.

(** [new URLSearchParams(fields).toString()] *)
Definition URLSearchParams (fields : list (string * string)) : string :=
  str_join "&" (List.map (fun f => form_encode f.1 +:+ "=" +:+ form_encode f.2) fields).

(** ** The parser *)

Definition hex_value (c : Ascii.ascii) : option nat :=
  let n := code c in
  if is_digit c then Some (n - 48)
  else if Nat.leb 65 n && Nat.leb n 70 then Some (n - 55)
  else if Nat.leb 97 n && Nat.leb n 102 then Some (n - 87)
  else None.

Fixpoint form_decode (s : string) : string :=
  match s with
  | EmptyString => ""
  | String c s' =>
      if ascii_eqb c "+"%char then String " " (form_decode s')
      else if ascii_eqb c "%"%char then
        match s' with
        | String a (String b s'') =>
            match hex_value a, hex_value b with
            | Some x, Some y => String (Ascii.ascii_of_nat (x * 16 + y)) (form_decode s'')
            | _, _ => String c (form_decode s')
            end
        | _ => String c (form_decode s')
        end
      else String c (form_decode s')
  end.

(** A parameter is cut at its first [=]. *)
Definition parse_param (p : string) : string * string :=
  match split_on "="%char p with
  | [] => ("", "")
  | name :: value => (form_decode name, form_decode (str_join "=" value))
  end.

Definition parse_params (s : string) : list (string * string) :=
  List.map parse_param (List.filter truthy (split_on "&"%char s)).

(** [params.get(name)], [null] as [None]. *)
Definition param (name : string) (ps : list (string * string)) : option string :=
  snd <$> List.find (fun p => String.eqb p.1 name) ps.

(** ** Round trip *)

Lemma form_char_decode (c : Ascii.ascii) (t : string) : form_decode (form_char c +:+ t) = String c (form_decode t).
Proof. destruct c as [[] [] [] [] [] [] [] []]; reflexivity. Qed.

Lemma form_decode_encode (s : string) : form_decode (form_encode s) = s.
Proof. induction s as [|c s IH]; [done|]. cbn [form_encode]. by rewrite form_char_decode, IH. Qed.

(** No separator is written for a letter. *)
Definition separator (d : Ascii.ascii) : Prop := d = "&"%char \/ d = "="%char \/ d = "?"%char.

Lemma form_encode_occurs (d : Ascii.ascii) (s : string) : separator d -> occurs d (form_encode s) = false.
Proof.
  intros Hd. induction s as [|c s IH]; [done|]. cbn [form_encode]. rewrite occurs_app, IH, orb_false_r.
  destruct Hd as [-> | [-> | ->]]; destruct c as [[] [] [] [] [] [] [] []]; reflexivity.
Qed.

#[local] Hint Unfold separator : core.

Lemma parse_param_encoded (f : string * string) :
  parse_param (form_encode f.1 +:+ "=" +:+ form_encode f.2) = f.
Proof.
  destruct f as [n v]. unfold parse_param. cbn [fst snd].
  change ("=" +:+ form_encode v) with (String "="%char (form_encode v)).
  rewrite split_on_app_sep, split_on_no_sep by auto using form_encode_occurs.
  change (str_join "=" [form_encode v]) with (form_encode v). by rewrite !form_decode_encode.
Qed.

Lemma parse_URLSearchParams (fields : list (string * string)) : parse_params (URLSearchParams fields) = fields.
Proof.
  unfold parse_params, URLSearchParams. destruct fields as [|f l]; [done|].
  set (one := fun f : string * string => form_encode f.1 +:+ "=" +:+ form_encode f.2).
  rewrite split_on_join; [|done|].
  - induction (f :: l) as [|g l' IH]; [done|]. cbn [List.map List.filter].
    replace (truthy (one g)) with true by (unfold one; by destruct (form_encode g.1)).
    cbn [List.map]. rewrite IH. unfold one. by rewrite parse_param_encoded.
  - apply List.Forall_map, Forall_true. intros g. unfold one. by rewrite !occurs_app, !form_encode_occurs by auto.
Qed.

(** The serialized fields hold no question mark. *)
Lemma URLSearchParams_query (fields : list (string * string)) : occurs "?"%char (URLSearchParams fields) = false.
Proof.
  unfold URLSearchParams. induction fields as [|f [|g l] IH]; [done| |].
  - simpl. by rewrite !occurs_app, !form_encode_occurs by auto.
  - cbn [List.map] in *. change (str_join "&" (?x :: ?y :: ?l)) with (x +:+ "&" +:+ str_join "&" (y :: l)).
    rewrite !occurs_app, !form_encode_occurs, IH by auto. done.
Qed.
