(* ===== verification/StaticFiles.v ===== *)
(** * Static files

    [services/gateway/src/static.ts], over the POSIX half of [node:path] and
    [decodeURIComponent].  File names are their UTF-8 bytes; the file system is
    the function [stat]. *)

From S2P Require Import Prelude Js.

(** ** [decodeURIComponent] *)

Definition unhex (c : Ascii.ascii) : option nat :=
  let n := code c in
  if Nat.leb 48 n && Nat.leb n 57 then Some (n - 48)
  else if Nat.leb 65 n && Nat.leb n 70 then Some (n - 55)
  else if Nat.leb 97 n && Nat.leb n 102 then Some (n - 87)
  else None.

Definition unhex2 (a b : Ascii.ascii) : option nat :=
  match unhex a, unhex b with Some x, Some y => Some (16 * x + y) | _, _ => None end.

Definition between (lo hi n : nat) : bool := Nat.leb lo n && Nat.leb n hi.

(** What a first byte of UTF-8 asks of the following ones: how many, and the
    bounds of the next. *)
Definition utf8_lead (n : nat) : option (nat * nat * nat) :=
  if Nat.ltb n 128 then Some (0, 0, 0)
  else if between 194 223 n then Some (1, 128, 191)
  else if Nat.eqb n 224 then Some (2, 160, 191)
  else if Nat.eqb n 237 then Some (2, 128, 159)
  else if between 225 239 n then Some (2, 128, 191)
  else if Nat.eqb n 240 then Some (3, 144, 191)
  else if between 241 243 n then Some (3, 128, 191)
  else if Nat.eqb n 244 then Some (3, 128, 143)
  else None.

(** [need] continuation bytes are due, the next one between [lo] and [hi]. *)
Fixpoint decode_from (need lo hi : nat) (s : string) : option string :=
  match s with
  | EmptyString => if Nat.eqb need 0 then Some "" else None
  | String "%" (String a (String b s')) =>
      match unhex2 a b with
      | None => None
      | Some n =>
          match need with
          | O =>
              match utf8_lead n with
              | None => None
              | Some (need', lo', hi') =>
                  String (Ascii.ascii_of_nat n) <$> decode_from need' lo' hi' s'
              end
          | S need' =>
              if between lo hi n
              then String (Ascii.ascii_of_nat n) <$> decode_from need' 128 191 s'
              else None
          end
      end
  | String "%" _ => None
  | String c s' => if Nat.eqb need 0 then String c <$> decode_from 0 0 0 s' else None
  end.

(** [None] is the [URIError] it throws. *)
Definition decodeURIComponent (s : string) : option string := decode_from 0 0 0 s.

(** ** [node:path], POSIX *)

Definition is_absolute (p : string) : bool := starts_with "/" p.

(** The body of [normalizeString]: [acc] is the output so far, last segment first. *)
Fixpoint norm_segments (aboveRoot : bool) (acc segs : list string) : list string :=
  match segs with
  | [] => rev acc
  | seg :: segs' =>
      if bool_decide (seg = "") || bool_decide (seg = ".") then norm_segments aboveRoot acc segs'
      else if bool_decide (seg = "..") then
        match acc with
        | last :: acc' =>
            if bool_decide (last = "..") then
              norm_segments aboveRoot (if aboveRoot then ".." :: acc else acc) segs'
            else norm_segments aboveRoot acc' segs'
        | [] => norm_segments aboveRoot (if aboveRoot then [".."] else []) segs'
        end
      else norm_segments aboveRoot (seg :: acc) segs'
  end.

Definition normalize (p : string) : string :=
  match p with
  | EmptyString => "."
  | _ =>
      let abs := is_absolute p in
      let trailing := ends_with_char "/"%char p in
      let body := str_join "/" (norm_segments (negb abs) [] (split_on "/"%char p)) in
      match body with
      | EmptyString => if abs then "/" else if trailing then "./" else "."
      | _ => (if abs then "/" else "") +:+ body +:+ (if trailing then "/" else "")
      end
  end.

(** [join(a, b)] *)
Definition join2 (a b : string) : string :=
  normalize (if truthy a && truthy b then a +:+ "/" +:+ b else a +:+ b).

(** [resolve(p)] in the working directory [cwd]. *)
Definition resolve (cwd p : string) : string :=
  let full := if is_absolute p then p else cwd +:+ "/" +:+ p in
  "/" +:+ str_join "/" (norm_segments false [] (split_on "/"%char full)).

(** [extname(p)] *)
Definition basename_segment (p : string) : string :=
  default "" (List.hd_error (rev (List.filter truthy (split_on "/"%char p)))).

Definition extname (p : string) : string :=
  let base := basename_segment p in
  match rev (split_on "."%char base) with
  | last :: rest =>
      match rest with
      | [] => ""
      | [EmptyString] => ""
      | _ => if bool_decide (base = "..") then "" else "." +:+ last
      end
  | [] => ""
  end.

(** ** [static.ts] *)

Definition MIME : list (string * string) :=
  [(".html", "text/html; charset=utf-8"); (".js", "text/javascript; charset=utf-8");
   (".css", "text/css; charset=utf-8"); (".json", "application/json; charset=utf-8");
   (".svg", "image/svg+xml"); (".png", "image/png"); (".jpg", "image/jpeg");
   (".webp", "image/webp"); (".ico", "image/x-icon"); (".woff2", "font/woff2");
   (".map", "application/json; charset=utf-8")].

Definition assoc (k : string) (l : list (string * string)) : option string :=
  snd <$> List.find (fun kv => bool_decide (kv.1 = k)) l.

Record Stats := mkStats { isFile : bool; size : Z }.

(** The answer: a 200 with this file as its body. *)
Record FileResponse := mkFileResponse {
  filePath : string;
  contentType : string;
  contentLength : Z;
  cacheControl : string;
}.

Section Static.
(** The working directory, and [stat]: [None] where it throws. *)
Context (cwd : string) (stat : string -> option Stats).

Definition resolveWithin (root pathname : string) : option string :=
  match decodeURIComponent pathname with
  | None => None
  | Some decoded =>
      let candidate := resolve cwd (join2 root (normalize decoded)) in
      if bool_decide (candidate = root) || starts_with (root +:+ "/") candidate
      then Some candidate else None
  end.

(** [None]: not answered. *)
Definition sendFile (path cache : string) : option FileResponse :=
  match stat path with
  | None => None
  | Some stats =>
      if isFile stats then
        Some (mkFileResponse path
                (default "application/octet-stream" (assoc (extname path) MIME))
                (size stats) cache)
      else None
  end.

Definition serveStatic (root pathname : string) (acceptsHtml : bool) : option FileResponse :=
  match resolveWithin root pathname with
  | None => None
  | Some path =>
      let cache := if starts_with "/assets/" pathname
                   then "public, max-age=31536000, immutable" else "no-cache" in
      match (if bool_decide (pathname = "/") then None else sendFile path cache) with
      | Some answer => Some answer
      | None =>
          if negb acceptsHtml || truthy (extname pathname) then None
          else sendFile (join2 root "index.html") "no-cache"
      end
  end.
End Static.

(** ** Canonical paths *)

(** A segment that stays where it is. *)
Definition proper (s : string) : bool :=
  truthy s && negb (occurs "/"%char s) && negb (bool_decide (s = "."))
  && negb (bool_decide (s = "..")).

(** The absolute path of a list of segments. *)
Definition path_of (segs : list string) : string := "/" +:+ str_join "/" segs.

Lemma proper_spec (s : string) :
  proper s = true <-> s <> "" /\ occurs "/"%char s = false /\ s <> "." /\ s <> "..".
Proof.
  unfold proper. rewrite !andb_true_iff, !negb_true_iff, !bool_decide_eq_false.
  destruct s; simpl; naive_solver.
Qed.

Lemma norm_segments_proper (acc segs : list string) :
  forallb proper acc = true -> Forall (fun s => occurs "/"%char s = false) segs ->
  forallb proper (norm_segments false acc segs) = true.
Proof.
  intros Hacc Hsegs. revert acc Hacc.
  induction Hsegs as [|s segs Hs _ IH]; intros acc Hacc; simpl.
  - rewrite forallb_forall in *. intros x Hx%List.in_rev. by apply Hacc.
  - destruct (bool_decide (s = "")) eqn:E1, (bool_decide (s = ".")) eqn:E2; simpl; try by apply IH.
    destruct (bool_decide (s = "..")) eqn:E3.
    + destruct acc as [|l acc]; [by apply IH|]. simpl in Hacc. apply andb_true_iff in Hacc as [Hl Hacc].
      destruct (bool_decide (l = "..")); apply IH; [simpl; by rewrite Hl|done].
    + apply IH. simpl. rewrite Hacc, andb_true_r. apply proper_spec.
      by rewrite !bool_decide_eq_false in *.
Qed.

(** Proper segments are left alone. *)
Lemma norm_segments_id (above : bool) (acc segs : list string) :
  forallb proper segs = true -> norm_segments above acc segs = rev acc ++ segs.
Proof.
  revert acc. induction segs as [|s segs IH]; intros acc; simpl; [by rewrite app_nil_r|].
  intros [(H1 & _ & H2 & H3)%proper_spec Hsegs]%andb_true_iff.
  rewrite !bool_decide_eq_false_2 by done. simpl. rewrite IH by done. simpl.
  by rewrite <- app_assoc.
Qed.

Lemma norm_segments_app (acc a b : list string) :
  norm_segments false acc (a ++ b) = norm_segments false (rev (norm_segments false acc a)) b.
Proof.
  revert acc. induction a as [|s a IH]; intros acc; simpl; [by rewrite rev_involutive|].
  repeat case_match; apply IH.
Qed.

Lemma resolve_canonical (cwd p : string) :
  exists segs, forallb proper segs = true /\ resolve cwd p = path_of segs.
Proof.
  unfold resolve. eexists. split; [|done]. apply norm_segments_proper; [done|].
  apply split_on_pieces.
Qed.

Lemma split_on_join_app (c : Ascii.ascii) (l : list string) (t : string) :
  l <> [] -> Forall (fun w => occurs c w = false) l ->
  split_on c (str_join (String c "") l +:+ String c t) = l ++ split_on c t.
Proof.
  induction l as [|w l IH]; [done|]. intros _ Hall. inversion Hall as [|? ? Hw Hl]; subst.
  destruct l as [|v l]; [by apply split_on_app_sep|].
  change (str_join (String c "") (w :: v :: l))
    with (w +:+ String c (str_join (String c "") (v :: l))).
  rewrite append_assoc, append_cons, split_on_app_sep by done. by rewrite IH.
Qed.

Lemma proper_no_slash (segs : list string) :
  forallb proper segs = true -> Forall (fun w => occurs "/"%char w = false) segs.
Proof.
  rewrite forallb_forall. intros H. apply Forall_forall. intros x Hx%list_elem_of_In.
  by apply proper_spec, H.
Qed.

(** A string prefix that ends at a slash is a prefix of the segments. *)
Lemma path_prefix (rs segs : list string) :
  rs <> [] -> forallb proper rs = true -> forallb proper segs = true ->
  starts_with (path_of rs +:+ "/") (path_of segs) = true -> exists rest, segs = rs ++ rest.
Proof.
  intros Hne Hrs Hsegs [t Ht]%starts_with_spec. unfold path_of in Ht.
  rewrite !append_assoc in Ht. apply append_inj_l in Ht. exists (split_on "/"%char t).
  destruct segs as [|s segs].
  { destruct rs as [|[|a r] [|]]; done. }
  rewrite <- (split_on_join "/"%char (s :: segs)) by (try done; by apply proper_no_slash).
  rewrite Ht. apply (split_on_join_app "/"%char); [done|by apply proper_no_slash].
Qed.

Lemma truthy_join (segs : list string) :
  segs <> [] -> forallb proper segs = true -> truthy (str_join "/" segs) = true.
Proof.
  destruct segs as [|s segs]; [done|]. intros _ [(Hs & _)%proper_spec _]%andb_true_iff.
  by destruct s, segs.
Qed.

Lemma ends_with_app (c : Ascii.ascii) (s t : string) :
  truthy t = true -> ends_with_char c (s +:+ t) = ends_with_char c t.
Proof.
  intros Ht. induction s as [|a s IH]; [done|]. rewrite append_cons. simpl.
  destruct (s +:+ t) as [|b u] eqn:E; [|done].
  destruct s as [|? ?]; [|done]. rewrite append_nil_l in E. by subst.
Qed.

Lemma truthy_app_r (s t : string) : truthy t = true -> truthy (s +:+ t) = true.
Proof. by destruct s. Qed.

Lemma ends_with_none (c : Ascii.ascii) (s : string) :
  occurs c s = false -> ends_with_char c s = false.
Proof.
  induction s as [|a s IH]; [done|]. simpl. intros [H1 H2]%orb_false_iff.
  destruct s; [done|by apply IH].
Qed.

Lemma ends_with_join (segs : list string) :
  segs <> [] -> forallb proper segs = true -> ends_with_char "/"%char (str_join "/" segs) = false.
Proof.
  induction segs as [|s segs IH]; [done|]. intros _ [Hs Hsegs]%andb_true_iff.
  destruct segs as [|s' segs]; [by apply ends_with_none, proper_spec|].
  change (ends_with_char "/"%char (s +:+ "/" +:+ str_join "/" (s' :: segs)) = false).
  rewrite !ends_with_app; [by apply IH|by apply truthy_join|done].
Qed.

(** An absolute path without a trailing slash normalises to its segments. *)
Lemma normalize_abs (t : string) (segs : list string) :
  norm_segments false [] (split_on "/"%char ("/" +:+ t)) = segs ->
  segs <> [] -> forallb proper segs = true -> ends_with_char "/"%char ("/" +:+ t) = false ->
  normalize ("/" +:+ t) = path_of segs.
Proof.
  intros Hn Hne Hp Hend. unfold normalize. change ("/" +:+ t) with (String "/"%char t) in *.
  cbv beta iota zeta. change (is_absolute (String "/"%char t)) with true. cbn [negb].
  rewrite Hn, Hend. pose proof (truthy_join segs Hne Hp) as Ht.
  destruct (str_join "/" segs) as [|c u] eqn:E; [done|]. unfold path_of. rewrite E.
  by rewrite append_nil_r.
Qed.

Lemma normalize_path_of (segs : list string) :
  segs <> [] -> forallb proper segs = true -> normalize (path_of segs) = path_of segs.
Proof.
  intros Hne Hp. apply (normalize_abs (str_join "/" segs) segs); [|done|done|].
  - change (split_on "/"%char ("/" +:+ str_join "/" segs))
      with ("" :: split_on "/"%char (str_join "/" segs)).
    rewrite (split_on_join "/"%char) by (by try apply proper_no_slash).
    simpl. by rewrite norm_segments_id.
  - rewrite ends_with_app by (by apply truthy_join). by apply ends_with_join.
Qed.

(** Joining canonical paths concatenates their segments. *)
Lemma join2_paths (rs segs : list string) (slash : string) :
  segs <> [] -> forallb proper rs = true -> forallb proper segs = true ->
  slash = "" \/ slash = "/" ->
  join2 (path_of rs) (slash +:+ str_join "/" segs) = path_of (rs ++ segs).
Proof.
  intros Hne Hrs Hsegs Hslash. unfold join2.
  assert (truthy (slash +:+ str_join "/" segs) = true) as Ht.
  { destruct Hslash as [->| ->]; [by apply truthy_join|done]. }
  change (truthy (path_of rs)) with true. rewrite Ht. cbn [andb].
  unfold path_of at 1. rewrite append_assoc.
  assert (split_on "/"%char (slash +:+ str_join "/" segs) =
          (if truthy slash then [""] else []) ++ segs) as Hs.
  { destruct Hslash as [->| ->].
    - simpl. by rewrite ?append_nil_l, (split_on_join "/"%char) by (by try apply proper_no_slash).
    - change ("/" +:+ ?x) with (String "/"%char x). simpl.
      by rewrite (split_on_join "/"%char) by (by try apply proper_no_slash). }
  apply normalize_abs.
  - change ("/" +:+ str_join "/" rs +:+ "/" +:+ slash +:+ str_join "/" segs)
      with (String "/"%char (str_join "/" rs +:+ String "/"%char (slash +:+ str_join "/" segs))).
    cbn [split_on]. rewrite Ascii.eqb_refl.
    assert (norm_segments false [] (split_on "/"%char
      (str_join "/" rs +:+ String "/"%char (slash +:+ str_join "/" segs))) = rs ++ segs) as Hn.
    { destruct rs as [|r0 rs0] eqn:Er.
      - simpl. rewrite Hs.
        destruct Hslash as [->| ->]; simpl; by rewrite norm_segments_id.
      - rewrite <- Er in *. rewrite (split_on_join_app "/"%char rs)
          by (by try apply proper_no_slash; subst rs).
        rewrite norm_segments_app, (norm_segments_id false [] rs), Hs by done. simpl.
        destruct Hslash as [->| ->]; simpl; by rewrite norm_segments_id, rev_involutive. }
    exact Hn.
  - by destruct rs, segs.
  - by rewrite forallb_app, Hrs.
  - rewrite !ends_with_app by (repeat apply truthy_app_r; by apply truthy_join).
    by apply ends_with_join.
Qed.

Lemma resolve_path_of (cwd : string) (segs : list string) :
  segs <> [] -> forallb proper segs = true -> resolve cwd (path_of segs) = path_of segs.
Proof.
  intros Hne Hp. unfold resolve. change (is_absolute (path_of segs)) with true. cbv zeta iota.
  change (split_on "/"%char (path_of segs)) with ("" :: split_on "/"%char (str_join "/" segs)).
  rewrite (split_on_join "/"%char) by (by try apply proper_no_slash).
  simpl. by rewrite norm_segments_id.
Qed.

(** ** What the server of static files guarantees *)

Section Guarantees.
Context (cwd : string) (stat : string -> option Stats).

(** A root as [config.ts] computes it: [resolve(WEB_ROOT)]. *)
Context (rs : list string) (Hrs : forallb proper rs = true).

Abbreviation root := (path_of rs).

Lemma resolveWithin_inside (pathname c : string) :
  resolveWithin cwd root pathname = Some c ->
  exists rest, c = path_of (rs ++ rest) /\ forallb proper rest = true.
Proof.
  unfold resolveWithin. destruct (decodeURIComponent pathname) as [d|]; [|done].
  destruct (resolve_canonical cwd (join2 root (normalize d))) as (segs & Hsegs & ->).
  case_bool_decide as Heq; simpl.
  - intros [= <-]. exists []. by rewrite app_nil_r.
  - destruct (starts_with _ _) eqn:Hp; [|done]. intros [= <-].
    destruct rs as [|r0 rs0].
    + exfalso. apply starts_with_spec in Hp as [t Ht]. unfold path_of in Ht. simpl in Ht.
      rewrite !append_assoc in Ht. apply append_inj_l in Ht. rewrite append_nil_l in Ht.
      destruct segs as [|[|a s] segs]; [done|done|].
      destruct segs; simpl in Ht; rewrite ?append_cons in Ht; injection Ht as -> _;
        by apply andb_true_iff in Hsegs as [(_ & Ho & _)%proper_spec _].
    + destruct (path_prefix (r0 :: rs0) segs) as [rest ->]; [done|done|done|done|].
      exists rest. split; [done|]. rewrite forallb_app in Hsegs.
      by apply andb_true_iff in Hsegs as [_ ?].
Qed.

Lemma root_index : join2 root "index.html" = path_of (rs ++ ["index.html"]).
Proof. by apply (join2_paths rs ["index.html"] ""); [|done| |left]. Qed.

Lemma sendFile_Some (path cache : string) (f : FileResponse) :
  sendFile stat path cache = Some f ->
  filePath f = path /\ cacheControl f = cache /\
  exists st, stat path = Some st /\ isFile st = true /\ contentLength f = size st.
Proof.
  unfold sendFile. destruct (stat path) as [st|] eqn:E; [|done].
  destruct (isFile st) eqn:Ef; [|done]. intros [= <-]. split; [done|]. split; [done|].
  by exists st.
Qed.

(** C33: whatever path a client asks for, percent-encoded or not, the file that
    is sent is a regular file at the root or below it: its path is the root's
    segments followed by segments none of which is empty, [.], [..] or holds a
    slash. *)
Theorem static_inside_root (pathname : string) (acceptsHtml : bool) (f : FileResponse) :
  serveStatic cwd stat root pathname acceptsHtml = Some f ->
  exists rest st, filePath f = path_of (rs ++ rest) /\ forallb proper rest = true /\
    stat (filePath f) = Some st /\ isFile st = true /\ contentLength f = size st.
Proof.
  unfold serveStatic. destruct (resolveWithin cwd root pathname) as [path|] eqn:Hr; [|done].
  apply resolveWithin_inside in Hr as (rest & -> & Hrest).
  destruct (if bool_decide (pathname = "/") then None else _) as [f0|] eqn:Hsend.
  - intros [= <-]. case_bool_decide; [done|].
    apply sendFile_Some in Hsend as (Hp & _ & st & Hst & Hf & Hl).
    exists rest, st. by rewrite Hp.
  - destruct (negb acceptsHtml || _); [done|]. rewrite root_index.
    intros (Hp & _ & st & Hst & Hf & Hl)%sendFile_Some.
    exists ["index.html"], st. by rewrite Hp.
Qed.

Lemma decode_plain (s : string) :
  occurs "%"%char s = false -> decodeURIComponent s = Some s.
Proof.
  unfold decodeURIComponent. induction s as [|c s IH]; [done|]. cbn [occurs].
  intros [Hc Hs]%orb_false_iff. specialize (IH Hs).
  destruct c as [b0 b1 b2 b3 b4 b5 b6 b7].
  destruct b0, b1, b2, b3, b4, b5, b6, b7; try discriminate Hc; cbn [decode_from Nat.eqb];
    by rewrite IH.
Qed.

Lemma resolveWithin_plain (segs : list string) :
  segs <> [] -> rs <> [] -> forallb proper segs = true -> occurs "%"%char (path_of segs) = false ->
  resolveWithin cwd root (path_of segs) = Some (path_of (rs ++ segs)).
Proof.
  intros Hne Hne' Hp Hpct. unfold resolveWithin. rewrite decode_plain by done.
  rewrite normalize_path_of by done.
  change (join2 root (path_of segs)) with (join2 root ("/" +:+ str_join "/" segs)).
  rewrite (join2_paths rs segs "/") by (try done; by right).
  rewrite resolve_path_of; [|by destruct rs|by rewrite forallb_app, Hrs].
  assert (starts_with (root +:+ "/") (path_of (rs ++ segs)) = true) as ->; [|by rewrite orb_true_r].
  apply starts_with_spec. exists (str_join "/" segs). unfold path_of.
  rewrite !append_assoc. f_equal. clear Hrs Hpct Hp.
  induction rs as [|r rs' IH]; [done|]. destruct rs' as [|r' rs'].
  - destruct segs; [done|]. done.
  - change (str_join "/" ((r :: r' :: rs') ++ segs))
      with (r +:+ "/" +:+ str_join "/" ((r' :: rs') ++ segs)).
    change (str_join "/" (r :: r' :: rs')) with (r +:+ "/" +:+ str_join "/" (r' :: rs')).
    rewrite IH by done. by rewrite !append_assoc.
Qed.

(** A path of ordinary segments names the file of these segments under the
    root; it is served, cached for good under [/assets/] and revalidated
    elsewhere, when it exists; otherwise a browser navigation to a path without
    an extension gets [index.html], uncached, and anything else no answer. *)
Theorem static_serves (segs : list string) (acceptsHtml : bool) :
  segs <> [] -> forallb proper segs = true -> occurs "%"%char (path_of segs) = false -> rs <> [] ->
  serveStatic cwd stat root (path_of segs) acceptsHtml =
  match sendFile stat (path_of (rs ++ segs))
          (if starts_with "/assets/" (path_of segs)
           then "public, max-age=31536000, immutable" else "no-cache") with
  | Some f => Some f
  | None => if acceptsHtml && negb (truthy (extname (path_of segs)))
            then sendFile stat (path_of (rs ++ ["index.html"])) "no-cache" else None
  end.
Proof.
  intros Hne Hp Hpct Hne'. unfold serveStatic. rewrite resolveWithin_plain by done. cbv zeta.
  rewrite bool_decide_eq_false_2.
  2:{ unfold path_of. intros E. apply (append_inj_l "/" _ "") in E.
      pose proof (truthy_join segs Hne Hp) as Ht. by rewrite E in Ht. }
  rewrite root_index. destruct (sendFile stat _ _); [done|].
  by destruct acceptsHtml, (truthy (extname (path_of segs))).
Qed.
End Guarantees.

(** ** A concrete site *)

Module Site.
Definition stat (p : string) : option Stats :=
  if bool_decide (p ∈ ["/srv/web/index.html"; "/srv/web/assets/app.js"; "/srv/secret.pem"])
  then Some (mkStats true 10) else None.
End Site.

Lemma static_inside_root_witness :
  exists rest st, "/srv/web/index.html" = path_of (["srv"; "web"] ++ rest) /\
    forallb proper rest = true /\
    Site.stat "/srv/web/index.html" = Some st /\ isFile st = true /\ 10%Z = size st.
Proof.
  apply (static_inside_root "/" Site.stat ["srv"; "web"] eq_refl "/%2e%2e%2findex.html" true
    (mkFileResponse "/srv/web/index.html" "text/html; charset=utf-8" 10 "no-cache")).
  vm_compute. reflexivity.
Defined.

Lemma static_serves_witness :
  serveStatic "/" Site.stat "/srv/web" "/assets/app.js" true =
  Some (mkFileResponse "/srv/web/assets/app.js" "text/javascript; charset=utf-8" 10
          "public, max-age=31536000, immutable").
Proof.
  refine (eq_trans (static_serves "/" Site.stat ["srv"; "web"] eq_refl ["assets"; "app.js"] true
    _ _ _ _) _); [discriminate|reflexivity|reflexivity|discriminate|vm_compute; reflexivity].
Defined.

(** An encoded slash takes a path under [/assets/] back to the root, and
    [index.html] is then sent as immutable for a year. *)
Theorem index_html_sent_as_immutable :
  serveStatic "/" Site.stat "/srv/web" "/assets/..%2Findex.html" true =
  Some (mkFileResponse "/srv/web/index.html" "text/html; charset=utf-8" 10
          "public, max-age=31536000, immutable").
Proof. vm_compute. reflexivity. Qed.
