(* ===== verification/Json.v ===== *)
(** * JSON

    What [JSON.parse] returns and how the services look into it, [JSON.parse] and
    [JSON.stringify] themselves, and the round trip of the two.  A number is the
    exact rational its text names; text is UTF-8, so that a lone surrogate an
    escape names is read as U+FFFD. *)

From S2P Require Import Prelude Js World.
From Stdlib Require Import QArith.

Local Open Scope nat_scope.

Inductive json :=
| JNull
| JBool (b : bool)
| JNum (q : Q)
| JStr (s : string)
| JArr (l : list json)
| JObj (fields : list (string * json)).

(** [x.name]: [None] is [undefined]; [null.name] throws. *)
Definition get (name : string) (x : json) : result exn (option json) :=
  match x with
  | JNull => Err (TypeError ("Cannot read properties of null (reading '" +:+ name +:+ "')"))
  | JObj fields => Ok (snd <$> List.find (fun f => bool_decide (f.1 = name)) fields)
  | _ => Ok None
  end.

(** [x.name] of a value that is not [null]. *)
Definition field_of (name : string) (x : json) : option json :=
  match get name x with Ok v => v | Err _ => None end.

Definition as_string (x : option json) : option string :=
  match x with Some (JStr s) => Some s | _ => None end.

Definition as_number (x : option json) : option Q :=
  match x with Some (JNum q) => Some q | _ => None end.

(** ** JSON.stringify

    The numbers the services print are integers. *)

Definition quote_char : Ascii.ascii := Ascii.ascii_of_nat 34.
Definition backslash : Ascii.ascii := Ascii.ascii_of_nat 92.

Definition hex_lower (n : nat) : Ascii.ascii :=
  Ascii.ascii_of_nat (if Nat.ltb n 10 then 48 + n else 87 + n).

Definition escape_char (c : Ascii.ascii) : string :=
  let n := code c in
  if Nat.eqb n 34 then String backslash (String quote_char "")
  else if Nat.eqb n 92 then String backslash (String backslash "")
  else if Nat.eqb n 8 then String backslash "b"
  else if Nat.eqb n 9 then String backslash "t"
  else if Nat.eqb n 10 then String backslash "n"
  else if Nat.eqb n 12 then String backslash "f"
  else if Nat.eqb n 13 then String backslash "r"
  else if Nat.ltb n 32
  then String backslash ("u00" +:+ String (hex_lower (n / 16)) (String (hex_lower (n mod 16)) ""))
  else String c "".

Fixpoint escape (s : string) : string :=
  match s with
  | EmptyString => EmptyString
  | String c s' => escape_char c +:+ escape s'
  end.

Definition quote (s : string) : string :=
  String quote_char (escape s +:+ String quote_char "").

Fixpoint JSON_stringify (x : json) : string :=
  match x with
  | JNull => "null"
  | JBool b => if b then "true" else "false"
  | JNum q => string_of_Z (Qnum q)
  | JStr s => quote s
  | JArr l => "[" +:+ str_join "," (List.map JSON_stringify l) +:+ "]"
  | JObj fields =>
      "{" +:+ str_join "," (List.map (fun f => quote f.1 +:+ ":" +:+ JSON_stringify f.2) fields)
        +:+ "}"
  end.

(** ** JSON.parse *)

Definition is_space (c : Ascii.ascii) : bool :=
  let n := code c in Nat.eqb n 32 || Nat.eqb n 9 || Nat.eqb n 10 || Nat.eqb n 13.

Fixpoint skip_space (s : string) : string :=
  match s with
  | String c s' => if is_space c then skip_space s' else s
  | EmptyString => EmptyString
  end.

Definition hex_value (c : Ascii.ascii) : option nat :=
  let n := code c in
  if Nat.leb 48 n && Nat.leb n 57 then Some (n - 48)
  else if Nat.leb 97 n && Nat.leb n 102 then Some (n - 87)
  else if Nat.leb 65 n && Nat.leb n 70 then Some (n - 55)
  else None.

Definition hex4 (a b c d : Ascii.ascii) : option nat :=
  match hex_value a, hex_value b, hex_value c, hex_value d with
  | Some x, Some y, Some z, Some t => Some (((x * 16 + y) * 16 + z) * 16 + t)
  | _, _, _, _ => None
  end.

(** The UTF-8 bytes of a code point. *)
Definition utf8 (n : nat) : string :=
  let byte k := Ascii.ascii_of_nat k in
  if Nat.ltb n 128 then String (byte n) ""
  else if Nat.ltb n 2048 then String (byte (192 + n / 64)) (String (byte (128 + n mod 64)) "")
  else if Nat.ltb n 65536
  then String (byte (224 + n / 4096))
         (String (byte (128 + n / 64 mod 64)) (String (byte (128 + n mod 64)) ""))
  else String (byte (240 + n / 262144)) (String (byte (128 + n / 4096 mod 64))
         (String (byte (128 + n / 64 mod 64)) (String (byte (128 + n mod 64)) ""))).

Definition replacement : string := utf8 65533.

Definition simple_escape (c : Ascii.ascii) : option Ascii.ascii :=
  let n := code c in
  if Nat.eqb n 34 || Nat.eqb n 92 || Nat.eqb n 47 then Some c
  else Ascii.ascii_of_nat <$>
    (if Nat.eqb n 98 then Some 8 else if Nat.eqb n 116 then Some 9 else if Nat.eqb n 110 then Some 10
     else if Nat.eqb n 102 then Some 12 else if Nat.eqb n 114 then Some 13 else None).

Definition prepend (t : string) (r : option (string * string)) : option (string * string) :=
  match r with Some (s, rest) => Some (t +:+ s, rest) | None => None end.

(** A string literal after its opening quote, and what follows it. *)
Fixpoint string_body (s : string) : option (string * string) :=
  match s with
  | EmptyString => None
  | String c s' =>
      if ascii_eqb c quote_char then Some ("", s')
      else if ascii_eqb c backslash then
        match s' with
        | String e s1 =>
            if ascii_eqb e "u"%char then
              match s1 with
              | String a (String b (String c1 (String d s2))) =>
                  match hex4 a b c1 d with
                  | None => None
                  | Some n =>
                      if Nat.ltb n 55296 || Nat.ltb 57343 n then prepend (utf8 n) (string_body s2)
                      else match s2 with
                           | String x (String y (String a' (String b' (String c' (String d' s3))))) =>
                               match (if ascii_eqb x backslash && ascii_eqb y "u"%char
                                      then hex4 a' b' c' d' else None) with
                               | Some m =>
                                   if Nat.ltb n 56320 && Nat.leb 56320 m && Nat.leb m 57343
                                   then prepend (utf8 (65536 + (n - 55296) * 1024 + (m - 56320)))
                                          (string_body s3)
                                   else prepend replacement (string_body s2)
                               | None => prepend replacement (string_body s2)
                               end
                           | _ => prepend replacement (string_body s2)
                           end
                  end
              | _ => None
              end
            else match simple_escape e with
                 | Some d => prepend (String d "") (string_body s1)
                 | None => None
                 end
        | EmptyString => None
        end
      else if Nat.ltb (code c) 32 then None
      else prepend (String c "") (string_body s')
  end.

Definition is_dec (c : Ascii.ascii) : bool := Nat.leb 48 (code c) && Nat.leb (code c) 57.

Fixpoint span_digits (s : string) : string * string :=
  match s with
  | String c s' =>
      if is_dec c then let '(d, r) := span_digits s' in (String c d, r) else ("", s)
  | EmptyString => ("", "")
  end.

(** The number digits write, after those read already. *)
Fixpoint digits_value (acc : Z) (s : string) : Z :=
  match s with
  | String c s' => digits_value (acc * 10 + (Z.of_nat (code c) - 48)) s'
  | EmptyString => acc
  end.

(** The fraction: its digits. *)
Definition fraction (s : string) : option (string * string) :=
  match s with
  | String c s' =>
      if ascii_eqb c "."%char then
        let '(d, r) := span_digits s' in if truthy d then Some (d, r) else None
      else Some ("", s)
  | EmptyString => Some ("", s)
  end.

Definition exponent (s : string) : option (Z * string) :=
  match s with
  | String c s' =>
      if ascii_eqb c "e"%char || ascii_eqb c "E"%char then
        let '(sign, s1) := match s' with
                           | String g s1 => if ascii_eqb g "-"%char then ((-1)%Z, s1)
                                            else if ascii_eqb g "+"%char then (1%Z, s1)
                                            else (1%Z, s')
                           | EmptyString => (1%Z, s')
                           end in
        let '(d, r) := span_digits s1 in
        if truthy d then Some ((sign * digits_value 0 d)%Z, r) else None
      else Some (0%Z, s)
  | EmptyString => Some (0%Z, s)
  end.

Definition scaled (n e : Z) : Q :=
  if (e =? 0)%Z then inject_Z n else (inject_Z n * Qpower (inject_Z 10) e)%Q.

Definition parse_number (s : string) : option (Q * string) :=
  let '(sign, s1) := match s with
                     | String c s' => if ascii_eqb c "-"%char then ((-1)%Z, s') else (1%Z, s)
                     | EmptyString => (1%Z, s)
                     end in
  let '(whole, s2) := span_digits s1 in
  if negb (truthy whole) || starts_with "0" whole && negb (bool_decide (whole = "0")) then None
  else match fraction s2 with
       | None => None
       | Some (frac, s3) =>
           match exponent s3 with
           | None => None
           | Some (e, s4) =>
               Some (scaled (sign * digits_value 0 (whole +:+ frac))
                       (e - Z.of_nat (String.length frac)), s4)
           end
       end.

(** A later field of an object replaces an earlier one of its name. *)
Definition set_field (name : string) (v : json) (fields : list (string * json)) :
  list (string * json) :=
  if List.existsb (fun f => bool_decide (f.1 = name)) fields
  then List.map (fun f => if bool_decide (f.1 = name) then (name, v) else f) fields
  else fields ++ [(name, v)].

Definition literal (word : string) (v : json) (s : string) : option (json * string) :=
  if starts_with word s then Some (v, sdrop (String.length word) s) else None.

Fixpoint parse_value (fuel : nat) (s : string) : option (json * string) :=
  match fuel with
  | O => None
  | S fuel' =>
      match skip_space s with
      | EmptyString => None
      | String c s' =>
          if ascii_eqb c quote_char then
            match string_body s' with Some (x, r) => Some (JStr x, r) | None => None end
          else if ascii_eqb c "["%char then
            match skip_space s' with
            | String d r =>
                if ascii_eqb d "]"%char then Some (JArr [], r)
                else match parse_elements fuel' s' with
                     | Some (l, r') => Some (JArr l, r')
                     | None => None
                     end
            | EmptyString => None
            end
          else if ascii_eqb c "{"%char then
            match skip_space s' with
            | String d r =>
                if ascii_eqb d "}"%char then Some (JObj [], r)
                else match parse_members fuel' [] s' with
                     | Some (l, r') => Some (JObj l, r')
                     | None => None
                     end
            | EmptyString => None
            end
          else if ascii_eqb c "n"%char then literal "null" JNull (String c s')
          else if ascii_eqb c "t"%char then literal "true" (JBool true) (String c s')
          else if ascii_eqb c "f"%char then literal "false" (JBool false) (String c s')
          else match parse_number (String c s') with
               | Some (q, r) => Some (JNum q, r)
               | None => None
               end
      end
  end
with parse_elements (fuel : nat) (s : string) : option (list json * string) :=
  match fuel with
  | O => None
  | S fuel' =>
      match parse_value fuel' s with
      | None => None
      | Some (v, r) =>
          match skip_space r with
          | String c r' =>
              if ascii_eqb c "]"%char then Some ([v], r')
              else if ascii_eqb c ","%char then
                match parse_elements fuel' r' with
                | Some (l, r'') => Some (v :: l, r'')
                | None => None
                end
              else None
          | EmptyString => None
          end
      end
  end
with parse_members (fuel : nat) (before : list (string * json)) (s : string) :
  option (list (string * json) * string) :=
  match fuel with
  | O => None
  | S fuel' =>
      match skip_space s with
      | String c s' =>
          match (if ascii_eqb c quote_char then string_body s' else None) with
          | None => None
          | Some (name, r) =>
              match skip_space r with
              | String d r' =>
                  match (if ascii_eqb d ":"%char then parse_value fuel' r' else None) with
                  | None => None
                  | Some (v, r1) =>
                      match skip_space r1 with
                      | String e r2 =>
                          if ascii_eqb e "}"%char then Some (set_field name v before, r2)
                          else if ascii_eqb e ","%char
                          then parse_members fuel' (set_field name v before) r2
                          else None
                      | EmptyString => None
                      end
                  end
              | EmptyString => None
              end
          end
      | EmptyString => None
      end
  end.

(** Every call consumes a character or is the first on its text. *)
Definition JSON_parse (s : string) : result exn json :=
  match parse_value (2 * String.length s + 2) s with
  | Some (v, r) => if truthy (skip_space r) then Err (SyntaxError "Unexpected token") else Ok v
  | None => Err (SyntaxError "Unexpected end of JSON input")
  end.


(** ** The round trip *)

Lemma string_body_escape_char (c : Ascii.ascii) (t : string) :
  string_body (escape_char c +:+ t) = prepend (String c "") (string_body t).
Proof. destruct c as [[] [] [] [] [] [] [] []]; reflexivity. Qed.

Lemma string_body_escape (s rest : string) :
  string_body (escape s +:+ String quote_char rest) = Some (s, rest).
Proof.
  induction s as [|c s IH]; [reflexivity|].
  change (escape (String c s)) with (escape_char c +:+ escape s).
  by rewrite append_assoc, string_body_escape_char, IH.
Qed.

(** What may follow a number. *)
Definition ends_number (s : string) : bool :=
  match s with
  | String c _ =>
      negb (is_dec c || ascii_eqb c "."%char || ascii_eqb c "e"%char || ascii_eqb c "E"%char)
  | EmptyString => true
  end.

Fixpoint all_digits (s : string) : bool :=
  match s with String c s' => is_dec c && all_digits s' | EmptyString => true end.

Lemma all_digits_app (s t : string) : all_digits (s +:+ t) = all_digits s && all_digits t.
Proof.
  induction s as [|c s IH]; [done|]. rewrite append_cons. simpl. by rewrite IH, andb_assoc.
Qed.

Lemma digits_value_app (acc : Z) (s t : string) :
  digits_value acc (s +:+ t) = digits_value (digits_value acc s) t.
Proof. revert acc. induction s as [|c s IH]; intros acc; [done|]. rewrite append_cons. simpl. apply IH. Qed.

Lemma span_digits_app (s rest : string) :
  all_digits s = true -> ends_number rest = true -> span_digits (s +:+ rest) = (s, rest).
Proof.
  intros Hs Hr. induction s as [|c s IH].
  - destruct rest as [|c rest]; [done|]. rewrite append_nil_l. simpl in *.
    destruct (is_dec c); [done|done].
  - rewrite append_cons. simpl in *. apply andb_true_iff in Hs as [-> Hs]. by rewrite (IH Hs).
Qed.

Definition digit (n : Z) : Ascii.ascii := Ascii.ascii_of_nat (48 + Z.to_nat n).

(** How a natural number is written: its digits, without a leading zero. *)
Definition writes (n : Z) (d : string) : Prop :=
  all_digits d = true /\ truthy d = true /\ digits_value 0 d = n /\
  (starts_with "0" d = true -> d = "0").

Lemma below_10 (P : Z -> Prop) :
  Forall (fun k => P (Z.of_nat k)) (seq 0 10) -> forall n, (0 <= n < 10)%Z -> P n.
Proof.
  intros Hall n Hn. rewrite Forall_forall in Hall. rewrite <- (Z2Nat.id n) by lia.
  apply Hall, elem_of_seq. lia.
Qed.

Lemma writes_digit (n : Z) : (0 <= n < 10)%Z -> writes n (String (digit n) "").
Proof.
  revert n. apply below_10. unfold writes.
  repeat (constructor; [split; [reflexivity|split; [reflexivity|split; [reflexivity|]]];
                        vm_compute; first [reflexivity|discriminate]|]). constructor.
Qed.

Lemma starts_zero (c : Ascii.ascii) (s : string) :
  starts_with "0" (String c s) = ascii_eqb "0"%char c && true.
Proof. reflexivity. Qed.

Lemma writes_app (n k : Z) (d : string) :
  (0 < n)%Z -> (0 <= k < 10)%Z -> writes n d -> writes (n * 10 + k) (d +:+ String (digit k) "").
Proof.
  intros Hn Hk (Ha & Ht & Hv & Hz). destruct (writes_digit k Hk) as (Hda & _ & Hdv & _).
  split; [by rewrite all_digits_app, Ha, Hda|]. split; [by destruct d|]. split.
  - rewrite digits_value_app, Hv. cbn [digits_value] in *. lia.
  - intros Hs. destruct d as [|c d]; [done|]. rewrite append_cons, starts_zero in Hs.
    rewrite starts_zero in Hz. specialize (Hz Hs). simplify_eq. vm_compute in Hn. discriminate Hn.
Qed.

Lemma log2_div_10 (n : Z) : (10 <= n)%Z -> (Z.log2 (n / 10) < Z.log2 n)%Z.
Proof.
  intros Hn. apply Z.log2_lt_pow2; [apply Z.div_str_pos; lia|].
  pose proof (Z.log2_spec n ltac:(lia)) as [_ Hlt].
  rewrite Z.pow_succ_r in Hlt by apply Z.log2_nonneg.
  apply Z.div_lt_upper_bound; lia.
Qed.

Lemma digits_of_S (fuel : nat) (n : Z) (acc : string) :
  digits_of (S fuel) n acc =
  if (n <? 10)%Z then String (digit (n mod 10)) acc
  else digits_of fuel (n / 10) (String (digit (n mod 10)) acc).
Proof. reflexivity. Qed.

Lemma digits_of_writes (fuel : nat) (n : Z) (acc : string) :
  (0 <= n)%Z -> (Z.log2 n <= Z.of_nat fuel)%Z ->
  exists d, digits_of fuel n acc = d +:+ acc /\ writes n d.
Proof.
  revert n acc. induction fuel as [|fuel IH]; intros n acc Hn Hf.
  - assert (n = 0 \/ n = 1)%Z as [-> | ->].
    { destruct (decide (n <= 1)%Z); [lia|]. pose proof (Z.log2_pos n ltac:(lia)). lia. }
    + exists "0". split; [reflexivity|]. by apply (writes_digit 0).
    + exists "1". split; [reflexivity|]. by apply (writes_digit 1).
  - rewrite digits_of_S. destruct (Z.ltb_spec n 10) as [Hlt|Hge].
    + rewrite Z.mod_small by lia. exists (String (digit n) ""). split; [done|].
      apply writes_digit. lia.
    + pose proof (log2_div_10 n Hge). assert (0 < n / 10)%Z by (apply Z.div_str_pos; lia).
      destruct (IH (n / 10)%Z (String (digit (n mod 10)) acc)) as (d & -> & Hd); [lia|lia|].
      exists (d +:+ String (digit (n mod 10)) ""). split; [by rewrite append_assoc|].
      rewrite (Z.div_mod n 10) at 1 by lia. rewrite (Z.mul_comm 10).
      apply writes_app; [done|apply Z.mod_pos_bound; lia|done].
Qed.

Lemma string_of_Z_writes (n : Z) : (0 <= n)%Z -> writes n (string_of_Z n).
Proof.
  intros Hn. unfold string_of_Z. destruct (Z.ltb_spec n 0); [lia|].
  destruct (digits_of_writes (Z.to_nat (Z.log2 n)) n "") as (d & -> & Hd); [done| |by rewrite append_nil_r].
  rewrite Z2Nat.id; [done|apply Z.log2_nonneg].
Qed.

Lemma string_of_Z_neg (n : Z) : (n < 0)%Z -> string_of_Z n = "-" +:+ string_of_Z (- n).
Proof.
  intros Hn. unfold string_of_Z. destruct (Z.ltb_spec n 0); [|lia].
  destruct (Z.ltb_spec (- n) 0); [lia|done].
Qed.

(** The first character of a value decides how it is read. *)
Lemma dec_other (c : Ascii.ascii) :
  is_dec c = true \/ c = "-"%char ->
  is_space c = false /\ ascii_eqb c quote_char = false /\ ascii_eqb c "["%char = false /\
  ascii_eqb c "{"%char = false /\ ascii_eqb c "n"%char = false /\ ascii_eqb c "t"%char = false /\
  ascii_eqb c "f"%char = false /\ ascii_eqb c "]"%char = false /\
  (is_dec c = true -> ascii_eqb c "-"%char = false).
Proof.
  intros [Hc | ->]; [|done]. revert Hc.
  destruct c as [[] [] [] [] [] [] [] []]; vm_compute; intros Hc; (discriminate Hc || done).
Qed.

Lemma fraction_end (rest : string) : ends_number rest = true -> fraction rest = Some ("", rest).
Proof.
  destruct rest as [|c rest]; [done|]. simpl. rewrite negb_true_iff, !orb_false_iff.
  by intros [[[_ ->] _] _].
Qed.

Lemma exponent_end (rest : string) : ends_number rest = true -> exponent rest = Some (0%Z, rest).
Proof.
  destruct rest as [|c rest]; [done|]. simpl. rewrite negb_true_iff, !orb_false_iff.
  by intros [[_ ->] ->].
Qed.

Lemma parse_digits (n : Z) (sign : Z) (d rest : string) :
  writes n d -> ends_number rest = true ->
  (let '(whole, s2) := span_digits (d +:+ rest) in
   if negb (truthy whole) || starts_with "0" whole && negb (bool_decide (whole = "0")) then None
   else match fraction s2 with
        | None => None
        | Some (frac, s3) =>
            match exponent s3 with
            | None => None
            | Some (e, s4) =>
                Some (scaled (sign * digits_value 0 (whole +:+ frac))
                        (e - Z.of_nat (String.length frac)), s4)
            end
        end) = Some (inject_Z (sign * n), rest).
Proof.
  intros (Ha & Ht & Hv & Hz) Hr. rewrite span_digits_app, Ht by done.
  rewrite fraction_end, exponent_end, append_nil_r, Hv by done.
  destruct (starts_with "0" d); [|done]. by rewrite (Hz eq_refl).
Qed.

Lemma writes_cons (n : Z) (d : string) :
  writes n d -> exists c d', d = String c d' /\ is_dec c = true.
Proof.
  intros (Ha & Ht & _). destruct d as [|c d]; [done|]. exists c, d. split; [done|].
  cbn [all_digits] in Ha. by apply andb_true_iff in Ha as [].
Qed.

Lemma parse_number_int (n : Z) (rest : string) :
  ends_number rest = true ->
  parse_number (string_of_Z n +:+ rest) = Some (inject_Z n, rest) /\
  exists c s, string_of_Z n = String c s /\ (is_dec c = true \/ c = "-"%char).
Proof.
  intros Hr. destruct (Z.ltb_spec n 0) as [Hn|Hn].
  - rewrite string_of_Z_neg by done. pose proof (string_of_Z_writes (- n) ltac:(lia)) as Hw.
    split; [|exists "-"%char, (string_of_Z (- n)); by auto].
    pose proof (parse_digits (- n) (-1) _ _ Hw Hr) as Hp.
    rewrite append_assoc. unfold parse_number.
    change ("-" +:+ (string_of_Z (- n) +:+ rest)) with (String "-" (string_of_Z (- n) +:+ rest)).
    replace n with (-1 * - n)%Z at 2 by lia. exact Hp.
  - pose proof (string_of_Z_writes n Hn) as Hw. destruct (writes_cons _ _ Hw) as (c & d & Ed & Hc).
    split; [|exists c, d; auto]. pose proof (parse_digits n 1 _ _ Hw Hr) as Hp.
    rewrite Z.mul_1_l in Hp. rewrite <- Hp. unfold parse_number. rewrite Ed, append_cons.
    destruct (dec_other c (or_introl Hc)) as (_ & _ & _ & _ & _ & _ & _ & _ & Hm).
    rewrite (Hm Hc). by rewrite <- append_cons, <- Ed.
Qed.

(** Values [JSON.stringify] prints exactly: integers, and fields of distinct names. *)
Fixpoint printable (x : json) : Prop :=
  match x with
  | JNum q => Qden q = 1%positive
  | JArr l => fold_right (fun y P => printable y /\ P) True l
  | JObj fields =>
      NoDup (List.map fst fields) /\ fold_right (fun f P => printable f.2 /\ P) True fields
  | _ => True
  end.

(** The fuel a value needs. *)
Fixpoint need (x : json) : nat :=
  match x with
  | JArr l => S (sum_list (List.map (fun y => S (need y)) l))
  | JObj fields => S (sum_list (List.map (fun f => S (need f.2)) fields))
  | _ => 1
  end.

Abbreviation needs l := (sum_list (List.map (fun y => S (need y)) l)).
Abbreviation needs_fields l := (sum_list (List.map (fun f : string * json => S (need f.2)) l)).

Definition print_elements (l : list json) : string := str_join "," (List.map JSON_stringify l).

Definition print_fields (fields : list (string * json)) : string :=
  str_join "," (List.map (fun f => quote f.1 +:+ ":" +:+ JSON_stringify f.2) fields).

Lemma integral_num (q : Q) : Qden q = 1%positive -> q = inject_Z (Qnum q).
Proof. destruct q as [n d]. simpl. by intros ->. Qed.

(** A printed value begins with a character that is neither blank nor a bracket
    that closes a list. *)
Lemma stringify_head (x : json) (t : string) :
  exists c s, JSON_stringify x +:+ t = String c s /\ is_space c = false /\
    ascii_eqb c "]"%char = false.
Proof.
  destruct x as [|[]|q|s|l|fields]; try (by eexists _, _).
  destruct (parse_number_int (Qnum q) "" eq_refl) as (_ & c & s & E & Hc).
  destruct (dec_other c Hc) as (Hs & _ & _ & _ & _ & _ & _ & Hb & _).
  exists c, (s +:+ t). split; [|done]. change (JSON_stringify (JNum q)) with (string_of_Z (Qnum q)).
  by rewrite E.
Qed.

Lemma join_cons2 (x y : string) (l : list string) :
  str_join "," (x :: y :: l) = x +:+ "," +:+ str_join "," (y :: l).
Proof. reflexivity. Qed.

Lemma set_field_fresh (name : string) (v : json) (fields : list (string * json)) :
  name ∉ List.map fst fields -> set_field name v fields = fields ++ [(name, v)].
Proof.
  intros Hn. unfold set_field.
  destruct (List.existsb _ fields) eqn:E; [|done]. apply List.existsb_exists in E as (f & Hf & Ef).
  apply bool_decide_eq_true in Ef. destruct Hn. rewrite list_elem_of_In, List.in_map_iff. by exists f.
Qed.

(** What the three readers do with what was printed, given fuel. *)
Definition reads_value (fuel : nat) : Prop := forall x rest,
  printable x -> need x <= fuel -> ends_number rest = true ->
  parse_value fuel (JSON_stringify x +:+ rest) = Some (x, rest).

Definition reads_elements (fuel : nat) : Prop := forall l rest,
  l <> [] -> fold_right (fun y P => printable y /\ P) True l -> needs l <= fuel ->
  parse_elements fuel (print_elements l +:+ String "]" rest) = Some (l, rest).

Definition reads_members (fuel : nat) : Prop := forall fields before rest,
  fields <> [] -> NoDup (List.map fst (before ++ fields)) ->
  fold_right (fun f P => printable f.2 /\ P) True fields -> needs_fields fields <= fuel ->
  parse_members fuel before (print_fields fields +:+ String "}" rest) = Some (before ++ fields, rest).

Lemma skip_space_head (c : Ascii.ascii) (s : string) :
  is_space c = false -> skip_space (String c s) = String c s.
Proof. intros Hc. cbn [skip_space]. by rewrite Hc. Qed.

Lemma step_elements (fuel : nat) : reads_value fuel -> reads_elements fuel -> reads_elements (S fuel).
Proof.
  intros Hv Hl [|x [|y l]] rest; [done|..]; intros _ [Hx Hrest] Hneed;
    cbn [List.map sum_list sum_list_with] in Hneed.
  - change (print_elements [x]) with (JSON_stringify x). cbn [parse_elements].
    simpl in Hneed. by rewrite Hv by (done || lia).
  - unfold print_elements. cbn [List.map]. rewrite join_cons2, !append_assoc.
    change ("," +:+ ?u) with (String "," u). cbn [parse_elements].
    simpl in Hneed. rewrite Hv by (done || lia). rewrite skip_space_head by done.
    change (str_join "," (JSON_stringify y :: List.map JSON_stringify l)) with (print_elements (y :: l)).
    change (ascii_eqb "," "]") with false. cbv iota. rewrite Ascii.eqb_refl.
    rewrite Hl; [done|done|done|simpl; lia].
Qed.

Lemma step_members (fuel : nat) : reads_value fuel -> reads_members fuel -> reads_members (S fuel).
Proof.
  intros Hv Hl [|[k x] fields] before rest; [done|]. intros _ Hnd [Hx Hrest] Hneed.
  assert (k ∉ List.map fst before) as Hk.
  { rewrite List.map_app in Hnd. apply NoDup_app in Hnd as (_ & Hd & _). intros Hin.
    apply (Hd k Hin). simpl. by left. }
  assert (before ++ (k, x) :: fields = (before ++ [(k, x)]) ++ fields) as Eapp by (by rewrite <- app_assoc).
  simpl in Hneed, Hx. destruct fields as [|[k' y] fields].
  - change (print_fields [(k, x)]) with (quote k +:+ ":" +:+ JSON_stringify x).
    unfold quote. rewrite !append_assoc, !append_cons, !append_assoc, !append_cons, !append_nil_l.
    cbn [parse_members]. rewrite skip_space_head by done. rewrite Ascii.eqb_refl, string_body_escape.
    rewrite skip_space_head by done. rewrite Ascii.eqb_refl, Hv by (done || lia).
    rewrite skip_space_head by done. by rewrite Ascii.eqb_refl, set_field_fresh.
  - unfold print_fields. cbn [List.map fst snd]. rewrite join_cons2.
    change (str_join "," _) with (print_fields ((k', y) :: fields)).
    unfold quote. rewrite !append_assoc, !append_cons, !append_assoc, !append_cons, !append_nil_l.
    cbn [parse_members]. rewrite skip_space_head by done. rewrite Ascii.eqb_refl, string_body_escape.
    rewrite skip_space_head by done. rewrite Ascii.eqb_refl.
    rewrite Hv by (done || lia). rewrite skip_space_head by done.
    change (ascii_eqb "," "}") with false. cbv iota. rewrite Ascii.eqb_refl, set_field_fresh by done.
    rewrite Eapp. apply Hl; [done| |done|simpl in *; lia]. by rewrite <- Eapp.
Qed.

Lemma step_value (fuel : nat) : reads_elements fuel -> reads_members fuel -> reads_value (S fuel).
Proof.
  intros Hl Hm x rest Hx Hneed Hr. destruct x as [|[]|q|s|l|fields]; try reflexivity.
  - change (JSON_stringify (JNum q)) with (string_of_Z (Qnum q)).
    destruct (parse_number_int (Qnum q) rest Hr) as (Hp & c & s & E & Hc).
    rewrite E, append_cons in *. destruct (dec_other c Hc) as (Hs & H1 & H2 & H3 & H4 & H5 & H6 & _).
    cbn [parse_value]. rewrite skip_space_head, H1, H2, H3, H4, H5, H6, Hp by done.
    by rewrite <- (integral_num q Hx).
  - change (JSON_stringify (JStr s)) with (quote s). unfold quote.
    rewrite append_cons, append_assoc, append_cons, append_nil_l. cbn [parse_value].
    rewrite skip_space_head by done. by rewrite Ascii.eqb_refl, string_body_escape.
  - change (JSON_stringify (JArr l)) with ("[" +:+ (print_elements l +:+ "]")).
    rewrite append_assoc, append_assoc. change ("]" +:+ rest) with (String "]" rest).
    destruct l as [|x l]; [done|]. destruct Hx as [Hx Hrest].
    change ("[" +:+ ?u) with (String "[" u). cbn [parse_value]. rewrite skip_space_head by done.
    change (ascii_eqb "[" quote_char) with false. cbv iota. rewrite Ascii.eqb_refl.
    assert (exists c u, print_elements (x :: l) +:+ String "]" rest = String c u /\
      is_space c = false /\ ascii_eqb c "]"%char = false) as (c & u & E & Hs & Hb).
    { destruct l as [|y l]; [apply stringify_head|]. unfold print_elements. cbn [List.map].
      rewrite join_cons2, append_assoc. apply stringify_head. }
    rewrite E, skip_space_head, Hb by done. rewrite <- E.
    by rewrite Hl; [|done|split; [exact Hx|exact Hrest]|simpl in *; lia].
  - change (JSON_stringify (JObj fields)) with ("{" +:+ (print_fields fields +:+ "}")).
    rewrite append_assoc, append_assoc. change ("}" +:+ rest) with (String "}" rest).
    destruct fields as [|f fields]; [done|]. destruct Hx as [Hnd Hrest].
    change ("{" +:+ ?u) with (String "{" u). cbn [parse_value]. rewrite skip_space_head by done.
    change (ascii_eqb "{" quote_char) with false. change (ascii_eqb "{" "[") with false. cbv iota.
    rewrite Ascii.eqb_refl.
    assert (exists u, print_fields (f :: fields) +:+ String "}" rest = String quote_char u) as (u & E).
    { destruct fields as [|g fields]; by eexists. }
    rewrite E, skip_space_head by done. change (ascii_eqb quote_char "}") with false. cbv iota.
    rewrite <- E. by rewrite Hm; [|done|exact Hnd|exact Hrest|simpl in *; lia].
Qed.

Lemma readers (fuel : nat) : reads_value fuel /\ reads_elements fuel /\ reads_members fuel.
Proof.
  induction fuel as [|fuel (Hv & Hl & Hm)].
  - split; [|split].
    + intros x rest _ Hneed. destruct x; simpl in Hneed; lia.
    + intros [|x l] rest; [done|]. simpl. lia.
    + intros [|f l] before rest; [done|]. simpl. lia.
  - split; [by apply step_value|]. split; [by apply step_elements|by apply step_members].
Qed.

Lemma length_append (s t : string) : String.length (s +:+ t) = String.length s + String.length t.
Proof. induction s as [|c s IH]; [done|]. rewrite append_cons. simpl. by rewrite IH. Qed.

(** The fuel [JSON_parse] gives is enough. *)
Lemma length_join (l : list string) :
  sum_list (List.map (fun s => S (String.length s)) l) <= S (String.length (str_join "," l)).
Proof.
  induction l as [|x [|y l] IH]; [simpl; lia|simpl; lia|].
  rewrite join_cons2, !length_append. simpl in *. lia.
Qed.

Lemma need_bound (x : json) : need x <= 2 * String.length (JSON_stringify x).
Proof.
  revert x. fix IH 1. intros [|[]|q|s|l|fields]; try (simpl; lia).
  - change (JSON_stringify (JNum q)) with (string_of_Z (Qnum q)).
    destruct (parse_number_int (Qnum q) "" eq_refl) as (_ & c & s & -> & _). simpl. lia.
  - change (JSON_stringify (JArr l)) with ("[" +:+ (print_elements l +:+ "]")).
    rewrite !length_append. simpl String.length.
    pose proof (length_join (List.map JSON_stringify l)) as Hj. fold (print_elements l) in Hj.
    assert (needs l <= 2 * sum_list (List.map (fun s => S (String.length s)) (List.map JSON_stringify l))).
    { clear Hj. induction l as [|x l IHl]; [done|]. simpl. specialize (IH x). lia. }
    cbn [need]. lia.
  - change (JSON_stringify (JObj fields)) with ("{" +:+ (print_fields fields +:+ "}")).
    rewrite !length_append. simpl String.length.
    pose proof (length_join (List.map (fun f => quote f.1 +:+ ":" +:+ JSON_stringify f.2) fields)) as Hj.
    fold (print_fields fields) in Hj.
    assert (needs_fields fields <= 2 * sum_list (List.map (fun s => S (String.length s))
      (List.map (fun f => quote f.1 +:+ ":" +:+ JSON_stringify f.2) fields))).
    { clear Hj. induction fields as [|f fields IHl]; [done|]. simpl. specialize (IH f.2).
      rewrite !length_append. simpl. lia. }
    cbn [need]. lia.
Qed.

(** [JSON.parse(JSON.stringify(x))] is [x]. *)
Lemma JSON_parse_stringify (x : json) : printable x -> JSON_parse (JSON_stringify x) = Ok x.
Proof.
  intros Hx. unfold JSON_parse. rewrite <- (append_nil_r (JSON_stringify x)) at 2.
  destruct (readers (2 * String.length (JSON_stringify x) + 2)) as (Hv & _).
  rewrite Hv; [done|done| |done]. pose proof (need_bound x). lia.
Qed.
