(* ===== verification/Gateway.v ===== *)
(** * The gateway

    [services/gateway/src]: [routes.ts], [jwt.ts], [proxy.ts], [http.ts] and the
    request handler of [server.ts].  The handler reads and writes its state
    before its only [await], so one request is one step; what happens to a
    forwarded request afterwards is the state machine [exchange]. *)

From S2P Require Import Prelude Js World Regex RateLimit Url StaticFiles Json.
From Stdlib Require Import QArith.

Local Open Scope Z_scope.

(** ** Configuration and routes *)

Record GatewayConfig := mkConfig {
  publicKey : string;
  issuer : string;
  audience : string;
  userManagementUrl : string;
  emailIngestionUrl : string;
  webRoot : option string;
}.

Record Route := mkRoute {
  prefix : string;
  rt_target : string;
  requiresAuth : bool;
  stripPrefix : option string;
}.

Definition buildRoutes (config : GatewayConfig) : list Route :=
  [ mkRoute "/api/auth" (userManagementUrl config) false (Some "/api");
    mkRoute "/api/users" (userManagementUrl config) true (Some "/api");
    mkRoute "/api/accounts" (emailIngestionUrl config) true (Some "/api");
    mkRoute "/oauth" (emailIngestionUrl config) false None ].

Definition matchRoute (routes : list Route) (path : string) : option Route :=
  List.find (fun route => bool_decide (path = prefix route)
                          || starts_with (prefix route +:+ "/") path) routes.

(** A path of segments lies under a prefix of segments exactly when it starts
    with them: the boundary is a slash, never the middle of a segment. *)
Lemma under_prefix (ps segs : list string) :
  ps <> [] -> segs <> [] ->
  Forall (fun w => occurs "/"%char w = false) ps ->
  Forall (fun w => occurs "/"%char w = false) segs ->
  bool_decide (path_of segs = path_of ps) || starts_with (path_of ps +:+ "/") (path_of segs) =
  bool_decide (take (length ps) segs = ps).
Proof.
  intros Hps Hsegs Hp Hs. apply eq_true_iff_eq.
  rewrite orb_true_iff, !bool_decide_eq_true, starts_with_spec. unfold path_of. split.
  - intros [E|[t E]].
    + apply append_inj_l, (f_equal (split_on "/"%char)) in E.
      rewrite !(split_on_join "/"%char) in E by done. subst. apply firstn_all.
    + rewrite !append_assoc in E. change ("/" +:+ t) with (String "/"%char t) in E.
      apply append_inj_l, (f_equal (split_on "/"%char)) in E.
      rewrite (split_on_join "/"%char), (split_on_join_app "/"%char) in E by done.
      rewrite E. apply take_app_length.
  - intros E. destruct (drop (length ps) segs) as [|r rest] eqn:Er.
    + left. f_equal. f_equal. rewrite <- (take_drop (length ps) segs). by rewrite E, Er, app_nil_r.
    + right. exists (str_join "/" (r :: rest)). rewrite !append_assoc. f_equal.
      rewrite <- (take_drop (length ps) segs), E, Er. clear -Hps.
      induction ps as [|p ps IH]; [done|]. destruct ps as [|p' ps]; [done|].
      change (str_join "/" ((p :: p' :: ps) ++ r :: rest))
        with (p +:+ "/" +:+ str_join "/" ((p' :: ps) ++ r :: rest)).
      change (str_join "/" (p :: p' :: ps)) with (p +:+ "/" +:+ str_join "/" (p' :: ps)).
      rewrite IH by done. by rewrite !append_assoc.
Qed.

(** A path is routed by its first segments alone: [/api/auth] and [/oauth] are
    public, [/api/users] and [/api/accounts] need a token, each goes to its own
    service, and a longer word such as [/api/authorization] matches nothing. *)
Theorem route_by_segments (config : GatewayConfig) (segs : list string) :
  segs <> [] -> Forall (fun w => occurs "/"%char w = false) segs ->
  matchRoute (buildRoutes config) (path_of segs) =
  if bool_decide (take 2 segs = ["api"; "auth"])
  then Some (mkRoute "/api/auth" (userManagementUrl config) false (Some "/api"))
  else if bool_decide (take 2 segs = ["api"; "users"])
  then Some (mkRoute "/api/users" (userManagementUrl config) true (Some "/api"))
  else if bool_decide (take 2 segs = ["api"; "accounts"])
  then Some (mkRoute "/api/accounts" (emailIngestionUrl config) true (Some "/api"))
  else if bool_decide (take 1 segs = ["oauth"])
  then Some (mkRoute "/oauth" (emailIngestionUrl config) false None)
  else None.
Proof.
  intros Hne Hs. unfold matchRoute, buildRoutes. cbn [List.find prefix].
  change "/api/auth" with (path_of ["api"; "auth"]).
  change "/api/users" with (path_of ["api"; "users"]).
  change "/api/accounts" with (path_of ["api"; "accounts"]).
  change "/oauth" with (path_of ["oauth"]).
  rewrite !under_prefix; try done; try (apply (bool_decide_unpack _); vm_compute; exact I).
Qed.

(** ** Headers *)

(** Node joins repeated headers, except [set-cookie], which is an array. *)
Inductive hval := One (s : string) | Many (l : list string).

#[export] Instance hval_eq_dec : EqDecision hval.
Proof. solve_decision. Defined.

Definition headers := list (string * hval).

Definition header (name : string) (hs : headers) : option string :=
  match List.find (fun h => bool_decide (h.1 = name)) hs with
  | Some (_, One s) => Some s
  | _ => None
  end.

(** [hs[name] = value] *)
Fixpoint set_header (name value : string) (hs : headers) : headers :=
  match hs with
  | [] => [(name, One value)]
  | (n, v) :: hs' =>
      if bool_decide (n = name) then (name, One value) :: hs'
      else (n, v) :: set_header name value hs'
  end.

(** [res.writeHead] after [res.setHeader('x-request-id', ...)]: what was set before goes
    out too, unless it is written again. *)
Definition write_head (requestId : string) (hs : headers) : headers :=
  match List.find (fun h => bool_decide (h.1 = "x-request-id")) hs with
  | Some _ => hs
  | None => ("x-request-id", One requestId) :: hs
  end.

Definition HOP_BY_HOP : list string :=
  ["connection"; "keep-alive"; "proxy-authenticate"; "proxy-authorization"; "te"; "trailer";
   "transfer-encoding"; "upgrade"].

Definition forwardable (hs : headers) : headers :=
  List.filter (fun h => negb (bool_decide (h.1 ∈ HOP_BY_HOP) || bool_decide (h.1 = "host"))) hs.

(** ** Requests and answers *)

Record Request := mkRequest {
  method : option string;
  rawUrl : option string;
  reqHeaders : headers;
  remoteAddress : option string;
}.

Record Response := mkResponse {
  status : Z;
  resHeaders : headers;
  body : string;
}.

Record Upstream := mkUpstream {
  up_authority : string;
  up_path : string;
  up_method : option string;
  up_headers : headers;
}.

Inductive Answer :=
| Reply (r : Response)
| SendFile (f : FileResponse)
| Forward (u : Upstream)
| Uncaught (e : exn).   (* the process logs it and exits with code 1 *)

Record AuthenticatedUser := mkAuthenticatedUser { id : string; role : string }.

(** ** The handler *)

Section Gateway.
Context {KeyObject : Type}.
(** [node:crypto]: [createPublicKey(pem)], which throws on a bad PEM, and
    [verify('RSA-SHA256', data, key, signature)]. *)
Context (createPublicKey : string -> result exn KeyObject)
        (verify : string -> KeyObject -> string -> bool).
(** [Buffer.from(x, 'base64url')], [toString('utf8')] and [JSON.parse]. *)
Context (base64url utf8 : string -> string) (JSON_parse : string -> result exn json).
(** [JSON.stringify(body)], and [String(x)] of a JSON value. *)
Context (stringify : json -> string) (String_of : option json -> string).
(** The host parser of [new URL], and its other schemes. *)
Context (parse_host : string -> option string) (parse_other : string -> string -> option url).
(** The file system. *)
Context (cwd : string) (stat : string -> option Stats).
Context (config : GatewayConfig).

(** The counters of the limiter and the module variable [cached] of [jwt.ts]. *)
Record gateway := mkGateway {
  counters : gmap string Limiter.Counter;
  cached : option (string * KeyObject);
}.

(** *** jwt.ts *)

Definition decodeSegment (segment : string) : result exn json := JSON_parse (utf8 (base64url segment)).

Definition publicKeyFor (pem : string) (c : option (string * KeyObject)) :
  result exn KeyObject * option (string * KeyObject) :=
  match c with
  | Some (pem', key) =>
      if bool_decide (pem' = pem) then (Ok key, c)
      else match createPublicKey pem with
           | Ok key' => (Ok key', Some (pem, key'))
           | Err e => (Err e, c)
           end
  | None => match createPublicKey pem with
            | Ok key' => (Ok key', Some (pem, key'))
            | Err e => (Err e, c)
            end
  end.

(** The claims, once the signature checks out; [now] in milliseconds. *)
Definition checkClaims (payload : json) (now : Z) : result exn AuthenticatedUser :=
  match get "exp" payload with
  | Err e => Err e
  | Ok exp =>
      match as_number exp with
      | None => Err (TokenError "Token expired")
      | Some e =>
          if Qle_bool e (inject_Z (now / 1000)) then Err (TokenError "Token expired")
          else if negb (bool_decide (as_string (field_of "iss" payload) = Some (issuer config)))
          then Err (TokenError "Unexpected issuer")
          else if negb (bool_decide (as_string (field_of "aud" payload) = Some (audience config)))
          then Err (TokenError "Unexpected audience")
          else match as_string (field_of "sub" payload), as_string (field_of "role" payload) with
               | Some s, Some r => Ok (mkAuthenticatedUser s r)
               | _, _ => Err (TokenError "Token missing sub or role")
               end
      end
  end.

Definition verifyAccessToken (token : string) (now : Z) (c : option (string * KeyObject)) :
  result exn AuthenticatedUser * option (string * KeyObject) :=
  match split_on "."%char token with
  | [headerSegment; payloadSegment; signatureSegment] =>
      match decodeSegment headerSegment with
      | Err e => (Err e, c)
      | Ok h =>
          match get "alg" h with
          | Err e => (Err e, c)
          | Ok alg =>
              if negb (bool_decide (as_string alg = Some "RS256"))
              then (Err (TokenError ("Unexpected alg: " +:+ String_of alg)), c)
              else
                match publicKeyFor (publicKey config) c with
                | (Err e, c') => (Err e, c')
                | (Ok key, c') =>
                    if negb (verify (headerSegment +:+ "." +:+ payloadSegment) key
                               (base64url signatureSegment))
                    then (Err (TokenError "Signature verification failed"), c')
                    else match decodeSegment payloadSegment with
                         | Err e => (Err e, c')
                         | Ok payload => (checkClaims payload now, c')
                         end
                end
          end
      end
  | _ => (Err (TokenError "Malformed token"), c)
  end.

(** *** http.ts *)

Definition json_reply (requestId : string) (st : Z) (b : json) (extra : headers) : Response :=
  let payload := stringify b in
  mkResponse st
    (write_head requestId
       (set_header "content-length" (string_of_Z (Z.of_nat (String.length payload)))
          (set_header "content-type" "application/json; charset=utf-8" extra)))
    payload.

(** The head of a file (static.ts, [sendFile]). *)
Definition file_head (requestId : string) (f : FileResponse) : Z * headers :=
  (200, write_head requestId
    [("content-type", One (contentType f)); ("content-length", One (string_of_Z (contentLength f)));
     ("cache-control", One (cacheControl f))]).

Definition error_body (st : Z) (msg : string) : json :=
  JObj [("statusCode", JNum (inject_Z st)); ("message", JStr msg)].

(** *** proxy.ts *)

Definition proxy (req : Request) (target requestId path : string) : Answer :=
  match new_URL_absolute parse_host parse_other target with
  | None => Uncaught (TypeError "Invalid URL")
  | Some base =>
      match new_URL parse_host parse_other path base with
      | None => Uncaught (TypeError "Invalid URL")
      | Some u =>
          if bool_decide (protocol u = "http") then
            Forward (mkUpstream (authority u) (pathname u +:+ search u) (method req)
              (set_header "x-request-id" requestId
                (set_header "x-forwarded-host" (default "" (header "host" (reqHeaders req)))
                  (set_header "x-forwarded-proto" "http"
                    (set_header "x-forwarded-for" (default "" (remoteAddress req))
                      (forwardable (reqHeaders req)))))))
          else Uncaught (TypeError ("Protocol " +:+ protocol u +:+ ": not supported"))
      end
  end.

(** *** server.ts *)

Definition bearerToken (req : Request) : option string :=
  match header "authorization" (reqHeaders req) with
  | Some h => if starts_with "Bearer " h then or_undefined (trim (sdrop 7 h)) else None
  | None => None
  end.

(** The base of [new URL(req.url ?? '/', 'http://gateway.invalid')]. *)
Definition gateway_invalid : url := mkUrl "http" "gateway.invalid" [""] "" None.

Definition upstreamPath (route : Route) (req : Request) : string :=
  let u := default "/" (rawUrl req) in
  match stripPrefix route with
  | Some p => default "/" (or_undefined (sdrop (String.length p) u))
  | None => u
  end.

(** A request whose route is known. *)
Definition forward (route : Route) (req : Request) (requestId path : string) (now : Z)
    (g : gateway) : Answer * gateway :=
  let reject := Reply (json_reply requestId 401 (error_body 401 "Invalid token") []) in
  if requiresAuth route then
    match bearerToken req with
    | None => (reject, g)
    | Some token =>
        let '(r, c') := verifyAccessToken token now (cached g) in
        let g' := mkGateway (counters g) c' in
        match r with
        | Err _ => (reject, g')
        | Ok _ => (proxy req (rt_target route) requestId (upstreamPath route req), g')
        end
    end
  else (proxy req (rt_target route) requestId (upstreamPath route req), g).

(** A request no route matches. *)
Definition serve (req : Request) (requestId path : string) : Answer :=
  let not_found := Reply (json_reply requestId 404 (error_body 404 "Not found") []) in
  match webRoot config with
  | Some root =>
      if truthy root && (bool_decide (method req = Some "GET") || bool_decide (method req = Some "HEAD"))
      then match serveStatic cwd stat root path
                   (match header "accept" (reqHeaders req) with
                    | Some a => includes "text/html" a
                    | None => false
                    end) with
           | Some f => SendFile f
           | None => not_found
           end
      else not_found
  | None => not_found
  end.

Definition handle (req : Request) (requestId : string) (now : Z) (g : gateway) :
  Answer * gateway :=
  if bool_decide (method req = Some "GET") && bool_decide (rawUrl req = Some "/health") then
    (Reply (json_reply requestId 200 (JObj [("status", JStr "ok"); ("service", JStr "gateway")]) []), g)
  else
    match new_URL parse_host parse_other (default "/" (rawUrl req)) gateway_invalid with
    | None => (Uncaught (TypeError "Invalid URL"), g)
    | Some u =>
        let path := pathname u in
        let client := default "unknown" (remoteAddress req) in
        let '(decision, counters') :=
          Limiter.check Limiter.WINDOW_MS client (default "GET" (method req)) path now (counters g) in
        let g' := mkGateway counters' (cached g) in
        if Limiter.allowed decision then
          match matchRoute (buildRoutes config) path with
          | None => (serve req requestId path, g')
          | Some route => forward route req requestId path now g'
          end
        else
          (Reply (json_reply requestId 429 (error_body 429 "Too many requests")
             [("retry-after", One (string_of_Z (Limiter.retryAfterSeconds decision)))]), g')
    end.

(** *** The life of a forwarded request

    What [node:http] reports about the upstream request and the client's
    connection, and what [proxy] does about it.  [writes] are the heads written
    to the client, newest first: a second [writeHead] would throw. *)

Inductive event :=
| UpstreamResponse (statusCode : option Z) (hs : headers)
| BodyFailed                (* the pipeline to the client rejects *)
| Timeout                   (* thirty seconds without traffic *)
| UpstreamError
| ClientClosed
| RequestBodyFailed.        (* the pipeline from the client rejects *)

Record exchange := mkExchange {
  writes : list (Z * headers);
  timedOut : bool;
  clientDestroyed : bool;
  upstreamDestroyed : bool;
}.

Definition started : exchange := mkExchange [] false false false.

Definition headersSent (x : exchange) : bool := match writes x with [] => false | _ => true end.

Definition write_reply (r : Response) (x : exchange) : exchange :=
  mkExchange ((status r, resHeaders r) :: writes x) (timedOut x) (clientDestroyed x)
    (upstreamDestroyed x).

Definition on_event (requestId : string) (e : event) (x : exchange) : exchange :=
  match e with
  | UpstreamResponse code hs =>
      mkExchange ((default 502 code, write_head requestId (forwardable hs)) :: writes x) (timedOut x)
        (clientDestroyed x) (upstreamDestroyed x)
  | BodyFailed => mkExchange (writes x) (timedOut x) true (upstreamDestroyed x)
  | Timeout => mkExchange (writes x) true (clientDestroyed x) true
  | UpstreamError =>
      if headersSent x then mkExchange (writes x) (timedOut x) true (upstreamDestroyed x)
      else if timedOut x
      then write_reply (json_reply requestId 504 (error_body 504 "Upstream timed out") []) x
      else write_reply (json_reply requestId 502 (error_body 502 "Upstream unavailable") []) x
  | ClientClosed | RequestBodyFailed =>
      mkExchange (writes x) (timedOut x) (clientDestroyed x) true
  end.

Definition on_events (requestId : string) (es : list event) : exchange :=
  fold_left (fun x e => on_event requestId e x) es started.

(** ** Tokens *)

(** What a token must be for the gateway to let it through at [now]. *)
Definition valid_token (token : string) (now : Z) (user : AuthenticatedUser) : Prop :=
  exists h p sig header_ payload key exp,
    split_on "."%char token = [h; p; sig] /\
    decodeSegment h = Ok header_ /\ get "alg" header_ = Ok (Some (JStr "RS256")) /\
    createPublicKey (publicKey config) = Ok key /\
    verify (h +:+ "." +:+ p) key (base64url sig) = true /\
    decodeSegment p = Ok payload /\
    get "exp" payload = Ok (Some (JNum exp)) /\ (inject_Z (now / 1000) < exp)%Q /\
    field_of "iss" payload = Some (JStr (issuer config)) /\
    field_of "aud" payload = Some (JStr (audience config)) /\
    field_of "sub" payload = Some (JStr (id user)) /\
    field_of "role" payload = Some (JStr (role user)).

(** The cached key is the one its PEM parses to. *)
Definition cache_ok (c : option (string * KeyObject)) : Prop :=
  match c with Some (pem, key) => createPublicKey pem = Ok key | None => True end.

Lemma publicKeyFor_spec (pem : string) (c : option (string * KeyObject)) :
  cache_ok c ->
  (publicKeyFor pem c).1 = createPublicKey pem /\ cache_ok (publicKeyFor pem c).2.
Proof.
  intros Hc. unfold publicKeyFor. destruct c as [[pem' key]|]; simpl in Hc.
  - case_bool_decide as Hp; [subst; by simpl; rewrite Hc|].
    destruct (createPublicKey pem) eqn:E; simpl; by rewrite ?E.
  - destruct (createPublicKey pem) eqn:E; simpl; by rewrite ?E.
Qed.

Lemma as_string_Some (x : option json) (s : string) : as_string x = Some s <-> x = Some (JStr s).
Proof. unfold as_string. split; [|by intros ->]. destruct x as [[]|]; intros [= ->]; done. Qed.

Lemma checkClaims_Ok (payload : json) (now : Z) (user : AuthenticatedUser) :
  checkClaims payload now = Ok user <->
  exists exp, get "exp" payload = Ok (Some (JNum exp)) /\ (inject_Z (now / 1000) < exp)%Q /\
    field_of "iss" payload = Some (JStr (issuer config)) /\
    field_of "aud" payload = Some (JStr (audience config)) /\
    field_of "sub" payload = Some (JStr (id user)) /\
    field_of "role" payload = Some (JStr (role user)).
Proof.
  unfold checkClaims. setoid_rewrite <- as_string_Some. split.
  - destruct (get "exp" payload) as [[[]|]|]; simpl; try done.
    destruct (Qle_bool q _) eqn:Hq; [done|].
    case_bool_decide as Hi; [|done]. case_bool_decide as Ha; [|done]. simpl.
    destruct (as_string (field_of "sub" payload)) as [s|]; [|done].
    destruct (as_string (field_of "role" payload)) as [r|]; [|done]. intros [= <-].
    exists q. split; [done|]. split; [|done]. apply Qnot_le_lt. intros H%Qle_bool_iff. by rewrite Hq in H.
  - intros (exp & -> & Hlt & Hi & Ha & Hs & Hr). simpl.
    assert (Qle_bool exp (inject_Z (now / 1000)) = false) as ->.
    { destruct (Qle_bool exp _) eqn:E; [|done]. apply Qle_bool_iff in E.
      by apply Qlt_not_le in Hlt. }
    rewrite Hi, Ha, Hs, Hr, !bool_decide_eq_true_2 by done. simpl. by destruct user.
Qed.

Lemma verifyAccessToken_sound (token : string) (now : Z) (c : option (string * KeyObject))
    (user : AuthenticatedUser) :
  cache_ok c -> (verifyAccessToken token now c).1 = Ok user -> valid_token token now user.
Proof.
  intros Hc. unfold valid_token, verifyAccessToken.
  pose proof (publicKeyFor_spec (publicKey config) c Hc) as [Hkey _].
  destruct (split_on "."%char token) as [|h [|p [|sig [|]]]]; try done.
  destruct (decodeSegment h) as [hd|] eqn:Eh; [|done].
  destruct (get "alg" hd) as [alg|] eqn:Ea; [|done].
  case_bool_decide as Halg; [|done]. apply as_string_Some in Halg as ->. simpl.
  destruct (publicKeyFor (publicKey config) c) as [[key|] c']; [|done]. simpl in Hkey.
  destruct (verify _ _ _) eqn:Ev; [|done]. simpl.
  destruct (decodeSegment p) as [pl|] eqn:Ep; [|done]. simpl.
  intros (exp & H1 & H2 & H3 & H4 & H5 & H6)%checkClaims_Ok.
  exists h, p, sig, hd, pl, key, exp. by rewrite <- Hkey.
Qed.

Lemma verifyAccessToken_complete (token : string) (now : Z) (c : option (string * KeyObject))
    (user : AuthenticatedUser) :
  cache_ok c -> valid_token token now user -> (verifyAccessToken token now c).1 = Ok user.
Proof.
  intros Hc. unfold valid_token, verifyAccessToken.
  pose proof (publicKeyFor_spec (publicKey config) c Hc) as [Hkey _].
  intros (h & p & sig & hd & pl & key & exp & -> & -> & -> & Hk & Hv & Hp & Hclaims).
  simpl. rewrite Hk in Hkey.
  destruct (publicKeyFor (publicKey config) c) as [r c']. simpl in Hkey. subst r.
  rewrite Hv. simpl. rewrite Hp. simpl. apply checkClaims_Ok. by exists exp.
Qed.

(** C31: the gateway accepts a token exactly when it has three segments, names
    RS256, is signed by the configured key, has not expired and carries the
    configured issuer and audience, a subject and a role; the user it answers is
    that subject. *)
Theorem verifyAccessToken_iff (token : string) (now : Z) (c : option (string * KeyObject))
    (user : AuthenticatedUser) :
  cache_ok c -> (verifyAccessToken token now c).1 = Ok user <-> valid_token token now user.
Proof.
  intros Hc. split; [by apply verifyAccessToken_sound|by apply verifyAccessToken_complete].
Qed.

Lemma verify_cache_ok (token : string) (now : Z) (c : option (string * KeyObject)) :
  cache_ok c -> cache_ok (verifyAccessToken token now c).2.
Proof.
  intros Hc. unfold verifyAccessToken.
  pose proof (publicKeyFor_spec (publicKey config) c Hc) as [_ Hkey].
  destruct (publicKeyFor (publicKey config) c) as [[key|] c']; simpl in Hkey;
    repeat case_match; simplify_eq/=; done.
Qed.

(** ** The handler *)

(** Any number of requests, one after the other. *)
Fixpoint handle_all (reqs : list (Request * string * Z)) (g : gateway) : list Answer :=
  match reqs with
  | [] => []
  | (req, requestId, now) :: reqs' =>
      let '(a, g') := handle req requestId now g in a :: handle_all reqs' g'
  end.

Lemma forward_cache_ok (route : Route) (req : Request) (rid path : string) (now : Z) (g : gateway) :
  cache_ok (cached g) -> cache_ok (cached (forward route req rid path now g).2).
Proof.
  intros Hc. unfold forward. destruct (requiresAuth route); [|done].
  destruct (bearerToken req) as [token|]; [|done].
  pose proof (verify_cache_ok token now _ Hc) as Hv.
  destruct (verifyAccessToken token now (cached g)) as [[] c']; done.
Qed.

Lemma handle_cache_ok (req : Request) (rid : string) (now : Z) (g : gateway) :
  cache_ok (cached g) -> cache_ok (cached (handle req rid now g).2).
Proof.
  intros Hc. unfold handle. destruct (_ && _); [done|].
  destruct (new_URL _ _ _ _) as [u|]; [|done]. cbv zeta.
  destruct (Limiter.check _ _ _ _ _ _) as [d cs]. destruct (Limiter.allowed d); [|done].
  destruct (matchRoute _ _) as [route|]; [|done]. by apply forward_cache_ok.
Qed.

(** What allows a request to reach a service. *)
Definition authorised (req : Request) (now : Z) : Prop :=
  exists w route,
    new_URL parse_host parse_other (default "/" (rawUrl req)) gateway_invalid = Some w /\
    matchRoute (buildRoutes config) (pathname w) = Some route /\
    (requiresAuth route = true ->
     exists token user, bearerToken req = Some token /\ valid_token token now user).

Lemma handle_forward (req : Request) (rid : string) (now : Z) (g g' : gateway) (u : Upstream) :
  cache_ok (cached g) -> handle req rid now g = (Forward u, g') -> authorised req now.
Proof.
  intros Hc. unfold handle, authorised. destruct (_ && _); [done|].
  destruct (new_URL _ _ _ _) as [w|]; [|done]. cbv zeta.
  destruct (Limiter.check _ _ _ _ _ _) as [d cs]. destruct (Limiter.allowed d); [|done].
  destruct (matchRoute _ _) as [route|] eqn:Hroute.
  2:{ unfold serve. repeat case_match; done. }
  intros Hf. exists w, route. split; [done|]. split; [done|]. intros Hauth.
  unfold forward in Hf. rewrite Hauth in Hf. destruct (bearerToken req) as [token|]; [|done].
  simpl in Hf. pose proof (verifyAccessToken_sound token now (cached g)) as Hv.
  destruct (verifyAccessToken token now (cached g)) as [[user|] c']; [|done].
  exists token, user. split; [done|]. by apply Hv.
Qed.

(** C32: whatever requests came before, a request that reaches a service is to a
    configured route, and when the route requires authentication it carries a
    bearer token that is valid at that moment. *)
Theorem forwarded_authorised (reqs : list (Request * string * Z)) (cs : gmap string Limiter.Counter)
    (i : nat) (req : Request) (rid : string) (now : Z) (u : Upstream) :
  reqs !! i = Some (req, rid, now) ->
  handle_all reqs (mkGateway cs None) !! i = Some (Forward u) ->
  authorised req now.
Proof.
  assert (cache_ok (cached (mkGateway cs None))) as Hc by done. revert Hc.
  generalize (mkGateway cs None) as g. revert i.
  induction reqs as [|[[req0 rid0] now0] reqs IH]; intros i g Hc; [done|].
  cbn [handle_all]. pose proof (handle_cache_ok req0 rid0 now0 g Hc) as Hc'.
  destruct (handle req0 rid0 now0 g) as [a g'] eqn:E.
  destruct i as [|i]; simpl; [|by apply IH].
  intros [= -> -> ->] [= ->]. eapply handle_forward; [exact Hc|exact E].
Qed.

(** ** What a service receives *)

Lemma header_set (name value : string) (hs : headers) : header name (set_header name value hs) = Some value.
Proof.
  unfold header. induction hs as [|[n v] hs IH]; simpl.
  - by rewrite bool_decide_eq_true_2.
  - case_bool_decide as Hn; simpl; [by rewrite bool_decide_eq_true_2|].
    by rewrite bool_decide_eq_false_2.
Qed.

Lemma header_set_ne (name name' value : string) (hs : headers) :
  name <> name' -> header name (set_header name' value hs) = header name hs.
Proof.
  intros Hne. unfold header. induction hs as [|[n v] hs IH]; simpl.
  - by rewrite bool_decide_eq_false_2.
  - case_bool_decide as Hn; simpl; [subst; by rewrite !bool_decide_eq_false_2|].
    by destruct (bool_decide (n = name)).
Qed.

Lemma in_set_header (name value n : string) (v : hval) (hs : headers) :
  (n, v) ∈ set_header name value hs -> n = name \/ (n, v) ∈ hs.
Proof.
  induction hs as [|[n' v'] hs IH]; simpl.
  - intros [[= -> ->]|[]%not_elem_of_nil]%elem_of_cons. by left.
  - case_bool_decide as Hn; rewrite !elem_of_cons; naive_solver.
Qed.

Lemma in_forwardable (n : string) (v : hval) (hs : headers) :
  (n, v) ∈ forwardable hs -> (n, v) ∈ hs /\ n ∉ HOP_BY_HOP /\ n <> "host".
Proof.
  unfold forwardable. rewrite elem_of_filter', negb_true_iff, orb_false_iff,
    !bool_decide_eq_false. simpl. tauto.
Qed.

Lemma proxy_Forward (req : Request) (target rid path : string) (u : Upstream) :
  proxy req target rid path = Forward u ->
  up_method u = method req /\
  up_headers u = set_header "x-request-id" rid
    (set_header "x-forwarded-host" (default "" (header "host" (reqHeaders req)))
      (set_header "x-forwarded-proto" "http"
        (set_header "x-forwarded-for" (default "" (remoteAddress req))
          (forwardable (reqHeaders req))))).
Proof.
  unfold proxy. destruct (new_URL_absolute _ _ _) as [base|]; [|done].
  destruct (new_URL _ _ _ _) as [w|]; [|done]. case_bool_decide; [|done]. by intros [= <-].
Qed.

Lemma handle_Forward_proxy (req : Request) (rid : string) (now : Z) (g g' : gateway) (u : Upstream) :
  handle req rid now g = (Forward u, g') ->
  exists route, proxy req (rt_target route) rid (upstreamPath route req) = Forward u.
Proof.
  unfold handle. destruct (_ && _); [done|].
  destruct (new_URL _ _ _ _) as [w|]; [|done]. cbv zeta.
  destruct (Limiter.check _ _ _ _ _ _) as [d cs]. destruct (Limiter.allowed d); [|done].
  destruct (matchRoute _ _) as [route|].
  2:{ unfold serve. repeat case_match; done. }
  unfold forward. intros Hf. exists route. repeat case_match; simplify_eq/=; done.
Qed.

(** The service gets the address of the socket, the gateway's request id and
    the host the client named, whatever the client claims in these headers, and
    none of the hop-by-hop headers nor [host]. *)
Theorem forwarded_headers (req : Request) (rid : string) (now : Z) (g g' : gateway) (u : Upstream) :
  handle req rid now g = (Forward u, g') ->
  header "x-forwarded-for" (up_headers u) = Some (default "" (remoteAddress req)) /\
  header "x-request-id" (up_headers u) = Some rid /\
  header "x-forwarded-proto" (up_headers u) = Some "http" /\
  header "x-forwarded-host" (up_headers u) = Some (default "" (header "host" (reqHeaders req))) /\
  (forall n v, (n, v) ∈ up_headers u -> n ∉ HOP_BY_HOP /\ n <> "host").
Proof.
  intros (route & Hp)%handle_Forward_proxy. apply proxy_Forward in Hp as [_ ->].
  split; [rewrite !header_set_ne by done; by rewrite header_set|]. split; [by rewrite header_set|].
  split; [rewrite !header_set_ne by done; by rewrite header_set|]. split; [rewrite !header_set_ne by done; by rewrite header_set|].
  intros n v Hin.
  repeat (apply in_set_header in Hin as [->|Hin]; [split; [by apply (bool_decide_unpack _)|done]|]).
  by apply in_forwardable in Hin as (_ & ? & ?).
Qed.

(** ** Where a request goes *)

(** A request to a route the configuration has, that carries what the route asks. *)
Definition admitted (req : Request) (route : Route) (path : string) (now : Z) (g : gateway) : Prop :=
  Limiter.allowed (Limiter.check Limiter.WINDOW_MS (default "unknown" (remoteAddress req))
    (default "GET" (method req)) path now (counters g)).1 = true /\
  matchRoute (buildRoutes config) path = Some route /\
  (requiresAuth route = true ->
   exists token user, bearerToken req = Some token /\ valid_token token now user).

Lemma truthy_target (segs : list string) (q : string) : truthy (target segs q) = true.
Proof. done. Qed.

Lemma upstreamPath_plain (route : Route) (req : Request) (p0 : string) (segs : list string)
    (q : string) :
  rawUrl req = Some (target (match stripPrefix route with Some _ => p0 :: segs | None => segs end) q) ->
  stripPrefix route = None \/ stripPrefix route = Some ("/" +:+ p0) -> segs <> [] ->
  upstreamPath route req = target segs q.
Proof.
  intros Hurl Hstrip Hne. unfold upstreamPath. rewrite Hurl.
  destruct Hstrip as [-> | ->]; [done|]. cbn [default from_option].
  assert (target (p0 :: segs) q = ("/" +:+ p0) +:+ target segs q) as ->.
  { unfold target. destruct segs as [|s segs]; [done|].
    change (str_join "/" (p0 :: s :: segs)) with (p0 +:+ "/" +:+ str_join "/" (s :: segs)).
    by rewrite !append_assoc. }
  unfold Datatypes.id. by rewrite sdrop_append.
Qed.

Lemma target_inj (segs segs' : list string) (q q' : string) :
  plain_path segs = true -> plain_query q = true -> plain_path segs' = true ->
  plain_query q' = true -> target segs q = target segs' q' -> segs = segs'.
Proof.
  intros H1 H2 H3 H4 E.
  pose proof (new_URL_plain parse_host parse_other gateway_invalid segs q H1 H2) as P.
  rewrite E, new_URL_plain in P by done. by injection P.
Qed.

(** A plain request to a route is sent to the service the configuration
    names, with the prefix [/api] taken off, the rest of the path and the query
    as they came. *)
Theorem plain_request_forwarded (req : Request) (rid : string) (now : Z) (g : gateway)
    (route : Route) (segs : list string) (q : string) (base : url) :
  let full := match stripPrefix route with Some _ => "api" :: segs | None => segs end in
  cache_ok (cached g) ->
  rawUrl req = Some (target full q) -> plain_path full = true -> plain_path segs = true ->
  plain_query q = true ->
  admitted req route ("/" +:+ str_join "/" full) now g ->
  new_URL_absolute parse_host parse_other (rt_target route) = Some base -> protocol base = "http" ->
  exists u g', handle req rid now g = (Forward u, g') /\
    up_authority u = authority base /\ up_path u = target segs q /\ up_method u = method req.
Proof.
  intros full Hc Hurl Hfull Hsegs Hq (Hallow & Hroute & Hauth) Hbase Hhttp.
  assert (upstreamPath route req = target segs q) as Hup.
  { apply (upstreamPath_plain route req "api"); [done| |by destruct segs].
    unfold matchRoute in Hroute. apply List.find_some in Hroute as [Hin _].
    simpl in Hin. destruct Hin as [<-|[<-|[<-|[<-|[]]]]]; [by right|by right|by right|by left]. }
  assert (exists u, proxy req (rt_target route) rid (upstreamPath route req) = Forward u /\
    up_authority u = authority base /\ up_path u = target segs q /\ up_method u = method req)
    as (u & Hu & Hspec).
  { rewrite Hup. unfold proxy. rewrite Hbase, new_URL_plain by done.
    change (protocol (mkUrl (protocol base) _ _ _ _)) with (protocol base).
    rewrite bool_decide_eq_true_2 by done. eexists. split; [done|]. simpl.
    split; [done|]. split; [|done]. unfold target, pathname. simpl. by rewrite append_assoc. }
  exists u. unfold handle. rewrite Hurl. rewrite (bool_decide_eq_false_2 (Some _ = Some "/health")).
  2:{ intros E. apply (f_equal (from_option (fun x => x) "")) in E.
      apply (target_inj full ["health"] q "") in E; [|done..]. by rewrite E in Hroute. }
  rewrite andb_false_r. change (default "/" (Some ?x)) with x.
  rewrite new_URL_plain by done. cbv zeta.
  change (pathname (mkUrl _ _ full _ _)) with ("/" +:+ str_join "/" full).
  destruct (Limiter.check _ _ _ _ _ _) as [d cs]. simpl in Hallow. rewrite Hallow, Hroute.
  unfold forward. destruct (requiresAuth route).
  - destruct (Hauth eq_refl) as (token & user & -> & Hvalid). cbn [cached counters].
    apply (verifyAccessToken_complete token now (cached g)) in Hvalid; [|done].
    destruct (verifyAccessToken token now (cached g)) as [r c']. simpl in Hvalid. subst r.
    eexists. split; [by rewrite Hu|done].
  - eexists. split; [by rewrite Hu|done].
Qed.

(** ** Two ways past the route table *)

(** The limiter lets a first request through. *)
Lemma check_first (client m path : string) (now : Z) :
  Limiter.allowed (Limiter.check Limiter.WINDOW_MS client m path now ∅).1 = true.
Proof. done. Qed.

(** A request target that starts with two slashes carries a host of its own,
    and the gateway forwards the request to that host instead of the configured
    service: whoever reaches the gateway can have it send requests anywhere. *)
Theorem double_slash_reaches_any_host (host a rid : string) (now : Z) (base : url) :
  truthy host = true -> plain_segment host = true -> parse_host host = Some a ->
  new_URL_absolute parse_host parse_other (emailIngestionUrl config) = Some base ->
  protocol base = "http" ->
  exists u g',
    handle (mkRequest (Some "GET") (Some ("//" +:+ host +:+ "/oauth/x")) [] (Some "10.0.0.1"))
      rid now (mkGateway ∅ None) = (Forward u, g') /\
    up_authority u = a /\ up_path u = "/oauth/x".
Proof.
  intros Hne Hplain Hhost Hbase Hhttp.
  change ("//" +:+ host +:+ "/oauth/x") with ("//" +:+ host +:+ target ["oauth"; "x"] "").
  unfold handle. rewrite (bool_decide_eq_false_2 (_ = Some "/health")) by done.
  rewrite andb_false_r. cbn [rawUrl]. change (default "/" (Some ?x)) with x.
  rewrite new_URL_authority, Hhost by done. cbv zeta.
  change (pathname _) with "/oauth/x". cbn [counters cached method remoteAddress].
  pose proof (check_first (default "unknown" (Some "10.0.0.1")) (default "GET" (Some "GET"))
    "/oauth/x" now) as Hallow.
  destruct (Limiter.check _ _ _ _ _ _) as [d cs]. simpl in Hallow. rewrite Hallow.
  change (matchRoute (buildRoutes config) "/oauth/x")
    with (Some (mkRoute "/oauth" (emailIngestionUrl config) false None)).
  cbn [forward requiresAuth]. unfold forward. cbn [requiresAuth rt_target].
  change (upstreamPath (mkRoute _ _ _ None) ?r) with (default "/" (rawUrl r)).
  cbn [rawUrl]. change (default "/" (Some ?x)) with x. unfold proxy.
  rewrite Hbase, new_URL_authority, Hhost by done.
  change (protocol (mkUrl (protocol base) _ _ _ _)) with (protocol base).
  rewrite bool_decide_eq_true_2 by done. by eexists _, _.
Qed.

(** A request target of two slashes has an empty host; [new URL] throws inside
    the handler, where nothing catches it, and the process exits: any client can
    stop the gateway with one request. *)
Theorem empty_host_stops_gateway (m : option string) (hs : headers) (addr : option string)
    (rid : string) (now : Z) (g : gateway) :
  parse_host "" = None ->
  handle (mkRequest m (Some "//") hs addr) rid now g = (Uncaught (TypeError "Invalid URL"), g).
Proof.
  intros Hempty. unfold handle. cbn [rawUrl].
  rewrite (bool_decide_eq_false_2 (Some "//" = Some "/health")) by done. rewrite andb_false_r.
  change (new_URL parse_host parse_other (default "/" (Some "//")) gateway_invalid)
    with (match parse_host "" with
          | Some a => Some (mkUrl "http" a [""] "" None)
          | None => None
          end).
  by rewrite Hempty.
Qed.

(** ** The life of a forwarded request *)

(** [node:http] reports at most one response, and none after an error. *)
Fixpoint node_order (over : bool) (es : list event) : bool :=
  match es with
  | [] => true
  | UpstreamResponse _ _ :: es' => negb over && node_order true es'
  | UpstreamError :: es' => node_order true es'
  | _ :: es' => node_order over es'
  end.

Section Exchange.
Context (requestId : string).

(** The head the client should see: the service's, or a 504 or 502 when the
    request failed before one came. *)
Fixpoint expected_head (timed : bool) (es : list event) : option (Z * headers) :=
  match es with
  | [] => None
  | UpstreamResponse code hs :: _ => Some (default 502 code, write_head requestId (forwardable hs))
  | UpstreamError :: _ =>
      let r := if timed then json_reply requestId 504 (error_body 504 "Upstream timed out") []
               else json_reply requestId 502 (error_body 502 "Upstream unavailable") [] in
      Some (status r, resHeaders r)
  | Timeout :: es' => expected_head true es'
  | _ :: es' => expected_head timed es'
  end.

Lemma on_events_sent (es : list event) (x : exchange) (h : Z * headers) :
  node_order true es = true -> writes x = [h] ->
  writes (fold_left (fun x e => on_event requestId e x) es x) = [h].
Proof.
  revert x. induction es as [|e es IH]; intros x; [done|].
  destruct e; simpl; try (intros Ho Hw; by apply IH).
  intros Ho Hw. unfold headersSent. rewrite Hw. by apply IH.
Qed.

Lemma on_events_head (es : list event) (x : exchange) :
  node_order false es = true -> writes x = [] ->
  writes (fold_left (fun x e => on_event requestId e x) es x) =
  match expected_head (timedOut x) es with Some h => [h] | None => [] end.
Proof.
  revert x. induction es as [|e es IH]; intros x; [done|].
  destruct e; simpl; intros Ho Hw; try by rewrite IH.
  - apply on_events_sent; [done|]. simpl. by rewrite Hw.
  - unfold headersSent. rewrite Hw. destruct (timedOut x); apply on_events_sent; simpl; by rewrite ?Hw.
Qed.

(** However responses, errors, timeouts and hang-ups follow each other, the
    client gets at most one head: the service's without its hop-by-hop headers
    when one came, and otherwise a 504 after a timeout or a 502. *)
Theorem exchange_one_head (es : list event) :
  node_order false es = true ->
  writes (on_events requestId es) = match expected_head false es with Some h => [h] | None => [] end.
Proof. intros Ho. by apply (on_events_head es started). Qed.
End Exchange.

Lemma reply_named (rid : string) (st : Z) (b : json) (extra : headers) :
  List.find (fun h => bool_decide (h.1 = "x-request-id")) extra = None ->
  header "x-request-id" (resHeaders (json_reply rid st b extra)) = Some rid.
Proof.
  intros Hn. unfold json_reply, write_head. cbn [resHeaders].
  assert (forall n v hs, n <> "x-request-id" -> List.find (fun h => bool_decide (h.1 = "x-request-id")) hs = None ->
    List.find (fun h => bool_decide (h.1 = "x-request-id")) (set_header n v hs) = None) as Hset.
  { intros n v hs Hne. induction hs as [|[m u] hs IH]; simpl; [by rewrite bool_decide_eq_false_2|].
    destruct (decide (m = "x-request-id")) as [->|Hm]; [by rewrite bool_decide_eq_true_2|].
    rewrite (bool_decide_eq_false_2 (m = _)) by done. intros Hf.
    destruct (decide (m = n)) as [->|Hmn].
    - rewrite bool_decide_eq_true_2 by done. simpl. by rewrite bool_decide_eq_false_2.
    - rewrite bool_decide_eq_false_2 by done. simpl. rewrite bool_decide_eq_false_2 by done. by apply IH. }
  unfold header. cbn [List.app List.find fst snd]. rewrite Hset by (try done; by apply Hset).
  reflexivity.
Qed.

(** Whatever the gateway answers of its own carries the id the request is logged under. *)
Theorem replies_named (req : Request) (rid : string) (now : Z) (g g' : gateway) (r : Response) :
  handle req rid now g = (Reply r, g') -> header "x-request-id" (resHeaders r) = Some rid.
Proof.
  assert (forall st b extra, List.find (fun h => bool_decide (h.1 = "x-request-id")) extra = None ->
    forall g1, (Reply (json_reply rid st b extra), g1) = (Reply r, g') -> header "x-request-id" (resHeaders r) = Some rid)
    as Hjson by (intros st b extra He g1 [= <- _]; by apply reply_named).
  assert (forall target path g1, (proxy req target rid path, g1) = (Reply r, g') -> header "x-request-id" (resHeaders r) = Some rid)
    as Hproxy by (intros target path g1 [= E _]; exfalso; revert E; unfold proxy; by repeat case_match).
  unfold handle. destruct (_ && _); [by apply Hjson|]. destruct (new_URL _ _ _ _) as [u|]; [|done]. cbv zeta.
  destruct (Limiter.check _ _ _ _ _ _) as [d cs]. destruct (Limiter.allowed d); [|by apply Hjson].
  destruct (matchRoute _ _) as [route|].
  - unfold forward. destruct (requiresAuth route); [|apply Hproxy]. destruct (bearerToken req) as [t|]; [|by apply Hjson].
    destruct (verifyAccessToken _ _ _) as [[who|e] c]; [apply Hproxy|by apply Hjson].
  - unfold serve. destruct (webRoot config) as [root|]; [|by apply Hjson]. destruct (_ && _); [|by apply Hjson].
    destruct (serveStatic _ _ _ _ _); [done|by apply Hjson].
Qed.
End Gateway.

(** ** A concrete gateway *)

Module Edge.
Definition createPublicKey (pem : string) : result exn string := Ok pem.
Definition verify (data key sig : string) : bool := bool_decide (sig = "signed").
Definition plain (s : string) : string := s.
Definition JSON_parse (s : string) : result exn json :=
  if bool_decide (s = "H") then Ok (JObj [("alg", JStr "RS256")])
  else if bool_decide (s = "P") then
    Ok (JObj [("exp", JNum 100); ("iss", JStr "finlytic"); ("aud", JStr "web"); ("sub", JStr "u1");
              ("role", JStr "USER")])
  else Err (SyntaxError "Unexpected token").
Definition stringify (x : json) : string := "body".
Definition String_of (x : option json) : string := "undefined".
Definition parse_host (h : string) : option string := if truthy h then Some h else None.
Definition parse_other (scheme rest : string) : option url := None.
Definition stat (p : string) : option Stats := None.
Definition config : GatewayConfig :=
  mkConfig "pem" "finlytic" "web" "http://users:3001" "http://mail:3002" None.

Definition handle' : Request -> string -> Z -> gateway -> Answer * gateway :=
  handle createPublicKey verify plain plain JSON_parse stringify String_of parse_host parse_other
    "/" stat config.

Definition me : Request :=
  mkRequest (Some "GET") (Some "/api/users/me?x=1")
    [("authorization", One "Bearer H.P.signed"); ("x-forwarded-for", One "1.2.3.4");
     ("te", One "trailers")] (Some "10.0.0.1").

Definition me_upstream : Upstream :=
  mkUpstream "users:3001" "/users/me?x=1" (Some "GET")
    [("authorization", One "Bearer H.P.signed"); ("x-forwarded-for", One "10.0.0.1");
     ("x-forwarded-proto", One "http"); ("x-forwarded-host", One ""); ("x-request-id", One "rid")].
End Edge.

Lemma route_by_segments_witness :
  matchRoute (buildRoutes Edge.config) "/api/authorization" = None /\
  matchRoute (buildRoutes Edge.config) "/oauth/google/callback" =
    Some (mkRoute "/oauth" "http://mail:3002" false None).
Proof.
  split.
  - refine (eq_trans (route_by_segments Edge.config ["api"; "authorization"] _ _) _);
      [discriminate|repeat constructor|reflexivity].
  - refine (eq_trans (route_by_segments Edge.config ["oauth"; "google"; "callback"] _ _) _);
      [discriminate|repeat constructor|reflexivity].
Defined.

Lemma verifyAccessToken_iff_witness :
  valid_token Edge.createPublicKey Edge.verify Edge.plain Edge.plain Edge.JSON_parse Edge.config
    "H.P.signed" 99000 (mkAuthenticatedUser "u1" "USER").
Proof.
  apply (verifyAccessToken_iff Edge.createPublicKey Edge.verify Edge.plain Edge.plain
    Edge.JSON_parse Edge.String_of Edge.config "H.P.signed" 99000 None); [exact I|].
  vm_compute. reflexivity.
Defined.

Lemma forwarded_authorised_witness :
  authorised Edge.createPublicKey Edge.verify Edge.plain Edge.plain Edge.JSON_parse
    Edge.parse_host Edge.parse_other Edge.config Edge.me 99000.
Proof.
  apply (forwarded_authorised Edge.createPublicKey Edge.verify Edge.plain Edge.plain Edge.JSON_parse
    Edge.stringify Edge.String_of Edge.parse_host Edge.parse_other "/" Edge.stat Edge.config
    [(Edge.me, "rid", 99000)] ∅ 0 Edge.me "rid" 99000 Edge.me_upstream); [reflexivity|].
  vm_compute. reflexivity.
Defined.

Lemma forwarded_headers_witness :
  header "x-forwarded-for" (up_headers Edge.me_upstream) = Some "10.0.0.1".
Proof.
  refine (proj1 (forwarded_headers Edge.createPublicKey Edge.verify Edge.plain Edge.plain
    Edge.JSON_parse Edge.stringify Edge.String_of Edge.parse_host Edge.parse_other "/" Edge.stat
    Edge.config Edge.me "rid" 99000 (mkGateway ∅ None) (Edge.handle' Edge.me "rid" 99000
    (mkGateway ∅ None)).2 Edge.me_upstream _)).
  vm_compute. reflexivity.
Defined.

Lemma plain_request_forwarded_witness :
  exists u g', Edge.handle' Edge.me "rid" 99000 (mkGateway ∅ None) = (Forward u, g') /\
    up_authority u = "users:3001" /\ up_path u = "/users/me?x=1" /\ up_method u = Some "GET".
Proof.
  apply (plain_request_forwarded Edge.createPublicKey Edge.verify Edge.plain Edge.plain
    Edge.JSON_parse Edge.stringify Edge.String_of Edge.parse_host Edge.parse_other "/" Edge.stat
    Edge.config Edge.me "rid" 99000 (mkGateway ∅ None)
    (mkRoute "/api/users" "http://users:3001" true (Some "/api")) ["users"; "me"] "x=1"
    (mkUrl "http" "users:3001" [""] "" None)); try reflexivity; try exact I.
  split; [reflexivity|]. split; [reflexivity|]. intros _.
  exists "H.P.signed", (mkAuthenticatedUser "u1" "USER"). split; [reflexivity|].
  exists "H", "P", "signed", (JObj [("alg", JStr "RS256")]),
    (JObj [("exp", JNum 100); ("iss", JStr "finlytic"); ("aud", JStr "web"); ("sub", JStr "u1");
           ("role", JStr "USER")]), "pem", 100%Q.
  repeat split; reflexivity.
Defined.

Lemma double_slash_reaches_any_host_witness :
  exists u g',
    Edge.handle' (mkRequest (Some "GET") (Some "//evil.example/oauth/x") [] (Some "10.0.0.1"))
      "rid" 99000 (mkGateway ∅ None) = (Forward u, g') /\
    up_authority u = "evil.example" /\ up_path u = "/oauth/x".
Proof.
  apply (double_slash_reaches_any_host Edge.createPublicKey Edge.verify Edge.plain Edge.plain
    Edge.JSON_parse Edge.stringify Edge.String_of Edge.parse_host Edge.parse_other "/" Edge.stat
    Edge.config "evil.example" "evil.example" "rid" 99000 (mkUrl "http" "mail:3002" [""] "" None));
    reflexivity.
Defined.

Lemma empty_host_stops_gateway_witness :
  Edge.handle' (mkRequest (Some "GET") (Some "//") [] None) "rid" 0 (mkGateway ∅ None) =
  (Uncaught (TypeError "Invalid URL"), mkGateway ∅ None).
Proof.
  apply (empty_host_stops_gateway Edge.createPublicKey Edge.verify Edge.plain Edge.plain
    Edge.JSON_parse Edge.stringify Edge.String_of Edge.parse_host Edge.parse_other "/" Edge.stat
    Edge.config). reflexivity.
Defined.

Lemma exchange_one_head_witness :
  List.map fst (writes (on_events Edge.stringify "rid" [Timeout; UpstreamError; UpstreamError; ClientClosed]))
  = [504].
Proof.
  rewrite (exchange_one_head Edge.stringify "rid" [Timeout; UpstreamError; UpstreamError; ClientClosed]);
    reflexivity.
Defined.
