(* ===== verification/RefreshTokens.v ===== *)
(** * Refresh tokens

    [services/user-management]: the [User] and [RefreshToken] rows of the Prisma
    schema, [auth/refresh-token.service.ts] (issue, spend, revoke) and
    [auth/refresh-token-cleanup.service.ts] (the hourly sweep).  Each awaited
    query is one atomic step, so that the theorems speak of interleaved
    requests as well as of single ones. *)

From S2P Require Import Prelude Js World Concurrency.

Local Open Scope Z_scope.

Inductive UserRole := USER | ADMIN.

#[export] Instance UserRole_eq_dec : EqDecision UserRole.
Proof. solve_decision. Defined.

Record User := mkUser {
  u_id : string;
  u_email : string;
  u_passwordHash : string;
  u_role : UserRole;
  u_isActive : bool;
  u_createdAt : Z;
  u_updatedAt : Z;
}.

Record RefreshToken := mkRefreshToken {
  rt_id : string;
  rt_userId : string;
  rt_tokenHash : string;
  rt_familyId : string;
  rt_expiresAt : Z;
  rt_revokedAt : option Z;
  rt_replacedById : option string;
  rt_userAgent : option string;
  rt_ipAddress : option string;
  rt_createdAt : Z;
}.

#[export] Instance User_eq_dec : EqDecision User.
Proof. solve_decision. Defined.

#[export] Instance RefreshToken_eq_dec : EqDecision RefreshToken.
Proof. solve_decision. Defined.

(** The two tables of [users_db]. *)
Record users_db (TU TR : Type) := mkUsersDb { user : TU; refreshToken : TR }.

Arguments mkUsersDb {TU TR} _ _.
Arguments user {TU TR} _.
Arguments refreshToken {TU TR} _.

Record ClientMeta := mkClientMeta {
  ipAddress : option string;
  userAgent : option string;
}.

Record IssuedRefreshToken := mkIssued { raw : string; record : RefreshToken }.

Definition set_revokedAt (now : Z) (r : RefreshToken) : RefreshToken :=
  mkRefreshToken (rt_id r) (rt_userId r) (rt_tokenHash r) (rt_familyId r)
    (rt_expiresAt r) (Some now) (rt_replacedById r) (rt_userAgent r)
    (rt_ipAddress r) (rt_createdAt r).

Definition set_replacedById (by_ : string) (r : RefreshToken) : RefreshToken :=
  mkRefreshToken (rt_id r) (rt_userId r) (rt_tokenHash r) (rt_familyId r)
    (rt_expiresAt r) (rt_revokedAt r) (Some by_) (rt_userAgent r)
    (rt_ipAddress r) (rt_createdAt r).

Definition is_none {X} (o : option X) : bool :=
  match o with None => true | Some _ => false end.

Definition has_hash (h : string) (r : RefreshToken) : bool :=
  bool_decide (rt_tokenHash r = h).

Definition has_id (i : string) (r : RefreshToken) : bool := bool_decide (rt_id r = i).

(** [where: { tokenHash, revokedAt: null, expiresAt: { gt: now } }] *)
Definition spendable (h : string) (now : Z) (r : RefreshToken) : bool :=
  has_hash h r && is_none (rt_revokedAt r) && (now <? rt_expiresAt r).

(** [where: { familyId, revokedAt: null }] *)
Definition live_in_family (f : string) (r : RefreshToken) : bool :=
  bool_decide (rt_familyId r = f) && is_none (rt_revokedAt r).

(** The unique constraints of the table. *)
Definition token_clash (r r' : RefreshToken) : bool :=
  bool_decide (rt_id r' = rt_id r) || bool_decide (rt_tokenHash r' = rt_tokenHash r).

Definition user_clash (u u' : User) : bool :=
  bool_decide (u_id u' = u_id u) || bool_decide (u_email u' = u_email u).

Definition DAY_MS : Z := 24 * 60 * 60 * 1000.

Section Service.
Context {TU TR : Type} `{Table User TU} `{Table RefreshToken TR}.

(** [createHash('sha256').update(x).digest('hex')] of [node:crypto]. *)
Context (sha256_hex : string -> string).
(** The values [randomBytes(32).toString('base64url')] and [randomUUID()] draw. *)
Context (randomToken randomUUID : nat -> string).
(** [JWT_REFRESH_TOKEN_TTL_DAYS] *)
Context (ttlDays : Z).

Abbreviation um := (world (users_db TU TR)).
Abbreviation M := (io um exn).

(** A statement on the table of refresh tokens. *)
Definition on_tokens {X} (op : TR -> result exn X * TR) : M X :=
  query (fun d => let '(r, t) := op (refreshToken d) in (r, mkUsersDb (user d) t)).

Definition select_token (p : RefreshToken -> bool) : M (option RefreshToken) :=
  on_tokens (fun t => (Ok (findFirst p t), t)).

Definition update_tokens (p : RefreshToken -> bool) (f : RefreshToken -> RefreshToken) : M nat :=
  on_tokens (fun t => let '(n, t') := updateMany p f t in (Ok n, t')).

Definition delete_tokens (p : RefreshToken -> bool) : M nat :=
  on_tokens (fun t => let '(n, t') := deleteMany p t in (Ok n, t')).

(** [refreshToken.create]: the foreign key and the unique constraints; the row
    is known up to [created_at]. *)
Definition create_token (row : Z -> RefreshToken) : M RefreshToken :=
  query_at (fun now d =>
    let r := row now in
    if exists_row (fun u => bool_decide (u_id u = rt_userId r)) (user d) then
      let '(res, t) := create token_clash r (refreshToken d) in
      (res, mkUsersDb (user d) t)
    else (Err P2003, d)).

Definition fingerprint (rawToken : string) : string := sha256_hex rawToken.

Definition issue (userId familyId : string) (meta : ClientMeta) : M IssuedRefreshToken :=
  let! rawToken := draw randomToken in
  let! now := Date_now in
  let! rid := draw randomUUID in
  let! rec := create_token (fun createdAt =>
    mkRefreshToken rid userId (fingerprint rawToken) familyId
      (now + ttlDays * DAY_MS) None None (userAgent meta) (ipAddress meta) createdAt) in
  ret (mkIssued rawToken rec).

Definition startFamily (userId : string) (meta : ClientMeta) : M IssuedRefreshToken :=
  let! familyId := draw randomUUID in
  issue userId familyId meta.

Definition revokeFamily (familyId : string) : M unit :=
  let! now := Date_now in
  let! _ := update_tokens (live_in_family familyId) (set_revokedAt now) in
  ret tt.

(** [spend] when no row was updated: is it the replay of a spent token? *)
Definition spend_failed (tokenHash : string) : M (option RefreshToken) :=
  let! existing := select_token (has_hash tokenHash) in
  match existing with
  | Some e =>
      match rt_revokedAt e with
      | Some _ => revokeFamily (rt_familyId e) ;! ret None
      | None => ret None
      end
  | None => ret None
  end.

(** [spend] after [const now = new Date()]. *)
Definition spend_at (tokenHash : string) (now : Z) : M (option RefreshToken) :=
  let! n := update_tokens (spendable tokenHash now) (set_revokedAt now) in
  if (n =? 1)%nat then select_token (has_hash tokenHash) else spend_failed tokenHash.

Definition spend (rawToken : string) : M (option RefreshToken) :=
  let tokenHash := fingerprint rawToken in
  let! now := Date_now in
  spend_at tokenHash now.

Definition linkReplacement (spentId replacementId : string) : M unit :=
  on_tokens (update (has_id spentId) (set_replacedById replacementId)).

Definition revokeFamilyByToken (rawToken : string) : M unit :=
  let! rec := select_token (has_hash (fingerprint rawToken)) in
  match rec with
  | Some r => revokeFamily (rt_familyId r)
  | None => ret tt
  end.

(** [RefreshTokenCleanupService.sweep] *)
Definition sweep : M nat :=
  try_catch
    (let! now := Date_now in
     let! n := delete_tokens (fun r => rt_expiresAt r <? now) in
     ret n)
    (fun _ => ret 0%nat).

(** ** The abstract specification of [spend] *)

Definition revoke_all (p : RefreshToken -> bool) (now : Z) (l : list RefreshToken) :
  list RefreshToken :=
  List.map (fun r => if p r then set_revokedAt now r else r) l.

(** What spending a token means for a set of rows: a live token is revoked and
    handed out, a revoked one takes the live tokens of its family with it, an
    expired or unknown one changes nothing. *)
Definition spend_spec (h : string) (now : Z) (l : list RefreshToken) :
  option RefreshToken * list RefreshToken :=
  match List.find (has_hash h) l with
  | None => (None, l)
  | Some r =>
      match rt_revokedAt r with
      | Some _ => (None, revoke_all (live_in_family (rt_familyId r)) now l)
      | None =>
          if now <? rt_expiresAt r then (Some (set_revokedAt now r), revoke_all (has_hash h) now l)
          else (None, l)
      end
  end.

Definition tokens_of (w : um) : list RefreshToken := rows (refreshToken (data w)).

Definition users_of (w : um) : list User := rows (user (data w)).

Definition set_tokens (t : TR) (w : um) : um := with_data (mkUsersDb (user (data w)) t) w.

(** ** Well-formed databases *)

Record db_wf (w : um) : Prop := {
  wf_token_ids : NoDup (List.map rt_id (tokens_of w));
  wf_token_hashes : NoDup (List.map rt_tokenHash (tokens_of w));
  wf_token_users : forall r, r ∈ tokens_of w ->
    exists u, u ∈ users_of w /\ u_id u = rt_userId r;
  wf_user_ids : NoDup (List.map u_id (users_of w));
  wf_user_emails : NoDup (List.map u_email (users_of w));
}.

Definition keeps_wf (w w' : um) : Prop := db_wf w -> db_wf w'.

(** ** Runs of the statements *)

Lemma run_on_tokens {X} (op : TR -> result exn X * TR) (w : um) :
  run (on_tokens op) w =
  if db_up w then ((op (refreshToken (data w))).1, set_tokens (op (refreshToken (data w))).2 w)
  else (Err DbUnavailable, w).
Proof.
  unfold on_tokens. rewrite run_query. destruct (db_up w); [|done].
  by destruct (op (refreshToken (data w))).
Qed.

Lemma run_select_token (p : RefreshToken -> bool) (w : um) :
  db_up w = true -> run (select_token p) w = (Ok (findFirst p (refreshToken (data w))), w).
Proof. intros Hup. unfold select_token. rewrite run_on_tokens, Hup. by destruct w as [[] ? ? ? ?]. Qed.

Lemma run_update_tokens (p : RefreshToken -> bool) (f : RefreshToken -> RefreshToken) (w : um) :
  db_up w = true ->
  run (update_tokens p f) w =
  (Ok (length (t_select p (refreshToken (data w)))),
   set_tokens (t_update p f (refreshToken (data w))) w).
Proof. intros Hup. unfold update_tokens. by rewrite run_on_tokens, Hup. Qed.

Lemma run_revokeFamily (f : string) (w : um) :
  db_up w = true ->
  run (revokeFamily f) w =
  (Ok tt, set_tokens (t_update (live_in_family f) (set_revokedAt (clock w))
                        (refreshToken (data w))) w).
Proof.
  intros Hup. unfold revokeFamily. rewrite run_bind, run_Date_now, run_bind.
  by rewrite run_update_tokens.
Qed.

Context `{!TableLaws User TU} `{!TableLaws RefreshToken TR}.

Lemma find_hash (h : string) (w : um) :
  db_wf w ->
  match List.find (has_hash h) (tokens_of w) with
  | Some r => r ∈ tokens_of w /\ rt_tokenHash r = h /\
      findFirst (has_hash h) (refreshToken (data w)) = Some r /\
      forall r', r' ∈ tokens_of w -> rt_tokenHash r' = h -> r' = r
  | None => forall r, r ∈ tokens_of w -> has_hash h r = false
  end.
Proof.
  intros Hwf. destruct (List.find (has_hash h) (tokens_of w)) as [r|] eqn:E.
  - apply List.find_some in E as [Hr Hh]. apply list_elem_of_In in Hr.
    apply bool_decide_eq_true in Hh.
    assert (forall r', r' ∈ tokens_of w -> rt_tokenHash r' = h -> r' = r) as Huniq.
    { intros r' Hr' Hh'. apply list_elem_of_lookup in Hr as [i Hi], Hr' as [j Hj].
      pose proof (wf_token_hashes _ Hwf) as Hnd.
      assert (i = j) as ->; [|congruence].
      eapply (NoDup_lookup _ i j h Hnd); rewrite list_lookup_fmap.
      - by rewrite Hi, <- Hh.
      - by rewrite Hj, <- Hh'. }
    split; [done|]. split; [done|]. split; [|done].
    apply findFirst_unique; [done|by apply bool_decide_eq_true|].
    intros r' Hr' Hh'. apply bool_decide_eq_true in Hh'. by apply Huniq.
  - intros r Hr. apply (List.find_none _ _ E). by apply list_elem_of_In.
Qed.

Lemma map_if {X Y} (g : X -> Y) (p : X -> bool) (f : X -> X) (l : list X) :
  (forall x, g (f x) = g x) ->
  List.map g (List.map (fun x => if p x then f x else x) l) = List.map g l.
Proof.
  intros Hg. rewrite List.map_map. apply List.map_ext. intros x. by destruct (p x).
Qed.

Lemma map_ext_in' {X Y} (f g : X -> Y) (l : list X) :
  (forall x, x ∈ l -> f x = g x) -> List.map f l = List.map g l.
Proof. intros Hfg. apply List.map_ext_in. intros x Hx. by apply Hfg, list_elem_of_In. Qed.

(** Changing columns other than the id, the hash and the user keeps a database
    well-formed; so does deleting tokens. *)
Lemma wf_update (p : RefreshToken -> bool) (f : RefreshToken -> RefreshToken) (w : um) :
  (forall r, rt_id (f r) = rt_id r /\ rt_tokenHash (f r) = rt_tokenHash r /\
             rt_userId (f r) = rt_userId r) ->
  keeps_wf w (set_tokens (t_update p f (refreshToken (data w))) w).
Proof.
  intros Hf [Hid Hh Hu Hui Hue]. split; unfold tokens_of, users_of in *; simpl; try done.
  - rewrite rows_update, map_if by (intros r; apply Hf). done.
  - rewrite rows_update, map_if by (intros r; apply Hf). done.
  - intros r' (r & Hr & ->)%elem_update. destruct (Hu r Hr) as (u & ? & ?).
    exists u. split; [done|]. destruct (p r); [|done]. destruct (Hf r) as (_ & _ & ->). done.
Qed.

Lemma NoDup_map_filter {X Y} (g : X -> Y) (p : X -> bool) (l : list X) :
  NoDup (List.map g l) -> NoDup (List.map g (List.filter p l)).
Proof.
  induction l as [|x l IH]; simpl; [done|]. intros [Hx Hl]%NoDup_cons.
  destruct (p x); [|by apply IH]. simpl. apply NoDup_cons. split; [|by apply IH].
  intros Hin. apply Hx. rewrite list_elem_of_In, List.in_map_iff in *.
  destruct Hin as (y & Hy & Hf). apply List.filter_In in Hf as [Hin _]. by exists y.
Qed.

Lemma wf_delete (p : RefreshToken -> bool) (w : um) :
  keeps_wf w (set_tokens (t_delete p (refreshToken (data w))) w).
Proof.
  intros [Hid Hh Hu Hui Hue]. split; unfold tokens_of, users_of in *; simpl; try done.
  - rewrite rows_delete. by apply NoDup_map_filter.
  - rewrite rows_delete. by apply NoDup_map_filter.
  - intros r [Hr _]%elem_delete. by apply Hu.
Qed.

Lemma NoDup_map_insert {X Y} (g : X -> Y) (x : X) (l : list X) :
  (forall y, y ∈ l -> g y <> g x) -> NoDup (List.map g l) -> NoDup (List.map g (x :: l)).
Proof.
  intros Hx Hl. apply NoDup_cons. split; [|done].
  intros (y & Hy & Hin)%list_elem_of_In%List.in_map_iff.
  apply (Hx y); [by apply list_elem_of_In|done].
Qed.

Lemma wf_insert (r : RefreshToken) (w : um) :
  exists_row (fun u => bool_decide (u_id u = rt_userId r)) (user (data w)) = true ->
  exists_row (token_clash r) (refreshToken (data w)) = false ->
  keeps_wf w (set_tokens (t_insert r (refreshToken (data w))) w).
Proof.
  intros (u & Hu & Huid)%exists_row_true Hclash [Hid Hh Hut Hui Hue].
  apply bool_decide_eq_true in Huid.
  assert (forall r', r' ∈ tokens_of w -> rt_id r' <> rt_id r /\ rt_tokenHash r' <> rt_tokenHash r)
    as Hfresh.
  { intros r' Hr'. pose proof (proj1 (exists_row_false _ _) Hclash r' Hr') as Hc.
    unfold token_clash in Hc. apply orb_false_iff in Hc as [Hc1 Hc2].
    by split; [apply bool_decide_eq_false in Hc1|apply bool_decide_eq_false in Hc2]. }
  split; unfold tokens_of, users_of in *; simpl; try done.
  - rewrite rows_insert. apply NoDup_map_insert; [|done]. intros r' Hr'. by apply Hfresh.
  - rewrite rows_insert. apply NoDup_map_insert; [|done]. intros r' Hr'. by apply Hfresh.
  - intros r' [->|Hr']%elem_insert; [by exists u|by apply Hut].
Qed.

(** ** What the statements of the service can do to the database

    [Keeps fits R]: [R] contains whatever one statement does, be it on a table or on
    something else; sessions that are inserted satisfy [fits].  Of such a relation every
    step of every operation is a member. *)

(** What no statement changes of a session. *)
Record same_session (r r' : RefreshToken) : Prop := {
  ss_id : rt_id r' = rt_id r;
  ss_user : rt_userId r' = rt_userId r;
  ss_hash : rt_tokenHash r' = rt_tokenHash r;
  ss_expiry : rt_expiresAt r' = rt_expiresAt r;
  ss_address : rt_ipAddress r' = rt_ipAddress r;
  ss_creation : rt_createdAt r' = rt_createdAt r;
}.

Definition set_users (t : TU) (w : um) : um := with_data (mkUsersDb t (refreshToken (data w))) w.

Class Keeps (fits : RefreshToken -> Prop) (R : um -> um -> Prop) : Prop := {
  keeps_rest w w' :
    data w' = data w -> clock w' = clock w -> db_up w' = db_up w -> R w w';
  keeps_update p f w :
    (forall r, same_session r (f r)) -> R w (set_tokens (t_update p f (refreshToken (data w))) w);
  keeps_insert r w :
    fits r -> rt_createdAt r = clock w ->
    exists_row (fun u => bool_decide (u_id u = rt_userId r)) (user (data w)) = true ->
    exists_row (token_clash r) (refreshToken (data w)) = false ->
    R w (set_tokens (t_insert r (refreshToken (data w))) w);
  keeps_delete p w : R w (set_tokens (t_delete p (refreshToken (data w))) w);
  keeps_user u w :
    exists_row (user_clash u) (user (data w)) = false ->
    R w (set_users (t_insert u (user (data w))) w);
}.

Lemma step_Date_now (R : um -> um -> Prop) : (forall w, R w w) -> each_step R Date_now.
Proof. intros HR. apply each_step_perform. intros w. apply HR. Qed.

Lemma step_on_tokens {X} (R : um -> um -> Prop) (op : TR -> result exn X * TR) :
  (forall w, R w w) -> (forall w, R w (set_tokens (op (refreshToken (data w))).2 w)) ->
  each_step R (on_tokens op).
Proof.
  intros Hrefl Hop. apply each_step_perform. intros w. specialize (Hop w).
  destruct (db_up w); [|done]. by destruct (op (refreshToken (data w))).
Qed.

Lemma set_tokens_same (w : um) : set_tokens (refreshToken (data w)) w = w.
Proof. by destruct w as [[] ? ? ? ?]. Qed.

Lemma step_select_token (R : um -> um -> Prop) (p : RefreshToken -> bool) :
  (forall w, R w w) -> each_step R (select_token p).
Proof. intros HR. apply step_on_tokens; [done|]. intros w. cbn [snd]. by rewrite set_tokens_same. Qed.

Lemma step_update_tokens (R : um -> um -> Prop) (p : RefreshToken -> bool)
    (f : RefreshToken -> RefreshToken) :
  (forall w, R w w) ->
  (forall w, R w (set_tokens (t_update p f (refreshToken (data w))) w)) ->
  each_step R (update_tokens p f).
Proof. intros HR Hf. by apply step_on_tokens. Qed.

Lemma step_revokeFamily (R : um -> um -> Prop) (f : string) :
  (forall w, R w w) ->
  (forall now w, R w (set_tokens (t_update (live_in_family f) (set_revokedAt now)
                                    (refreshToken (data w))) w)) ->
  each_step R (revokeFamily f).
Proof.
  intros HR Hf. unfold revokeFamily. apply each_step_bind; [by apply step_Date_now|].
  intros now. apply each_step_bind; [by apply step_update_tokens|done].
Qed.

Section Steps.
Context (fits : RefreshToken -> Prop) (R : um -> um -> Prop) `{!Keeps fits R}.

(** What a client is issued is fit. *)
Definition issues (meta : ClientMeta) : Prop :=
  forall i u h f e c, fits (mkRefreshToken i u h f e None None (userAgent meta) (ipAddress meta) c).

Lemma rest_refl (w : um) : R w w.
Proof. by apply keeps_rest. Qed.

#[local] Hint Resolve rest_refl : core.

Lemma steps_draw {X} (source : nat -> X) : each_step R (draw source : M X).
Proof. apply each_step_perform. intros w. by apply keeps_rest. Qed.

Lemma steps_revokeFamily (f : string) : each_step R (revokeFamily f).
Proof. apply step_revokeFamily; [done|]. intros now w. by apply keeps_update. Qed.

Lemma steps_spend (rawToken : string) : each_step R (spend rawToken).
Proof.
  unfold spend, spend_at. apply each_step_bind; [by apply step_Date_now|]. intros now.
  apply each_step_bind; [apply step_update_tokens; [done|]; intros w; by apply keeps_update|].
  intros n. case_match; [by apply step_select_token|]. unfold spend_failed.
  apply each_step_bind; [by apply step_select_token|]. intros [e|]; [|done].
  case_match; [|done]. apply each_step_bind; [apply steps_revokeFamily|done].
Qed.

Lemma steps_create_token (row : Z -> RefreshToken) :
  (forall now, fits (row now) /\ rt_createdAt (row now) = now) -> each_step R (create_token row).
Proof.
  intros Hrow. apply each_step_perform. intros w. destruct (db_up w); [|done]. cbv zeta.
  destruct (exists_row (fun u => _) (user (data w))) eqn:Hu; [|by apply keeps_rest].
  unfold create. destruct (exists_row (token_clash _) _) eqn:Hc.
  - apply keeps_rest; by destruct w as [[] ? ? ? ?].
  - by apply (keeps_insert (row (clock w))); [apply Hrow..| |].
Qed.

Lemma steps_issue (userId familyId : string) (meta : ClientMeta) :
  issues meta -> each_step R (issue userId familyId meta).
Proof.
  intros Hm. unfold issue. apply each_step_bind; [apply steps_draw|]. intros rawToken.
  apply each_step_bind; [by apply step_Date_now|]. intros now.
  apply each_step_bind; [apply steps_draw|]. intros rid.
  apply each_step_bind; [|done]. apply steps_create_token. by split; [apply Hm|].
Qed.

Lemma steps_startFamily (userId : string) (meta : ClientMeta) :
  issues meta -> each_step R (startFamily userId meta).
Proof.
  intros Hm. unfold startFamily. apply each_step_bind; [apply steps_draw|]. intros f. by apply steps_issue.
Qed.

Lemma steps_linkReplacement (i j : string) : each_step R (linkReplacement i j).
Proof.
  apply step_on_tokens; [done|]. intros w. unfold update.
  case_match; cbn [snd]; [by apply keeps_update|by rewrite set_tokens_same].
Qed.

Lemma steps_revokeFamilyByToken (rawToken : string) : each_step R (revokeFamilyByToken rawToken).
Proof.
  unfold revokeFamilyByToken. apply each_step_bind; [by apply step_select_token|].
  intros [r|]; [apply steps_revokeFamily|done].
Qed.

Lemma steps_sweep : each_step R sweep.
Proof.
  unfold sweep. apply each_step_try; [|done].
  apply each_step_bind; [by apply step_Date_now|]. intros now.
  apply each_step_bind; [|done]. apply step_on_tokens; [done|]. intros w. apply keeps_delete.
Qed.
End Steps.

(** ** Every statement keeps the database well-formed *)

Lemma wf_refl (w : um) : keeps_wf w w.
Proof. unfold keeps_wf. done. Qed.

#[local] Hint Resolve wf_refl : core.

Lemma wf_same_data (w w' : um) : data w' = data w -> keeps_wf w w'.
Proof. intros E [? ? ? ? ?]. split; unfold tokens_of, users_of in *; by rewrite E. Qed.

Lemma wf_user (u : User) (w : um) :
  exists_row (user_clash u) (user (data w)) = false ->
  keeps_wf w (set_users (t_insert u (user (data w))) w).
Proof.
  intros Hc [Hid Hh Hut Hui Hue]. pose proof (proj1 (exists_row_false _ _) Hc) as Hfresh.
  assert (forall v, v ∈ users_of w -> u_id v <> u_id u /\ u_email v <> u_email u) as Hnew.
  { intros v Hv. specialize (Hfresh v Hv). unfold user_clash in Hfresh.
    apply orb_false_iff in Hfresh as [H1 H2].
    by split; [apply bool_decide_eq_false in H1|apply bool_decide_eq_false in H2]. }
  split; unfold tokens_of, users_of in *; simpl; try done.
  - intros r Hr. destruct (Hut r Hr) as (v & Hv & Huid). exists v.
    split; [|done]. apply elem_insert. by right.
  - rewrite rows_insert. apply NoDup_map_insert; [|done]. intros v Hv. by apply Hnew.
  - rewrite rows_insert. apply NoDup_map_insert; [|done]. intros v Hv. by apply Hnew.
Qed.

#[export] Instance wf_keeps : Keeps (fun _ => True) keeps_wf.
Proof.
  split.
  - intros w w' E _ _. by apply wf_same_data.
  - intros p f w Hf. apply wf_update. intros r. destruct (Hf r). done.
  - intros r w _ _. apply wf_insert.
  - apply wf_delete.
  - apply wf_user.
Qed.

(** ** [spend] implements its specification *)

Lemma revoke_all_ext (p q : RefreshToken -> bool) (now : Z) (l : list RefreshToken) :
  (forall r, r ∈ l -> p r = q r) -> revoke_all p now l = revoke_all q now l.
Proof. intros Hpq. apply map_ext_in'. intros r Hr. by rewrite (Hpq r Hr). Qed.

Lemma revoke_none (p : RefreshToken -> bool) (now : Z) (l : list RefreshToken) :
  (forall r, r ∈ l -> p r = false) -> revoke_all p now l = l.
Proof.
  intros Hp. rewrite <- (List.map_id l) at 2. apply map_ext_in'. intros r Hr. by rewrite (Hp r Hr).
Qed.

Lemma NoDup_of_map {X Y} (g : X -> Y) (l : list X) : NoDup (List.map g l) -> NoDup l.
Proof. apply NoDup_fmap_1. Qed.

Lemma tokens_NoDup (w : um) : db_wf w -> NoDup (tokens_of w).
Proof. intros Hwf. apply (NoDup_of_map rt_id), Hwf. Qed.

Lemma findFirst_revoked (h : string) (now : Z) (p : RefreshToken -> bool)
    (r : RefreshToken) (w : um) :
  db_wf w -> r ∈ tokens_of w -> rt_tokenHash r = h -> p r = true ->
  (forall r', r' ∈ tokens_of w -> rt_tokenHash r' = h -> r' = r) ->
  findFirst (has_hash h) (t_update p (set_revokedAt now) (refreshToken (data w))) =
  Some (set_revokedAt now r).
Proof.
  intros Hwf Hr Hh Hp Huniq. apply findFirst_unique.
  - apply elem_update. exists r. by rewrite Hp.
  - by apply bool_decide_eq_true.
  - intros r' (x & Hx & ->)%elem_update Hh'. apply bool_decide_eq_true in Hh'.
    assert (rt_tokenHash x = h) as Hxh by (by destruct (p x)).
    pose proof (Huniq x Hx Hxh) as ->. by rewrite Hp.
Qed.

Lemma spendable_hash (h : string) (now : Z) (r : RefreshToken) :
  spendable h now r = true <->
  rt_tokenHash r = h /\ rt_revokedAt r = None /\ now < rt_expiresAt r.
Proof.
  clear. unfold spendable, has_hash. rewrite !andb_true_iff, bool_decide_eq_true, Z.ltb_lt.
  unfold is_none. destruct (rt_revokedAt r); naive_solver.
Qed.

(** A live token is spent. *)
Lemma run_spend_live (rawToken : string) (r : RefreshToken) (w : um) :
  let h := fingerprint rawToken in
  db_wf w -> db_up w = true -> r ∈ tokens_of w -> spendable h (clock w) r = true ->
  (forall r', r' ∈ tokens_of w -> rt_tokenHash r' = h -> r' = r) ->
  exists t, run (spend rawToken) w = (Ok (Some (set_revokedAt (clock w) r)), set_tokens t w) /\
    rows t ≡ₚ revoke_all (has_hash h) (clock w) (tokens_of w).
Proof.
  intros h Hwf Hup Hr Hsp Huniq. pose proof Hsp as (Hh & _ & _)%spendable_hash.
  unfold spend. rewrite run_bind, run_Date_now. unfold spend_at.
  rewrite run_bind, run_update_tokens by done. fold h.
  set (t1 := t_update (spendable h (clock w)) _ _).
  assert (forall r', r' ∈ tokens_of w -> spendable h (clock w) r' = true -> r' = r) as Hu.
  { intros r' Hr' (Hs & _)%spendable_hash. by apply Huniq. }
  rewrite (select_unique _ _ r (tokens_NoDup _ Hwf) Hr Hsp Hu).
  cbn [length Nat.eqb]. rewrite run_select_token by done. simpl.
  rewrite (findFirst_revoked h (clock w) _ r w Hwf Hr Hh Hsp Huniq : findFirst _ t1 = _).
  exists t1. split; [done|]. unfold t1. rewrite rows_update.
  apply reflexive_eq, (revoke_all_ext _ _ _ (tokens_of w)). intros x Hx.
  destruct (has_hash h x) eqn:Hxh; [|by unfold spendable; rewrite Hxh].
  apply bool_decide_eq_true in Hxh. by rewrite (Huniq x Hx Hxh).
Qed.

(** Without one, the update changes nothing and the replay check runs. *)
Lemma run_spend_dead (rawToken : string) (w : um) :
  let h := fingerprint rawToken in
  db_up w = true -> (forall r, r ∈ tokens_of w -> spendable h (clock w) r = false) ->
  exists t, run (spend rawToken) w = run (spend_failed h) (set_tokens t w) /\
    rows t ≡ₚ tokens_of w.
Proof.
  intros h Hup Hnone. unfold spend. rewrite run_bind, run_Date_now. unfold spend_at.
  rewrite run_bind, run_update_tokens by done. fold h. rewrite (select_none _ _ Hnone).
  eexists. split; [done|]. rewrite rows_update.
  apply reflexive_eq, (revoke_none _ _ (tokens_of w) Hnone).
Qed.

Lemma run_spend_failed (h : string) (w : um) :
  db_wf w -> db_up w = true ->
  (forall r, r ∈ tokens_of w -> spendable h (clock w) r = false) ->
  exists t, run (spend_failed h) w =
      (Ok (spend_spec h (clock w) (tokens_of w)).1, set_tokens t w) /\
    rows t ≡ₚ (spend_spec h (clock w) (tokens_of w)).2.
Proof.
  intros Hwf Hup Hnone. unfold spend_failed, spend_spec.
  rewrite run_bind, run_select_token by done.
  pose proof (find_hash h w Hwf) as Hfind.
  destruct (List.find (has_hash h) (tokens_of w)) as [r|].
  - destruct Hfind as (Hr & Hh & -> & _). pose proof (Hnone r Hr) as Hsp.
    unfold spendable, has_hash in Hsp. rewrite bool_decide_eq_true_2 in Hsp by done.
    destruct (rt_revokedAt r); simpl in Hsp.
    + rewrite run_bind, run_revokeFamily by done.
      eexists. split; [done|]. simpl. by rewrite rows_update.
    + rewrite Hsp. exists (refreshToken (data w)). by rewrite set_tokens_same.
  - rewrite (proj2 (findFirst_None _ _) Hfind). exists (refreshToken (data w)).
    by rewrite set_tokens_same.
Qed.

Lemma spend_spec_perm (h : string) (now : Z) (w w' : um) :
  db_wf w -> db_wf w' -> tokens_of w ≡ₚ tokens_of w' ->
  (spend_spec h now (tokens_of w)).1 = (spend_spec h now (tokens_of w')).1 /\
  (spend_spec h now (tokens_of w)).2 ≡ₚ (spend_spec h now (tokens_of w')).2.
Proof.
  intros Hwf Hwf' Hperm.
  assert (List.find (has_hash h) (tokens_of w) = List.find (has_hash h) (tokens_of w')) as E.
  { pose proof (find_hash h w Hwf) as H1. pose proof (find_hash h w' Hwf') as H2.
    destruct (List.find _ (tokens_of w)) as [r|], (List.find _ (tokens_of w')) as [r'|]; [| | |done].
    - destruct H1 as (Hr & Hh & _), H2 as (_ & _ & _ & Hu). f_equal. apply Hu; [by rewrite <- Hperm|done].
    - destruct H1 as (Hr & Hh & _). rewrite Hperm in Hr. specialize (H2 r Hr).
      by apply bool_decide_eq_false in H2.
    - destruct H2 as (Hr & Hh & _). rewrite <- Hperm in Hr. specialize (H1 r' Hr).
      by apply bool_decide_eq_false in H1. }
  unfold spend_spec. rewrite E. destruct (List.find _ (tokens_of w')) as [r|]; [|done].
  destruct (rt_revokedAt r); simpl; [|case_match; simpl];
    (split; [done|]); unfold revoke_all; by rewrite ?Hperm.
Qed.

Lemma wf_perm (t : TR) (w : um) :
  rows t ≡ₚ tokens_of w -> keeps_wf w (set_tokens t w).
Proof.
  intros Hperm [Hid Hh Hu Hui Hue]. split; unfold tokens_of, users_of in *; simpl; try done.
  - by rewrite Hperm.
  - by rewrite Hperm.
  - intros r Hr. rewrite Hperm in Hr. by apply Hu.
Qed.

Lemma run_spend (rawToken : string) (w : um) :
  db_wf w -> db_up w = true ->
  let sp := spend_spec (fingerprint rawToken) (clock w) (tokens_of w) in
  exists t, run (spend rawToken) w = (Ok sp.1, set_tokens t w) /\ rows t ≡ₚ sp.2.
Proof.
  intros Hwf Hup. set (h := fingerprint rawToken). pose proof (find_hash h w Hwf) as Hfind.
  destruct (existsb (spendable h (clock w)) (tokens_of w)) eqn:Hex.
  - apply List.existsb_exists in Hex as (r & Hr & Hsp). apply list_elem_of_In in Hr.
    pose proof Hsp as (Hh & Hrev & Hexp)%spendable_hash. unfold spend_spec.
    destruct (List.find (has_hash h) (tokens_of w)) as [r0|].
    + destruct Hfind as (_ & _ & _ & Huniq).
      assert (r0 = r) as -> by (symmetry; by apply Huniq).
      apply Z.ltb_lt in Hexp. rewrite Hrev, Hexp. simpl.
      apply (run_spend_live rawToken r w); done.
    + specialize (Hfind r Hr). by apply bool_decide_eq_false in Hfind.
  - assert (forall r, r ∈ tokens_of w -> spendable h (clock w) r = false) as Hnone.
    { intros r Hr. destruct (spendable h (clock w) r) eqn:E; [|done].
      rewrite <- Hex. symmetry. apply List.existsb_exists. exists r.
      split; [by apply list_elem_of_In|done]. }
    destruct (run_spend_dead rawToken w Hup Hnone) as (t1 & -> & Ht1).
    pose proof (wf_perm t1 w Ht1 Hwf) as Hwf1.
    destruct (run_spend_failed h (set_tokens t1 w)) as (t2 & Hrun & Ht2); [done|done| |].
    { intros r Hr. apply Hnone. unfold tokens_of in Hr. simpl in Hr. by rewrite Ht1 in Hr. }
    destruct (spend_spec_perm h (clock w) (set_tokens t1 w) w Hwf1 Hwf Ht1) as [E1 E2].
    exists t2. unfold h in Hrun. rewrite Hrun. rewrite <- E1. split; [done|].
    by rewrite Ht2.
Qed.

(** ** Counting live rows *)

(** Not revoked, expired or not: what [spend] could still turn into a session. *)
Definition live_hash (h : string) (r : RefreshToken) : bool :=
  has_hash h r && is_none (rt_revokedAt r).

Definition live_count (h : string) (w : um) : nat :=
  length (List.filter (live_hash h) (tokens_of w)).

Lemma filter_perm_length {X} (p : X -> bool) (l l' : list X) :
  l ≡ₚ l' -> length (List.filter p l) = length (List.filter p l').
Proof. induction 1; simpl; repeat case_match; simpl; lia. Qed.

(** Revoking the rows [q] selects takes them, and no others, from the live ones. *)
Lemma live_revoked (h : string) (q : RefreshToken -> bool) (now : Z) (l : list RefreshToken) :
  (length (List.filter (live_hash h) (revoke_all q now l)) +
   length (List.filter (fun r => live_hash h r && q r) l) =
   length (List.filter (live_hash h) l))%nat.
Proof.
  induction l as [|r l IH]; [done|]. unfold revoke_all in *. simpl.
  destruct (q r) eqn:Hq; simpl; rewrite ?andb_false_r, ?andb_true_r; simpl.
  - unfold live_hash at 1. simpl. rewrite andb_false_r. destruct (live_hash h r); simpl; lia.
  - destruct (live_hash h r); simpl; lia.
Qed.

Lemma live_update (h : string) (p : RefreshToken -> bool) (f : RefreshToken -> RefreshToken)
    (w : um) :
  (forall r, live_hash h (f r) = true -> live_hash h r = true) ->
  (live_count h (set_tokens (t_update p f (refreshToken (data w))) w) <= live_count h w)%nat.
Proof.
  intros Hf. unfold live_count, tokens_of. simpl.
  rewrite (filter_perm_length _ _ _ (rows_update _ _ _)).
  induction (rows (refreshToken (data w))) as [|r l IH]; simpl; [done|].
  specialize (Hf r). destruct (p r); repeat case_match; simpl in *; first [lia|naive_solver].
Qed.

Lemma live_delete (h : string) (p : RefreshToken -> bool) (w : um) :
  (live_count h (set_tokens (t_delete p (refreshToken (data w))) w) <= live_count h w)%nat.
Proof.
  unfold live_count, tokens_of. simpl. rewrite (filter_perm_length _ _ _ (rows_delete _ _)).
  induction (rows (refreshToken (data w))) as [|r l IH]; simpl; [done|].
  destruct (p r); simpl; repeat case_match; simpl in *; lia.
Qed.

(** The number of live rows one hash has is 0 or 1. *)
Lemma live_count_unique (h : string) (w : um) : db_wf w -> (live_count h w <= 1)%nat.
Proof.
  intros Hwf. unfold live_count.
  pose proof (wf_token_hashes _ Hwf) as Hnd. revert Hnd. unfold tokens_of.
  induction (rows (refreshToken (data w))) as [|r l IH]; simpl; [lia|].
  intros [Hr Hl]%NoDup_cons. specialize (IH Hl).
  destruct (live_hash h r) eqn:E; simpl; [|done].
  assert (List.filter (live_hash h) l = []) as ->; [|done].
  apply andb_true_iff in E as [E _]. apply bool_decide_eq_true in E.
  destruct (List.filter (live_hash h) l) as [|x l'] eqn:Ef; [done|].
  exfalso. apply Hr. rewrite E.
  assert (x ∈ List.filter (live_hash h) l) as Hx by (rewrite Ef; by left).
  apply elem_of_filter' in Hx as [Hx Hxh]. apply andb_true_iff in Hxh as [Hxh _].
  apply bool_decide_eq_true in Hxh. rewrite <- Hxh.
  rewrite list_elem_of_In. apply List.in_map. by apply list_elem_of_In.
Qed.

(** ** A token is spent at most once *)

Section Once.
Context (h : string) (N : nat).

(** The tokens drawn from the [N]th on are not the one of hash [h]. *)
Definition fresh_from (w : um) : Prop := (N <= draws w)%nat.

Definition no_gain (w w' : um) : Prop :=
  fresh_from w -> fresh_from w' /\ (live_count h w' <= live_count h w)%nat.

Context (Hfresh : forall n, (N <= n)%nat -> fingerprint (randomToken n) <> h).

Lemma no_gain_refl (w : um) : no_gain w w.
Proof. unfold no_gain. auto. Qed.

#[local] Hint Resolve no_gain_refl : core.

Lemma no_gain_update (p : RefreshToken -> bool) (f : RefreshToken -> RefreshToken) (w : um) :
  (forall r, live_hash h (f r) = true -> live_hash h r = true) ->
  no_gain w (set_tokens (t_update p f (refreshToken (data w))) w).
Proof. intros Hf HN. split; [done|]. by apply live_update. Qed.

Lemma revoked_not_live (now : Z) (r : RefreshToken) : live_hash h (set_revokedAt now r) = true -> live_hash h r = true.
Proof. unfold live_hash. simpl. by rewrite andb_false_r. Qed.

Lemma once_revokeFamily (f : string) : each_step no_gain (revokeFamily f).
Proof.
  apply step_revokeFamily; [done|]. intros now w. apply no_gain_update, revoked_not_live.
Qed.

Lemma once_linkReplacement (i j : string) : each_step no_gain (linkReplacement i j).
Proof.
  apply step_on_tokens; [done|]. intros w. unfold update.
  case_match; cbn [snd]; [by apply no_gain_update|by rewrite set_tokens_same].
Qed.

Lemma once_draw {X} (source : nat -> X) : each_step no_gain (draw source : M X).
Proof. apply each_step_perform. intros w HN. simpl. split; [unfold fresh_from in *; simpl; lia|done]. Qed.

Lemma once_create_token (row : Z -> RefreshToken) :
  (forall now, rt_tokenHash (row now) <> h) -> each_step no_gain (create_token row).
Proof.
  intros Hrow. apply each_step_perform. intros w. destruct (db_up w); [|done]. cbv zeta.
  destruct (exists_row _ _); [|by destruct w as [[] ? ? ? ?]].
  unfold create. destruct (exists_row _ _); [by destruct w as [[] ? ? ? ?]|].
  intros HN. split; [done|]. unfold live_count, tokens_of. simpl.
  rewrite (filter_perm_length _ _ _ (rows_insert _ _)). simpl.
  unfold live_hash at 1, has_hash. by rewrite bool_decide_eq_false_2.
Qed.

(** Issuing a token draws a fresh one, so it cannot bring [h] back. *)
Lemma once_issue (userId familyId : string) (meta : ClientMeta) (c : nat)
    (post : result exn IssuedRefreshToken -> nat -> Prop) :
  (forall r, post r c) ->
  pays fresh_from (live_count h) post c (issue userId familyId meta).
Proof.
  intros Hpost. unfold issue. apply pays_bind, pays_perform. intros w HN.
  split; [unfold fresh_from in *; simpl; lia|]. exists c. split; [done|]. simpl.
  apply pays_idle; [|auto].
  apply each_step_bind; [by apply step_Date_now|]. intros now.
  apply each_step_bind; [apply once_draw|]. intros rid.
  apply each_step_bind; [|done]. apply once_create_token. intros createdAt. by apply Hfresh.
Qed.

Lemma once_sweep : each_step no_gain sweep.
Proof.
  unfold sweep. apply each_step_try; [|done].
  apply each_step_bind; [by apply step_Date_now|]. intros now.
  apply each_step_bind; [|done]. apply step_on_tokens; [done|].
  intros w HN. split; [done|]. apply live_delete.
Qed.

(** [spend] ends with a credit in hand whenever it returns a token. *)
Lemma once_spend (rawToken : string) :
  fingerprint rawToken = h ->
  pays fresh_from (live_count h)
    (fun r c => match r with Ok (Some _) => (1 <= c)%nat | _ => True end) 0
    (spend rawToken).
Proof.
  intros Hh. unfold spend. rewrite Hh. apply pays_bind, pays_perform. intros w HN. split; [done|].
  exists 0%nat. split; [done|]. simpl. generalize (clock w) as now. clear w HN. intros now.
  unfold spend_at. apply pays_bind, pays_perform. intros w HN.
  destruct (db_up w) eqn:Hup; simpl.
  2:{ split; [done|]. exists 0%nat. done. }
  split; [done|].
  assert (live_count h (set_tokens (t_update (spendable h now) (set_revokedAt now)
            (refreshToken (data w))) w) +
          length (t_select (spendable h now) (refreshToken (data w))) = live_count h w)%nat as Hpot.
  { unfold live_count. rewrite <- (live_revoked h (spendable h now) now (tokens_of w)).
    unfold tokens_of. simpl.
    rewrite (filter_perm_length _ _ _ (rows_update _ _ _)). f_equal.
    rewrite (Permutation_length (select_filter _ _)). f_equal.
    apply List.filter_ext. intros r. unfold spendable, live_hash.
    by destruct (has_hash h r), (is_none (rt_revokedAt r)). }
  change (with_data _ w) with (set_tokens (t_update (spendable h now) (set_revokedAt now)
            (refreshToken (data w))) w).
  case_match eqn:Hn.
  - apply Nat.eqb_eq in Hn. exists 1%nat. split; [lia|].
    apply pays_idle; [by apply step_select_token|]. by intros [[]|].
  - exists 0%nat. split; [lia|]. unfold spend_failed. apply pays_bind, pays_idle.
    { by apply step_select_token. }
    intros [[e|]|]; [|done..]. destruct (rt_revokedAt e); [|done].
    apply pays_bind, pays_idle; [apply once_revokeFamily|]. by intros [].
Qed.
End Once.
End Service.
