(* ===== verification/Auth.v ===== *)
(** * Authentication

    [services/user-management]: [users/users.service.ts] and [users/user.mapper.ts],
    [auth/password-hasher.ts], [auth/token.service.ts], [auth/auth.service.ts],
    the validation of the three DTOs, [auth/refresh-cookie.ts] and
    [auth/auth.controller.ts]. *)

From S2P Require Import Prelude Js World Dates Concurrency RefreshTokens.

Local Open Scope Z_scope.

(** ** Contracts of [packages/shared-types] *)

Record PublicUser := mkPublicUser {
  pu_id : string;
  pu_email : string;
  pu_role : UserRole;
  pu_isActive : bool;
  pu_createdAt : string;
}.

Record LoginResponse := mkLoginResponse {
  accessToken : string;
  refreshTokenRaw : string;
  tokenType : string;
  expiresIn : Z;
  sessionUser : PublicUser;
}.

(** What the controller answers: [Omit<LoginResponse, 'refreshToken'>]. *)
Record Session := mkSession {
  s_accessToken : string;
  s_tokenType : string;
  s_expiresIn : Z;
  s_user : PublicUser;
}.

Definition toPublicUser (u : User) : PublicUser :=
  mkPublicUser (u_id u) (u_email u) (u_role u) (u_isActive u) (toISOString (u_createdAt u)).

(** ** DTO validation *)

(** A field of a JSON body. *)
Inductive field := Missing | NotAString | Str (s : string).

Record Credentials := mkCredentials { email : string; password : string }.

(** [@Transform]: [value.trim().toLowerCase()] of a string. *)
Definition normalize_email (f : field) : field :=
  match f with Str s => Str (to_lower (trim s)) | _ => f end.

Definition length_between (lo hi : nat) (s : string) : bool :=
  Nat.leb lo (String.length s) && Nat.leb (String.length s) hi.

Section Dto.
(** [@IsEmail] of class-validator. *)
Context (isEmail : string -> bool).

Definition validate_credentials (minPassword : nat) (emailField passwordField : field) :
  result exn Credentials :=
  match normalize_email emailField, passwordField with
  | Str e, Str p =>
      if isEmail e && length_between minPassword 128 p then Ok (mkCredentials e p)
      else Err (BadRequestException "Bad Request")
  | _, _ => Err (BadRequestException "Bad Request")
  end.

Definition validate_login : field -> field -> result exn Credentials := validate_credentials 1.

Definition validate_register : field -> field -> result exn Credentials :=
  validate_credentials 12.
End Dto.

Definition validate_refresh (f : field) : result exn (option string) :=
  match f with
  | Missing => Ok None
  | NotAString => Err (BadRequestException "Bad Request")
  | Str s => if length_between 20 200 s then Ok (Some s)
             else Err (BadRequestException "Bad Request")
  end.

(** ** The refresh cookie *)

Definition REFRESH_COOKIE : string := "refresh_token".
Definition COOKIE_PATH : string := "/api/auth".

Inductive cookie_op :=
| SetCookie (name token : string) (httpOnly secure : bool) (sameSite path : string) (maxAge : Z)
| ClearCookie (name path : string).

(** [production] is [process.env.NODE_ENV === 'production']. *)
Definition setRefreshCookie (production : bool) (token : string) (ttlDays : Z) : cookie_op :=
  SetCookie REFRESH_COOKIE token true production "strict" COOKIE_PATH
    (ttlDays * 24 * 60 * 60 * 1000).

Definition clearRefreshCookie : cookie_op := ClearCookie REFRESH_COOKIE COOKIE_PATH.

Fixpoint find_cookie (parts : list string) : option string :=
  match parts with
  | [] => None
  | part :: parts' =>
      match split_on "="%char (trim part) with
      | name :: value =>
          if bool_decide (name = REFRESH_COOKIE) then or_undefined (str_join "=" value)
          else find_cookie parts'
      | [] => find_cookie parts'
      end
  end.

Definition readRefreshCookie (header : option string) : option string :=
  match header with
  | Some h => if truthy h then find_cookie (split_on ";"%char h) else None
  | None => None
  end.

(** [a ?? b] *)
Definition coalesce {X} (a b : option X) : option X :=
  match a with Some _ => a | None => b end.

Section Service.
Context {TU TR : Type} `{Table User TU} `{Table RefreshToken TR}.
Context (sha256_hex : string -> string) (randomToken randomUUID : nat -> string).
(** [argon2.hash] with the salt it draws, and [argon2.verify], [None] when it
    throws on a malformed digest. *)
Context (argon2_hash : nat -> string -> string)
        (argon2_verify : string -> string -> option bool).
(** [JwtService.signAsync({ role }, { subject })] at a time. *)
Context (jwt_sign : UserRole -> string -> Z -> string).
(** [JWT_REFRESH_TOKEN_TTL_DAYS], [JWT_ACCESS_TOKEN_TTL_SECONDS] and whether
    [NODE_ENV] is production. *)
Context (ttlDays accessTtl : Z) (production : bool).
(** The hash [onModuleInit] prepares. *)
Context (decoyHash : string).

Abbreviation um := (world (users_db TU TR)).
Abbreviation M := (io um exn).

Abbreviation issue' := (issue sha256_hex randomToken randomUUID ttlDays).
Abbreviation startFamily' := (startFamily sha256_hex randomToken randomUUID ttlDays).
Abbreviation spend' := (spend sha256_hex).
Abbreviation revokeFamilyByToken' := (revokeFamilyByToken sha256_hex).

(** *** PasswordHasher *)

Definition hash_password (plainText : string) : M string :=
  let! salt := draw (fun n => n) in
  external "argon2.hash" [plainText] (argon2_hash salt plainText).

Definition verify_password (digest plainText : string) : M bool :=
  external "argon2.verify" [digest; plainText]
    (match argon2_verify digest plainText with Some b => b | None => false end).

(** *** UsersService *)

Definition find_user (p : User -> bool) : M (option User) :=
  query (fun d => (Ok (findFirst p (user d)), d)).

Definition findByEmail (e : string) : M (option User) :=
  find_user (fun u => bool_decide (u_email u = e)).

Definition findById (i : string) : M (option User) :=
  find_user (fun u => bool_decide (u_id u = i)).

Definition create_user (e passwordHash : string) : M User :=
  let! uid := draw randomUUID in
  query_at (fun now d =>
    let '(r, t) := create user_clash (mkUser uid e passwordHash USER true now now) (user d) in
    (r, mkUsersDb t (refreshToken d))).

Definition getPublicProfile (i : string) : M PublicUser :=
  let! u := findById i in
  match u with
  | Some u' => if u_isActive u' then ret (toPublicUser u')
               else throw (UnauthorizedException "Unauthorized")
  | None => throw (UnauthorizedException "Unauthorized")
  end.

(** *** TokenService *)

Definition issueAccessToken (u : User) : M string :=
  let! now := Date_now in ret (jwt_sign (u_role u) (u_id u) now).

(** *** AuthService *)

Definition onModuleInit (randomHex : nat -> string) : M string :=
  let! r := draw randomHex in hash_password r.

Definition register (dto : Credentials) : M PublicUser :=
  let! passwordHash := hash_password (password dto) in
  try_catch
    (let! u := create_user (email dto) passwordHash in ret (toPublicUser u))
    (fun error =>
       if bool_decide (error = P2002)
       then throw (ConflictException "An account with this email already exists")
       else throw error).

Definition buildSession (u : User) (refreshTokenValue : string) : M LoginResponse :=
  let! access := issueAccessToken u in
  ret (mkLoginResponse access refreshTokenValue "Bearer" accessTtl (toPublicUser u)).

Definition invalid_login : exn := UnauthorizedException "Invalid email or password".

Definition login (dto : Credentials) (meta : ClientMeta) : M LoginResponse :=
  let! found := findByEmail (email dto) in
  let! passwordMatches :=
    verify_password (match found with Some u => u_passwordHash u | None => decoyHash end)
      (password dto) in
  match found with
  | Some u =>
      if passwordMatches && u_isActive u then
        let! issued := startFamily' (u_id u) meta in
        buildSession u (raw issued)
      else throw invalid_login
  | None => throw invalid_login
  end.

Definition invalid_refresh : exn := UnauthorizedException "Invalid refresh token".

(** [refresh] once the token is spent. *)
Definition refresh_spent (spent : RefreshToken) (meta : ClientMeta) : M LoginResponse :=
  let! u := findById (rt_userId spent) in
  match (match u with Some u' => if u_isActive u' then Some u' else None | None => None end) with
  | None => revokeFamily (rt_familyId spent) ;! throw invalid_refresh
  | Some u' =>
      let! issued := issue' (u_id u') (rt_familyId spent) meta in
      let! _ := linkReplacement (rt_id spent) (rt_id (record issued)) in
      buildSession u' (raw issued)
  end.

Definition refresh (presented : option string) (meta : ClientMeta) : M LoginResponse :=
  if otruthy presented then
    let! spent := spend' (default "" presented) in
    match spent with
    | None => throw invalid_refresh
    | Some s => refresh_spent s meta
    end
  else throw invalid_refresh.

Definition logout (presented : option string) : M unit :=
  if otruthy presented then revokeFamilyByToken' (default "" presented) else ret tt.

(** *** AuthController: the answer and what was done to the cookies *)

Definition to_session (r : LoginResponse) : Session :=
  mkSession (accessToken r) (tokenType r) (expiresIn r) (sessionUser r).

Definition with_cookie (m : M LoginResponse) : M (Session * list cookie_op) :=
  let! r := m in
  ret (to_session r, [setRefreshCookie production (refreshTokenRaw r) ttlDays]).

Definition login_route (dto : Credentials) (ip : option string) (agent : option string) :
  M (Session * list cookie_op) :=
  with_cookie (login dto (mkClientMeta ip agent)).

Definition refresh_route (body : option string) (cookie : option string)
    (ip : option string) (agent : option string) : M (Session * list cookie_op) :=
  let presented := coalesce (readRefreshCookie cookie) body in
  if otruthy presented then with_cookie (refresh presented (mkClientMeta ip agent))
  else throw invalid_refresh.

(** The cookie is cleared before the token is revoked: it is part of the answer
    even when revoking throws. *)
Definition logout_route (body : option string) (cookie : option string) :
  prog um (list cookie_op * result exn unit) :=
  let presented := coalesce (readRefreshCookie cookie) body in
  pbind (logout presented) (fun r => Done ([clearRefreshCookie], r)).

(** ** Requests

    Everything that changes [users_db], as one type, so that theorems can speak
    of any number of concurrent requests. *)

Inductive request :=
| Register (dto : Credentials)
| Login (dto : Credentials) (meta : ClientMeta)
| Refresh (presented : option string) (meta : ClientMeta)
| Logout (presented : option string)
| Me (userId : string)
| Sweep.

Inductive response :=
| RUser (u : PublicUser)
| RSession (r : LoginResponse)
| RUnit
| RCount (n : nat).

(** The handler of a request; the answer carries the request it answers. *)
Definition handle (r : request) : M (request * response) :=
  match r with
  | Register dto => let! u := register dto in ret (r, RUser u)
  | Login dto meta => let! l := login dto meta in ret (r, RSession l)
  | Refresh presented meta => let! l := refresh presented meta in ret (r, RSession l)
  | Logout presented => let! _ := logout presented in ret (r, RUnit)
  | Me i => let! u := getPublicProfile i in ret (r, RUser u)
  | Sweep => let! n := sweep in ret (r, RCount n)
  end.

(** What happens around the requests: time passes, the database comes and goes. *)
Inductive around : um -> um -> Prop :=
| Tick (w : um) (d : Z) (up : bool) :
    0 <= d ->
    around w (mkWorld (data w) (clock w + d) (draws w) up (calls w)).

Context `{!TableLaws User TU} `{!TableLaws RefreshToken TR}.

(** ** Steps that only read *)

Lemma step_find_user (R : um -> um -> Prop) (p : User -> bool) :
  (forall w, R w w) -> each_step R (find_user p).
Proof.
  intros HR. apply each_step_perform. intros w.
  destruct (db_up w); [|apply HR]. destruct w as [[] ? ? ? ?]. apply HR.
Qed.

Lemma step_external {X} (R : um -> um -> Prop) (name : string) (args : list string) (v : X) :
  (forall w c, R w (mkWorld (data w) (clock w) (draws w) (db_up w) c)) ->
  each_step R (external name args v).
Proof. intros HR. apply each_step_perform. intros w. apply HR. Qed.

Lemma step_buildSession (R : um -> um -> Prop) (u : User) (t : string) :
  (forall w, R w w) -> each_step R (buildSession u t).
Proof.
  intros HR. unfold buildSession, issueAccessToken.
  apply each_step_bind; [|done]. apply each_step_bind; [by apply step_Date_now|done].
Qed.

(** ** What the statements of a request can do to the database *)

Section Steps.
Context (fits : RefreshToken -> Prop) (R : um -> um -> Prop) `{!Keeps fits R}.

Lemma steps_refl (w : um) : R w w.
Proof. by apply (rest_refl fits). Qed.

#[local] Hint Resolve steps_refl : core.

Lemma steps_external {X} (name : string) (args : list string) (v : X) : each_step R (external name args v : M X).
Proof. apply step_external. intros w c. by apply (keeps_rest (fits := fits)). Qed.

Lemma steps_create_user (e h : string) : each_step R (create_user e h).
Proof.
  unfold create_user. apply each_step_bind; [by apply (steps_draw fits)|]. intros uid.
  apply each_step_perform. intros w. destruct (db_up w); [|done]. cbv zeta. unfold create.
  destruct (exists_row _ _) eqn:Hc; [by apply (keeps_rest (fits := fits)); destruct w as [[] ? ? ? ?]|].
  by apply (keeps_user (fits := fits)).
Qed.

Lemma steps_register (dto : Credentials) : each_step R (register dto).
Proof.
  unfold register, hash_password. apply each_step_bind.
  { apply each_step_bind; [by apply (steps_draw fits)|]. intros salt. apply steps_external. }
  intros h. apply each_step_try; [|intros e; by case_match].
  apply each_step_bind; [apply steps_create_user|done].
Qed.

Lemma steps_login (dto : Credentials) (meta : ClientMeta) : issues fits meta -> each_step R (login dto meta).
Proof.
  intros Hm. unfold login. apply each_step_bind; [by apply step_find_user|]. intros found.
  apply each_step_bind; [apply steps_external|]. intros ok.
  destruct found as [u|]; [|done]. destruct (ok && u_isActive u); [|done].
  apply each_step_bind; [by apply (steps_startFamily _ _ _ _ fits)|]. intros issued. by apply step_buildSession.
Qed.

Lemma steps_refresh (presented : option string) (meta : ClientMeta) :
  issues fits meta -> each_step R (refresh presented meta).
Proof.
  intros Hm. unfold refresh. case_match; [|done].
  apply each_step_bind; [by apply (steps_spend _ fits)|]. intros [s|]; [|done].
  unfold refresh_spent. apply each_step_bind; [by apply step_find_user|]. intros u. case_match.
  - apply each_step_bind; [by apply (steps_issue _ _ _ _ fits)|]. intros issued.
    apply each_step_bind; [by apply (steps_linkReplacement fits)|]. intros []. by apply step_buildSession.
  - apply each_step_bind; [by apply (steps_revokeFamily fits)|done].
Qed.

Lemma steps_logout (presented : option string) : each_step R (logout presented).
Proof. unfold logout. case_match; [by apply (steps_revokeFamilyByToken _ fits)|done]. Qed.

Lemma steps_getPublicProfile (i : string) : each_step R (getPublicProfile i).
Proof.
  unfold getPublicProfile. apply each_step_bind; [by apply step_find_user|].
  intros [u|]; [by case_match|done].
Qed.

Lemma steps_handle (r : request) : (forall meta, issues fits meta) -> each_step R (handle r).
Proof.
  intros Hm. destruct r as [dto|dto meta|presented meta|presented|i|]; (apply each_step_bind; [|done]).
  - apply steps_register.
  - by apply steps_login.
  - by apply steps_refresh.
  - apply steps_logout.
  - apply steps_getPublicProfile.
  - by apply (steps_sweep fits).
Qed.
End Steps.

Lemma wf_handle (r : request) : each_step keeps_wf (handle r).
Proof. by apply (steps_handle (fun _ => True) keeps_wf). Qed.

(** ** No request brings a spent token back *)

Section Once.
Context (h : string) (N : nat).
Context (Hfresh : forall n, (N <= n)%nat -> fingerprint sha256_hex (randomToken n) <> h).

Abbreviation idle := (each_step (no_gain h N)).
Abbreviation pays' := (pays (fresh_from N) (live_count h)).

#[local] Hint Resolve no_gain_refl : core.

Lemma no_gain_calls (w : um) (c : list (string * list string)) :
  no_gain h N w (mkWorld (data w) (clock w) (draws w) (db_up w) c).
Proof. unfold no_gain. auto. Qed.

Lemma once_create_user (e p : string) : idle (create_user e p).
Proof.
  unfold create_user. apply each_step_bind; [apply once_draw|]. intros uid.
  apply each_step_perform. intros w. destruct (db_up w); [|done]. cbv zeta.
  destruct (create _ _ _) as [r t]. unfold no_gain. auto.
Qed.

Lemma once_register (dto : Credentials) : idle (register dto).
Proof.
  unfold register. apply each_step_bind.
  { unfold hash_password. apply each_step_bind; [apply once_draw|]. intros salt.
    apply step_external, no_gain_calls. }
  intros p. apply each_step_try; [|intros e; by case_match].
  apply each_step_bind; [apply once_create_user|done].
Qed.

Lemma once_login (dto : Credentials) (meta : ClientMeta) (post : _ -> nat -> Prop) (c : nat) :
  (forall r, post r c) -> pays' post c (login dto meta).
Proof.
  intros Hpost. unfold login. apply pays_bind, pays_idle; [by apply step_find_user|].
  intros [found|e]; [|auto]. apply pays_bind, pays_idle; [apply step_external, no_gain_calls|].
  intros [ok|e]; [|auto]. destruct found as [u|]; [|apply Hpost].
  destruct (ok && u_isActive u); [|apply Hpost].
  unfold startFamily. apply pays_bind, pays_bind, pays_idle; [apply once_draw|].
  intros [f|e]; [|auto]. law once_issue; [done|]. intros [issued|e]; [|auto].
  apply pays_idle; [by apply step_buildSession|auto].
Qed.

Lemma once_refresh_spent (s : RefreshToken) (meta : ClientMeta) (post : _ -> nat -> Prop) (c : nat) :
  (forall r, post r c) -> pays' post c (refresh_spent s meta).
Proof.
  intros Hpost. unfold refresh_spent. apply pays_bind, pays_idle; [by apply step_find_user|].
  intros [u|e]; [|auto]. case_match.
  - apply pays_bind. law once_issue; [done|]. intros [issued|e]; [|auto].
    apply pays_bind, pays_idle; [law once_linkReplacement|]. intros [|e]; [|auto].
    apply pays_idle; [by apply step_buildSession|auto].
  - apply pays_bind, pays_idle; [law once_revokeFamily|]. intros []; [apply Hpost|auto].
Qed.

(** Spending any other token leaves the one of hash [h] alone. *)
Lemma once_spend_other (rawToken : string) : idle (spend' rawToken : M (option RefreshToken)).
Proof.
  unfold spend, spend_at. apply each_step_bind; [by apply step_Date_now|]. intros now.
  apply each_step_bind.
  { apply step_update_tokens; [done|]. intros w. law no_gain_update. apply revoked_not_live. }
  intros n. case_match; [by apply step_select_token|]. unfold spend_failed.
  apply each_step_bind; [by apply step_select_token|]. intros [e|]; [|done].
  case_match; [|done]. apply each_step_bind; [law once_revokeFamily|done].
Qed.

(** The request presents the token of hash [h]. *)
Definition presents (r : request) : Prop :=
  match r with
  | Refresh (Some t) _ => fingerprint sha256_hex t = h
  | _ => False
  end.

(** A session for the token of hash [h] costs a credit. *)
Definition session_costs (r : result exn (request * response)) (c : nat) : Prop :=
  match r with Ok (q, _) => presents q -> (1 <= c)%nat | Err _ => True end.

Lemma once_handle (r : request) : pays' session_costs 0 (handle r).
Proof.
  destruct r as [dto|dto meta|presented meta|presented|i|]; apply pays_bind.
  - apply pays_idle; [apply once_register|]. intros [a|e]; [by intros []|done].
  - apply once_login. intros [a|e]; [by intros []|done].
  - unfold refresh. destruct presented as [t|]; simpl; [|done].
    destruct (truthy t); [|done]. apply pays_bind.
    destruct (decide (fingerprint sha256_hex t = h)) as [Hh|Hh].
    + eapply pays_mono; [|by law once_spend]. intros [[s|]|e] c' Hc; [|done..].
      apply once_refresh_spent. intros [a|e]; [by intros _|done].
    + apply pays_idle; [apply once_spend_other|]. intros [[s|]|e]; [|done..].
      apply once_refresh_spent. intros [a|e]; [by intros ?|done].
  - unfold logout. apply pays_idle; [|intros [a|e]; [by intros []|done]]. case_match; [|done].
    unfold revokeFamilyByToken. apply each_step_bind; [by apply step_select_token|].
    intros [r|]; [law once_revokeFamily|done].
  - unfold getPublicProfile. apply pays_idle; [|intros [a|e]; [by intros []|done]].
    apply each_step_bind; [by apply step_find_user|]. intros [u|]; [by case_match|done].
  - apply pays_idle; [law once_sweep|]. intros [a|e]; [by intros []|done].
Qed.
End Once.
End Service.
