(* ===== verification/Sessions.v ===== *)
(** * Sessions

    What the sign-in flows of [services/user-management] guarantee: each
    request of [Auth] on every branch, run alone, and any number of them
    interleaved. *)

From S2P Require Import Prelude Js World Dates Concurrency RefreshTokens Auth.

Local Open Scope Z_scope.

Set Default Proof Using "Type*".

(** ** The cookie header *)

(** [name=value] *)
Definition cookie_pair (c : string * string) : string := c.1 +:+ String "="%char c.2.

(** A pair a browser sends: no [;], no blank at either end, no [=] in the name. *)
Definition plain_cookie (c : string * string) : Prop :=
  occurs ";"%char (cookie_pair c) = false /\ trim (cookie_pair c) = cookie_pair c /\
  occurs "="%char c.1 = false.

#[export] Instance plain_cookie_dec (c : string * string) : Decision (plain_cookie c).
Proof. solve_decision. Defined.

Lemma find_cookie_blank (s : string) (l : list string) :
  find_cookie (String " "%char s :: l) = find_cookie (s :: l).
Proof. done. Qed.

Lemma find_cookie_header (parts : list string) :
  parts <> [] -> Forall (fun p => occurs ";"%char p = false) parts ->
  find_cookie (split_on ";"%char (str_join "; " parts)) = find_cookie parts.
Proof.
  induction parts as [|p parts IH]; [done|]. intros _ Hall.
  inversion Hall as [|? ? Hp Hl]; subst.
  destruct parts as [|q parts]; [by rewrite split_on_no_sep|].
  change (str_join "; " (p :: q :: parts))
    with (p +:+ String ";"%char (String " "%char (str_join "; " (q :: parts)))).
  rewrite split_on_app_sep by done.
  assert (find_cookie (split_on ";"%char (String " "%char (str_join "; " (q :: parts)))) =
          find_cookie (q :: parts)) as E.
  { rewrite <- IH by done. cbn [split_on]. pose proof (split_on_nonempty ";"%char
      (str_join "; " (q :: parts))) as Hne.
    destruct (split_on _ _) as [|w ws]; [done|apply find_cookie_blank]. }
  change (find_cookie (p :: ?l)) with
    (match split_on "="%char (trim p) with
     | name :: value => if bool_decide (name = REFRESH_COOKIE) then or_undefined (str_join "=" value)
                        else find_cookie l
     | [] => find_cookie l
     end) at 1.
  by rewrite E.
Qed.

(** The value of the first [refresh_token] cookie of a header. *)
Lemma read_header (cookies : list (string * string)) :
  Forall plain_cookie cookies ->
  readRefreshCookie (Some (str_join "; " (List.map cookie_pair cookies))) =
  match List.find (fun c => bool_decide (c.1 = REFRESH_COOKIE)) cookies with
  | Some c => or_undefined c.2
  | None => None
  end.
Proof.
  intros Hall. unfold readRefreshCookie.
  destruct cookies as [|c0 cs]; [done|]. set (cookies := c0 :: cs) in *.
  assert (truthy (str_join "; " (List.map cookie_pair cookies)) = true) as ->.
  { subst cookies. destruct c0 as [[|a n] v], cs; done. }
  rewrite find_cookie_header; [|done|].
  2:{ apply Forall_map. eapply Forall_impl; [exact Hall|]. by intros c (? & _). }
  clearbody cookies. induction Hall as [|c cs' (_ & Htrim & Hname) _ IH]; [done|].
  destruct c as [n v]. simpl in *. rewrite Htrim. unfold cookie_pair at 1. simpl.
  rewrite split_on_app_sep by done. case_bool_decide; [|done].
  by rewrite join_split_on.
Qed.

(** Reading the header a browser sends for a list of cookies gives the value
    of the first [refresh_token] among them, whatever [=] the value contains,
    and nothing when there is none or it is empty. *)
Theorem readRefreshCookie_header (cookies : list (string * string)) :
  Forall plain_cookie cookies ->
  readRefreshCookie (Some (str_join "; " (List.map cookie_pair cookies))) =
  match List.find (fun c => bool_decide (c.1 = REFRESH_COOKIE)) cookies with
  | Some c => or_undefined c.2
  | None => None
  end.
Proof. apply read_header. Qed.

Section Sessions.
Context {TU TR : Type} `{TableLaws User TU} `{TableLaws RefreshToken TR}.

Abbreviation um := (world (users_db TU TR)).
Abbreviation M := (io um exn).

(** ** Rows *)

Lemma spend_spec_at (r : RefreshToken) (w : um) :
  db_wf w -> r ∈ tokens_of w ->
  spend_spec (rt_tokenHash r) (clock w) (tokens_of w) =
  match rt_revokedAt r with
  | Some _ => (None, revoke_all (live_in_family (rt_familyId r)) (clock w) (tokens_of w))
  | None => if clock w <? rt_expiresAt r
            then (Some (set_revokedAt (clock w) r),
                  revoke_all (has_hash (rt_tokenHash r)) (clock w) (tokens_of w))
            else (None, tokens_of w)
  end.
Proof.
  intros Hwf Hr. unfold spend_spec. pose proof (find_hash (rt_tokenHash r) w Hwf) as Hf.
  destruct (List.find _ (tokens_of w)) as [r0|].
  - destruct Hf as (_ & _ & _ & Hu). by rewrite (Hu r Hr eq_refl).
  - specialize (Hf r Hr). by apply bool_decide_eq_false in Hf.
Qed.

(** In a well-formed table the id and the hash name the same row. *)
Lemma id_iff_hash (r x : RefreshToken) (w : um) :
  db_wf w -> r ∈ tokens_of w -> x ∈ tokens_of w ->
  has_id (rt_id r) x = has_hash (rt_tokenHash r) x.
Proof.
  intros Hwf Hr Hx. apply list_elem_of_lookup in Hr as [i Hi], Hx as [j Hj].
  apply bool_decide_ext. split; intros E.
  - assert (j = i) as ->; [|congruence].
    eapply (NoDup_lookup _ j i _ (wf_token_ids _ Hwf)); rewrite list_lookup_fmap;
      [by rewrite Hj|by rewrite Hi, E].
  - assert (j = i) as ->; [|congruence].
    eapply (NoDup_lookup _ j i _ (wf_token_hashes _ Hwf)); rewrite list_lookup_fmap;
      [by rewrite Hj|by rewrite Hi, E].
Qed.

Lemma in_revoke_all (p : RefreshToken -> bool) (now : Z) (l : list RefreshToken) (x : RefreshToken) :
  x ∈ revoke_all p now l <-> exists y, y ∈ l /\ x = if p y then set_revokedAt now y else y.
Proof.
  unfold revoke_all. rewrite list_elem_of_In, List.in_map_iff.
  setoid_rewrite list_elem_of_In. naive_solver.
Qed.

Context (sha256_hex : string -> string) (randomToken randomUUID : nat -> string).
Context (argon2_hash : nat -> string -> string)
        (argon2_verify : string -> string -> option bool).
Context (jwt_sign : UserRole -> string -> Z -> string).
Context (ttlDays accessTtl : Z) (production : bool) (decoyHash : string).

Abbreviation handle' :=
  (handle sha256_hex randomToken randomUUID argon2_hash argon2_verify jwt_sign
     ttlDays accessTtl decoyHash).
Abbreviation refresh' := (refresh sha256_hex randomToken randomUUID jwt_sign ttlDays accessTtl).
Abbreviation refresh_spent' := (refresh_spent sha256_hex randomToken randomUUID jwt_sign ttlDays accessTtl).
Abbreviation login' :=
  (login sha256_hex randomToken randomUUID argon2_verify jwt_sign ttlDays accessTtl decoyHash).
Abbreviation issue' := (issue sha256_hex randomToken randomUUID ttlDays).

(** ** Runs of the steps of a request *)

Lemma run_find_user (p : User -> bool) (w : um) :
  db_up w = true -> run (find_user p) w = (Ok (findFirst p (user (data w))), w).
Proof.
  intros Hup. unfold find_user. rewrite run_query, Hup. by destruct w as [[] ? ? ? ?].
Qed.

Lemma run_findById (u : User) (w : um) :
  db_wf w -> db_up w = true -> u ∈ users_of w -> run (findById (u_id u)) w = (Ok (Some u), w).
Proof.
  intros Hwf Hup Hu. unfold findById. rewrite run_find_user by done.
  by rewrite (findFirst_key u_id) by (try apply Hwf; done).
Qed.

(** The row [issue] creates. *)
Definition new_token (w : um) (userId familyId : string) (meta : ClientMeta) : RefreshToken :=
  mkRefreshToken (randomUUID (S (draws w))) userId (sha256_hex (randomToken (draws w)))
    familyId (clock w + ttlDays * DAY_MS) None None (userAgent meta) (ipAddress meta) (clock w).

(** Neither its id nor its fingerprint is taken. *)
Definition unclashing (r : RefreshToken) (l : list RefreshToken) : Prop :=
  forall r', r' ∈ l -> rt_id r' <> rt_id r /\ rt_tokenHash r' <> rt_tokenHash r.

Lemma unclashing_exists (r : RefreshToken) (t : TR) :
  unclashing r (rows t) -> exists_row (token_clash r) t = false.
Proof.
  intros Hr. apply exists_row_false. intros r' Hr'. destruct (Hr r' Hr').
  unfold token_clash. by rewrite !bool_decide_eq_false_2.
Qed.

Definition after_issue (w : um) (r : RefreshToken) : um :=
  mkWorld (mkUsersDb (user (data w)) (t_insert r (refreshToken (data w))))
    (clock w) (S (S (draws w))) (db_up w) (calls w).

Lemma run_issue (userId familyId : string) (meta : ClientMeta) (w : um) :
  db_up w = true -> (exists u, u ∈ users_of w /\ u_id u = userId) ->
  unclashing (new_token w userId familyId meta) (tokens_of w) ->
  run (issue' userId familyId meta) w =
  (Ok (mkIssued (randomToken (draws w)) (new_token w userId familyId meta)),
   after_issue w (new_token w userId familyId meta)).
Proof.
  intros Hup (u & Hu & Hid) Hfresh. unfold issue.
  rewrite run_bind, run_draw, run_bind, run_Date_now, run_bind, run_draw, run_bind.
  unfold create_token. rewrite run_query_at. cbn [db_up data clock draws calls]. rewrite Hup.
  cbv zeta. unfold create, fingerprint.
  rewrite (proj2 (exists_row_true _ _)) by (exists u; split; [done|by apply bool_decide_eq_true]).
  change (mkRefreshToken _ _ _ _ _ _ _ _ _ _) with (new_token w userId familyId meta).
  rewrite (unclashing_exists _ _ Hfresh). unfold after_issue. by rewrite Hup.
Qed.

Lemma run_buildSession (u : User) (t : string) (w : um) :
  run (buildSession jwt_sign accessTtl u t) w =
  (Ok (mkLoginResponse (jwt_sign (u_role u) (u_id u) (clock w)) t "Bearer" accessTtl
         (toPublicUser u)), w).
Proof.
  unfold buildSession, issueAccessToken. by rewrite !run_bind, run_Date_now, run_ret.
Qed.

(** ** Refresh on every branch *)

Definition link (w : um) (i j : string) : um :=
  set_tokens (t_update (has_id i) (set_replacedById j) (refreshToken (data w))) w.

Lemma run_linkReplacement (i j : string) (w : um) (r : RefreshToken) :
  db_up w = true -> r ∈ tokens_of w -> rt_id r = i ->
  run (linkReplacement i j) w = (Ok tt, link w i j).
Proof.
  intros Hup Hr Hi. unfold linkReplacement. rewrite run_on_tokens, Hup. unfold update.
  rewrite (proj2 (exists_row_true _ _)); [done|]. exists r. split; [done|].
  by apply bool_decide_eq_true.
Qed.

(** Once a token is spent and its user is active, the rotation goes through. *)
Lemma run_refresh_spent (s : RefreshToken) (u : User) (meta : ClientMeta) (w : um) :
  db_wf w -> db_up w = true -> s ∈ tokens_of w -> u ∈ users_of w ->
  u_id u = rt_userId s -> u_isActive u = true ->
  let new := new_token w (u_id u) (rt_familyId s) meta in
  unclashing new (tokens_of w) ->
  run (refresh_spent' s meta) w =
  (Ok (mkLoginResponse (jwt_sign (u_role u) (u_id u) (clock w)) (randomToken (draws w)) "Bearer"
         accessTtl (toPublicUser u)),
   link (after_issue w new) (rt_id s) (rt_id new)).
Proof.
  intros Hwf Hup Hs Hu Hid Hact new Hfresh. unfold refresh_spent.
  rewrite run_bind, <- Hid, (run_findById u) by done. rewrite Hact.
  rewrite run_bind, run_issue by (done || by exists u). fold new. cbn [record raw].
  rewrite run_bind, (run_linkReplacement _ _ _ s); [|done| |done].
  - by rewrite run_buildSession.
  - apply elem_insert. by right.
Qed.

Lemma unclashing_revoked (new : RefreshToken) (p : RefreshToken -> bool) (now : Z) (t : TR)
    (l : list RefreshToken) :
  rows t ≡ₚ revoke_all p now l -> unclashing new l -> unclashing new (rows t).
Proof.
  intros Ht Hnew r'. rewrite Ht, in_revoke_all. intros (y & Hy & ->).
  destruct (Hnew y Hy). by destruct (p y).
Qed.

Lemma rotated_rows (new r : RefreshToken) (t : TR) (w : um) :
  db_wf w -> r ∈ tokens_of w -> unclashing new (tokens_of w) ->
  rows t ≡ₚ revoke_all (has_hash (rt_tokenHash r)) (clock w) (tokens_of w) ->
  rows (t_update (has_id (rt_id r)) (set_replacedById (rt_id new)) (t_insert new t)) ≡ₚ
  new :: List.map (fun x => if has_hash (rt_tokenHash r) x
                            then set_replacedById (rt_id new) (set_revokedAt (clock w) x) else x)
           (tokens_of w).
Proof.
  intros Hwf Hr Hnew Ht. rewrite rows_update, rows_insert, Ht. unfold revoke_all. simpl.
  destruct (Hnew r Hr) as [Hid _]. unfold has_id at 1. rewrite bool_decide_eq_false_2 by done.
  rewrite List.map_map. f_equiv. apply reflexive_eq, map_ext_in'. intros x Hx.
  pose proof (id_iff_hash r x w Hwf Hr Hx) as Hix.
  destruct (has_hash _ x); change (has_id (rt_id r) (set_revokedAt (clock w) x))
    with (has_id (rt_id r) x); by rewrite Hix.
Qed.

(** A refresh with a live token of an active user. *)
Lemma run_refresh_live (t : string) (meta : ClientMeta) (r : RefreshToken) (u : User) (w : um) :
  db_wf w -> db_up w = true -> truthy t = true ->
  r ∈ tokens_of w -> spendable (sha256_hex t) (clock w) r = true ->
  u ∈ users_of w -> u_id u = rt_userId r -> u_isActive u = true ->
  let new := new_token w (u_id u) (rt_familyId r) meta in
  unclashing new (tokens_of w) ->
  exists w',
    run (refresh' (Some t) meta) w =
      (Ok (mkLoginResponse (jwt_sign (u_role u) (u_id u) (clock w)) (randomToken (draws w))
             "Bearer" accessTtl (toPublicUser u)), w') /\
    tokens_of w' ≡ₚ new ::
      List.map (fun x => if has_hash (sha256_hex t) x
                         then set_replacedById (rt_id new) (set_revokedAt (clock w) x) else x)
        (tokens_of w) /\
    users_of w' = users_of w /\
    clock w' = clock w /\ draws w' = S (S (draws w)) /\ db_up w' = true.
Proof.
  intros Hwf Hup Ht Hr (Hh & Hlive & Hexp)%spendable_hash Hu Hid Hact new Hnew.
  unfold refresh. simpl. rewrite Ht, run_bind.
  destruct (run_spend sha256_hex t w Hwf Hup) as (t1 & -> & Ht1). unfold fingerprint in *.
  rewrite <- Hh, (spend_spec_at r w Hwf Hr), Hlive, (proj2 (Z.ltb_lt _ _) Hexp) in *.
  cbn [fst snd] in *.
  assert (db_wf (set_tokens t1 w)) as Hwf1.
  { pose proof (wf_update (has_hash (rt_tokenHash r)) (set_revokedAt (clock w)) w) as Hw.
    apply (wf_perm t1 (set_tokens (t_update (has_hash (rt_tokenHash r)) (set_revokedAt (clock w))
             (refreshToken (data w))) w)); [|by apply Hw].
    unfold tokens_of. simpl. rewrite rows_update. exact Ht1. }
  rewrite (run_refresh_spent _ u); try done.
  - eexists. split; [done|]. split; [|by repeat split]. unfold tokens_of at 1. simpl.
    apply (rotated_rows new r t1 w); done.
  - unfold tokens_of. simpl. rewrite Ht1, in_revoke_all. exists r. split; [done|].
    unfold has_hash. by rewrite bool_decide_eq_true_2.
  - by eapply unclashing_revoked.
Qed.

(** C11: refreshing with a live token whose user is active answers a session for
    that user with a newly drawn token, and leaves in the table exactly the old
    rows, the presented one revoked and linked to its replacement, and the
    replacement, of the same family and expiring after the configured days. *)
Theorem refresh_rotates (t : string) (meta : ClientMeta) (r : RefreshToken) (u : User) (w : um) :
  db_wf w -> db_up w = true -> truthy t = true ->
  r ∈ tokens_of w -> spendable (sha256_hex t) (clock w) r = true ->
  u ∈ users_of w -> u_id u = rt_userId r -> u_isActive u = true ->
  let new := new_token w (u_id u) (rt_familyId r) meta in
  unclashing new (tokens_of w) ->
  exists w',
    run (refresh' (Some t) meta) w =
      (Ok (mkLoginResponse (jwt_sign (u_role u) (u_id u) (clock w)) (randomToken (draws w))
             "Bearer" accessTtl (toPublicUser u)), w') /\
    tokens_of w' ≡ₚ new ::
      List.map (fun x => if has_hash (sha256_hex t) x
                         then set_replacedById (rt_id new) (set_revokedAt (clock w) x) else x)
        (tokens_of w) /\
    users_of w' = users_of w.
Proof.
  intros Hwf Hup Ht Hr Hs Hu Hid Hact new Hnew.
  destruct (run_refresh_live t meta r u w) as (w' & Hrun & Htok & Husr & _); eauto.
Qed.

Lemma run_refresh_dead (t : string) (meta : ClientMeta) (w : um) :
  let sp := spend_spec (sha256_hex t) (clock w) (tokens_of w) in
  db_wf w -> db_up w = true -> truthy t = true -> sp.1 = None ->
  exists w', run (refresh' (Some t) meta) w = (Err invalid_refresh, w') /\
    tokens_of w' ≡ₚ sp.2 /\ users_of w' = users_of w /\
    clock w' = clock w /\ draws w' = draws w /\ db_up w' = db_up w.
Proof.
  intros sp Hwf Hup Ht Hsp. unfold refresh. simpl. rewrite Ht, run_bind.
  destruct (run_spend sha256_hex t w Hwf Hup) as (t1 & -> & Ht1). unfold fingerprint in *.
  fold sp in Ht1 |- *. rewrite Hsp. exists (set_tokens t1 w). by rewrite run_throw.
Qed.

(** C12: presenting a token that was already spent or revoked fails, and
    afterwards no token of its family is live while the tokens of every other
    family are as they were. *)
Theorem replay_revokes_family (t : string) (meta : ClientMeta) (r : RefreshToken) (at_ : Z)
    (w : um) :
  db_wf w -> db_up w = true -> truthy t = true ->
  r ∈ tokens_of w -> rt_tokenHash r = sha256_hex t -> rt_revokedAt r = Some at_ ->
  exists w', run (refresh' (Some t) meta) w = (Err invalid_refresh, w') /\
    (forall x, x ∈ tokens_of w' -> rt_familyId x = rt_familyId r -> rt_revokedAt x <> None) /\
    (forall x, rt_familyId x <> rt_familyId r -> x ∈ tokens_of w' <-> x ∈ tokens_of w).
Proof.
  intros Hwf Hup Ht Hr Hh Hrev. pose proof (spend_spec_at r w Hwf Hr) as Hsp.
  rewrite Hh, Hrev in Hsp.
  destruct (run_refresh_dead t meta w Hwf Hup Ht) as (w' & Hrun & Htok & _); [by rewrite Hsp|].
  exists w'. split; [done|]. rewrite Hsp in Htok. cbn [snd] in Htok.
  unfold live_in_family in Htok. split; intros x; rewrite Htok, in_revoke_all.
  - intros (y & Hy & ->) Hf. case_match eqn:E; [done|]. intros Hnone.
    rewrite bool_decide_eq_true_2, Hnone in E by done. done.
  - intros Hf. split.
    + intros (y & Hy & ->). case_match eqn:E; [|done].
      apply andb_true_iff in E as [E _]. by apply bool_decide_eq_true in E.
    + intros Hx. exists x. by rewrite bool_decide_eq_false_2.
Qed.

(** A refresh without a token, or with one that is unknown or expired but
    was never revoked, fails and changes no row. *)
Theorem refresh_rejects (presented : option string) (meta : ClientMeta) (w : um) :
  db_wf w -> db_up w = true ->
  (forall t r, presented = Some t -> r ∈ tokens_of w -> rt_tokenHash r = sha256_hex t ->
     rt_revokedAt r = None /\ rt_expiresAt r <= clock w) ->
  exists w', run (refresh' presented meta) w = (Err invalid_refresh, w') /\
    tokens_of w' ≡ₚ tokens_of w /\ users_of w' = users_of w.
Proof.
  intros Hwf Hup Hall. destruct presented as [t|]; [|by exists w].
  destruct (truthy t) eqn:Ht.
  2:{ exists w. unfold refresh. simpl. by rewrite Ht. }
  assert (spend_spec (sha256_hex t) (clock w) (tokens_of w) = (None, tokens_of w)) as Hsp.
  { pose proof (find_hash (sha256_hex t) w Hwf) as Hf. unfold spend_spec.
    destruct (List.find _ _) as [r|]; [|done]. destruct Hf as (Hr & Hh & _).
    destruct (Hall t r eq_refl Hr Hh) as [-> Hexp].
    by rewrite (proj2 (Z.ltb_ge _ _) Hexp). }
  destruct (run_refresh_dead t meta w Hwf Hup Ht) as (w' & Hrun & Htok & Hus & _); [by rewrite Hsp|].
  exists w'. by rewrite Hsp in Htok.
Qed.

(** Refreshing with a live token of a deactivated user fails and revokes every
    token of the family. *)
Theorem refresh_inactive (t : string) (meta : ClientMeta) (r : RefreshToken) (u : User) (w : um) :
  db_wf w -> db_up w = true -> truthy t = true ->
  r ∈ tokens_of w -> spendable (sha256_hex t) (clock w) r = true ->
  u ∈ users_of w -> u_id u = rt_userId r -> u_isActive u = false ->
  exists w', run (refresh' (Some t) meta) w = (Err invalid_refresh, w') /\
    (forall x, x ∈ tokens_of w' -> rt_familyId x = rt_familyId r -> rt_revokedAt x <> None).
Proof.
  intros Hwf Hup Ht Hr (Hh & Hlive & Hexp)%spendable_hash Hu Hid Hact.
  unfold refresh. simpl. rewrite Ht, run_bind.
  destruct (run_spend sha256_hex t w Hwf Hup) as (t1 & -> & Ht1). unfold fingerprint in *.
  rewrite <- Hh, (spend_spec_at r w Hwf Hr), Hlive, (proj2 (Z.ltb_lt _ _) Hexp) in *.
  cbn [fst snd] in *. unfold refresh_spent.
  assert (run (findById (rt_userId (set_revokedAt (clock w) r))) (set_tokens t1 w) =
          (Ok (Some u), set_tokens t1 w)) as Hfind.
  { simpl. rewrite <- Hid. unfold findById. rewrite run_find_user by done.
    simpl. by rewrite (findFirst_key u_id _ u (wf_user_ids _ Hwf) Hu). }
  rewrite run_bind, Hfind, Hact, run_bind, run_revokeFamily by done.
  eexists. split; [done|]. intros x. unfold tokens_of. simpl.
  rewrite elem_update. intros (y & _ & ->) Hf. case_match eqn:E; [done|]. intros Hnone.
  unfold live_in_family in E. by rewrite bool_decide_eq_true_2, Hnone in E.
Qed.

(** ** Sign-in *)

(** The account the credentials open, if any. *)
Definition authenticates (dto : Credentials) (u : User) : bool :=
  match argon2_verify (u_passwordHash u) (password dto) with
  | Some b => b && u_isActive u
  | None => false
  end.

Definition account (dto : Credentials) (w : um) : option User :=
  List.find (fun u => bool_decide (u_email u = email dto)) (users_of w).

Lemma run_findByEmail (dto : Credentials) (w : um) :
  db_wf w -> db_up w = true ->
  run (findByEmail (email dto)) w = (Ok (account dto w), w).
Proof.
  intros Hwf Hup. unfold findByEmail, account. rewrite run_find_user by done.
  destruct (List.find _ (users_of w)) as [u|] eqn:E.
  - apply List.find_some in E as [Hu He]. apply bool_decide_eq_true in He. rewrite <- He.
    by rewrite (findFirst_key u_email _ u (wf_user_emails _ Hwf)) by (by apply list_elem_of_In).
  - rewrite (proj2 (findFirst_None _ _)); [done|]. intros u Hu.
    apply (List.find_none _ _ E). by apply list_elem_of_In.
Qed.

Definition after_verify (dto : Credentials) (w : um) : um :=
  mkWorld (data w) (clock w) (draws w) (db_up w)
    (("argon2.verify", [match account dto w with Some u => u_passwordHash u | None => decoyHash end;
                        password dto]) :: calls w).

Lemma run_verify_password (d p : string) (w : um) :
  run (verify_password argon2_verify d p) w =
  (Ok (match argon2_verify d p with Some b => b | None => false end),
   mkWorld (data w) (clock w) (draws w) (db_up w) (("argon2.verify", [d; p]) :: calls w)).
Proof. done. Qed.

(** C30: a sign-in with an unknown email, a wrong password or a deactivated
    account gives the same answer, changes no row, and makes exactly one call of
    [argon2.verify], against the decoy hash when there is no account. *)
Theorem login_rejects (dto : Credentials) (meta : ClientMeta) (w : um) :
  db_wf w -> db_up w = true ->
  (forall u, account dto w = Some u -> authenticates dto u = false) ->
  run (login' dto meta) w = (Err invalid_login, after_verify dto w).
Proof.
  intros Hwf Hup Hno. unfold login, after_verify.
  rewrite run_bind, run_findByEmail, run_bind, run_verify_password by done.
  destruct (account dto w) as [u|]; [|done].
  specialize (Hno u eq_refl). unfold authenticates in Hno.
  destruct (argon2_verify _ _) as [b|]; [by rewrite Hno|done].
Qed.

(** A sign-in with the right password. *)
Lemma run_login_accepted (dto : Credentials) (meta : ClientMeta) (u : User) (w : um) :
  db_wf w -> db_up w = true ->
  account dto w = Some u -> authenticates dto u = true ->
  let w1 := mkWorld (data w) (clock w) (S (draws w)) (db_up w) (calls (after_verify dto w)) in
  let new := new_token w1 (u_id u) (randomUUID (draws w)) meta in
  unclashing new (tokens_of w) ->
  exists w',
    run (login' dto meta) w =
      (Ok (mkLoginResponse (jwt_sign (u_role u) (u_id u) (clock w)) (randomToken (S (draws w)))
             "Bearer" accessTtl (toPublicUser u)), w') /\
    tokens_of w' ≡ₚ new :: tokens_of w /\ users_of w' = users_of w /\
    clock w' = clock w /\ draws w' = S (S (S (draws w))) /\ db_up w' = true /\
    (0 < ttlDays -> spendable (sha256_hex (randomToken (S (draws w)))) (clock w') new = true).
Proof.
  intros Hwf Hup Hacc Hauth w1 new Hnew. exists (after_issue w1 new). split.
  - unfold login. rewrite run_bind, run_findByEmail, run_bind, run_verify_password, Hacc by done.
    unfold authenticates in Hauth. destruct (argon2_verify _ _) as [b|] eqn:Hv; [|done].
    rewrite Hauth. unfold startFamily. rewrite run_bind, run_bind, run_draw.
    cbn [data clock draws db_up calls].
    replace (mkWorld _ _ _ _ _) with w1.
    2:{ unfold w1, after_verify. simpl. by rewrite Hacc. }
    rewrite run_issue; [|done| |done].
    + by rewrite run_buildSession.
    + exists u. split; [|done]. apply List.find_some in Hacc as [Hu _].
      by apply list_elem_of_In.
  - split; [apply rows_insert|]. do 3 (split; [done|]). split; [done|]. intros Hpos. apply spendable_hash.
    split; [done|]. split; [done|]. unfold new, new_token, DAY_MS. simpl. lia.
Qed.

(** A sign-in with the right password of an active account answers a session
    for it and adds one live refresh token, of a family of its own, to the table. *)
Theorem login_accepts (dto : Credentials) (meta : ClientMeta) (u : User) (w : um) :
  db_wf w -> db_up w = true ->
  account dto w = Some u -> authenticates dto u = true ->
  let w1 := mkWorld (data w) (clock w) (S (draws w)) (db_up w) (calls (after_verify dto w)) in
  let new := new_token w1 (u_id u) (randomUUID (draws w)) meta in
  unclashing new (tokens_of w) ->
  exists w',
    run (login' dto meta) w =
      (Ok (mkLoginResponse (jwt_sign (u_role u) (u_id u) (clock w)) (randomToken (S (draws w)))
             "Bearer" accessTtl (toPublicUser u)), w') /\
    tokens_of w' ≡ₚ new :: tokens_of w /\ users_of w' = users_of w /\
    (0 < ttlDays -> spendable (sha256_hex (randomToken (S (draws w)))) (clock w') new = true).
Proof.
  intros Hwf Hup Hacc Hauth w1 new Hnew.
  destruct (run_login_accepted dto meta u w) as (w' & Hrun & Htok & Husr & _ & _ & _ & Hs); eauto 6.
Qed.

(** Registering succeeds exactly when no account has the email; it then adds
    an active [USER] account whose password hash is the one argon2 computed, and
    otherwise answers a conflict and changes no row. *)
Theorem register_spec (dto : Credentials) (w : um) :
  db_up w = true ->
  (forall u, u ∈ users_of w -> u_id u <> randomUUID (S (draws w))) ->
  let new := mkUser (randomUUID (S (draws w))) (email dto)
               (argon2_hash (draws w) (password dto)) USER true (clock w) (clock w) in
  exists w', tokens_of w' = tokens_of w /\
    if bool_decide (email dto ∈ List.map u_email (users_of w)) then
      run (register randomUUID argon2_hash dto) w =
        (Err (ConflictException "An account with this email already exists"), w') /\
      users_of w' = users_of w
    else
      run (register randomUUID argon2_hash dto) w = (Ok (toPublicUser new), w') /\
      users_of w' ≡ₚ new :: users_of w.
Proof.
  intros Hup Hid new. unfold register, hash_password, create_user.
  rewrite run_bind, run_bind, run_draw, run_external, run_try, run_bind, run_bind, run_draw.
  rewrite run_query_at. cbn [data clock draws db_up calls]. rewrite Hup. unfold create.
  case_bool_decide as Hin.
  - rewrite (proj2 (exists_row_true _ _)); [eexists; split; [|split; [done|]]; done|].
    rewrite list_elem_of_In, List.in_map_iff in Hin. destruct Hin as (u & He & Hu).
    exists u. split; [by apply list_elem_of_In|]. unfold user_clash. simpl.
    rewrite (bool_decide_eq_true_2 (u_email u = _)) by done. apply orb_true_r.
  - rewrite (proj2 (exists_row_false _ _)).
    { eexists. split; [|split; [done|apply rows_insert]]. done. }
    intros u Hu. unfold user_clash. simpl. specialize (Hid u Hu).
    rewrite !bool_decide_eq_false_2; [done| |done]. intros He. apply Hin. rewrite <- He.
    rewrite list_elem_of_In. apply List.in_map. by apply list_elem_of_In.
Qed.

(** ** Revocation, the sweep and the specification of [spend] *)

(** C10: the three statements of [spend] refine its specification: a live token is
    revoked and handed out, a revoked one takes its family down, and any other
    changes nothing. *)
Theorem spend_refines_spec (t : string) (w : um) :
  db_wf w -> db_up w = true ->
  let sp := spend_spec (sha256_hex t) (clock w) (tokens_of w) in
  exists w', run (spend sha256_hex t) w = (Ok sp.1, w') /\
    tokens_of w' ≡ₚ sp.2 /\ users_of w' = users_of w /\ clock w' = clock w.
Proof.
  intros Hwf Hup. destruct (run_spend sha256_hex t w Hwf Hup) as (t1 & Hrun & Ht1).
  by exists (set_tokens t1 w).
Qed.

(** Signing out clears the cookie whatever happens to the database, and when
    the database answers no token of the presented token's family stays live. *)
Theorem logout_clears (body cookie : option string) (w : um) :
  db_wf w ->
  exists res w', run (logout_route sha256_hex body cookie) w = (([clearRefreshCookie], res), w') /\
    (db_up w = true -> res = Ok tt /\
      forall t r x, coalesce (readRefreshCookie cookie) body = Some t -> truthy t = true ->
        r ∈ tokens_of w -> rt_tokenHash r = sha256_hex t ->
        x ∈ tokens_of w' -> rt_familyId x = rt_familyId r -> rt_revokedAt x <> None).
Proof.
  intros Hwf. unfold logout_route. rewrite run_pbind.
  destruct (run (logout _ _) w) as [res w'] eqn:Hrun. exists res, w'. split; [done|].
  intros Hup. unfold logout in Hrun.
  destruct (coalesce _ _) as [t|]; [|by injection Hrun as <- <-]. simpl in Hrun.
  destruct (truthy t) eqn:Ht; [|injection Hrun as <- <-; split; [done|]; intros t' ? ? [= <-] Ht'; by rewrite Ht in Ht'].
  unfold revokeFamilyByToken in Hrun. rewrite run_bind, run_select_token in Hrun by done.
  pose proof (find_hash (sha256_hex t) w Hwf) as Hf. unfold fingerprint in Hrun.
  destruct (List.find _ _) as [r0|].
  - destruct Hf as (_ & _ & Hfirst & Huniq). rewrite Hfirst, run_revokeFamily in Hrun by done.
    injection Hrun as <- <-. split; [done|]. intros t' r x [= <-] _ Hr Hh.
    rewrite (Huniq r Hr Hh). unfold tokens_of. simpl. rewrite elem_update.
    intros (y & _ & ->) Hfam. case_match eqn:E; [done|]. intros Hnone.
    unfold live_in_family in E. by rewrite bool_decide_eq_true_2, Hnone in E.
  - rewrite (proj2 (findFirst_None _ _) Hf) in Hrun. injection Hrun as <- <-.
    split; [done|]. intros t' r x [= <-] _ Hr Hh. specialize (Hf r Hr).
    by apply bool_decide_eq_false in Hf.
Qed.

(** The sweep never throws: it removes exactly the expired tokens and counts
    them, or, when the database does not answer, removes none and answers 0. *)
Theorem sweep_exact (w : um) :
  exists w', run sweep w =
      (Ok (if db_up w then length (List.filter (fun r => rt_expiresAt r <? clock w) (tokens_of w))
           else 0%nat), w') /\
    tokens_of w' ≡ₚ (if db_up w then List.filter (fun r => clock w <=? rt_expiresAt r) (tokens_of w)
                     else tokens_of w) /\
    users_of w' = users_of w.
Proof.
  unfold sweep. rewrite run_try, run_bind, run_Date_now, run_bind. unfold delete_tokens.
  rewrite run_on_tokens. destruct (db_up w); [|by exists w]. cbn -[run].
  rewrite run_ret. eexists. split.
  - rewrite (Permutation_length (select_filter _ _)). done.
  - split; [|done]. unfold tokens_of. simpl. rewrite rows_delete.
    apply reflexive_eq, List.filter_ext. intros r. rewrite Z.ltb_antisym. by rewrite negb_involutive.
Qed.

(** ** Interleaved requests *)

(** Whatever requests run at once and however their statements interleave,
    with each other and with the database going away, the ids, the fingerprints
    and the emails stay unique and every token belongs to a user. *)
Theorem requests_keep_wf (reqs : list request) (w : um) (c : config) :
  db_wf w -> rtc (cstep around) (List.map handle' reqs, w) c -> db_wf c.2.
Proof.
  intros Hwf Hreach.
  assert (rtc keeps_wf w c.2) as Hr.
  { apply (each_step_pool keeps_wf around (List.map handle' reqs, w) c); [| |done].
    - intros s s' []. by apply wf_same_data.
    - intros p (q & <- & _)%list_elem_of_In%List.in_map_iff. law wf_handle. }
  clear Hreach. induction Hr; [done|]. eauto.
Qed.

(** C9: however many requests present the same refresh token at once, at most
    one of them is answered with a session. *)
Theorem refresh_exactly_once (t : string) (reqs : list request) (w : um) (c : config)
    (i j : nat) (m m' : ClientMeta) (a a' : response) :
  db_wf w ->
  (forall n, (draws w <= n)%nat -> sha256_hex (randomToken n) <> sha256_hex t) ->
  rtc (cstep around) (List.map handle' reqs, w) c ->
  c.1 !! i = Some (Done (Ok (Refresh (Some t) m, a))) ->
  c.1 !! j = Some (Done (Ok (Refresh (Some t) m', a'))) ->
  i = j.
Proof.
  intros Hwf Hfresh Hreach Hi Hj. set (h := sha256_hex t).
  destruct (pays_pool (fresh_from (draws w)) (live_count h) (session_costs sha256_hex h) around
    (replicate (length reqs) 0%nat) (List.map handle' reqs, w) c) as (cs & _ & Hcs & Hle);
    [| | |done|].
  - intros s s' [] HN. done.
  - apply Nat.le_refl.
  - apply Forall2_same_length_lookup_2.
    { cbn [fst]. by rewrite length_replicate, List.length_map. }
    intros k n p [-> _]%lookup_replicate_1 Hp. apply list_elem_of_lookup_2 in Hp.
    apply list_elem_of_In, List.in_map_iff in Hp as (q & <- & _). law once_handle. exact Hfresh.
  - destruct (decide (i = j)) as [|Hij]; [done|]. exfalso.
    destruct (Forall2_lookup_r _ _ _ _ _ Hcs Hi) as (x & Hx & Hpx).
    destruct (Forall2_lookup_r _ _ _ _ _ Hcs Hj) as (y & Hy & Hpy).
    specialize (Hpx eq_refl). specialize (Hpy eq_refl).
    pose proof (sum_list_lookup_two cs i j x y Hij Hx Hy).
    rewrite sum_list_zeros in Hle. pose proof (live_count_unique h w Hwf). simpl in *. lia.
Qed.

End Sessions.

(** ** A concrete service

    A hash, a random source and a signer one can compute with, one account with
    one session, for the witnesses of the theorems above. *)

Module Concrete.
Definition sha256_hex (s : string) : string := "sha256:" +:+ s.
Definition randomToken (n : nat) : string := "token-" +:+ string_of_Z (Z.of_nat n).
Definition randomUUID (n : nat) : string := "uuid-" +:+ string_of_Z (Z.of_nat n).
Definition argon2_hash (salt : nat) (p : string) : string := "argon2:" +:+ p.
Definition argon2_verify (digest p : string) : option bool :=
  Some (bool_decide (digest = "argon2:" +:+ p)).
Definition jwt_sign (r : UserRole) (sub : string) (at_ : Z) : string := "jwt:" +:+ sub.

Definition alice : User := mkUser "u1" "alice@example.com" "argon2:correct horse" USER true 0 0.
Definition bob : User := mkUser "u2" "bob@example.com" "argon2:battery" USER false 0 0.

Definition token_row (i owner raw_ family : string) (revoked : option Z) : RefreshToken :=
  mkRefreshToken i owner (sha256_hex raw_) family 5000 revoked None None None 0.

Definition live : RefreshToken := token_row "r1" "u1" "cookie" "family" None.
Definition used : RefreshToken := token_row "r2" "u1" "old cookie" "family" (Some 10).
Definition bobs : RefreshToken := token_row "r3" "u2" "bob cookie" "bob family" None.

Definition w0 : world (users_db (list User) (list RefreshToken)) :=
  mkWorld (mkUsersDb [alice; bob] [live; used; bobs]) 1000 0 true [].

Definition no_meta : ClientMeta := mkClientMeta None None.

Definition handle' : request -> io (world (users_db (list User) (list RefreshToken))) exn _ :=
  handle sha256_hex randomToken randomUUID argon2_hash argon2_verify jwt_sign 7 900 "decoy".

Lemma w0_wf : db_wf w0.
Proof.
  split; try (apply (bool_decide_unpack _); vm_compute; exact I).
  intros r Hr. change (r ∈ [live; used; bobs]) in Hr.
  repeat (apply elem_of_cons in Hr; destruct Hr as [->|Hr]); [| | |by inversion Hr].
  - exists alice. split; [by left|done].
  - exists alice. split; [by left|done].
  - exists bob. split; [right; by left|done].
Qed.

Lemma tokens_fresh (n m : nat) (r : RefreshToken) :
  r ∈ tokens_of w0 -> rt_id r <> randomUUID n /\ rt_tokenHash r <> sha256_hex (randomToken m).
Proof.
  intros Hr. change (r ∈ [live; used; bobs]) in Hr.
  repeat (apply elem_of_cons in Hr as [->|Hr]; [done|]). inversion Hr.
Qed.

(** Two requests that present the same cookie. *)
Definition twice : list request :=
  [Refresh (Some "cookie") no_meta; Refresh (Some "cookie") no_meta].

Definition after_schedule (order : list nat) : config :=
  schedule order (List.map handle' twice, w0).
End Concrete.

Import Concrete.

Lemma refresh_rotates_witness :
  exists w',
    run (refresh sha256_hex randomToken randomUUID jwt_sign 7 900 (Some "cookie") no_meta) w0 =
      (Ok (mkLoginResponse "jwt:u1" "token-0" "Bearer" 900 (toPublicUser alice)), w') /\
    length (tokens_of w') = 4%nat.
Proof.
  destruct (refresh_rotates sha256_hex randomToken randomUUID jwt_sign 7 900 "cookie" no_meta
    live alice w0) as (w' & Hrun & Htok & _).
  - exact w0_wf.
  - reflexivity.
  - reflexivity.
  - left.
  - vm_compute. reflexivity.
  - left.
  - reflexivity.
  - reflexivity.
  - intros r Hr. apply (tokens_fresh _ _ r Hr).
  - exists w'. split; [exact Hrun|]. rewrite Htok. reflexivity.
Defined.

Lemma replay_revokes_family_witness :
  exists w',
    run (refresh sha256_hex randomToken randomUUID jwt_sign 7 900 (Some "old cookie") no_meta) w0 =
      (Err invalid_refresh, w') /\
    forall x, x ∈ tokens_of w' -> rt_familyId x = "family" -> rt_revokedAt x <> None.
Proof.
  destruct (replay_revokes_family sha256_hex randomToken randomUUID jwt_sign 7 900 "old cookie"
    no_meta used 10 w0) as (w' & Hrun & Hall & _).
  - exact w0_wf.
  - reflexivity.
  - reflexivity.
  - right. left.
  - reflexivity.
  - reflexivity.
  - exists w'. split; [exact Hrun|exact Hall].
Defined.

Lemma refresh_rejects_witness :
  exists w',
    run (refresh sha256_hex randomToken randomUUID jwt_sign 7 900 (Some "no such") no_meta) w0 =
      (Err invalid_refresh, w') /\ length (tokens_of w') = 3%nat.
Proof.
  destruct (refresh_rejects sha256_hex randomToken randomUUID jwt_sign 7 900 (Some "no such")
    no_meta w0) as (w' & Hrun & Htok & _).
  - exact w0_wf.
  - reflexivity.
  - intros t r [= <-] Hr Hh. exfalso. change (r ∈ [live; used; bobs]) in Hr.
    repeat (apply elem_of_cons in Hr as [->|Hr]; [discriminate|]). inversion Hr.
  - exists w'. split; [exact Hrun|]. rewrite Htok. reflexivity.
Defined.

Lemma refresh_inactive_witness :
  exists w',
    run (refresh sha256_hex randomToken randomUUID jwt_sign 7 900 (Some "bob cookie") no_meta) w0 =
      (Err invalid_refresh, w') /\
    forall x, x ∈ tokens_of w' -> rt_familyId x = "bob family" -> rt_revokedAt x <> None.
Proof.
  apply (refresh_inactive sha256_hex randomToken randomUUID jwt_sign 7 900 "bob cookie"
    no_meta bobs bob w0).
  - exact w0_wf.
  - reflexivity.
  - reflexivity.
  - right. right. left.
  - vm_compute. reflexivity.
  - right. left.
  - reflexivity.
  - reflexivity.
Defined.

Lemma login_rejects_witness :
  calls (run (login sha256_hex randomToken randomUUID argon2_verify jwt_sign 7 900 "decoy"
           (mkCredentials "eve@example.com" "guess") no_meta) w0).2 =
  [("argon2.verify", ["decoy"; "guess"])].
Proof.
  rewrite (login_rejects sha256_hex randomToken randomUUID argon2_verify jwt_sign 7 900 "decoy"
    (mkCredentials "eve@example.com" "guess") no_meta w0 w0_wf eq_refl); [reflexivity|].
  intros u Hu. vm_compute in Hu. discriminate.
Defined.

Lemma login_accepts_witness :
  exists w',
    run (login sha256_hex randomToken randomUUID argon2_verify jwt_sign 7 900 "decoy"
           (mkCredentials "alice@example.com" "correct horse") no_meta) w0 =
      (Ok (mkLoginResponse "jwt:u1" "token-1" "Bearer" 900 (toPublicUser alice)), w') /\
    length (tokens_of w') = 4%nat.
Proof.
  destruct (login_accepts sha256_hex randomToken randomUUID argon2_verify jwt_sign 7 900 "decoy"
    (mkCredentials "alice@example.com" "correct horse") no_meta alice w0)
    as (w' & Hrun & Htok & _).
  - exact w0_wf.
  - reflexivity.
  - vm_compute. reflexivity.
  - vm_compute. reflexivity.
  - intros r Hr. apply (tokens_fresh _ _ r Hr).
  - exists w'. split; [exact Hrun|]. rewrite Htok. reflexivity.
Defined.

Lemma register_spec_witness :
  exists w', run (register randomUUID argon2_hash (mkCredentials "alice@example.com" "x")) w0 =
    (Err (ConflictException "An account with this email already exists"), w').
Proof.
  destruct (register_spec randomUUID argon2_hash (mkCredentials "alice@example.com" "x") w0)
    as (w' & _ & Hreg).
  - reflexivity.
  - intros u Hu. change (u ∈ [alice; bob]) in Hu.
    repeat (apply elem_of_cons in Hu as [->|Hu]; [discriminate|]). inversion Hu.
  - exists w'. vm_compute in Hreg. apply Hreg.
Defined.

Lemma spend_refines_spec_witness :
  exists w', run (spend sha256_hex "cookie") w0 = (Ok (Some (set_revokedAt 1000 live)), w').
Proof.
  destruct (spend_refines_spec sha256_hex "cookie" w0 w0_wf eq_refl) as (w' & Hrun & _).
  exists w'. exact Hrun.
Defined.

Lemma sweep_exact_witness :
  exists w', run sweep (mkWorld (data w0) 6000 0 true []) = (Ok 3%nat, w').
Proof.
  destruct (sweep_exact (mkWorld (data w0) 6000 0 true [])) as (w' & Hrun & _).
  exists w'. exact Hrun.
Defined.

Lemma logout_clears_witness :
  exists res w', run (logout_route sha256_hex None (Some "a=b; refresh_token=cookie")) w0 =
    (([clearRefreshCookie], res), w') /\ res = Ok tt.
Proof.
  destruct (logout_clears sha256_hex None (Some "a=b; refresh_token=cookie") w0 w0_wf)
    as (res & w' & Hrun & Hok).
  exists res, w'. split; [exact Hrun|]. apply (Hok eq_refl).
Defined.

Lemma requests_keep_wf_witness : db_wf (after_schedule [0; 1; 0; 1; 1; 0]%nat).2.
Proof.
  apply (requests_keep_wf sha256_hex randomToken randomUUID argon2_hash argon2_verify jwt_sign 7 900
    "decoy" twice w0); [exact w0_wf|]. apply schedule_reachable.
Defined.

Lemma refresh_exactly_once_witness :
  ~ exists a, (after_schedule (replicate 10 0 ++ replicate 10 1)%nat).1 !! 1%nat =
    Some (Done (Ok (Refresh (Some "cookie") no_meta, a))).
Proof.
  intros [a Ha].
  assert (1 = 0)%nat; [|discriminate].
  refine (refresh_exactly_once sha256_hex randomToken randomUUID argon2_hash argon2_verify jwt_sign
    7 900 "decoy" "cookie" twice w0 (after_schedule _) 1 0 no_meta no_meta a _
    w0_wf _ (schedule_reachable _ _ _) Ha _).
  - intros n _. discriminate.
  - vm_compute. reflexivity.
Defined.

Lemma readRefreshCookie_header_witness :
  readRefreshCookie (Some "theme=dark; refresh_token=ab=cd; refresh_token=x") = Some "ab=cd".
Proof.
  apply (readRefreshCookie_header
    [("theme", "dark"); ("refresh_token", "ab=cd"); ("refresh_token", "x")]).
  apply (bool_decide_unpack _). vm_compute. exact I.
Defined.

(** ** A replay that overlaps the rotation

    The loser of a race sees the token spent and revokes its family, but the
    winner may insert the replacement only afterwards. *)

(** Two requests present the same token; the second is rejected as a replay
    and revokes the family before the first inserts the replacement token, which
    is left live and can be refreshed although a replay of its family was
    detected. *)
Theorem overlapping_replay_leaves_live_token :
  exists (c : config) (sess : LoginResponse) (x : RefreshToken),
    rtc (cstep around) (List.map handle' twice, w0) c /\
    c.1 !! 0%nat = Some (Done (Ok (Refresh (Some "cookie") no_meta, RSession sess))) /\
    c.1 !! 1%nat = Some (Done (Err invalid_refresh)) /\
    x ∈ tokens_of c.2 /\ rt_familyId x = rt_familyId live /\
    spendable (sha256_hex (refreshTokenRaw sess)) (clock c.2) x = true.
Proof.
  exists (after_schedule [0; 0; 1; 1; 1; 1; 1; 0; 0; 0; 0; 0; 0; 0; 0]%nat),
    (mkLoginResponse "jwt:u1" "token-0" "Bearer" 900 (toPublicUser alice)),
    (mkRefreshToken "uuid-1" "u1" "sha256:token-0" "family" (1000 + 7 * DAY_MS) None None None None
       1000).
  split; [apply schedule_reachable|].
  split; [vm_compute; reflexivity|]. split; [vm_compute; reflexivity|].
  split; [apply (bool_decide_unpack _); vm_compute; exact I|]. split; vm_compute; reflexivity.
Qed.
