(* ===== verification/Families.v ===== *)
(** * Token families

    [services/user-management/src/auth/refresh-token.service.ts]: a family is one signed-in
    session.  What keeps two of its tokens from being live at once is not a constraint of
    the database but the order in which the statements of a request run: the conditional
    update of [spend] first, [issue] in the family of the row that update took.  Threads
    hold rights to what they have drawn or taken (Concurrency, [owns]). *)

From S2P Require Import Prelude Js Json World Concurrency RefreshTokens Auth Sessions.

Local Open Scope Z_scope.

Set Default Proof Using "Type*".

(** What a request may hold between two of its statements. *)
Inductive holding :=
| Mint (h : string)            (* it drew the token of this fingerprint *)
| Spent (h f u : string)       (* it revoked the live token [h], of family [f] and user [u] *)
| Seat (f u : string).         (* it may make a token of family [f], for [u], live *)

Definition is_seat (f : string) (x : holding) : bool :=
  match x with Seat f' _ => bool_decide (f' = f) | _ => false end.

Definition is_claim (h : string) (x : holding) : bool :=
  match x with Mint h' => bool_decide (h' = h) | Spent h' _ _ => bool_decide (h' = h) | _ => false end.

Definition count {X} (p : X -> bool) (l : list X) : nat := length (List.filter p l).

Lemma count_cons {X} (p : X -> bool) (x : X) (l : list X) :
  count p (x :: l) = ((if p x then 1 else 0) + count p l)%nat.
Proof. unfold count. simpl. by destruct (p x). Qed.

Lemma count_pos {X} (p : X -> bool) (x : X) (l : list X) : x ∈ l -> p x = true -> (1 <= count p l)%nat.
Proof.
  intros Hx Hp. destruct (List.filter p l) as [|y l'] eqn:E; unfold count; rewrite E; simpl; [|lia].
  assert (x ∈ List.filter p l) as Hin by (by apply elem_of_filter'). rewrite E in Hin. by inversion Hin.
Qed.

Lemma count_none {X} (p : X -> bool) (l : list X) : (forall x, x ∈ l -> p x = false) -> count p l = 0%nat.
Proof.
  intros Hp. induction l as [|x l IH]; [done|]. rewrite count_cons, IH, (Hp x); [done|by left|].
  intros y Hy. apply Hp. by right.
Qed.

Section Families.
Context {TU TR : Type} `{TableLaws User TU} `{TableLaws RefreshToken TR}.
Context (sha256_hex : string -> string) (randomToken randomUUID : nat -> string).

Abbreviation um := (world (users_db TU TR)).
Abbreviation M := (io um exn).

(** How many tokens of the family have not been revoked, expired or not. *)
Definition family_live (f : string) (w : um) : nat := count (live_in_family f) (tokens_of w).

(** The state of the table and the rights of all requests fit together. *)
Record orderly (w : um) (held : list holding) : Prop := {
  or_live f : (family_live f w + count (is_seat f) held <= 1)%nat;
  or_claim h : (live_count h w + count (is_claim h) held <= 1)%nat;
  or_owner x y : x ∈ tokens_of w -> y ∈ tokens_of w -> rt_familyId x = rt_familyId y -> rt_userId x = rt_userId y;
  or_hash x y : x ∈ tokens_of w -> y ∈ tokens_of w -> rt_tokenHash x = rt_tokenHash y ->
    rt_familyId x = rt_familyId y /\ rt_userId x = rt_userId y;
  or_seat f u x : Seat f u ∈ held -> x ∈ tokens_of w -> rt_familyId x = f -> rt_userId x = u;
  or_spent h f u x : Spent h f u ∈ held -> x ∈ tokens_of w -> rt_tokenHash x = h ->
    rt_familyId x = f /\ rt_userId x = u;
  or_new_family n : (draws w <= n)%nat -> count (is_seat (randomUUID n)) held = 0%nat /\
    forall x, x ∈ tokens_of w -> rt_familyId x <> randomUUID n;
  or_new_token n : (draws w <= n)%nat -> count (is_claim (sha256_hex (randomToken n))) held = 0%nat /\
    forall x, x ∈ tokens_of w -> rt_tokenHash x <> sha256_hex (randomToken n);
}.

Lemma count_perm {X} (p : X -> bool) (l l' : list X) : l ≡ₚ l' -> count p l = count p l'.
Proof. apply filter_perm_length. Qed.

Lemma orderly_perm (w : um) (held held' : list holding) : held ≡ₚ held' -> orderly w held -> orderly w held'.
Proof.
  intros Hp [Hl Hc Ho Hh Hs Hsp Hf Ht]. split; try done; intros *; rewrite <- ?(count_perm _ _ _ Hp), <- ?Hp; eauto.
Qed.

(** Rights can be given up. *)
Lemma orderly_tail (x : holding) (w : um) (held : list holding) : orderly w (x :: held) -> orderly w held.
Proof.
  intros [Hl Hc Ho Hh Hs Hsp Hf Ht]. split; try done; intros *.
  - specialize (Hl f). rewrite count_cons in Hl. lia.
  - specialize (Hc h). rewrite count_cons in Hc. lia.
  - intros Hin. apply Hs. by right.
  - intros Hin. apply Hsp. by right.
  - intros Hn. destruct (Hf n Hn) as [Hz ?]. rewrite count_cons in Hz. split; [lia|done].
  - intros Hn. destruct (Ht n Hn) as [Hz ?]. rewrite count_cons in Hz. split; [lia|done].
Qed.

(** ** Statements that make no token live *)

Record calmer (w w' : um) : Prop := {
  calm_rows x' : x' ∈ tokens_of w' -> exists x, x ∈ tokens_of w /\ rt_familyId x' = rt_familyId x /\
    rt_userId x' = rt_userId x /\ rt_tokenHash x' = rt_tokenHash x;
  calm_live f : (family_live f w' <= family_live f w)%nat;
  calm_hash h : (live_count h w' <= live_count h w)%nat;
  calm_draws : (draws w <= draws w')%nat;
}.

Lemma calmer_orderly (w w' : um) (held : list holding) : calmer w w' -> orderly w held -> orderly w' held.
Proof.
  intros [Hr Hf Hh Hd] [Hl Hc Ho Hsh Hs Hsp Hnf Hnt]. split.
  - intros f. specialize (Hf f). specialize (Hl f). lia.
  - intros h. specialize (Hh h). specialize (Hc h). lia.
  - intros x' y' (x & Hx & -> & -> & _)%Hr (y & Hy & -> & -> & _)%Hr. by apply Ho.
  - intros x' y' (x & Hx & -> & -> & ->)%Hr (y & Hy & -> & -> & ->)%Hr. by apply Hsh.
  - intros f u x' Hin (x & Hx & -> & -> & _)%Hr. by apply Hs.
  - intros h f u x' Hin (x & Hx & -> & -> & ->)%Hr. by apply Hsp.
  - intros n Hn. destruct (Hnf n) as [Hz Hx]; [lia|]. split; [done|]. intros x' (x & Hin & -> & _)%Hr. by apply Hx.
  - intros n Hn. destruct (Hnt n) as [Hz Hx]; [lia|]. split; [done|]. intros x' (x & Hin & _ & _ & ->)%Hr. by apply Hx.
Qed.

Lemma calmer_same (w w' : um) : tokens_of w' = tokens_of w -> (draws w <= draws w')%nat -> calmer w w'.
Proof.
  intros E Hd. split; [|intros ?; unfold family_live, live_count; by rewrite E..|done].
  intros x. rewrite E. intros Hx. by exists x.
Qed.

Lemma calmer_refl (w : um) : calmer w w.
Proof. by apply calmer_same. Qed.

#[local] Hint Resolve calmer_refl : core.

(** Nothing of what makes a row live is set by [g]. *)
Definition dims (g : RefreshToken -> RefreshToken) : Prop :=
  forall r, rt_familyId (g r) = rt_familyId r /\ rt_userId (g r) = rt_userId r /\
    rt_tokenHash (g r) = rt_tokenHash r /\ (rt_revokedAt (g r) = None -> rt_revokedAt r = None).

Lemma count_update (p q : RefreshToken -> bool) (g : RefreshToken -> RefreshToken) (w : um) :
  (forall r, q (g r) = true -> q r = true) ->
  (count q (tokens_of (set_tokens (t_update p g (refreshToken (data w))) w)) <= count q (tokens_of w))%nat.
Proof.
  intros Hg. unfold tokens_of at 1. simpl. rewrite (count_perm _ _ _ (rows_update _ _ _)). unfold tokens_of.
  induction (rows (refreshToken (data w))) as [|r l IH]; simpl; [done|]. rewrite !count_cons.
  specialize (Hg r). destruct (p r); repeat case_match; simpl in *; first [lia|naive_solver].
Qed.

Lemma calmer_update (p : RefreshToken -> bool) (g : RefreshToken -> RefreshToken) (w : um) :
  dims g -> calmer w (set_tokens (t_update p g (refreshToken (data w))) w).
Proof.
  intros Hg. split; [| | |done].
  - intros x'. unfold tokens_of. cbn [set_tokens with_data data refreshToken]. rewrite elem_update.
    intros (x & Hx & ->). exists x. split; [done|]. destruct (p x); [|done]. by destruct (Hg x) as (-> & -> & -> & _).
  - intros f. apply count_update. intros r. unfold live_in_family. rewrite !andb_true_iff.
    destruct (Hg r) as (-> & _ & _ & Hrev). destruct (rt_revokedAt (g r)); [by intros []|]. by rewrite Hrev.
  - intros h. apply live_update. intros r. unfold live_hash, has_hash. rewrite !andb_true_iff.
    destruct (Hg r) as (_ & _ & -> & Hrev). destruct (rt_revokedAt (g r)); [by intros []|]. by rewrite Hrev.
Qed.

Lemma dims_revoke (now : Z) : dims (set_revokedAt now).
Proof. by intros r. Qed.

Lemma dims_replace (by_ : string) : dims (set_replacedById by_).
Proof. by intros r. Qed.

#[local] Hint Resolve calmer_update dims_revoke dims_replace : core.

Lemma calm_revokeFamily (f : string) : each_step calmer (revokeFamily f).
Proof. apply step_revokeFamily; auto. Qed.

Lemma calm_linkReplacement (i j : string) : each_step calmer (linkReplacement i j).
Proof. apply step_on_tokens; [done|]. intros w. unfold update. case_match; cbn [snd]; [auto|by rewrite set_tokens_same]. Qed.

Lemma calm_draw {X} (source : nat -> X) : each_step calmer (draw source : M X).
Proof. apply each_step_perform. intros w. apply calmer_same; [done|simpl; lia]. Qed.

Lemma calmer_delete (p : RefreshToken -> bool) (w : um) :
  calmer w (set_tokens (t_delete p (refreshToken (data w))) w).
Proof.
  split; [| | |done].
  - intros x. unfold tokens_of. cbn [set_tokens with_data data refreshToken]. rewrite elem_delete.
    intros [Hx _]. by exists x.
  - intros f. unfold family_live, tokens_of. cbn [set_tokens with_data data refreshToken].
    rewrite (count_perm _ _ _ (rows_delete _ _)). generalize (rows (refreshToken (data w))) as l.
    induction l as [|r l IH]; simpl; [done|]. destruct (p r); simpl; rewrite ?count_cons; lia.
  - intros h. apply live_delete.
Qed.

Lemma calm_sweep : each_step calmer sweep.
Proof.
  unfold sweep. apply each_step_try; [|done]. apply each_step_bind; [by apply step_Date_now|]. intros now.
  apply each_step_bind; [|done]. apply step_on_tokens; [done|]. intros w. apply calmer_delete.
Qed.

Lemma calm_external {X} (name : string) (args : list string) (v : X) : each_step calmer (external name args v : M X).
Proof. apply step_external. intros w c. by apply calmer_same. Qed.

Lemma calm_create_user (e p : string) : each_step calmer (create_user randomUUID e p).
Proof.
  unfold create_user. apply each_step_bind; [apply calm_draw|]. intros uid.
  apply each_step_perform. intros w. destruct (db_up w); [|done]. cbv zeta.
  destruct (create _ _ _) as [r t]. by apply calmer_same.
Qed.
(** ** What rights a statement gives and takes *)

Abbreviation own := (owns orderly).

Lemma own_calm {X} (post : X -> list holding -> Prop) (c : list holding) (p : prog um X) :
  each_step calmer p -> (forall a, post a c) -> own post c p.
Proof.
  intros Hp. apply owns_idle. induction p as [a|B op k IH]; [done|]. destruct Hp as [Hop Hk].
  split; [|by intros b; apply IH]. intros w held. by apply calmer_orderly.
Qed.

Context (token_inj : forall n m, sha256_hex (randomToken n) = sha256_hex (randomToken m) -> n = m).
Context (uuid_inj : forall n m, randomUUID n = randomUUID m -> n = m).

Definition drawn (w : um) : um := mkWorld (data w) (clock w) (S (draws w)) (db_up w) (calls w).

(** The right to a value nobody had drawn before. *)
Lemma orderly_mint (w : um) (held : list holding) :
  orderly w held -> orderly (drawn w) (Mint (sha256_hex (randomToken (draws w))) :: held).
Proof.
  intros Hw. assert (orderly (drawn w) held) as [Hl Hc Ho Hh Hs Hsp Hf Ht].
  { eapply calmer_orderly; [|done]. apply calmer_same; [done|simpl; lia]. }
  split; try done.
  - intros h. rewrite count_cons. cbn [is_claim]. case_bool_decide as E; [|apply Hc]. subst h.
    destruct (or_new_token _ _ Hw (draws w)) as [-> Hx]; [done|].
    change (live_count ?h (drawn w)) with (count (live_hash h) (tokens_of w)). rewrite count_none; [done|].
    intros x Hin. unfold live_hash, has_hash. by rewrite bool_decide_eq_false_2 by (by apply Hx).
  - intros f u x Hin. apply Hs. by apply elem_of_cons in Hin as [|].
  - intros h f u x Hin. apply Hsp. by apply elem_of_cons in Hin as [|].
  - intros n Hn. destruct (Ht n Hn) as [Hz Hx]. split; [|done]. rewrite count_cons, Hz. cbn [is_claim].
    rewrite bool_decide_eq_false_2; [done|]. intros E%token_inj. simpl in Hn. lia.
Qed.

Lemma orderly_seat (u : string) (w : um) (held : list holding) :
  orderly w held -> orderly (drawn w) (Seat (randomUUID (draws w)) u :: held).
Proof.
  intros Hw. assert (orderly (drawn w) held) as [Hl Hc Ho Hh Hs Hsp Hf Ht].
  { eapply calmer_orderly; [|done]. apply calmer_same; [done|simpl; lia]. }
  destruct (or_new_family _ _ Hw (draws w)) as [Hz Hx]; [done|]. split; try done.
  - intros f. rewrite count_cons. cbn [is_seat]. case_bool_decide as E; [|apply Hl]. subst f. rewrite Hz.
    unfold family_live. rewrite count_none; [done|].
    intros x Hin. unfold live_in_family. by rewrite bool_decide_eq_false_2 by (by apply Hx).
  - intros f u' x Hin Hinx Hfx. apply elem_of_cons in Hin as [[= -> ->]|Hin]; [by destruct (Hx x)|by apply (Hs f)].
  - intros h f u' x Hin. apply Hsp. by apply elem_of_cons in Hin as [|].
  - intros n Hn. destruct (Hf n Hn) as [Hzn Hxn]. split; [|done]. rewrite count_cons, Hzn. cbn [is_seat].
    rewrite bool_decide_eq_false_2; [done|]. intros E%uuid_inj. simpl in Hn. lia.
Qed.

(** A new row uses up the rights to its token and to a seat in its family. *)
Lemma orderly_insert (r : RefreshToken) (w : um) (held : list holding) :
  rt_revokedAt r = None -> exists_row (token_clash r) (refreshToken (data w)) = false ->
  orderly w (Mint (rt_tokenHash r) :: Seat (rt_familyId r) (rt_userId r) :: held) ->
  orderly (set_tokens (t_insert r (refreshToken (data w))) w) held.
Proof.
  intros Hrev Hclash [Hl Hc Ho Hh Hs Hsp Hf Ht]. pose proof (proj1 (exists_row_false _ _) Hclash) as Hfresh.
  assert (forall x, x ∈ tokens_of w -> rt_tokenHash x <> rt_tokenHash r) as Hnew.
  { intros x Hx E. specialize (Hfresh x Hx). unfold token_clash in Hfresh.
    rewrite orb_false_iff in Hfresh. by destruct Hfresh as [_ ?%bool_decide_eq_false]. }
  assert (forall x, x ∈ tokens_of w -> rt_familyId x = rt_familyId r -> rt_userId x = rt_userId r) as Hown.
  { intros x Hx E. apply (Hs (rt_familyId r)); [right; left|done|done]. }
  assert (forall q, count q (tokens_of (set_tokens (t_insert r (refreshToken (data w))) w)) =
    ((if q r then 1 else 0) + count q (tokens_of w))%nat) as Hins.
  { intros q. unfold tokens_of. cbn [set_tokens with_data data refreshToken].
    by rewrite (count_perm _ _ _ (rows_insert _ _)), count_cons. }
  assert (forall x, x ∈ tokens_of (set_tokens (t_insert r (refreshToken (data w))) w) ->
    x = r \/ x ∈ tokens_of w) as Hin by (intros x Hx; by apply elem_insert in Hx).
  split.
  - intros f. specialize (Hl f). rewrite !count_cons in Hl. cbn [is_seat] in Hl. unfold family_live in *.
    rewrite Hins. unfold live_in_family at 1. rewrite Hrev. simpl. rewrite andb_true_r. lia.
  - intros h. specialize (Hc h). rewrite !count_cons in Hc. cbn [is_claim] in Hc.
    change (live_count h ?x) with (count (live_hash h) (tokens_of x)) in *.
    rewrite Hins. unfold live_hash at 1, has_hash. rewrite Hrev. simpl. rewrite andb_true_r. lia.
  - intros x y [->|Hx]%Hin [->|Hy]%Hin E; [done|symmetry; by apply Hown|by apply Hown|by apply Ho].
  - intros x y [->|Hx]%Hin [->|Hy]%Hin E; [done|by destruct (Hnew y)|by destruct (Hnew x)|by apply Hh].
  - intros f u x Hseat [->|Hx]%Hin E; [|by apply (Hs f); [right; right| |]].
    pose proof (count_pos (is_seat f) _ _ Hseat (bool_decide_eq_true_2 _ eq_refl)).
    specialize (Hl f). rewrite !count_cons in Hl. cbn [is_seat] in Hl. rewrite bool_decide_eq_true_2 in Hl by done. lia.
  - intros h f u x Hspent [->|Hx]%Hin E; [|by apply (Hsp h); [right; right| |]].
    pose proof (count_pos (is_claim h) _ _ Hspent (bool_decide_eq_true_2 _ eq_refl)).
    specialize (Hc h). rewrite !count_cons in Hc. cbn [is_claim] in Hc. rewrite bool_decide_eq_true_2 in Hc by done. lia.
  - intros n Hn. destruct (Hf n Hn) as [Hz Hx]. rewrite !count_cons in Hz. cbn [is_seat] in Hz. split; [lia|].
    intros x [->|?]%Hin E; [|by apply (Hx x)]. rewrite bool_decide_eq_true_2 in Hz by done. lia.
  - intros n Hn. destruct (Ht n Hn) as [Hz Hx]. rewrite !count_cons in Hz. cbn [is_claim] in Hz. split; [lia|].
    intros x [->|?]%Hin E; [|by apply (Hx x)]. rewrite bool_decide_eq_true_2 in Hz by done. lia.
Qed.

(** Revoking takes from the live rows of a kind those it selects. *)
Lemma count_revoked (q p : RefreshToken -> bool) (now : Z) (w : um) :
  (forall r, q (set_revokedAt now r) = false) ->
  (count q (tokens_of (set_tokens (t_update p (set_revokedAt now) (refreshToken (data w))) w)) +
   count (fun r => q r && p r) (tokens_of w) = count q (tokens_of w))%nat.
Proof.
  intros Hq. unfold tokens_of at 1. cbn [set_tokens with_data data refreshToken].
  rewrite (count_perm _ _ _ (rows_update _ _ _)). unfold tokens_of.
  induction (rows (refreshToken (data w))) as [|r l IH]; [done|]. simpl. rewrite !count_cons.
  destruct (p r); [rewrite Hq|]; rewrite ?andb_false_r, ?andb_true_r; destruct (q r); lia.
Qed.

Lemma revoked_not_spendable (f h : string) (now : Z) (r : RefreshToken) :
  live_in_family f (set_revokedAt now r) = false /\ live_hash h (set_revokedAt now r) = false.
Proof. unfold live_in_family, live_hash. simpl. by rewrite !andb_false_r. Qed.

(** Who revokes the live token [h] has its place in the family. *)
Lemma orderly_spend (r : RefreshToken) (h : string) (now : Z) (w : um) (held : list holding) :
  r ∈ tokens_of w -> spendable h now r = true -> orderly w held ->
  orderly (set_tokens (t_update (spendable h now) (set_revokedAt now) (refreshToken (data w))) w)
    (Spent h (rt_familyId r) (rt_userId r) :: Seat (rt_familyId r) (rt_userId r) :: held).
Proof.
  intros Hr Hsp Hw. pose proof Hsp as (Hh & Hrev & _)%spendable_hash.
  pose proof (calmer_update (spendable h now) _ w (dims_revoke now)) as Hcalm. set (w' := set_tokens _ w) in *.
  pose proof (calmer_orderly w w' held Hcalm Hw) as [Hl Hc Ho Hsh Hs Hspt Hf Ht].
  assert (forall q, (forall x, q (set_revokedAt now x) = false) -> q r = true ->
    (count q (tokens_of w') + 1 <= count q (tokens_of w))%nat) as Htake.
  { intros q Hq Hqr. rewrite <- (count_revoked q (spendable h now) now w Hq).
    enough (1 <= count (fun x => q x && spendable h now x) (tokens_of w))%nat by (unfold w'; lia).
    apply (count_pos _ r); [done|]. by rewrite Hqr, Hsp. }
  split; try done.
  - intros f. rewrite !count_cons. cbn [is_seat]. case_bool_decide as E; [|apply Hl]. subst f.
    pose proof (or_live _ _ Hw (rt_familyId r)). unfold family_live in *.
    pose proof (Htake (live_in_family (rt_familyId r))) as Hmore. simpl.
    enough (count (live_in_family (rt_familyId r)) (tokens_of w') + 1 <=
      count (live_in_family (rt_familyId r)) (tokens_of w))%nat by lia. apply Hmore.
    + intros x. by apply (revoked_not_spendable _ "").
    + unfold live_in_family. by rewrite Hrev, bool_decide_eq_true_2.
  - intros h'. rewrite !count_cons. cbn [is_claim]. case_bool_decide as E; [|apply Hc]. subst h'.
    pose proof (or_claim _ _ Hw h).
    change (live_count h ?x) with (count (live_hash h) (tokens_of x)) in *. simpl.
    enough (count (live_hash h) (tokens_of w') + 1 <= count (live_hash h) (tokens_of w))%nat by lia. apply Htake.
    + intros x. by apply (revoked_not_spendable "").
    + unfold live_hash, has_hash. by rewrite Hrev, bool_decide_eq_true_2.
  - intros f u x Hin. rewrite !elem_of_cons in Hin. destruct Hin as [?|[[= -> ->]|Hin]]; [done| |by apply Hs].
    intros (y & Hy & -> & -> & _)%(calm_rows _ _ Hcalm). by apply (or_owner _ _ Hw).
  - intros h' f u x Hin. rewrite !elem_of_cons in Hin. destruct Hin as [[= -> -> ->]|[?|Hin]]; [|done|by apply Hspt].
    intros (y & Hy & -> & -> & ->)%(calm_rows _ _ Hcalm) E. apply (or_hash _ _ Hw); [done|done|congruence].
  - intros n Hn. destruct (Hf n Hn) as [Hz Hx]. rewrite !count_cons, Hz. cbn [is_seat]. split; [|done].
    rewrite bool_decide_eq_false_2; [done|]. by apply (or_new_family _ _ Hw).
  - intros n Hn. destruct (Ht n Hn) as [Hz Hx]. rewrite !count_cons, Hz. cbn [is_claim]. split; [|done].
    rewrite bool_decide_eq_false_2; [done|]. rewrite <- Hh. by apply (or_new_token _ _ Hw).
Qed.

(** ** The requests *)

Context (argon2_hash : nat -> string -> string) (argon2_verify : string -> string -> option bool).
Context (jwt_sign : UserRole -> string -> Z -> string).
Context (ttlDays accessTtl : Z) (decoyHash : string).

Abbreviation any := (fun _ _ => True).

Lemma own_issue (userId f : string) (meta : ClientMeta) :
  own any [Seat f userId] (issue sha256_hex randomToken randomUUID ttlDays userId f meta : M IssuedRefreshToken).
Proof.
  unfold issue. apply owns_bind, owns_perform. intros w frame Hw.
  exists [Mint (sha256_hex (randomToken (draws w))); Seat f userId]. split; [by apply orderly_mint|].
  simpl. generalize (randomToken (draws w)) as rawToken. clear w frame Hw. intros rawToken.
  apply owns_bind, own_calm; [by apply step_Date_now|]. intros [now|e]; [|done].
  apply owns_bind, own_calm; [apply calm_draw|]. intros [rid|e]; [|done].
  apply owns_bind, owns_perform. intros w frame Hw. exists [].
  assert (orderly w frame) as Hfree by (do 2 eapply orderly_tail; exact Hw).
  destruct (db_up w); [|done]. cbv zeta. destruct (exists_row (fun u => _) (user (data w)));
    [|split; [by destruct w as [[] ? ? ? ?]|done]].
  unfold create. destruct (exists_row (token_clash _) _) eqn:Hclash;
    (split; [|done]); [by destruct w as [[] ? ? ? ?]|]. by apply orderly_insert.
Qed.

Lemma own_startFamily (userId : string) (meta : ClientMeta) :
  own any [] (startFamily sha256_hex randomToken randomUUID ttlDays userId meta : M IssuedRefreshToken).
Proof.
  unfold startFamily. apply owns_bind, owns_perform. intros w frame Hw.
  exists [Seat (randomUUID (draws w)) userId]. split; [by apply orderly_seat|]. apply own_issue.
Qed.

(** [spend] ends with the seat of the token it returns. *)
Lemma own_spend (rawToken : string) :
  own (fun r c => match r with
                  | Ok (Some s) => c = [Seat (rt_familyId s) (rt_userId s)]
                  | _ => True
                  end) [] (spend sha256_hex rawToken : M (option RefreshToken)).
Proof.
  unfold spend, fingerprint. set (h := sha256_hex rawToken).
  apply owns_bind, own_calm; [by apply step_Date_now|]. intros [now|e]; [|done].
  unfold spend_at. apply owns_bind, owns_perform. intros w frame Hw.
  destruct (db_up w); [|by exists []]. cbn [updateMany fst snd].
  change (with_data _ w) with (set_tokens (t_update (spendable h now) (set_revokedAt now) (refreshToken (data w))) w).
  case_match eqn:Hn.
  - apply Nat.eqb_eq in Hn.
    destruct (t_select (spendable h now) (refreshToken (data w))) as [|r [|? ?]] eqn:Esel; [done| |done].
    assert (r ∈ tokens_of w /\ spendable h now r = true) as [Hr Hsp].
    { apply elem_select. rewrite Esel. by left. }
    exists [Spent h (rt_familyId r) (rt_userId r); Seat (rt_familyId r) (rt_userId r)].
    split; [by apply orderly_spend|]. apply owns_perform. intros w1 frame1 Hw1. clear w frame Hw Hn Esel Hr Hsp.
    exists [Seat (rt_familyId r) (rt_userId r)].
    assert (orderly w1 (Seat (rt_familyId r) (rt_userId r) :: frame1)) as Hfree by (eapply orderly_tail; exact Hw1).
    destruct (db_up w1); [|done]. simpl. destruct (findFirst _ _) as [e|] eqn:Ee;
      (split; [by destruct w1 as [[] ? ? ? ?]|]); [|done].
    apply findFirst_Some in Ee as [He Hh]. apply bool_decide_eq_true in Hh.
    destruct (or_spent _ _ Hw1 h (rt_familyId r) (rt_userId r) e) as [-> ->]; [by left|done..].
  - exists []. split; [eapply calmer_orderly; [by apply calmer_update, dims_revoke|done]|].
    unfold spend_failed. apply owns_bind, own_calm; [by apply step_select_token|].
    intros [[e|]|]; [|done..]. destruct (rt_revokedAt e); [|done].
    apply owns_bind, own_calm; [apply calm_revokeFamily|]. by intros [].
Qed.

Lemma own_refresh (presented : option string) (meta : ClientMeta) :
  own any [] (refresh sha256_hex randomToken randomUUID jwt_sign ttlDays accessTtl presented meta : M LoginResponse).
Proof.
  unfold refresh. destruct (otruthy presented); [|done]. apply owns_bind.
  eapply owns_mono; [|apply own_spend]. intros [[s|]|e] c Hc; [|done..]. subst c. unfold refresh_spent.
  apply owns_bind, owns_perform. intros w frame Hw. exists [Seat (rt_familyId s) (rt_userId s)].
  destruct (db_up w); [|done]. split; [by destruct w as [[] ? ? ? ?]|]. simpl.
  destruct (findFirst _ _) as [u|] eqn:Eu; [destruct (u_isActive u)|].
  - apply findFirst_Some in Eu as [_ <-%bool_decide_eq_true].
    apply owns_bind. eapply owns_mono; [|apply own_issue]. intros [issued|e] c _; [|done].
    apply owns_bind, own_calm; [apply calm_linkReplacement|]. intros [|e]; [|done].
    apply own_calm; [by apply step_buildSession|done].
  - apply own_calm; [|done]. apply each_step_bind; [apply calm_revokeFamily|done].
  - apply own_calm; [|done]. apply each_step_bind; [apply calm_revokeFamily|done].
Qed.

Lemma own_login (dto : Credentials) (meta : ClientMeta) :
  own any [] (login sha256_hex randomToken randomUUID argon2_verify jwt_sign ttlDays accessTtl decoyHash dto meta
    : M LoginResponse).
Proof.
  unfold login. apply owns_bind, own_calm; [by apply step_find_user|]. intros [found|e]; [|done].
  apply owns_bind, own_calm; [apply calm_external|]. intros [ok|e]; [|done].
  destruct found as [u|]; [|done]. destruct (ok && u_isActive u); [|done].
  apply owns_bind. eapply owns_mono; [|apply own_startFamily]. intros [issued|e] c _; [|done].
  apply own_calm; [by apply step_buildSession|done].
Qed.

Lemma calm_register (dto : Credentials) : each_step calmer (register randomUUID argon2_hash dto : M PublicUser).
Proof.
  unfold register, hash_password. apply each_step_bind.
  { apply each_step_bind; [apply calm_draw|]. intros salt. apply calm_external. }
  intros p. apply each_step_try; [|intros e; by case_match].
  apply each_step_bind; [apply calm_create_user|done].
Qed.

Abbreviation handle' := (handle sha256_hex randomToken randomUUID argon2_hash argon2_verify jwt_sign
  ttlDays accessTtl decoyHash).

Lemma own_handle (r : request) : own any [] (handle' r).
Proof.
  destruct r as [dto|dto meta|presented meta|presented|i|]; unfold handle.
  2, 3: apply owns_bind; eapply owns_mono; [|first [apply own_login|apply own_refresh]]; by intros [].
  all: apply own_calm; [|done]; (apply each_step_bind; [|done]).
  - apply calm_register.
  - unfold logout. case_match; [|done]. unfold revokeFamilyByToken.
    apply each_step_bind; [by apply step_select_token|]. intros [r|]; [apply calm_revokeFamily|done].
  - unfold getPublicProfile. apply each_step_bind; [by apply step_find_user|]. intros [u|]; [by case_match|done].
  - apply calm_sweep.
Qed.

(** ** What holds of every family *)

(** One live token at most, and one owner. *)
Definition families_sound (w : um) : Prop :=
  (forall f, (family_live f w <= 1)%nat) /\
  forall x y, x ∈ tokens_of w -> y ∈ tokens_of w -> rt_familyId x = rt_familyId y -> rt_userId x = rt_userId y.

(** The families and the tokens of the table are not those still to be drawn. *)
Definition undrawn (w : um) : Prop :=
  forall n x, (draws w <= n)%nat -> x ∈ tokens_of w ->
    rt_familyId x <> randomUUID n /\ rt_tokenHash x <> sha256_hex (randomToken n).

(** C13: however many requests run at once and however their statements interleave, with
    the database going away and coming back between any two of them, no family of tokens
    ever has two that are not revoked, and all tokens of a family belong to one user: a
    session can be continued in one place only.  (Random values do not repeat.) *)
Theorem one_live_token (reqs : list request) (w : um) (c : config) :
  db_wf w -> families_sound w -> undrawn w ->
  rtc (cstep around) (List.map handle' reqs, w) c -> families_sound c.2.
Proof.
  intros Hwf [Hlive Hown] Hnew Hreach.
  destruct (owns_pool orderly any around (replicate (length reqs) []) (List.map handle' reqs, w) c)
    as (cs & [Hl _ Ho _ _ _ _ _] & _); [apply orderly_perm| | | |done|].
  - intros s s' held [x d up Hd]. by apply calmer_orderly, calmer_same.
  - replace (List.concat _) with (@nil holding) by (clear; by induction (length reqs)).
    split; simpl; try (intros *; by intros Hin%elem_of_nil).
    + intros f. specialize (Hlive f). change (count (is_seat f) []) with 0%nat. lia.
    + intros h. pose proof (live_count_unique h w Hwf). change (count (is_claim h) []) with 0%nat. lia.
    + done.
    + intros x y Hx Hy E. pose proof (find_hash (rt_tokenHash x) w Hwf) as Hf.
      destruct (List.find _ _) as [r|]; [|specialize (Hf x Hx); by apply bool_decide_eq_false in Hf].
      destruct Hf as (_ & _ & _ & Hu). by rewrite (Hu x Hx eq_refl), (Hu y Hy (eq_sym E)).
    + intros n Hn. split; [done|]. intros x Hx. by apply Hnew.
    + intros n Hn. split; [done|]. intros x Hx. by apply Hnew.
  - apply Forall2_same_length_lookup_2; [cbn [fst]; by rewrite length_replicate, List.length_map|].
    intros k d p [-> _]%lookup_replicate_1 Hp. apply list_elem_of_lookup_2 in Hp.
    apply list_elem_of_In, List.in_map_iff in Hp as (q & <- & _). apply own_handle.
  - split; [|done]. intros f. specialize (Hl f). lia.
Qed.
End Families.

Import Concrete.

Lemma decimal_inj (n m : nat) : string_of_Z (Z.of_nat n) = string_of_Z (Z.of_nat m) -> n = m.
Proof.
  intros E. destruct (parse_number_int (Z.of_nat n) "" eq_refl) as [Hn _].
  destruct (parse_number_int (Z.of_nat m) "" eq_refl) as [Hm _].
  rewrite E, Hm in Hn. injection Hn as Hnm. by apply Nat2Z.inj.
Qed.

Lemma w0_families : families_sound w0.
Proof.
  split.
  - intros f. unfold family_live, tokens_of, count. cbn -[bool_decide].
    unfold live_in_family. cbn -[bool_decide]. rewrite !andb_true_r, andb_false_r.
    do 2 case_bool_decide; simpl; try lia; congruence.
  - intros x y Hx Hy. change (x ∈ [live; used; bobs]) in Hx. change (y ∈ [live; used; bobs]) in Hy.
    repeat (apply elem_of_cons in Hx; destruct Hx as [->|Hx]); [| | |by inversion Hx];
      (repeat (apply elem_of_cons in Hy; destruct Hy as [->|Hy]); [done|done|done|by inversion Hy]).
Qed.

(** Two requests with one cookie: the family has one live token when both are through. *)
Lemma one_live_token_witness : families_sound (after_schedule [0; 1; 0; 1; 1; 0; 0; 0; 0; 1; 0; 0; 0; 0]%nat).2.
Proof.
  apply (one_live_token sha256_hex randomToken randomUUID) with (argon2_hash := argon2_hash)
    (argon2_verify := argon2_verify) (jwt_sign := jwt_sign) (ttlDays := 7) (accessTtl := 900) (decoyHash := "decoy")
    (reqs := twice) (w := w0).
  - intros n m E. apply decimal_inj. by injection E.
  - intros n m E. apply decimal_inj. by injection E.
  - exact w0_wf.
  - exact w0_families.
  - intros n x _ Hx. change (x ∈ [live; used; bobs]) in Hx.
    repeat (apply elem_of_cons in Hx; destruct Hx as [->|Hx]; [done|]). by inversion Hx.
  - apply schedule_reachable.
Defined.
