(* ===== verification/Cleanup.v ===== *)
(** * The sweep of expired refresh tokens

    [services/user-management/src/auth/refresh-token-cleanup.service.ts]: the interval
    timer that starts the sweeps ([sweep] is in RefreshTokens), what one of them
    guarantees among requests that go on, and that no request that comes after it can tell
    that it ran, but for one that presents a token it took. *)

From S2P Require Import Prelude Js Timers World Concurrency RefreshTokens Auth Sessions.

Local Open Scope Z_scope.

Set Default Proof Using "Type*".

(** ** The timer *)

Definition SWEEP_INTERVAL_MS : Z := 60 * 60 * 1000.

(** [this.timer = setInterval(() => void this.sweep(), SWEEP_INTERVAL_MS)]; [unref] only
    says that it does not keep the process alive. *)
Definition arm (now : Z) : timer := setInterval SWEEP_INTERVAL_MS now.

(** [clearInterval(this.timer)] *)
Definition disarm (t : timer) : timer := clearInterval t.

(** The sweeps a process starts in the turns of its event loop. *)
Definition sweeps (turns : list Z) (t : timer) : list Z := ticks SWEEP_INTERVAL_MS turns t.

(** Between two moments an hour and a turn apart a sweep has started, from the first
    hour of the process on: the event loop is late by a turn at most. *)
Theorem sweeps_hourly (gap start now : Z) (turns : list Z) :
  0 <= gap -> brisk gap start turns -> start + SWEEP_INTERVAL_MS + gap <= now <= default start (last turns) ->
  exists t, t ∈ sweeps turns (arm start) /\ now - SWEEP_INTERVAL_MS - gap < t <= now.
Proof. by apply ticks_regularly. Qed.

(** ** A sweep among other requests *)

Section Sweep.
Context {TU TR : Type} `{TableLaws User TU} `{TableLaws RefreshToken TR}.

Abbreviation um := (world (users_db TU TR)).

(** Of the tokens that had expired by [T], those that are there came later. *)
Definition swept (T : Z) (w : um) : Prop :=
  forall r, r ∈ tokens_of w -> rt_expiresAt r < T -> T <= rt_createdAt r.

(** Time passes, the database stays up, and what is swept stays so. *)
Record ages (w w' : um) : Prop := {
  ages_clock : clock w <= clock w';
  ages_up : db_up w = true -> db_up w' = true;
  ages_swept T : T <= clock w -> swept T w -> swept T w';
}.

#[local] Instance ages_keeps : Keeps (fun _ => True) ages.
Proof.
  split.
  - intros w w' E Ec Eu. split; [lia|by rewrite Eu|]. intros T _. unfold swept, tokens_of. by rewrite E.
  - intros p f w Hf. split; [done..|]. intros T _ Hs r'. unfold tokens_of.
    cbn [set_tokens with_data data refreshToken]. rewrite elem_update. intros (r & Hr & ->).
    specialize (Hs r Hr). destruct (p r); [|done]. by destruct (Hf r) as [_ _ _ -> _ ->].
  - intros r w _ Hc _ _. split; [done..|]. intros T HT Hs r'. unfold tokens_of.
    cbn [set_tokens with_data data refreshToken]. rewrite elem_insert. intros [->|Hr]; [by rewrite Hc|by apply Hs].
  - intros p w. split; [done..|]. intros T _ Hs r'. unfold tokens_of.
    cbn [set_tokens with_data data refreshToken]. rewrite elem_delete. intros [Hr _]. by apply Hs.
  - intros u w _. by split.
Qed.

(** A moment that has passed, and from which everything is swept. *)
Definition past (T : Z) (w : um) : Prop := T <= clock w /\ swept T w.

Lemma ages_past (T : Z) (w w' : um) : rtc ages w w' -> past T w -> past T w'.
Proof. apply rtc_stable. intros x y [Hc _ Hs] [HT Hsw]. split; [lia|by apply Hs]. Qed.

Lemma ages_since (w w' : um) : rtc ages w w' -> db_up w = true -> clock w <= clock w' /\ db_up w' = true.
Proof.
  intros Hw Hup. apply (rtc_stable ages (fun x => clock w <= clock x /\ db_up x = true) w); [|done|done].
  intros x y [Hc Hu _] [HT Hx]. split; [lia|by apply Hu].
Qed.

Lemma expired_deleted (T : Z) (w : um) :
  swept T (set_tokens (t_delete (fun r => rt_expiresAt r <? T) (refreshToken (data w))) w).
Proof.
  intros r. unfold tokens_of. cbn [set_tokens with_data data refreshToken]. rewrite elem_delete.
  intros [_ Hr] Hlt. apply Z.ltb_ge in Hr. lia.
Qed.

Lemma past_earlier (T T' : Z) (w : um) : T' <= T -> past T w -> past T' w.
Proof.
  intros HT [Hc Hs]. split; [lia|]. intros r Hr He.
  assert (T <= rt_createdAt r) by (apply Hs; [done|lia]). lia.
Qed.

(** A sweep that starts at [w] with the database up. *)
Lemma wp_sweep (w : um) : db_up w = true -> wp ages sweep (fun _ s => past (clock w) s) w.
Proof.
  intros Hup. unfold sweep. apply rg_try, rg_bind, wp_perform. intros s1 Hs1. split; [done|].
  intros s2 Hs2. apply rg_bind, wp_perform. intros s3 Hs3. simpl.
  destruct (ages_since _ _ Hs1 Hup) as [Hc1 Hu1].
  destruct (ages_since s1 s3) as [Hc3 Hu3]; [by transitivity s2|done|]. rewrite Hu3.
  set (s4 := with_data _ s3). assert (rtc ages s3 s4) as Hs34 by apply rtc_once, keeps_delete.
  assert (past (clock w) s4) as Hp.
  { apply (past_earlier (clock s1)); [done|]. split; [done|]. apply (expired_deleted (clock s1) s3). }
  split; [done|]. intros s5 Hs5 s6 Hs6 s7 Hs7. apply (ages_past _ s4); [|done].
  transitivity s5; [done|]. by transitivity s6.
Qed.

(** *** What a sweep leaves *)

(** Time passes. *)
Definition wait (d : Z) (w : um) : um := mkWorld (data w) (clock w + d) (draws w) (db_up w) (calls w).

(** [w'] is [w] without the tokens that had expired by [T]. *)
Definition lighter (T : Z) (w w' : um) : Prop :=
  forall r, r ∈ tokens_of w' <-> r ∈ tokens_of w /\ T <= rt_expiresAt r.

Lemma run_sweep (w : um) : db_wf w -> db_up w = true ->
  let w' := (run sweep w).2 in
  db_wf w' /\ lighter (clock w) w w' /\ clock w' = clock w /\ db_up w' = true.
Proof.
  intros Hwf Hup. unfold sweep. rewrite run_try, run_bind, run_Date_now, run_bind. unfold delete_tokens.
  rewrite run_on_tokens, Hup. split; [by apply wf_delete|]. split; [|done]. intros r.
  unfold tokens_of. simpl. rewrite elem_delete. by rewrite Z.ltb_ge.
Qed.

(** What spending a token means is the same without the tokens a sweep takes, unless it
    is the replay of one of these. *)
Lemma spend_spec_swept (h : string) (T now : Z) (w w' : um) :
  db_wf w -> db_wf w' -> lighter T w w' -> T <= now ->
  (spend_spec h now (tokens_of w')).1 = (spend_spec h now (tokens_of w)).1 /\
  ((forall r, r ∈ tokens_of w -> rt_tokenHash r = h -> rt_revokedAt r <> None -> T <= rt_expiresAt r) ->
   forall r, T <= rt_expiresAt r -> r ∈ (spend_spec h now (tokens_of w')).2 <-> r ∈ (spend_spec h now (tokens_of w)).2).
Proof.
  intros Hwf Hwf' Hl HT.
  assert (forall r, T <= rt_expiresAt r -> r ∈ tokens_of w' <-> r ∈ tokens_of w) as Hk
    by (intros r Hr; rewrite (Hl r); naive_solver).
  assert (forall p r, T <= rt_expiresAt r ->
    r ∈ revoke_all p now (tokens_of w') <-> r ∈ revoke_all p now (tokens_of w)) as Hr.
  { intros p r Hr. rewrite !in_revoke_all. split; intros (x & Hx & E); exists x; (split; [|done]);
      apply Hk; try done; subst r; by destruct (p x). }
  pose proof (find_hash h w Hwf) as Hf. pose proof (find_hash h w' Hwf') as Hf'. unfold spend_spec.
  destruct (List.find (has_hash h) (tokens_of w)) as [e|],
    (List.find (has_hash h) (tokens_of w')) as [e'|].
  - destruct Hf as (_ & _ & _ & Huniq), Hf' as ([He' _]%Hl & Hh' & _). rewrite <- (Huniq e' He' Hh').
    destruct (rt_revokedAt e'); [|case_match]; (split; [done|]); intros _; [apply Hr..|apply Hk].
  - destruct Hf as (He & Hh & _). destruct (decide (T <= rt_expiresAt e)) as [Hle|Hgt].
    { specialize (Hf' e (proj2 (Hl e) (conj He Hle))). by apply bool_decide_eq_false in Hf'. }
    destruct (rt_revokedAt e) as [at_|] eqn:Erev.
    + split; [done|]. intros Hno. exfalso. apply Hgt, (Hno e He Hh). by rewrite Erev.
    + assert (now <? rt_expiresAt e = false) as -> by lia. split; [done|]. intros _. apply Hk.
  - destruct Hf' as ([He' _]%Hl & Hh' & _). specialize (Hf e' He'). by apply bool_decide_eq_false in Hf.
  - by split.
Qed.

Context (sha256_hex : string -> string) (randomToken randomUUID : nat -> string).
Context (argon2_hash : nat -> string -> string) (argon2_verify : string -> string -> option bool).
Context (jwt_sign : UserRole -> string -> Z -> string).
Context (ttlDays accessTtl : Z) (decoyHash : string).

Abbreviation handle' := (handle sha256_hex randomToken randomUUID argon2_hash argon2_verify jwt_sign
  ttlDays accessTtl decoyHash).

(** Time passes between the statements of requests. *)
Inductive passes : um -> um -> Prop :=
| Passes (w : um) (d : Z) : 0 <= d -> passes w (mkWorld (data w) (clock w + d) (draws w) (db_up w) (calls w)).

(** C15: once a sweep is through, whatever requests run at the same time and after it,
    every token that had expired when they all started is gone from the table; the only
    tokens that old are ones created since.  (The database is up.) *)
Theorem expired_tokens_swept (reqs : list request) (w : um) (c : config) (i : nat) a :
  db_up w = true -> reqs !! i = Some Sweep ->
  rtc (cstep passes) (List.map handle' reqs, w) c -> c.1 !! i = Some (Done a) ->
  forall r, r ∈ tokens_of c.2 -> rt_expiresAt r < clock w -> clock w <= rt_createdAt r.
Proof.
  intros Hup Hi Hreach Hdone.
  destruct (pool_rg ages passes (fun _ _ _ => True) (fun j _ s => j = i -> past (clock w) s)
    (List.map handle' reqs, w) c) as [_ Hq]; [| |done|].
  - intros s s' [x d Hd]. apply rtc_once. split; simpl; [lia|done|]. intros T _ Hs. exact Hs.
  - intros j p Hj. cbn [fst snd] in *. rewrite list_lookup_fmap in Hj.
    destruct (reqs !! j) as [q|] eqn:Eq; [|done]. injection Hj as <-. destruct (decide (j = i)) as [->|Hne].
    + assert (q = Sweep) as -> by congruence. apply rg_bind. eapply rg_mono; [|by apply wp_sweep].
      intros [n|e] s Hs; [apply rg_ret|]; intros s' Hs' _; by apply (ages_past _ s).
    + eapply rg_mono; [|apply safe_each_step, (steps_handle _ _ _ _ _ _ _ _ _ (fun _ => True))]; try done; try exact _.
  - specialize (Hq i (Done a) Hdone). by apply (Hq c.2).
Qed.

(** ** No later request can tell *)

(** Whatever token is presented after the sweep, it is accepted or rejected as it would
    have been without it; and the tokens that have not expired end up the same, unless an
    expired token is presented that had been spent: without the sweep its replay still
    revokes its family. *)
Theorem spend_after_sweep (t : string) (d : Z) (w : um) :
  db_wf w -> db_up w = true -> 0 <= d ->
  let without := run (spend sha256_hex t) (wait d w) in
  let after := run (spend sha256_hex t) (wait d (run sweep w).2) in
  after.1 = without.1 /\
  ((forall r, r ∈ tokens_of w -> rt_tokenHash r = sha256_hex t -> rt_revokedAt r <> None ->
      clock w <= rt_expiresAt r) ->
   forall r, clock w <= rt_expiresAt r -> r ∈ tokens_of after.2 <-> r ∈ tokens_of without.2).
Proof.
  intros Hwf Hup Hd. cbv zeta. destruct (run_sweep w Hwf Hup) as (Hwf' & Hl & Hc & Hup').
  set (w' := (run sweep w).2) in *.
  assert (db_wf (wait d w)) as Hw by (by apply (wf_same_data w)).
  assert (db_wf (wait d w')) as Hw' by (by apply (wf_same_data w')).
  destruct (run_spend sha256_hex t _ Hw Hup) as (t1 & -> & Ht1).
  destruct (run_spend sha256_hex t _ Hw' Hup') as (t2 & -> & Ht2).
  destruct (spend_spec_swept (sha256_hex t) (clock w) (clock w + d) (wait d w) (wait d w')) as [E1 E2];
    [done|done|exact Hl|lia|].
  unfold fingerprint in *. cbn [clock wait fst snd] in *. rewrite Hc in *. split; [by f_equal|].
  intros Hno r Hr. change (r ∈ rows t2 <-> r ∈ rows t1). rewrite Ht1, Ht2. by apply E2.
Qed.

(** *** Two worlds *)

(** The same answer, but for the number of tokens another sweep reports. *)
Definition same_answer (a b : result exn (request * response)) : Prop :=
  both (fun x y => x.1 = y.1 /\ (x.1 <> Sweep -> x.2 = y.2)) a b.

(** In the two worlds the same requests are through, with the same answers, and the
    tokens that had not expired by [T] are the same. *)
Record indistinguishable (T : Z) (c c' : config (S := um) (A := result exn (request * response))) : Prop := {
  in_answers i : match c.1 !! i, c'.1 !! i with
                 | Some (Done a), Some (Done b) => same_answer a b
                 | Some (Atomic _ _), Some (Atomic _ _) | None, None => True
                 | _, _ => False
                 end;
  in_tokens r : T <= rt_expiresAt r -> r ∈ tokens_of c'.2 <-> r ∈ tokens_of c.2;
  in_users : user (data c'.2) = user (data c.2);
}.

Section Two.
(** The rows the sweep took, at [T]; the random values drawn from the [N]th on. *)
Context (gone : list RefreshToken) (T : Z) (N : nat).
Context (gone_expired : forall x, x ∈ gone -> rt_expiresAt x < T).
Context (gone_undrawn : forall n x, (N <= n)%nat -> x ∈ gone ->
  rt_id x <> randomUUID n /\ rt_tokenHash x <> sha256_hex (randomToken n)).

Definition taken (r : RefreshToken) : bool := bool_decide (rt_id r ∈ List.map rt_id gone).

(** [w'] is [w] without the rows the sweep took, whatever has become of them. *)
Record apart (w w' : um) : Prop := {
  ap_wf : db_wf w;
  ap_users : user (data w') = user (data w);
  ap_rows : tokens_of w' ≡ₚ List.filter (fun r => negb (taken r)) (tokens_of w);
  ap_gone r : r ∈ tokens_of w -> taken r = true -> exists x, x ∈ gone /\ rt_tokenHash r = rt_tokenHash x /\ rt_expiresAt r = rt_expiresAt x;
  ap_clock : clock w' = clock w;
  ap_draws : draws w' = draws w;
  ap_up : db_up w' = db_up w;
  ap_later : T <= clock w;
  ap_fresh : (N <= draws w)%nat;
}.

(** A fingerprint the sweep took no row of. *)
Definition kept (h : string) : Prop := forall x, x ∈ gone -> rt_tokenHash x <> h.

Lemma apart_elem (w w' : um) (r : RefreshToken) : apart w w' -> r ∈ tokens_of w' <-> r ∈ tokens_of w /\ taken r = false.
Proof. intros Ha. rewrite (ap_rows _ _ Ha), elem_of_filter', negb_true_iff. done. Qed.

Lemma apart_wf (w w' : um) : apart w w' -> db_wf w'.
Proof.
  intros Ha. destruct (ap_wf _ _ Ha) as [Hid Hh Hu Hui Hue].
  split; unfold users_of in *; rewrite ?(ap_users _ _ Ha), ?(ap_rows _ _ Ha); try done.
  - by apply NoDup_map_filter.
  - by apply NoDup_map_filter.
  - intros r [Hr _]%(apart_elem _ _ _ Ha). by apply Hu.
Qed.

(** A row that is in both worlds is looked up in both. *)
Lemma apart_find (p : RefreshToken -> bool) (w w' : um) :
  apart w w' -> (forall x y, x ∈ tokens_of w -> y ∈ tokens_of w -> p x = true -> p y = true -> x = y) ->
  (forall r, r ∈ tokens_of w -> p r = true -> taken r = false) ->
  findFirst p (refreshToken (data w')) = findFirst p (refreshToken (data w)).
Proof.
  intros Ha Hu Hk. destruct (findFirst p (refreshToken (data w))) as [r|] eqn:E.
  - apply findFirst_Some in E as [Hr Hp]. apply findFirst_unique; [|done|].
    + apply (apart_elem _ _ _ Ha). split; [done|by apply Hk].
    + intros r' [Hr' _]%(apart_elem _ _ _ Ha) Hp'. by apply Hu.
  - apply findFirst_None. intros r [Hr _]%(apart_elem _ _ _ Ha). by apply (proj1 (findFirst_None _ _) E).
Qed.

Lemma one_of_hash (h : string) (w : um) (x y : RefreshToken) :
  db_wf w -> x ∈ tokens_of w -> y ∈ tokens_of w -> has_hash h x = true -> has_hash h y = true -> x = y.
Proof.
  intros Hwf Hx Hy Hhx%bool_decide_eq_true Hhy%bool_decide_eq_true. pose proof (find_hash h w Hwf) as Hf.
  destruct (List.find _ _) as [r|]; [|specialize (Hf x Hx); by apply bool_decide_eq_false in Hf].
  destruct Hf as (_ & _ & _ & Hu). by rewrite (Hu x Hx Hhx), (Hu y Hy Hhy).
Qed.

Lemma kept_row (h : string) (w w' : um) (r : RefreshToken) :
  apart w w' -> kept h -> r ∈ tokens_of w -> has_hash h r = true -> taken r = false.
Proof.
  intros Ha Hk Hr Hh%bool_decide_eq_true. destruct (taken r) eqn:E; [|done].
  destruct (ap_gone _ _ Ha r Hr E) as (x & Hx & Hxh & _). exfalso. apply (Hk x Hx). congruence.
Qed.

#[local] Instance filter_Permutation {X} (p : X -> bool) : Proper (Permutation ==> Permutation) (List.filter p).
Proof.
  intros l l' Hl. induction Hl; simpl; [done| | |by etransitivity].
  - destruct (p x); [by apply Permutation_skip|done].
  - destruct (p x), (p y); try done. apply Permutation_swap.
Qed.

Lemma filter_filter_and {X} (p q : X -> bool) (l : list X) :
  List.filter p (List.filter q l) = List.filter (fun x => q x && p x) l.
Proof. induction l as [|x l IH]; [done|]. simpl. destruct (q x); simpl; [destruct (p x)|]; by rewrite ?IH. Qed.

(** The same update of columns other than the id, the fingerprint, the user and the
    expiry keeps the worlds apart by those rows. *)
Lemma apart_update (p : RefreshToken -> bool) (f : RefreshToken -> RefreshToken) (w w' : um) :
  (forall r, same_session r (f r)) -> apart w w' ->
  apart (set_tokens (t_update p f (refreshToken (data w))) w) (set_tokens (t_update p f (refreshToken (data w'))) w').
Proof.
  intros Hf Ha. destruct Ha as [Hwf Hus Hr Hg Hc Hd Hup Hl Hn] eqn:E. clear E. split; try done.
  - apply wf_update; [|done]. intros r. by destruct (Hf r).
  - unfold tokens_of in *. cbn [set_tokens with_data data refreshToken]. rewrite !rows_update, Hr.
    clear -Hf. induction (rows (refreshToken (data w))) as [|r l IH]; [reflexivity|]. simpl.
    assert (taken (if p r then f r else r) = taken r) as -> by (unfold taken; destruct (p r); [by destruct (Hf r) as [-> _]|done]).
    destruct (taken r); simpl; [exact IH|by apply Permutation_skip].
  - intros r' Hr'. unfold tokens_of in Hr'. cbn [set_tokens with_data data refreshToken] in Hr'.
    apply elem_update in Hr' as (r & Hin & ->). intros Ht.
    assert (taken r = true) as Ht' by (revert Ht; unfold taken; destruct (p r); [by destruct (Hf r) as [-> _]|done]).
    destruct (Hg r Hin Ht') as (x & Hx & Hh & He). exists x. split; [done|].
    destruct (p r); [|done]. by destruct (Hf r) as [_ _ -> -> _ _].
Qed.
(** A row with an id and a fingerprint of its own goes into both worlds. *)
Definition own_row (r : RefreshToken) : Prop := taken r = false /\ kept (rt_tokenHash r).

Lemma clash_apart (r : RefreshToken) (w w' : um) : own_row r -> apart w w' ->
  exists_row (token_clash r) (refreshToken (data w')) = exists_row (token_clash r) (refreshToken (data w)).
Proof.
  intros [Hid Hh] Ha. destruct (exists_row (token_clash r) (refreshToken (data w))) eqn:E.
  - apply exists_row_true in E as (x & Hx & Hc). apply exists_row_true. exists x. split; [|done].
    apply (apart_elem w w' x Ha). split; [done|]. destruct (taken x) eqn:Et; [exfalso|done].
    unfold token_clash in Hc. rewrite orb_true_iff, !bool_decide_eq_true in Hc. destruct Hc as [Hc|Hc].
    + unfold taken in *. rewrite Hc in Et. by rewrite Et in Hid.
    + destruct (ap_gone _ _ Ha x Hx Et) as (y & Hy & Hyh & _). apply (Hh y Hy). congruence.
  - apply exists_row_false. intros x [Hx _]%(apart_elem w w' x Ha). by apply (proj1 (exists_row_false _ _) E).
Qed.

Lemma apart_insert (r : RefreshToken) (w w' : um) :
  own_row r -> exists_row (fun u => bool_decide (u_id u = rt_userId r)) (user (data w)) = true ->
  exists_row (token_clash r) (refreshToken (data w)) = false -> apart w w' ->
  apart (set_tokens (t_insert r (refreshToken (data w))) w) (set_tokens (t_insert r (refreshToken (data w'))) w').
Proof.
  intros [Hid Hh] Hu Hclash Ha. destruct Ha as [Hwf Hus Hr Hg Hc Hd Hup Hl Hn]. split; try done.
  - by apply wf_insert.
  - unfold tokens_of in *. cbn [set_tokens with_data data refreshToken]. rewrite !rows_insert, Hr. simpl. by rewrite Hid.
  - intros x. unfold tokens_of. cbn [set_tokens with_data data refreshToken]. rewrite elem_insert.
    intros [->|Hx]; [by rewrite Hid|by apply Hg].
Qed.

Lemma apart_delete (p : RefreshToken -> bool) (w w' : um) : apart w w' ->
  apart (set_tokens (t_delete p (refreshToken (data w))) w) (set_tokens (t_delete p (refreshToken (data w'))) w').
Proof.
  intros Ha. destruct Ha as [Hwf Hus Hr Hg Hc Hd Hup Hl Hn]. split; try done.
  - by apply wf_delete.
  - unfold tokens_of in *. cbn [set_tokens with_data data refreshToken]. rewrite !rows_delete, Hr, !filter_filter_and.
    apply reflexive_eq, List.filter_ext. intros x. apply andb_comm.
  - intros x. unfold tokens_of. cbn [set_tokens with_data data refreshToken]. rewrite elem_delete.
    intros [Hx _]. by apply Hg.
Qed.

(** What else changes, changes in both. *)
Lemma apart_rest (w w' : um) (n : nat) (c c' : list (string * list string)) (d : Z) (up : bool) :
  0 <= d -> apart w w' ->
  apart (mkWorld (data w) (clock w + d) (n + draws w) up c) (mkWorld (data w') (clock w' + d) (n + draws w') up c').
Proof.
  intros Hd0 [Hwf Hus Hr Hg Hc Hd Hup Hl Hn]. split; simpl; try done; [by apply (wf_same_data w)| | |lia|lia].
  - by rewrite Hc.
  - by rewrite Hd.
Qed.

Lemma apart_with_data (w w' : um) : apart w w' -> apart (with_data (data w) w) (with_data (data w') w').
Proof. by destruct w, w'. Qed.

(** *** The statements in both worlds *)

Abbreviation alike Q := (lock apart (both Q)).

Lemma alike_Date_now : alike eq Date_now Date_now.
Proof. intros s s' Ha. split; [done|]. simpl. by rewrite (ap_clock _ _ Ha). Qed.

Lemma alike_draw {X} (source : nat -> X) :
  alike (fun a b => a = b /\ exists n, (N <= n)%nat /\ a = source n) (draw source) (draw source).
Proof.
  intros s s' Ha. split.
  - pose proof (apart_rest s s' 1 (calls s) (calls s') 0 (db_up s)) as Hrest. rewrite !Z.add_0_r in Hrest.
    simpl in *. rewrite (ap_up _ _ Ha). by apply Hrest.
  - simpl. rewrite (ap_draws _ _ Ha). split; [done|]. exists (draws s). split; [by apply (ap_fresh _ _ Ha)|done].
Qed.

Lemma alike_external {X} (name : string) (args : list string) (v : X) :
  alike eq (external name args v) (external name args v).
Proof.
  intros s s' Ha. split; [|done].
  pose proof (apart_rest s s' 0 ((name, args) :: calls s) ((name, args) :: calls s') 0 (db_up s)) as Hrest.
  rewrite !Z.add_0_r in Hrest. simpl in *. rewrite (ap_up _ _ Ha). by apply Hrest.
Qed.

Lemma alike_find_user (p : User -> bool) : alike eq (find_user p) (find_user p).
Proof.
  intros s s' Ha. rewrite (ap_up _ _ Ha). destruct (db_up s); [|done]. simpl.
  rewrite (ap_users _ _ Ha). split; [by apply apart_with_data|done].
Qed.

Lemma apart_set_users (u : User) (w w' : um) :
  exists_row (user_clash u) (user (data w)) = false -> apart w w' ->
  apart (set_users (t_insert u (user (data w))) w) (set_users (t_insert u (user (data w'))) w').
Proof.
  intros Hu Ha. destruct Ha as [Hwf Hus Hr Hg Hc Hd Hup Hl Hn]. split; try done; [by apply wf_user|]. simpl. by rewrite Hus.
Qed.

Lemma alike_create_user (e h : string) : alike eq (create_user randomUUID e h) (create_user randomUUID e h).
Proof.
  unfold create_user. eapply lock_bind; [apply alike_draw|]. intros uid ? [<- _] s s' Ha.
  rewrite (ap_up _ _ Ha), (ap_clock _ _ Ha). destruct (db_up s); [|done]. cbv zeta. unfold create.
  rewrite (ap_users _ _ Ha). destruct (exists_row _ _) eqn:Hc.
  - split; [|done]. pose proof (apart_with_data s s' Ha) as Hd. pose proof (ap_users _ _ Ha) as Hu.
    destruct s as [[] ? ? ? ?], s' as [[] ? ? ? ?]. simpl in *. by rewrite <- Hu in *.
  - split; [|done]. pose proof (apart_set_users _ s s' Hc Ha) as Hs. unfold set_users in Hs.
    by rewrite (ap_users _ _ Ha) in Hs.
Qed.

Lemma alike_on_tokens {X} (Q : X -> X -> Prop) (op : TR -> result exn X * TR) :
  (forall s s', apart s s' ->
    apart (set_tokens (op (refreshToken (data s))).2 s) (set_tokens (op (refreshToken (data s'))).2 s') /\
    both Q (op (refreshToken (data s))).1 (op (refreshToken (data s'))).1) ->
  alike Q (on_tokens op) (on_tokens op).
Proof.
  intros Hop s s' Ha. rewrite (ap_up _ _ Ha). destruct (db_up s); [|done]. specialize (Hop s s' Ha).
  by destruct (op (refreshToken (data s))), (op (refreshToken (data s'))).
Qed.
Lemma alike_update_any (p : RefreshToken -> bool) (f : RefreshToken -> RefreshToken) :
  (forall r, same_session r (f r)) -> alike (fun _ _ => True) (update_tokens p f) (update_tokens p f).
Proof. intros Hf. apply alike_on_tokens. intros s s' Ha. split; [by apply apart_update|done]. Qed.

(** A statement that can only hit rows that were kept hits as many. *)
Lemma alike_update_kept (p : RefreshToken -> bool) (f : RefreshToken -> RefreshToken) (h : string) :
  (forall r, same_session r (f r)) -> kept h -> (forall r, p r = true -> has_hash h r = true) ->
  alike eq (update_tokens p f) (update_tokens p f).
Proof.
  intros Hf Hk Hp. apply alike_on_tokens. intros s s' Ha. split; [by apply apart_update|]. simpl.
  rewrite (Permutation_length (select_filter p _)), (Permutation_length (select_filter p _)).
  pose proof (ap_rows _ _ Ha) as Hr. unfold tokens_of in Hr. rewrite Hr, filter_filter_and. f_equal.
  apply List.filter_ext_in. intros r Hin%list_elem_of_In. destruct (p r) eqn:E; [|by rewrite andb_false_r].
  by rewrite (kept_row h s s' r Ha Hk Hin (Hp r E)).
Qed.

Lemma alike_select (h : string) : kept h ->
  alike (fun a b => a = b /\ forall r, a = Some r -> taken r = false) (select_token (has_hash h)) (select_token (has_hash h)).
Proof.
  intros Hk. apply alike_on_tokens. intros s s' Ha. cbn [fst snd]. rewrite !set_tokens_same. split; [done|]. simpl.
  rewrite (apart_find (has_hash h) s s' Ha).
  - split; [done|]. intros r [Hr Hh]%findFirst_Some. by apply (kept_row h s s').
  - intros x y. apply one_of_hash, (ap_wf _ _ Ha).
  - intros r. by apply (kept_row h s s').
Qed.

Lemma alike_revokeFamily (f : string) : alike eq (revokeFamily f) (revokeFamily f).
Proof.
  unfold revokeFamily. eapply lock_bind; [apply alike_Date_now|]. intros now ? <-.
  eapply lock_bind; [by apply alike_update_any|done].
Qed.

Lemma alike_link (i j : string) : i ∉ List.map rt_id gone -> alike eq (linkReplacement i j) (linkReplacement i j).
Proof.
  intros Hi. apply alike_on_tokens. intros s s' Ha. unfold update.
  assert (exists_row (has_id i) (refreshToken (data s')) = exists_row (has_id i) (refreshToken (data s))) as ->.
  { destruct (exists_row (has_id i) (refreshToken (data s))) eqn:E.
    - apply exists_row_true in E as (x & Hx & Hp). apply exists_row_true. exists x. split; [|done].
      apply (apart_elem s s' x Ha). split; [done|]. apply bool_decide_eq_true in Hp. subst i. by apply bool_decide_eq_false.
    - apply exists_row_false. intros x [Hx _]%(apart_elem s s' x Ha). by apply (proj1 (exists_row_false _ _) E). }
  destruct (exists_row _ _); cbn [fst snd]; (split; [|done]); [by apply apart_update|by rewrite !set_tokens_same].
Qed.

Lemma alike_create (row : Z -> RefreshToken) : (forall now, own_row (row now)) ->
  alike eq (create_token row) (create_token row).
Proof.
  intros Hrow s s' Ha. rewrite (ap_up _ _ Ha), (ap_clock _ _ Ha). destruct (db_up s); [|done]. cbv zeta.
  rewrite (ap_users _ _ Ha). destruct (exists_row (fun u => _) (user (data s))) eqn:Hu.
  2:{ split; [|done]. by apply apart_with_data. }
  unfold create. rewrite (clash_apart _ s s' (Hrow _) Ha). destruct (exists_row (token_clash _) _) eqn:Hc.
  - split; [|done]. pose proof (apart_with_data s s' Ha) as Hd. pose proof (ap_users _ _ Ha) as Hu'.
    destruct s as [[] ? ? ? ?], s' as [[] ? ? ? ?]. simpl in *. by rewrite <- Hu' in *.
  - split; [|done]. pose proof (apart_insert _ s s' (Hrow _) Hu Hc Ha) as Hs. unfold set_tokens in Hs.
    by rewrite (ap_users _ _ Ha) in Hs.
Qed.

(** *** The requests in both worlds *)

Lemma alike_issue (userId f : string) (meta : ClientMeta) :
  alike eq (issue sha256_hex randomToken randomUUID ttlDays userId f meta)
    (issue sha256_hex randomToken randomUUID ttlDays userId f meta).
Proof.
  unfold issue. eapply lock_bind; [apply alike_draw|]. intros rawToken ? [<- (n & Hn & ->)].
  eapply lock_bind; [apply alike_Date_now|]. intros now ? <-.
  eapply lock_bind; [apply alike_draw|]. intros rid ? [<- (m & Hm & ->)].
  eapply lock_bind; [apply alike_create|by intros ? ? <-]. intros at_. split.
  - apply bool_decide_eq_false. simpl. intros (x & Hx & Hin%list_elem_of_In)%list_elem_of_In%List.in_map_iff.
    by destruct (gone_undrawn m x Hm Hin).
  - intros x Hx. by apply (gone_undrawn n).
Qed.

Lemma alike_session (u : User) (t : string) :
  alike eq (buildSession jwt_sign accessTtl u t) (buildSession jwt_sign accessTtl u t).
Proof.
  unfold buildSession, issueAccessToken. eapply (lock_bind _ eq); [|by intros ? ? <-].
  eapply lock_bind; [apply alike_Date_now|by intros ? ? <-].
Qed.

Lemma alike_spend (rawToken : string) : kept (sha256_hex rawToken) ->
  alike (fun a b => a = b /\ forall r, a = Some r -> taken r = false)
    (spend sha256_hex rawToken) (spend sha256_hex rawToken).
Proof.
  intros Hk. unfold spend, fingerprint. eapply lock_bind; [apply alike_Date_now|]. intros now ? <-.
  unfold spend_at. eapply lock_bind; [apply (alike_update_kept _ _ (sha256_hex rawToken)); [done|done|]|].
  { intros r (Hh & _)%spendable_hash. by apply bool_decide_eq_true. }
  intros n ? <-. case_match; [by apply alike_select|]. unfold spend_failed.
  eapply lock_bind; [by apply alike_select|]. intros [e|] ? [<- _]; [|done].
  destruct (rt_revokedAt e); [|done]. by eapply lock_bind; [apply alike_revokeFamily|].
Qed.

(** The token of the request is none the sweep took. *)
Definition presents_kept (r : request) : Prop :=
  match r with
  | Refresh (Some t) _ | Logout (Some t) => kept (sha256_hex t)
  | _ => True
  end.

Lemma alike_login (dto : Credentials) (meta : ClientMeta) :
  alike eq (login sha256_hex randomToken randomUUID argon2_verify jwt_sign ttlDays accessTtl decoyHash dto meta)
    (login sha256_hex randomToken randomUUID argon2_verify jwt_sign ttlDays accessTtl decoyHash dto meta).
Proof.
  unfold login. eapply lock_bind; [apply alike_find_user|]. intros found ? <-.
  eapply lock_bind; [apply alike_external|]. intros ok ? <-.
  destruct found as [u|]; [|done]. destruct (ok && u_isActive u); [|done]. unfold startFamily.
  eapply (lock_bind _ eq); [|intros issued ? <-; apply alike_session].
  eapply lock_bind; [apply alike_draw|]. intros f ? [<- _]. apply alike_issue.
Qed.

Lemma alike_refresh (presented : option string) (meta : ClientMeta) : presents_kept (Refresh presented meta) ->
  alike eq (refresh sha256_hex randomToken randomUUID jwt_sign ttlDays accessTtl presented meta)
    (refresh sha256_hex randomToken randomUUID jwt_sign ttlDays accessTtl presented meta).
Proof.
  intros Hk. unfold refresh. destruct presented as [t|]; [|done]. cbn [otruthy default]. destruct (truthy t); [|done].
  eapply lock_bind; [by apply alike_spend|]. intros [r|] ? [<- Hr]; [|done]. unfold refresh_spent.
  eapply lock_bind; [apply alike_find_user|]. intros u ? <-. case_match.
  - eapply lock_bind; [apply alike_issue|]. intros issued ? <-.
    eapply lock_bind; [apply alike_link|intros ? ? _; apply alike_session].
    exact (proj1 (bool_decide_eq_false _) (Hr r eq_refl)).
  - by eapply lock_bind; [apply alike_revokeFamily|].
Qed.

Lemma alike_handle (r : request) : presents_kept r -> lock apart same_answer (handle' r) (handle' r).
Proof.
  intros Hk. unfold same_answer. destruct r as [dto|dto meta|presented meta|presented|i|]; unfold handle.
  - eapply (lock_bind _ eq); [|by intros ? ? <-]. unfold register, hash_password. eapply (lock_bind _ eq).
    { eapply lock_bind; [apply alike_draw|]. intros salt ? [<- _]. apply alike_external. }
    intros p ? <-. apply lock_try; [|intros e; by case_match].
    eapply lock_bind; [apply alike_create_user|by intros ? ? <-].
  - eapply lock_bind; [apply alike_login|by intros ? ? <-].
  - eapply lock_bind; [by apply alike_refresh|by intros ? ? <-].
  - eapply (lock_bind _ eq); [|done]. unfold logout. destruct presented as [t|]; [|done].
    cbn [otruthy default]. destruct (truthy t); [|done]. unfold revokeFamilyByToken.
    eapply lock_bind; [by apply alike_select|]. intros [x|] ? [<- _]; [apply alike_revokeFamily|done].
  - eapply (lock_bind _ eq); [|by intros ? ? <-]. unfold getPublicProfile.
    eapply lock_bind; [apply alike_find_user|]. intros [u|] ? <-; [by case_match|done].
  - eapply (lock_bind _ (fun _ _ => True)); [|done]. unfold sweep. apply lock_try; [|done].
    eapply lock_bind; [apply alike_Date_now|]. intros now ? <-.
    eapply (lock_bind _ (fun _ _ => True)); [|done]. apply alike_on_tokens. intros s s' Ha.
    split; [by apply apart_delete|done].
Qed.
Lemma apart_around (s t s' : um) : around s s' -> apart s t -> exists t', around t t' /\ apart s' t'.
Proof.
  intros [x d up Hd] Ha. eexists. split; [by apply (Tick t d up)|]. by apply (apart_rest x t 0).
Qed.

Lemma apart_around_flip (s t s' : um) : around s s' -> flip apart s t -> exists t', around t t' /\ flip apart s' t'.
Proof.
  intros [x d up Hd] Ha. eexists. split; [by apply (Tick t d up)|]. by apply (apart_rest t x 0).
Qed.

Lemma locked_indistinguishable (c c' : config (S := um) (A := result exn (request * response))) :
  Forall2 (lock apart same_answer) c.1 c'.1 -> apart c.2 c'.2 -> indistinguishable T c c'.
Proof.
  intros Hl Ha. split; [|intros r HT; rewrite (apart_elem _ _ r Ha)|by apply ap_users].
  - intros i. destruct (c.1 !! i) as [p|] eqn:Ep.
    + destruct (Forall2_lookup_l _ _ _ _ _ Hl Ep) as (q & -> & Hpq). by destruct p, q.
    + destruct (c'.1 !! i) eqn:E; [|done].
      apply lookup_lt_Some in E. apply lookup_ge_None in Ep. apply Forall2_length in Hl. lia.
  - split; [by intros []|]. intros Hr. split; [done|]. destruct (taken r) eqn:E; [|done].
    destruct (ap_gone _ _ Ha r Hr E) as (x & Hx & _ & Hexp). specialize (gone_expired x Hx). lia.
Qed.
End Two.
(** *** The theorem *)

(** What a sweep takes. *)
Definition expired_rows (w : um) : list RefreshToken :=
  List.filter (fun r => rt_expiresAt r <? clock w) (tokens_of w).

(** The random values to come are not those of a row the sweep takes. *)
Definition not_redrawn (w : um) : Prop := forall n x, (draws w <= n)%nat -> x ∈ expired_rows w ->
  rt_id x <> randomUUID n /\ rt_tokenHash x <> sha256_hex (randomToken n).

Lemma swept_apart (w : um) : db_wf w -> db_up w = true ->
  apart (expired_rows w) (clock w) (draws w) w (run sweep w).2.
Proof.
  intros Hwf Hup. unfold sweep. rewrite run_try, run_bind, run_Date_now, run_bind. unfold delete_tokens.
  rewrite run_on_tokens, Hup. cbn [fst snd deleteMany]. rewrite run_ret. cbn [fst snd].
  assert (forall r, r ∈ tokens_of w -> taken (expired_rows w) r = (rt_expiresAt r <? clock w)) as Htaken.
  { intros r Hr. unfold taken, expired_rows. destruct (rt_expiresAt r <? clock w) eqn:E.
    - apply bool_decide_eq_true, list_elem_of_In, List.in_map, list_elem_of_In. by apply elem_of_filter'.
    - apply bool_decide_eq_false. intros (x & Hid & Hx%list_elem_of_In)%list_elem_of_In%List.in_map_iff.
      apply elem_of_filter' in Hx as [Hx Hexp].
      assert (x = r) as ->; [|congruence].
      apply list_elem_of_lookup in Hr as [i Hi], Hx as [j Hj].
      assert (j = i) as ->; [|congruence].
      eapply (NoDup_lookup _ j i (rt_id r) (wf_token_ids _ Hwf)); rewrite list_lookup_fmap; [by rewrite Hj, <- Hid|by rewrite Hi]. }
  split; try done.
  - unfold tokens_of. cbn [set_tokens with_data data refreshToken]. rewrite rows_delete. apply reflexive_eq.
    apply List.filter_ext_in. intros r Hr%list_elem_of_In. by rewrite Htaken.
  - intros r Hr Ht. exists r. rewrite Htaken in Ht by done. split; [|done]. by apply elem_of_filter'.
Qed.

(** C14: no request that comes after it can tell whether the sweep has run.  Whatever
    requests run and however their statements interleave with each other and with outages,
    what can happen in the swept database is what could have happened without the sweep,
    and the other way round: the same requests end at the same moments with the same
    answers, and the accounts and the unexpired tokens are the same throughout.  (No
    request presents one of the tokens the sweep took.) *)
Theorem sweep_invisible (reqs : list request) (w : um) :
  db_wf w -> db_up w = true -> not_redrawn w ->
  (forall r, r ∈ reqs -> presents_kept (expired_rows w) r) ->
  let without := (List.map handle' reqs, w) in
  let after := (List.map handle' reqs, (run sweep w).2) in
  (forall c, rtc (cstep around) without c ->
     exists c', rtc (cstep around) after c' /\ indistinguishable (clock w) c c') /\
  (forall c', rtc (cstep around) after c' ->
     exists c, rtc (cstep around) without c /\ indistinguishable (clock w) c c').
Proof.
  intros Hwf Hup Hnew Hreqs. cbv zeta. set (gone := expired_rows w) in *.
  assert (forall x, x ∈ gone -> rt_expiresAt x < clock w) as Hgone
    by (intros x [_ Hx]%elem_of_filter'; by apply Z.ltb_lt).
  pose proof (swept_apart w Hwf Hup) as Ha. fold gone in Ha.
  assert (Forall2 (lock (apart gone (clock w) (draws w)) same_answer) (List.map handle' reqs) (List.map handle' reqs)) as Hl.
  { apply Forall2_same_length_lookup_2; [done|]. intros i p q Hp Hq. rewrite Hp in Hq. injection Hq as <-.
    apply list_elem_of_lookup_2, list_elem_of_In, List.in_map_iff in Hp as (r & <- & Hr%list_elem_of_In).
    apply alike_handle; [done|done|by apply Hreqs]. }
  split.
  - intros c Hreach.
    destruct (lock_pool (apart gone (clock w) (draws w)) same_answer around (List.map handle' reqs, w)
      (List.map handle' reqs, (run sweep w).2) c) as (c' & Hc' & Hl' & Ha'); [|done..|].
    + intros s t s'. by eapply apart_around.
    + exists c'. split; [done|]. by eapply (locked_indistinguishable gone (clock w) (draws w)).
  - intros c' Hreach.
    destruct (lock_pool (flip (apart gone (clock w) (draws w))) (flip same_answer) around
      (List.map handle' reqs, (run sweep w).2) (List.map handle' reqs, w) c') as (c & Hc & Hl' & Ha'); [| |done..|].
    + intros s t s'. by eapply apart_around_flip.
    + apply Forall2_flip. eapply Forall2_impl; [exact Hl|]. intros p q. apply lock_flip.
    + exists c. split; [done|]. eapply (locked_indistinguishable gone (clock w) (draws w)); [done..| |done].
      apply Forall2_flip. eapply Forall2_impl; [exact Hl'|]. intros p q Hpq. by apply lock_flip in Hpq.
Qed.
End Sweep.

(** ** Concrete sweeps *)

Module Hourly.
Definition late : world (users_db (list User) (list RefreshToken)) :=
  mkWorld (data Concrete.w0) 6000 0 true [].

Lemma late_wf : db_wf late.
Proof. exact (wf_same_data Concrete.w0 late eq_refl Concrete.w0_wf). Qed.

(** A sweep, and a user who signs in while it runs. *)
Definition both : list request :=
  [Sweep; Login (mkCredentials "alice@example.com" "correct horse") Concrete.no_meta].

Definition busy : config := schedule [0; 1; 1; 0; 1; 1; 1; 1; 1; 1]%nat (List.map Concrete.handle' both, late).

(** A table with a token that expired, spent, and requests that present others. *)
Definition stale : RefreshToken :=
  mkRefreshToken "r4" "u1" (Concrete.sha256_hex "ancient") "family" 500 (Some 100) None None None 0.

Definition mixed : world (users_db (list User) (list RefreshToken)) :=
  mkWorld (mkUsersDb [Concrete.alice; Concrete.bob] [Concrete.live; stale; Concrete.bobs]) 1000 0 true [].

Lemma mixed_wf : db_wf mixed.
Proof.
  split; try (apply (bool_decide_unpack _); vm_compute; exact I).
  intros r Hr. change (r ∈ [Concrete.live; stale; Concrete.bobs]) in Hr.
  repeat (apply elem_of_cons in Hr; destruct Hr as [->|Hr]); [| | |by inversion Hr].
  - exists Concrete.alice. split; [by left|done].
  - exists Concrete.alice. split; [by left|done].
  - exists Concrete.bob. split; [right; by left|done].
Qed.

Definition later : list request := [Refresh (Some "cookie") Concrete.no_meta; Logout (Some "cookie"); Me "u1"].

(** They run in the table that was not swept. *)
Definition unswept : config :=
  schedule [0; 1; 0; 2; 0; 0; 0; 1; 0; 0; 1; 0; 0; 0; 0; 0]%nat (List.map Concrete.handle' later, mixed).
End Hourly.

Import Hourly.

Lemma sweeps_hourly_witness :
  exists t, t ∈ sweeps [1000000; 2000000; 3000000; 4000000; 5000000] (arm 0) /\
    5000000 - SWEEP_INTERVAL_MS - 1000000 < t <= 5000000.
Proof.
  apply (sweeps_hourly 1000000 0 5000000); [lia|repeat split; lia|].
  unfold SWEEP_INTERVAL_MS. simpl. lia.
Defined.

Lemma expired_tokens_swept_witness : swept 6000 busy.2.
Proof.
  refine (expired_tokens_swept Concrete.sha256_hex Concrete.randomToken Concrete.randomUUID
    Concrete.argon2_hash Concrete.argon2_verify Concrete.jwt_sign 7 900 "decoy" both late busy 0 _
    eq_refl eq_refl (schedule_reachable _ _ _) _).
  vm_compute. reflexivity.
Defined.

Lemma spend_after_sweep_witness :
  (run (spend Concrete.sha256_hex "cookie") (wait 5 (run sweep late).2)).1 =
  (run (spend Concrete.sha256_hex "cookie") (wait 5 late)).1.
Proof.
  apply (spend_after_sweep Concrete.sha256_hex "cookie" 5 late late_wf); [reflexivity|lia].
Defined.

Lemma sweep_invisible_witness :
  exists c', rtc (cstep around) (List.map Concrete.handle' later, (run sweep mixed).2) c' /\
    exists b, c'.1 !! 0%nat = Some (Done (Ok (Refresh (Some "cookie") Concrete.no_meta, RSession b))).
Proof.
  destruct (sweep_invisible Concrete.sha256_hex Concrete.randomToken Concrete.randomUUID Concrete.argon2_hash
    Concrete.argon2_verify Concrete.jwt_sign 7 900 "decoy" later mixed mixed_wf eq_refl) as [Hfwd _].
  - intros n x _ Hx. change (x ∈ [stale]) in Hx. apply list_elem_of_singleton in Hx as ->. done.
  - intros r Hr. change (r ∈ [Refresh (Some "cookie") Concrete.no_meta; Logout (Some "cookie"); Me "u1"]) in Hr.
    repeat (apply elem_of_cons in Hr; destruct Hr as [->|Hr]); [| |exact I|by inversion Hr];
      intros x Hx E; change (x ∈ [stale]) in Hx; apply list_elem_of_singleton in Hx; subst x; discriminate E.
  - destruct (Hfwd unswept (schedule_reachable _ _ _)) as (c' & Hc' & Hi). exists c'. split; [done|].
    pose proof (in_answers _ _ _ Hi 0%nat) as Ha.
    assert (exists s, unswept.1 !! 0%nat = Some (Done (Ok (Refresh (Some "cookie") Concrete.no_meta, RSession s)))) as [s Hs]
      by (eexists; vm_compute; reflexivity).
    rewrite Hs in Ha. clear - Ha.
    destruct (c'.1 !! 0%nat) as [[[[q b]|e]|B op k]|]; [|exfalso; exact Ha..]. destruct Ha as [E Hb]. simpl in E, Hb.
    exists s. rewrite <- E, Hb; [reflexivity|discriminate].
Defined.

(** A token the sweep took is still worth something to whoever presents it: before the
    sweep, signing out with the expired cookie of a session revokes the session, and
    refreshing with it is taken for a replay and does so too; after it, both leave the
    session as it is. *)
Theorem swept_token_missed (r : request) :
  r = Logout (Some "ancient") \/ r = Refresh (Some "ancient") Concrete.no_meta ->
  (forall x, x ∈ tokens_of (run (Concrete.handle' r) mixed).2 -> rt_familyId x = "family" -> rt_revokedAt x <> None) /\
  Concrete.live ∈ tokens_of (run (Concrete.handle' r) (run sweep mixed).2).2.
Proof.
  intros [-> | ->]; split.
  1, 3: apply (Forall_forall (fun x => rt_familyId x = "family" -> rt_revokedAt x <> None));
    vm_compute; repeat constructor; discriminate.
  all: apply list_elem_of_In; vm_compute; tauto.
Qed.
