(* ===== verification/Mail.v ===== *)
(** * Mail accounts and providers

    [services/email-ingestion]: the [MailAccount] and [Message] rows of the
    Prisma schema, the contract of a provider
    ([mail/providers/mail-provider.interface.ts]) and the registry of adapters
    ([mail/mail-provider.registry.ts]). *)

From S2P Require Import Prelude Js World Concurrency.

Local Open Scope Z_scope.

Set Default Proof Using "Type*".

Inductive MailProvider := GMAIL | ZOHO.

#[export] Instance MailProvider_eq_dec : EqDecision MailProvider.
Proof. solve_decision. Defined.

Inductive AccountStatus := ACTIVE | REAUTH_REQUIRED | DISABLED.

#[export] Instance AccountStatus_eq_dec : EqDecision AccountStatus.
Proof. solve_decision. Defined.

(** The name of an enum member. *)
Definition provider_name (p : MailProvider) : string :=
  match p with GMAIL => "GMAIL" | ZOHO => "ZOHO" end.

Definition status_name (s : AccountStatus) : string :=
  match s with
  | ACTIVE => "ACTIVE" | REAUTH_REQUIRED => "REAUTH_REQUIRED" | DISABLED => "DISABLED"
  end.

Definition ProviderMetadata : Type := list (string * string).

Record MailAccount := mkMailAccount {
  ma_id : string;
  ma_userId : string;
  ma_provider : MailProvider;
  ma_providerAccountId : string;
  ma_emailAddress : string;
  ma_status : AccountStatus;
  ma_accessTokenEnc : string;
  ma_accessTokenExpires : Z;
  ma_refreshTokenEnc : option string;
  ma_scopes : list string;
  ma_providerMetadata : option ProviderMetadata;
  ma_syncCursor : option string;
  ma_lastSyncedAt : option Z;
  ma_lastSyncError : option string;
  ma_createdAt : Z;
  ma_updatedAt : Z;
}.

#[export] Instance MailAccount_eq_dec : EqDecision MailAccount.
Proof. solve_decision. Defined.

Record Message := mkMessage {
  m_id : string;
  m_accountId : string;
  m_providerMessageId : string;
  m_providerThreadId : option string;
  m_subject : option string;
  m_fromAddress : option string;
  m_fromName : option string;
  m_toAddresses : list string;
  m_sentAt : Z;
  m_snippet : option string;
  m_labels : list string;
  m_sizeBytes : option Z;
  m_hasAttachments : bool;
  m_rawObjectKey : string;
  m_bodyTextKey : option string;
  m_ingestedAt : Z;
}.

#[export] Instance Message_eq_dec : EqDecision Message.
Proof. solve_decision. Defined.

(** The two tables, and the bucket of the object store. *)
Record mail_db (TA TM : Type) := mkMailDb {
  mailAccount : TA;
  messages : TM;
  objects : gmap string string;
}.

Arguments mkMailDb {TA TM} _ _ _.
Arguments mailAccount {TA TM} _.
Arguments messages {TA TM} _.
Arguments objects {TA TM} _.

(** ** Columns a statement sets *)

Definition set_cursor (c : option string) (a : MailAccount) : MailAccount :=
  mkMailAccount (ma_id a) (ma_userId a) (ma_provider a) (ma_providerAccountId a)
    (ma_emailAddress a) (ma_status a) (ma_accessTokenEnc a) (ma_accessTokenExpires a)
    (ma_refreshTokenEnc a) (ma_scopes a) (ma_providerMetadata a) c (ma_lastSyncedAt a)
    (ma_lastSyncError a) (ma_createdAt a) (ma_updatedAt a).

Definition set_error (e : option string) (a : MailAccount) : MailAccount :=
  mkMailAccount (ma_id a) (ma_userId a) (ma_provider a) (ma_providerAccountId a)
    (ma_emailAddress a) (ma_status a) (ma_accessTokenEnc a) (ma_accessTokenExpires a)
    (ma_refreshTokenEnc a) (ma_scopes a) (ma_providerMetadata a) (ma_syncCursor a)
    (ma_lastSyncedAt a) e (ma_createdAt a) (ma_updatedAt a).

Definition set_synced (at_ : Z) (a : MailAccount) : MailAccount :=
  mkMailAccount (ma_id a) (ma_userId a) (ma_provider a) (ma_providerAccountId a)
    (ma_emailAddress a) (ma_status a) (ma_accessTokenEnc a) (ma_accessTokenExpires a)
    (ma_refreshTokenEnc a) (ma_scopes a) (ma_providerMetadata a) (ma_syncCursor a)
    (Some at_) None (ma_createdAt a) (ma_updatedAt a).

Definition set_status (s : AccountStatus) (a : MailAccount) : MailAccount :=
  mkMailAccount (ma_id a) (ma_userId a) (ma_provider a) (ma_providerAccountId a)
    (ma_emailAddress a) s (ma_accessTokenEnc a) (ma_accessTokenExpires a)
    (ma_refreshTokenEnc a) (ma_scopes a) (ma_providerMetadata a) (ma_syncCursor a)
    (ma_lastSyncedAt a) (ma_lastSyncError a) (ma_createdAt a) (ma_updatedAt a).

(** Tokens; [None] leaves the stored refresh token. *)
Definition set_tokens_enc (access : string) (expires : Z) (refresh : option string)
    (a : MailAccount) : MailAccount :=
  mkMailAccount (ma_id a) (ma_userId a) (ma_provider a) (ma_providerAccountId a)
    (ma_emailAddress a) (ma_status a) access expires
    (match refresh with Some r => Some r | None => ma_refreshTokenEnc a end) (ma_scopes a)
    (ma_providerMetadata a) (ma_syncCursor a) (ma_lastSyncedAt a) (ma_lastSyncError a)
    (ma_createdAt a) (ma_updatedAt a).

Definition set_grant (email : string) (scopes : list string) (metadata : option ProviderMetadata)
    (a : MailAccount) : MailAccount :=
  mkMailAccount (ma_id a) (ma_userId a) (ma_provider a) (ma_providerAccountId a)
    email (ma_status a) (ma_accessTokenEnc a) (ma_accessTokenExpires a) (ma_refreshTokenEnc a)
    scopes (match metadata with Some m => Some m | None => ma_providerMetadata a end)
    (ma_syncCursor a) (ma_lastSyncedAt a) (ma_lastSyncError a) (ma_createdAt a) (ma_updatedAt a).

(** ** The contract of a provider *)

Record ProviderConnection := mkConnection {
  accessToken : string;
  providerAccountId : string;
  metadata : ProviderMetadata;
}.

Record OAuthTokens := mkOAuthTokens {
  t_accessToken : string;
  t_refreshToken : option string;
  t_expiresAt : Z;
  t_scopes : list string;
}.

Record ProviderIdentity := mkIdentity {
  i_providerAccountId : string;
  i_emailAddress : string;
}.

Record ConnectResult := mkConnectResult {
  tokens : OAuthTokens;
  identity : ProviderIdentity;
  c_metadata : option ProviderMetadata;
}.

Record MessageChangePage := mkChangePage {
  cp_messageIds : list string;
  cp_nextPageToken : option string;
  cp_cursor : option string;
  cp_cursorInvalid : bool;
}.

Record MessageListPage := mkListPage {
  lp_messageIds : list string;
  lp_nextPageToken : option string;
}.

Record RawMessage := mkRawMessage {
  r_providerMessageId : string;
  r_providerThreadId : option string;
  r_labels : list string;
  r_snippet : option string;
  r_sizeBytes : option Z;
  r_internalDate : option Z;
  r_raw : string;
}.

Record ProviderProfile := mkProfile { p_emailAddress : string; p_cursor : string }.

(** [MailProviderAdapter], for a service whose data is [D]. *)
Record MailProviderAdapter (D : Type) := mkAdapter {
  requiredScopes : list string;
  buildAuthorizationUrl : string -> string;
  exchangeCode : string -> list (string * string) -> io (world D) exn ConnectResult;
  refreshAccessToken : string -> ProviderMetadata -> io (world D) exn OAuthTokens;
  getProfile : ProviderConnection -> io (world D) exn ProviderProfile;
  listMessageIds : ProviderConnection -> option string -> Z -> io (world D) exn MessageListPage;
  listChangedMessageIds :
    ProviderConnection -> string -> option string -> io (world D) exn MessageChangePage;
  fetchRawMessage : ProviderConnection -> string -> io (world D) exn (option RawMessage);
}.

Arguments mkAdapter {D} _ _ _ _ _ _ _ _.
Arguments requiredScopes {D} _.
Arguments buildAuthorizationUrl {D} _ _.
Arguments exchangeCode {D} _ _ _.
Arguments refreshAccessToken {D} _ _ _.
Arguments getProfile {D} _ _.
Arguments listMessageIds {D} _ _ _ _.
Arguments listChangedMessageIds {D} _ _ _ _.
Arguments fetchRawMessage {D} _ _ _.

(** Only the outside changes: an adapter talks to its provider and has no hand
    on the service's data. *)
Definition same_data {D} (w w' : world D) : Prop :=
  data w' = data w /\ db_up w' = db_up w /\ (draws w <= draws w')%nat.

Definition outside {D A} (p : io (world D) exn A) : Prop := each_step same_data p.

(** What the services rely on of an adapter. *)
Class AdapterLaws {D} (a : MailProviderAdapter D) : Prop := {
  outside_exchangeCode code params : outside (exchangeCode a code params);
  outside_refreshAccessToken t m : outside (refreshAccessToken a t m);
  outside_getProfile c : outside (getProfile a c);
  outside_listMessageIds c t n : outside (listMessageIds a c t n);
  outside_listChangedMessageIds c cu t : outside (listChangedMessageIds a c cu t);
  outside_fetchRawMessage c i : outside (fetchRawMessage a c i);
}.

(** [p] leaves the data as it is, whatever it returns. *)
Lemma outside_same {D A} (p : io (world D) exn A) (w : world D) :
  outside p -> same_data w (run p w).2.
Proof.
  revert w. induction p as [r|B op k IH]; intros w; [done|]. unfold outside, each_step.
  intros [Hop Hk]. fold (@each_step (world D) (result exn A)) in Hk.
  change (run (Atomic op k) w) with (let '(b, w') := op w in run (k b) w').
  specialize (Hop w). destruct (op w) as [b w'] eqn:E. destruct Hop as (H1 & H2 & H3).
  destruct (IH b w' (Hk b)) as (H4 & H5 & H6). simpl in *.
  split; [by etrans|]. split; [by etrans|]. lia.
Qed.

Lemma same_data_refl {D} (w : world D) : same_data w w.
Proof. by repeat split. Qed.

Lemma outside_data {D A} (p : io (world D) exn A) (w : world D) :
  outside p -> data (run p w).2 = data w.
Proof. intros Hp. apply (outside_same p w Hp). Qed.

Lemma outside_ask {D X} (name : string) (args : list string) (f : nat -> result exn X) :
  outside (D := D) (ask name args f).
Proof. apply each_step_perform. intros w. by repeat split. Qed.

Lemma outside_bind {D A B} (m : io (world D) exn A) (k : A -> io (world D) exn B) :
  outside m -> (forall a, outside (k a)) -> outside (io_bind m k).
Proof. apply each_step_bind. Qed.

Lemma outside_ret {D A} (a : A) : outside (D := D) (ret a).
Proof. done. Qed.

Lemma outside_throw {D A} (e : exn) : outside (D := D) (A := A) (throw e).
Proof. done. Qed.

Lemma outside_now {D} : outside (D := D) Date_now.
Proof. apply each_step_perform. intros w. apply same_data_refl. Qed.

Lemma outside_try {D A} (m : io (world D) exn A) (h : exn -> io (world D) exn A) :
  outside m -> (forall e, outside (h e)) -> outside (try_catch m h).
Proof. apply each_step_try. Qed.

Create HintDb outside.
#[export] Hint Resolve outside_ask outside_bind outside_ret outside_throw outside_now
  outside_try : outside.
#[export] Hint Resolve outside_exchangeCode outside_refreshAccessToken outside_getProfile
  outside_listMessageIds outside_listChangedMessageIds outside_fetchRawMessage : outside.

(** ** The registry *)

Section Registry.
Context {D : Type}.

(** [adapters]: the map the constructor fills. *)
Record registry := mkRegistry { adapters : list (MailProvider * MailProviderAdapter D) }.

Definition lookup_adapter (r : registry) (p : MailProvider) : option (MailProviderAdapter D) :=
  snd <$> List.find (fun kv => bool_decide (kv.1 = p)) (adapters r).

Definition get (r : registry) (p : MailProvider) : result exn (MailProviderAdapter D) :=
  match lookup_adapter r p with
  | Some a => Ok a
  | None => Err (Error ("No adapter registered for provider " +:+ provider_name p))
  end.

(** [Object.values(MailProvider).includes(key)] *)
Definition provider_of_key (key : string) : option MailProvider :=
  if bool_decide (key = "GMAIL") then Some GMAIL
  else if bool_decide (key = "ZOHO") then Some ZOHO
  else None.

Definition resolve (r : registry) (slug : string) :
  result exn (MailProvider * MailProviderAdapter D) :=
  match provider_of_key (to_upper slug) with
  | Some p => match lookup_adapter r p with
              | Some a => Ok (p, a)
              | None => Err (NotFoundException ("Unknown mail provider '" +:+ slug +:+ "'"))
              end
  | None => Err (NotFoundException ("Unknown mail provider '" +:+ slug +:+ "'"))
  end.
End Registry.

Arguments registry : clear implicits.

(** A result inside a program. *)
Definition of_result {D A} (r : result exn A) : io (world D) exn A :=
  match r with Ok a => ret a | Err e => throw e end.
