(* ===== verification/Accounts.v ===== *)
(** * Connected accounts

    [services/email-ingestion]: [crypto/encryption.service.ts],
    [accounts/account-token.service.ts] and [accounts/accounts.service.ts]. *)

From S2P Require Import Prelude Js World Dates Concurrency Mail.

Local Open Scope Z_scope.

Set Default Proof Using "Type*".

(** ** Encryption *)

Inductive CipherPurpose := access | refresh_ | probe.

#[export] Instance CipherPurpose_eq_dec : EqDecision CipherPurpose.
Proof. solve_decision. Defined.

Definition purpose_name (p : CipherPurpose) : string :=
  match p with access => "access" | refresh_ => "refresh" | probe => "probe" end.

Definition VERSION : string := "v2".

(** AES-256-GCM under the service's key, and base64url.  [gcm_seal nonce aad text]
    is the tag and the ciphertext, [gcm_open nonce aad tag text] the plaintext,
    [None] when [final()] throws; [aad] is [None] when none was set. *)
Class Cipher := {
  gcm_seal : string -> option string -> string -> string * string;
  gcm_open : string -> option string -> string -> string -> option string;
  b64 : string -> string;
  unb64 : string -> string;
  randomNonce : nat -> string;
}.

(** What is documented of them: base64url round trips, has no dot in its
    alphabet and keeps emptiness; opening undoes sealing; a tag does not
    authenticate other associated data; a nonce and a tag are not empty. *)
Class CipherLaws `{Cipher} : Prop := {
  unb64_b64 s : unb64 (b64 s) = s;
  b64_no_dot s : occurs "."%char (b64 s) = false;
  open_seal n a t : gcm_open n a (gcm_seal n a t).1 (gcm_seal n a t).2 = Some t;
  open_other_aad n a a' t :
    a <> a' -> gcm_open n a' (gcm_seal n a t).1 (gcm_seal n a t).2 = None;
  nonce_nonempty i : truthy (b64 (randomNonce i)) = true;
  tag_nonempty n a t : truthy (b64 (gcm_seal n a t).1) = true;
  text_nonempty n a t : truthy t = true -> truthy (b64 (gcm_seal n a t).2) = true;
}.

Section Encryption.
Context {D : Type} `{Cipher}.

Definition seal (nonce plainText : string) (purpose : CipherPurpose) : string :=
  let '(tag, text) := gcm_seal nonce (Some (purpose_name purpose)) plainText in
  str_join "." [VERSION; b64 nonce; b64 tag; b64 text].

Definition encrypt (plainText : string) (purpose : CipherPurpose) : io (world D) exn string :=
  let! nonce := draw randomNonce in ret (seal nonce plainText purpose).

Definition nth_part (n : nat) (parts : list string) : string := default "" (parts !! n).

Definition decrypt (envelope : string) (purpose : CipherPurpose) : result exn string :=
  let parts := split_on "."%char envelope in
  let version := nth_part 0 parts in
  let noncePart := nth_part 1 parts in
  let tagPart := nth_part 2 parts in
  let cipherTextPart := nth_part 3 parts in
  if negb (truthy noncePart && truthy tagPart && truthy cipherTextPart)
  then Err (Error "Malformed ciphertext envelope")
  else if negb (bool_decide (version = "v1")) && negb (bool_decide (version = VERSION))
  then Err (Error ("Unsupported ciphertext version: " +:+ version))
  else
    match gcm_open (unb64 noncePart)
            (if bool_decide (version = VERSION) then Some (purpose_name purpose) else None)
            (unb64 tagPart) (unb64 cipherTextPart) with
    | Some t => Ok t
    | None => Err (Error "Unsupported state or unable to authenticate data")
    end.

Lemma run_encrypt (t : string) (p : CipherPurpose) (w : world D) :
  run (encrypt t p) w =
  (Ok (seal (randomNonce (draws w)) t p),
   mkWorld (data w) (clock w) (S (draws w)) (db_up w) (calls w)).
Proof. done. Qed.

Context `{!CipherLaws}.

Lemma split_seal (nonce t : string) (p : CipherPurpose) :
  split_on "."%char (seal nonce t p) =
  [VERSION; b64 nonce; b64 (gcm_seal nonce (Some (purpose_name p)) t).1;
   b64 (gcm_seal nonce (Some (purpose_name p)) t).2].
Proof.
  unfold seal. destruct (gcm_seal _ _ _) as [tag text]. simpl fst. simpl snd.
  apply (split_on_join "."%char); [done|]. repeat constructor; apply b64_no_dot.
Qed.

Lemma decrypt_seal (i : nat) (t : string) (p : CipherPurpose) :
  truthy t = true -> decrypt (seal (randomNonce i) t p) p = Ok t.
Proof.
  intros Ht. unfold decrypt. rewrite split_seal. cbn [nth_part]. unfold nth_part. simpl.
  rewrite nonce_nonempty, tag_nonempty, text_nonempty by done. simpl.
  by rewrite !unb64_b64, open_seal.
Qed.

Lemma purpose_name_inj (p p' : CipherPurpose) : purpose_name p = purpose_name p' -> p = p'.
Proof. by destruct p, p'. Qed.

Lemma decrypt_seal_other (i : nat) (t : string) (p p' : CipherPurpose) :
  p <> p' -> exists e, decrypt (seal (randomNonce i) t p) p' = Err e.
Proof.
  intros Hp. unfold decrypt. rewrite split_seal. unfold nth_part. simpl.
  rewrite nonce_nonempty, tag_nonempty. simpl.
  destruct (truthy (b64 _)) eqn:E; simpl; [|by eexists].
  rewrite !unb64_b64, open_other_aad; [by eexists|].
  intros [= Hn]. by apply Hp, purpose_name_inj.
Qed.

(** Decrypting what was encrypted for a purpose gives the text back for that
    purpose and throws for every other one; only the empty text does not come
    back. *)
Theorem encrypt_decrypt (t : string) (p : CipherPurpose) (w : world D) :
  exists envelope, run (encrypt t p) w =
      (Ok envelope, mkWorld (data w) (clock w) (S (draws w)) (db_up w) (calls w)) /\
    (truthy t = true -> decrypt envelope p = Ok t) /\
    (forall p', p' <> p -> exists e, decrypt envelope p' = Err e).
Proof.
  exists (seal (randomNonce (draws w)) t p). split; [done|].
  split; [by apply decrypt_seal|]. intros p' Hp. by apply decrypt_seal_other.
Qed.
End Encryption.

(** ** Account tokens *)

Definition REFRESH_SKEW_MS : Z := 5 * 60 * 1000.

Section AccountTokens.
Context {TA TM : Type} `{Table MailAccount TA} `{Table Message TM} `{Cipher}.

Abbreviation D := (mail_db TA TM).
Abbreviation M := (io (world D) exn).

Definition has_account_id (i : string) (a : MailAccount) : bool := bool_decide (ma_id a = i).

(** A statement on the table of accounts. *)
Definition on_accounts {X} (op : TA -> result exn X * TA) : M X :=
  query (fun d => let '(r, t) := op (mailAccount d) in
                  (r, mkMailDb t (messages d) (objects d))).

(** [mailAccount.update({ where: { id }, data })] *)
Definition update_account (i : string) (f : MailAccount -> MailAccount) : M unit :=
  on_accounts (update (has_account_id i) f).

Definition find_account (p : MailAccount -> bool) : M (option MailAccount) :=
  on_accounts (fun t => (Ok (findFirst p t), t)).

Definition markReauthRequired (i reason : string) : M unit :=
  update_account i (fun a => set_error (Some reason) (set_status REAUTH_REQUIRED a)).

Definition reconnect : exn := UnauthorizedException "Account requires reconnection".

(** [token ? encrypt(token, 'refresh') : undefined] *)
Definition encrypt_optional (o : option string) : M (option string) :=
  match o with
  | Some r => if truthy r then let! e := encrypt r refresh_ in ret (Some e) else ret None
  | None => ret None
  end.

(** The update once the provider has issued tokens. *)
Definition store_tokens (account : MailAccount) (ts : OAuthTokens) : M string :=
  let! accessEnc := encrypt (t_accessToken ts) access in
  let! refreshEnc := encrypt_optional (t_refreshToken ts) in
  let! _ := update_account (ma_id account) (fun a =>
    set_error None (set_status ACTIVE (set_tokens_enc accessEnc (t_expiresAt ts) refreshEnc a))) in
  ret (t_accessToken ts).

Definition refresh_access (reg : registry D) (account : MailAccount) (md : ProviderMetadata) :
  M string :=
  match ma_refreshTokenEnc account with
  | None => markReauthRequired (ma_id account) "No refresh token stored" ;! throw reconnect
  | Some enc =>
      if truthy enc then
        let! adapter := of_result (get reg (ma_provider account)) in
        let! ts := try_catch
          (let! refreshToken := of_result (decrypt enc refresh_) in
           refreshAccessToken adapter refreshToken md)
          (fun error =>
             match error with
             | ProviderAuthRevokedError _ _ =>
                 markReauthRequired (ma_id account) (message error) ;! throw reconnect
             | _ => throw error
             end) in
        store_tokens account ts
      else markReauthRequired (ma_id account) "No refresh token stored" ;! throw reconnect
  end.

Definition getConnection (reg : registry D) (account : MailAccount) : M ProviderConnection :=
  let md := default [] (ma_providerMetadata account) in
  let! now := Date_now in
  if REFRESH_SKEW_MS <? ma_accessTokenExpires account - now then
    let! t := of_result (decrypt (ma_accessTokenEnc account) access) in
    ret (mkConnection t (ma_providerAccountId account) md)
  else
    let! t := refresh_access reg account md in
    ret (mkConnection t (ma_providerAccountId account) md).

(** *** AccountsService *)

Definition same_mailbox (userId : string) (provider : MailProvider) (pid : string)
    (a : MailAccount) : bool :=
  bool_decide (ma_userId a = userId) && bool_decide (ma_provider a = provider)
  && bool_decide (ma_providerAccountId a = pid).

(** The id is the primary key of the table. *)
Definition account_clash (a a' : MailAccount) : bool := bool_decide (ma_id a' = ma_id a).

(** [upsert] on the unique mailbox of a user, one statement. *)
Definition upsert (p : MailAccount -> bool) (new : Z -> MailAccount)
    (f : MailAccount -> MailAccount) : M MailAccount :=
  query_at (fun now d =>
    match findFirst p (mailAccount d) with
    | Some a => (Ok (f a), mkMailDb (t_update p f (mailAccount d)) (messages d) (objects d))
    | None => let '(r, t) := create account_clash (new now) (mailAccount d) in
              (r, mkMailDb t (messages d) (objects d))
    end).

Context (randomUUID : nat -> string).

Definition missing_scopes (required granted : list string) : list string :=
  List.filter (fun s => negb (bool_decide (s ∈ granted))) required.

Definition connect (reg : registry D) (userId : string) (provider : MailProvider)
    (res : ConnectResult) : M MailAccount :=
  let ts := tokens res in
  let! adapter := of_result (get reg provider) in
  let missing := missing_scopes (requiredScopes adapter) (t_scopes ts) in
  if negb (Nat.eqb (length missing) 0) then
    throw (ForbiddenException ("Consent incomplete — missing " +:+ str_join ", " missing
             +:+ ". Reconnect and approve every permission."))
  else
    let! accessEnc := encrypt (t_accessToken ts) access in
    let! refreshEnc := encrypt_optional (t_refreshToken ts) in
    let! i := draw randomUUID in
    upsert (same_mailbox userId provider (i_providerAccountId (identity res)))
      (fun now => mkMailAccount i userId provider (i_providerAccountId (identity res))
         (i_emailAddress (identity res)) ACTIVE accessEnc (t_expiresAt ts) refreshEnc (t_scopes ts)
         (c_metadata res) None None None now now)
      (fun a => set_error None (set_status ACTIVE
         (set_grant (i_emailAddress (identity res)) (t_scopes ts) (c_metadata res)
            (set_tokens_enc accessEnc (t_expiresAt ts) refreshEnc a)))).

Record Preview := mkPreview {
  pv_emailAddress : string;
  pv_cursor : string;
  pv_idsReturned : nat;
  pv_hasMorePages : bool;
  pv_firstMessage : option (string * option Z * list string * option Z * nat * string);
}.

Definition owned_account (userId accountId : string) : M (option MailAccount) :=
  find_account (fun a => bool_decide (ma_id a = accountId) && bool_decide (ma_userId a = userId)).

Definition preview (reg : registry D) (userId accountId : string) : M Preview :=
  let! found := owned_account userId accountId in
  match found with
  | None => throw (NotFoundException "Account not found")
  | Some account =>
      let! connection := getConnection reg account in
      let! adapter := of_result (get reg (ma_provider account)) in
      let! profile := getProfile adapter connection in
      let! page := listMessageIds adapter connection None 5 in
      let! first := match lp_messageIds page with
                    | i :: _ => fetchRawMessage adapter connection i
                    | [] => ret None
                    end in
      ret (mkPreview (p_emailAddress profile) (p_cursor profile) (length (lp_messageIds page))
             (otruthy (lp_nextPageToken page))
             ((fun m => (r_providerMessageId m, r_internalDate m, r_labels m, r_sizeBytes m,
                         String.length (r_raw m), stake 300 (r_raw m))) <$> first))
  end.

Record MailAccountSummary := mkSummary {
  sm_id : string;
  sm_provider : MailProvider;
  sm_emailAddress : string;
  sm_status : AccountStatus;
  sm_scopes : list string;
  sm_lastSyncedAt : option string;
  sm_createdAt : string;
}.

Definition summary (a : MailAccount) : MailAccountSummary :=
  mkSummary (ma_id a) (ma_provider a) (ma_emailAddress a) (ma_status a) (ma_scopes a)
    (toISOString <$> ma_lastSyncedAt a) (toISOString (ma_createdAt a)).

#[local] Instance by_creation_dec : RelDecision (fun a b => ma_createdAt a <= ma_createdAt b).
Proof. intros a b. unfold base.Decision. apply Z_le_dec. Defined.

Definition listForUser (userId : string) : M (list MailAccountSummary) :=
  let! accounts := on_accounts (fun t =>
    (Ok (merge_sort (fun a b => ma_createdAt a <= ma_createdAt b)
           (t_select (fun a => bool_decide (ma_userId a = userId)) t)), t)) in
  ret (List.map summary accounts).

(** ** What they guarantee *)

Context `{!TableLaws MailAccount TA} `{!CipherLaws}.

Definition accounts_of (w : world D) : list MailAccount := rows (mailAccount (data w)).

Lemma run_on_accounts {X} (op : TA -> result exn X * TA) (w : world D) :
  run (on_accounts op) w =
  if db_up w then
    ((op (mailAccount (data w))).1,
     with_data (mkMailDb (op (mailAccount (data w))).2 (messages (data w)) (objects (data w))) w)
  else (Err DbUnavailable, w).
Proof.
  unfold on_accounts. rewrite run_query. destruct (db_up w); [|done].
  by destruct (op (mailAccount (data w))).
Qed.

(** An update of a stored account succeeds and touches its row alone. *)
Lemma run_update_account (a : MailAccount) (f : MailAccount -> MailAccount) (w : world D) :
  db_up w = true -> a ∈ accounts_of w ->
  exists w', run (update_account (ma_id a) f) w = (Ok tt, w') /\
    accounts_of w' ≡ₚ List.map (fun x => if has_account_id (ma_id a) x then f x else x) (accounts_of w) /\
    messages (data w') = messages (data w) /\ objects (data w') = objects (data w) /\
    calls w' = calls w /\ clock w' = clock w /\ db_up w' = true /\ draws w' = draws w.
Proof.
  intros Hup Ha. unfold update_account. rewrite run_on_accounts, Hup. unfold update.
  rewrite (proj2 (exists_row_true _ _)).
  - eexists. split; [done|]. split; [apply rows_update|done].
  - exists a. split; [done|]. unfold has_account_id. by rewrite bool_decide_eq_true_2.
Qed.

Lemma run_refresh_call (adapter : MailProviderAdapter D) (enc t : string) (i : nat)
    (md : ProviderMetadata) (h : exn -> M OAuthTokens) (w : world D) :
  truthy t = true -> enc = seal (randomNonce i) t refresh_ ->
  run (try_catch (let! refreshToken := of_result (decrypt enc refresh_) in
                  refreshAccessToken adapter refreshToken md) h) w =
  match run (refreshAccessToken adapter t md) w with
  | (Ok ts, w') => (Ok ts, w')
  | (Err e, w') => run (h e) w'
  end.
Proof.
  intros Ht ->. rewrite run_try, run_bind, decrypt_seal by done. done.
Qed.

(** An account whose refresh token the service encrypted. *)
Definition holds_refresh (account : MailAccount) (t : string) : Prop :=
  exists i, ma_refreshTokenEnc account = Some (seal (randomNonce i) t refresh_).

Lemma seal_truthy (i : nat) (t : string) (p : CipherPurpose) : truthy (seal (randomNonce i) t p) = true.
Proof. unfold seal. by destruct (gcm_seal _ _ _). Qed.

(** When the provider fails to refresh a token for any reason but a revoked
    grant, no row changes and the error goes on to the queue, which retries; only
    a revoked grant disables the account, and then its row alone. *)
Theorem refresh_failure (reg : registry D) (account : MailAccount) (adapter : MailProviderAdapter D)
    (t : string) (e : exn) (w w1 : world D) :
  AdapterLaws adapter -> get reg (ma_provider account) = Ok adapter ->
  holds_refresh account t -> truthy t = true ->
  ma_accessTokenExpires account - clock w <= REFRESH_SKEW_MS ->
  run (refreshAccessToken adapter t (default [] (ma_providerMetadata account))) w = (Err e, w1) ->
  db_up w1 = true -> account ∈ accounts_of w ->
  exists r w', run (getConnection reg account) w = (Err r, w') /\
    match e with
    | ProviderAuthRevokedError _ _ =>
        r = reconnect /\
        accounts_of w' ≡ₚ List.map (fun x => if has_account_id (ma_id account) x
          then set_error (Some (message e)) (set_status REAUTH_REQUIRED x) else x) (accounts_of w)
    | _ => r = e /\ data w' = data w
    end.
Proof.
  intros Hlaws Hget [i Henc] Ht Hexp Hrun Hup Hin.
  pose proof (outside_data _ w (outside_refreshAccessToken t (default [] (ma_providerMetadata account))))
    as Hdata. rewrite Hrun in Hdata. simpl in Hdata.
  unfold getConnection. rewrite run_bind, run_Date_now. apply Z.ltb_ge in Hexp. rewrite Hexp.
  rewrite run_bind. unfold refresh_access. rewrite Henc, seal_truthy, Hget.
  cbn [of_result]. rewrite run_bind, run_ret, run_bind, (run_refresh_call _ _ t i), Hrun by done.
  assert (account ∈ accounts_of w1) as Hin1 by (unfold accounts_of; by rewrite Hdata).
  destruct e as [?|?|?|?|?|?|?|?|p detail|?|?|?|?|?];
    try (eexists _, w1; split; [by rewrite run_throw|done]).
  destruct (run_update_account account (fun a => set_error (Some (message
    (ProviderAuthRevokedError p detail))) (set_status REAUTH_REQUIRED a)) w1 Hup Hin1)
    as (w2 & Hmark & Hrows & _).
  exists reconnect, w2. unfold markReauthRequired. rewrite run_bind, Hmark, run_throw.
  split; [done|]. split; [done|]. rewrite Hrows. unfold accounts_of. by rewrite Hdata.
Qed.

Lemma missing_nil (required granted : list string) :
  missing_scopes required granted = [] <-> forall s, s ∈ required -> s ∈ granted.
Proof.
  unfold missing_scopes. induction required as [|s l IH]; simpl.
  - split; [intros _ s Hs; by inversion Hs|done].
  - case_bool_decide as Hs; simpl.
    + rewrite IH. split; [intros Hall x [->|Hx]%elem_of_cons; [done|by apply Hall]|].
      intros Hall x Hx. apply Hall. by right.
    + split; [done|]. intros Hall. destruct Hs. apply Hall. by left.
Qed.

(** A consent that lacks a required scope is refused and changes nothing at
    all: an account that still works is not overwritten. *)
Theorem partial_consent_refused (reg : registry D) (userId : string) (p : MailProvider)
    (res : ConnectResult) (adapter : MailProviderAdapter D) (s : string) (w : world D) :
  get reg p = Ok adapter -> s ∈ requiredScopes adapter -> s ∉ t_scopes (tokens res) ->
  exists m, run (connect reg userId p res) w = (Err (ForbiddenException m), w).
Proof.
  intros Hget Hs Hnot. unfold connect. rewrite Hget. cbn [of_result].
  rewrite run_bind, run_ret.
  destruct (missing_scopes (requiredScopes adapter) (t_scopes (tokens res))) eqn:E.
  - destruct Hnot. by apply (proj1 (missing_nil _ _) E).
  - cbn [length Nat.eqb negb]. eexists. apply run_throw.
Qed.

(** The refresh token a connection or a refresh stores. *)
Definition stored_refresh (o : option string) (draws_ : nat) : option string :=
  match o with
  | Some r => if truthy r then Some (seal (randomNonce draws_) r refresh_) else None
  | None => None
  end.

Lemma run_encrypt_optional (o : option string) (w : world D) :
  exists n, (draws w <= n)%nat /\ run (encrypt_optional o) w =
    (Ok (stored_refresh o (draws w)), mkWorld (data w) (clock w) n (db_up w) (calls w)).
Proof.
  unfold stored_refresh, encrypt_optional. destruct o as [r|]; [|exists (draws w); by destruct w].
  destruct (truthy r); [|exists (draws w); by destruct w]. exists (S (draws w)). split; [lia|done].
Qed.

(** Every mailbox of a user is one row. *)
Definition mailboxes_unique (w : world D) : Prop :=
  forall a b, a ∈ accounts_of w -> b ∈ accounts_of w ->
    same_mailbox (ma_userId a) (ma_provider a) (ma_providerAccountId a) b = true -> a = b.

Lemma same_mailbox_spec (u : string) (p : MailProvider) (i : string) (a : MailAccount) :
  same_mailbox u p i a = true <->
  ma_userId a = u /\ ma_provider a = p /\ ma_providerAccountId a = i.
Proof. unfold same_mailbox. rewrite !andb_true_iff, !bool_decide_eq_true. tauto. Qed.

(** Connecting a mailbox with every required scope makes it [ACTIVE] with the
    new access token, readable back; a mailbox that was connected before keeps its
    id, its sync cursor and, when the provider issued none, its refresh token, and
    no other row changes; otherwise exactly one row is added, the ids drawn from now
    on being new. *)
Theorem connect_upserts (reg : registry D) (userId : string) (p : MailProvider)
    (res : ConnectResult) (adapter : MailProviderAdapter D) (w : world D) :
  let mine := same_mailbox userId p (i_providerAccountId (identity res)) in
  mailboxes_unique w -> db_up w = true -> get reg p = Ok adapter ->
  (forall s, s ∈ requiredScopes adapter -> s ∈ t_scopes (tokens res)) ->
  truthy (t_accessToken (tokens res)) = true ->
  (forall a n, a ∈ accounts_of w -> (draws w <= n)%nat -> ma_id a <> randomUUID n) ->
  exists acc w', run (connect reg userId p res) w = (Ok acc, w') /\
    mine acc = true /\ ma_status acc = ACTIVE /\
    decrypt (ma_accessTokenEnc acc) access = Ok (t_accessToken (tokens res)) /\
    match List.find mine (accounts_of w) with
    | Some a =>
        ma_id acc = ma_id a /\ ma_syncCursor acc = ma_syncCursor a /\
        (t_refreshToken (tokens res) = None -> ma_refreshTokenEnc acc = ma_refreshTokenEnc a) /\
        accounts_of w' ≡ₚ List.map (fun x => if mine x then acc else x) (accounts_of w)
    | None => accounts_of w' ≡ₚ acc :: accounts_of w
    end.
Proof.
  intros mine Huniq Hup Hget Hscopes Htok Hfresh. unfold connect. rewrite Hget. cbn [of_result].
  rewrite run_bind, run_ret. rewrite (proj2 (missing_nil _ _) Hscopes). cbn [length Nat.eqb negb].
  rewrite run_bind, run_encrypt, run_bind.
  destruct (run_encrypt_optional (t_refreshToken (tokens res))
    (mkWorld (data w) (clock w) (S (draws w)) (db_up w) (calls w))) as (n & Hn & ->).
  cbn [draws] in Hn. rewrite run_bind, run_draw. cbn [data clock draws db_up calls].
  unfold upsert. rewrite run_query_at. cbn [db_up data clock draws calls]. rewrite Hup.
  fold mine. destruct (List.find mine (accounts_of w)) as [a|] eqn:E.
  - apply List.find_some in E as [Ha%list_elem_of_In Hm].
    assert (forall x, x ∈ accounts_of w -> mine x = true -> x = a) as Hu.
    { intros x Hx Hmx. symmetry. apply Huniq; [done|done|].
      apply same_mailbox_spec in Hm as (-> & -> & ->). done. }
    rewrite (findFirst_unique _ mine a Ha Hm Hu). eexists _, _. split; [done|].
    split; [done|]. split; [done|]. split; [by apply decrypt_seal|].
    split; [done|]. split; [done|]. split; [intros Hnone; simpl; by rewrite Hnone|].
    unfold accounts_of at 1. simpl. rewrite rows_update. apply reflexive_eq, List.map_ext_in.
    intros x Hx%list_elem_of_In. destruct (mine x) eqn:Hmx; [|done]. by rewrite (Hu x).
  - rewrite (proj2 (findFirst_None _ _)).
    2:{ intros x Hx. apply (List.find_none _ _ E). by apply list_elem_of_In. }
    unfold create. rewrite (proj2 (exists_row_false _ _)).
    2:{ intros x Hx. unfold account_clash. apply bool_decide_eq_false. cbn [ma_id]. apply Hfresh; [done|lia]. }
    eexists _, _. split; [done|].
    split; [unfold mine, same_mailbox; simpl; by rewrite !bool_decide_eq_true_2|].
    split; [done|]. split; [by apply decrypt_seal|]. apply rows_insert.
Qed.
End AccountTokens.

(** ** A concrete vault and provider *)

Module Vault.
(** Two letters per character, an alphabet without a dot. *)
Definition letter (n : nat) : Ascii.ascii := Ascii.ascii_of_nat (65 + n).

Fixpoint b64 (s : string) : string :=
  match s with
  | EmptyString => EmptyString
  | String c s' => String (letter (code c / 16)) (String (letter (code c mod 16)) (b64 s'))
  end.

Fixpoint unb64 (s : string) : string :=
  match s with
  | String a (String b s') =>
      String (Ascii.ascii_of_nat (16 * (code a - 65) + (code b - 65))) (unb64 s')
  | _ => EmptyString
  end.

Definition tag_of (aad : option string) : string :=
  match aad with Some a => "s" +:+ a | None => "n" end.

#[export] Instance cipher : Cipher := {
  gcm_seal nonce aad text := (tag_of aad, text);
  gcm_open nonce aad tag text := if bool_decide (tag = tag_of aad) then Some text else None;
  b64 := b64;
  unb64 := unb64;
  randomNonce := fun n => "nonce";
}.

Lemma letters (c : Ascii.ascii) :
  Ascii.ascii_of_nat (16 * (code (letter (code c / 16)) - 65) + (code (letter (code c mod 16)) - 65)) = c
  /\ ascii_eqb (letter (code c / 16)) "."%char = false
  /\ ascii_eqb (letter (code c mod 16)) "."%char = false.
Proof. destruct c as [[] [] [] [] [] [] [] []]; vm_compute; done. Qed.

Lemma roundtrip (s : string) : unb64 (b64 s) = s.
Proof.
  induction s as [|c s IH]; [done|]. cbn [b64 unb64]. rewrite IH.
  by destruct (letters c) as [-> _].
Qed.

Lemma no_dot (s : string) : occurs "."%char (b64 s) = false.
Proof.
  induction s as [|c s IH]; [done|]. cbn [b64 occurs]. rewrite IH.
  by destruct (letters c) as (_ & -> & ->).
Qed.

#[export] Instance cipher_laws : CipherLaws.
Proof.
  split; simpl.
  - apply roundtrip.
  - apply no_dot.
  - intros n a t. by rewrite bool_decide_eq_true_2.
  - intros n a a' t Ha. rewrite bool_decide_eq_false_2; [done|]. intros E. apply Ha.
    destruct a, a'; simpl in E; try done. f_equal. by apply (append_inj_l "s").
  - done.
  - intros n a t. by destruct a.
  - intros n a t Ht. by destruct t.
Qed.

(** A provider that answers [e] to every refresh and nothing else. *)
Definition provider {D : Type} (e : exn) : MailProviderAdapter D :=
  mkAdapter ["read"] (fun s => s) (fun _ _ => throw e)
    (fun t _ => ask "refresh" [t] (fun _ => Err e)) (fun _ => throw e) (fun _ _ _ => throw e)
    (fun _ _ _ => throw e) (fun _ _ => throw e).

#[export] Instance provider_laws {D : Type} (e : exn) : AdapterLaws (provider (D := D) e).
Proof. split; intros; simpl; auto with outside. Qed.

Definition db : Type := mail_db (list MailAccount) (list Message).

Definition registry_of (e : exn) : registry db := mkRegistry [(GMAIL, provider e)].

Definition box : MailAccount :=
  mkMailAccount "a1" "u1" GMAIL "g1" "alice@gmail.com" ACTIVE (seal "nonce" "old access" access) 0
    (Some (seal "nonce" "grant" refresh_)) ["read"] None (Some "77") None None 0 0.

Definition w0 : world db := mkWorld (mkMailDb [box] [] ∅) 1000 0 true [].

Definition granted (scopes : list string) : ConnectResult :=
  mkConnectResult (mkOAuthTokens "new access" None 9000000 scopes)
    (mkIdentity "g1" "alice@gmail.com") None.

Definition uuid (n : nat) : string := "uuid-" +:+ string_of_Z (Z.of_nat n).
End Vault.

#[export] Existing Instances Vault.cipher Vault.cipher_laws Vault.provider_laws.

Lemma encrypt_decrypt_witness :
  exists envelope,
    (run (encrypt "secret" access) Vault.w0).1 = Ok envelope /\
    decrypt envelope access = Ok "secret" /\ exists e, decrypt envelope refresh_ = Err e.
Proof.
  destruct (encrypt_decrypt "secret" access Vault.w0) as (envelope & Hrun & Hsame & Hother).
  exists envelope. split; [rewrite Hrun; reflexivity|]. split; [apply Hsame; reflexivity|].
  apply (Hother refresh_). discriminate.
Defined.

Lemma refresh_failure_witness :
  exists r w', run (getConnection (Vault.registry_of (Error "503")) Vault.box) Vault.w0 = (Err r, w') /\
    r = Error "503" /\ data w' = data Vault.w0.
Proof.
  refine (refresh_failure (Vault.registry_of (Error "503")) Vault.box
    (Vault.provider (Error "503")) "grant" (Error "503") Vault.w0
    (run (refreshAccessToken (Vault.provider (Error "503")) "grant" []) Vault.w0).2
    _ _ _ _ _ _ _ _).
  - reflexivity.
  - exists 0%nat. reflexivity.
  - reflexivity.
  - vm_compute. discriminate.
  - reflexivity.
  - reflexivity.
  - left.
Defined.

Lemma partial_consent_refused_witness :
  exists m, run (connect Vault.uuid (Vault.registry_of (Error "x")) "u1" GMAIL (Vault.granted []))
    Vault.w0 = (Err (ForbiddenException m), Vault.w0).
Proof.
  apply (partial_consent_refused Vault.uuid (Vault.registry_of (Error "x")) "u1" GMAIL
    (Vault.granted []) (Vault.provider (Error "x")) "read" Vault.w0).
  - reflexivity.
  - left.
  - intros Hin. inversion Hin.
Defined.

Lemma connect_upserts_witness :
  exists acc w', run (connect Vault.uuid (Vault.registry_of (Error "x")) "u1" GMAIL
    (Vault.granted ["read"])) Vault.w0 = (Ok acc, w') /\ ma_syncCursor acc = Some "77".
Proof.
  destruct (connect_upserts Vault.uuid (Vault.registry_of (Error "x")) "u1" GMAIL
    (Vault.granted ["read"]) (Vault.provider (Error "x")) Vault.w0) as (acc & w' & Hrun & _ & _ & _ & Hrow).
  - intros a b Ha Hb _. change (a ∈ [Vault.box]) in Ha. change (b ∈ [Vault.box]) in Hb.
    apply list_elem_of_singleton in Ha, Hb. congruence.
  - reflexivity.
  - reflexivity.
  - intros s Hs. exact Hs.
  - reflexivity.
  - intros a n Ha _. change (a ∈ [Vault.box]) in Ha. apply list_elem_of_singleton in Ha as ->.
    unfold Vault.uuid. discriminate.
  - exists acc, w'. split; [exact Hrun|]. exact (proj1 (proj2 Hrow)).
Defined.
