(* ===== verification/OAuthState.v ===== *)
(** * Connecting a mailbox: the OAuth state and its callback

    [services/email-ingestion]: [oauth/oauth-state.service.ts] and
    [oauth/oauth.controller.ts].  A state is a signed set of claims that names the
    user who asked; the service remembers the nonces it has redeemed.  [verify]
    awaits nothing, so it is a function of the time and of that memory. *)

From S2P Require Import Prelude Js Base64 World Json Mail Accounts.
From Stdlib Require Import QArith.

Local Open Scope Z_scope.

Definition STATE_TTL_SECONDS : Z := 600.

Record StateClaims := mkClaims { sc_userId : string; sc_nonce : string; sc_exp : Q }.

Definition claims_json (c : StateClaims) : json :=
  JObj [("userId", JStr (sc_userId c)); ("nonce", JStr (sc_nonce c)); ("exp", JNum (sc_exp c))].

(** [JSON.parse(…) as StateClaims].  Nothing else is ever signed; were it, the
    model would refuse it. *)
Definition claims_of (text : string) : result exn StateClaims :=
  match JSON_parse text with
  | Err e => Err e
  | Ok x =>
      match as_string (field_of "userId" x), as_string (field_of "nonce" x), as_number (field_of "exp" x)
      with
      | Some u, Some n, Some e => Ok (mkClaims u n e)
      | _, _, _ => Err (TypeError "not a StateClaims")
      end
  end.

(** [Math.floor(Date.now() / 1000)] *)
Definition seconds (ms : Z) : Z := ms / 1000.

(** [exp < now] *)
Definition expired (exp : Q) (now : Z) : bool := negb (Qle_bool (inject_Z now) exp).

(** The nonces redeemed, with the expiry of their claims. *)
Abbreviation nonces := (gmap string Q).

Definition forget (now : Z) (redeemed : nonces) : nonces :=
  filter (fun e => expired e.2 now = false) redeemed.

Section State.
Context {D : Type}.
(** HMAC-SHA256 under the secret of the service, and [randomBytes(16)]. *)
Context (hmac : string -> string) (randomBytes : nat -> string).

Definition sign (payload : string) : string := base64url (hmac payload).

Definition issue (userId : string) : io (world D) exn string :=
  let! nonce := draw (fun n => base64url (randomBytes n)) in
  let! now := Date_now in
  let payload := base64url (JSON_stringify (claims_json
                   (mkClaims userId nonce (inject_Z (seconds now + STATE_TTL_SECONDS))))) in
  ret (payload +:+ "." +:+ sign payload).

(** [const [payload, signature] = state.split('.')] *)
Definition part (n : nat) (state : string) : string := default "" (split_on "."%char state !! n).

Definition verify (nowMs : Z) (redeemed : nonces) (state : string) : result exn string * nonces :=
  let payload := part 0 state in
  let signature := part 1 state in
  if negb (truthy payload && truthy signature)
  then (Err (UnauthorizedException "Malformed OAuth state"), redeemed)
  else if negb (bool_decide (signature = sign payload))
  then (Err (UnauthorizedException "Invalid OAuth state"), redeemed)
  else match claims_of (from_base64url payload) with
       | Err e => (Err e, redeemed)
       | Ok claims =>
           let now := seconds nowMs in
           if expired (sc_exp claims) now
           then (Err (UnauthorizedException "OAuth state has expired"), redeemed)
           else
             let kept := forget now redeemed in
             match kept !! sc_nonce claims with
             | Some _ => (Err (UnauthorizedException "OAuth state has already been used"), kept)
             | None => (Ok (sc_userId claims), <[sc_nonce claims := sc_exp claims]> kept)
             end
       end.

(** A run of attempts, each at its time. *)
Fixpoint attempts (l : list (Z * string)) (redeemed : nonces) : list (result exn string) :=
  match l with
  | [] => []
  | (now, state) :: l' =>
      let '(r, redeemed') := verify now redeemed state in r :: attempts l' redeemed'
  end.
End State.

(** ** OAuthController *)

Section Controller.
Context {TA TM : Type} `{Table MailAccount TA} `{Table Message TM} `{Cipher}.
Context (hmac : string -> string) (randomBytes randomUUID : nat -> string).
Context (reg : registry (mail_db TA TM)).

Abbreviation D := (mail_db TA TM).
Abbreviation M := (io (world D) exn).

Record Connected := mkConnected {
  cn_provider : MailProvider;
  cn_accountId : string;
  cn_emailAddress : string;
  cn_scopes : list string;
  cn_hasRefreshToken : bool;
}.

Definition authorize (slug userId : string) : M string :=
  let! found := of_result (resolve reg slug) in
  let! state := issue hmac randomBytes userId in
  ret (buildAuthorizationUrl found.2 state).

Definition query_param (name : string) (query : list (string * string)) : string :=
  default "" (snd <$> List.find (fun f => bool_decide (f.1 = name)) query).

(** The end of the callback: the code is exchanged for tokens and the mailbox
    connected to the user of the state. *)
Definition connect_code (adapter : MailProviderAdapter D) (provider : MailProvider)
    (userId code : string) (query : list (string * string)) : M Connected :=
  let! result := exchangeCode adapter code query in
  let! account := connect randomUUID reg userId provider result in
  ret (mkConnected (ma_provider account) (ma_id account) (ma_emailAddress account) (ma_scopes account)
         (match ma_refreshTokenEnc account with Some _ => true | None => false end)).

(** [callback], begun at [nowMs]: what it does before its first [await], and the
    rest of it. *)
Definition callback (slug : string) (query : list (string * string)) (nowMs : Z) (redeemed : nonces) :
  M Connected * nonces :=
  match resolve reg slug with
  | Err e => (throw e, redeemed)
  | Ok (provider, adapter) =>
      let code := query_param "code" query in
      let state := query_param "state" query in
      let error := query_param "error" query in
      if truthy error then
        (throw (BadRequestException (provider_name provider +:+ " declined the request: " +:+ error)),
         redeemed)
      else if negb (truthy code && truthy state)
      then (throw (BadRequestException "Missing code or state"), redeemed)
      else match verify hmac nowMs redeemed state with
           | (Err e, redeemed') => (throw e, redeemed')
           | (Ok userId, redeemed') => (connect_code adapter provider userId code query, redeemed')
           end
  end.
End Controller.

(** ** A state is accepted for its ten minutes *)

Section Laws.
Context {D : Type} (hmac : string -> string).

Lemma expired_inject (e now : Z) : expired (inject_Z e) now = (e <? now).
Proof.
  unfold expired. destruct (Qle_bool (inject_Z now) (inject_Z e)) eqn:E;
    destruct (Z.ltb_spec e now); try done.
  - apply Qle_bool_iff in E. rewrite <- Zle_Qle in E. lia.
  - apply not_true_iff_false in E. destruct E. apply Qle_bool_iff. by rewrite <- Zle_Qle.
Qed.

Lemma claims_of_json (u n : string) (e : Z) :
  claims_of (JSON_stringify (claims_json (mkClaims u n (inject_Z e)))) = Ok (mkClaims u n (inject_Z e)).
Proof.
  unfold claims_of. rewrite JSON_parse_stringify; [done|].
  split; [apply (bool_decide_unpack _); vm_compute; exact I|]. by repeat split.
Qed.

Lemma part_payload (payload signature : string) :
  occurs "."%char payload = false -> part 0 (payload +:+ "." +:+ signature) = payload.
Proof. intros Hp. unfold part. change ("." +:+ ?u) with (String "." u). by rewrite split_on_app_sep. Qed.

Lemma part_signature (payload signature : string) :
  occurs "."%char payload = false -> occurs "."%char signature = false ->
  part 1 (payload +:+ "." +:+ signature) = signature.
Proof.
  intros Hp Hs. unfold part. change ("." +:+ ?u) with (String "." u).
  by rewrite split_on_app_sep, split_on_no_sep.
Qed.

Lemma verify_issued (u n : string) (e nowMs : Z) (redeemed : nonces) :
  truthy (hmac (base64url (JSON_stringify (claims_json (mkClaims u n (inject_Z e)))))) = true ->
  verify hmac nowMs redeemed
    (base64url (JSON_stringify (claims_json (mkClaims u n (inject_Z e)))) +:+ "." +:+
     sign hmac (base64url (JSON_stringify (claims_json (mkClaims u n (inject_Z e)))))) =
  if e <? seconds nowMs then (Err (UnauthorizedException "OAuth state has expired"), redeemed)
  else match forget (seconds nowMs) redeemed !! n with
       | Some _ => (Err (UnauthorizedException "OAuth state has already been used"),
                    forget (seconds nowMs) redeemed)
       | None => (Ok u, <[n := inject_Z e]> (forget (seconds nowMs) redeemed))
       end.
Proof.
  intros Hmac. unfold verify. rewrite part_payload by apply base64url_no_dot.
  rewrite part_signature by apply base64url_no_dot.
  rewrite base64url_truthy. unfold sign at 1. rewrite base64url_truthy, Hmac.
  rewrite bool_decide_eq_true_2 by done.
  change (truthy (JSON_stringify _)) with true. cbn [negb andb].
  rewrite from_base64url_base64url, claims_of_json. cbv zeta. cbn [sc_exp sc_nonce sc_userId].
  by rewrite expired_inject.
Qed.

(** A state that [issue] made for a user is accepted for that user until its
    ten minutes are over, provided its nonce has not been redeemed; after them it
    is refused as expired. *)
Theorem issued_state_accepted (randomBytes : nat -> string) (userId : string) (w : world D) (nowMs : Z) (redeemed : nonces) :
  (forall p, truthy (hmac p) = true) ->
  redeemed !! base64url (randomBytes (draws w)) = None ->
  exists state w', run (issue hmac randomBytes userId) w = (Ok state, w') /\
    (verify hmac nowMs redeemed state).1 =
      if seconds (clock w) + STATE_TTL_SECONDS <? seconds nowMs
      then Err (UnauthorizedException "OAuth state has expired") else Ok userId.
Proof.
  intros Hmac Hfresh. unfold issue. rewrite run_bind, run_draw, run_bind, run_Date_now, run_ret.
  eexists _, _. split; [done|]. cbv zeta. cbn [clock]. rewrite verify_issued by done.
  destruct (_ <? _); [done|].
  assert (forget (seconds nowMs) redeemed !! base64url (randomBytes (draws w)) = None) as ->; [|done].
  unfold forget. by apply map_lookup_filter_None_2; left.
Qed.

(** ** A state is accepted once *)

(** The claims can no longer be accepted: their nonce is remembered with their
    expiry, or that has passed. *)
Definition spent_claims (c : StateClaims) (now : Z) (redeemed : nonces) : Prop :=
  redeemed !! sc_nonce c = Some (sc_exp c) \/ expired (sc_exp c) now = true.

Lemma expired_later (e : Q) (now now' : Z) :
  now <= now' -> expired e now = true -> expired e now' = true.
Proof.
  unfold expired. rewrite !negb_true_iff, <- !not_true_iff_false, !Qle_bool_iff. intros Hle Hn H.
  apply Hn. eapply Qle_trans; [|exact H]. by rewrite <- Zle_Qle.
Qed.

Lemma forget_spent (c : StateClaims) (now : Z) (redeemed : nonces) :
  spent_claims c now redeemed -> spent_claims c now (forget now redeemed).
Proof.
  intros [Hr|He]; [|by right]. destruct (expired (sc_exp c) now) eqn:E; [by right|]. left.
  unfold forget. by apply map_lookup_filter_Some_2.
Qed.

Lemma verify_inv (nowMs : Z) (redeemed redeemed' : nonces) (state : string) (r : result exn string) :
  verify hmac nowMs redeemed state = (r, redeemed') ->
  (exists e, r = Err e /\ (redeemed' = redeemed \/ redeemed' = forget (seconds nowMs) redeemed)) \/
  exists c, claims_of (from_base64url (part 0 state)) = Ok c /\ r = Ok (sc_userId c) /\
    expired (sc_exp c) (seconds nowMs) = false /\
    forget (seconds nowMs) redeemed !! sc_nonce c = None /\
    redeemed' = <[sc_nonce c := sc_exp c]> (forget (seconds nowMs) redeemed).
Proof.
  unfold verify. destruct (negb _); [intros [= <- <-]; eauto|].
  destruct (negb _); [intros [= <- <-]; eauto|].
  destruct (claims_of _) as [c|e]; [|intros [= <- <-]; eauto].
  destruct (expired _ _) eqn:He; [intros [= <- <-]; eauto|].
  destruct (forget _ _ !! _) eqn:Hl; intros [= <- <-]; [eauto|]. right. by exists c.
Qed.

(** Spent claims stay spent as time goes on, whatever is presented. *)
Lemma verify_keeps_spent (c : StateClaims) (t nowMs : Z) (redeemed : nonces) (state : string) :
  seconds t <= seconds nowMs -> spent_claims c (seconds t) redeemed ->
  spent_claims c (seconds nowMs) (verify hmac nowMs redeemed state).2.
Proof.
  intros Hle Hs. assert (spent_claims c (seconds nowMs) redeemed) as Hs'.
  { destruct Hs as [Hs|He]; [by left|]. right. by eapply expired_later. }
  destruct (verify hmac nowMs redeemed state) as [r red'] eqn:E. simpl.
  apply verify_inv in E as [(e & _ & [-> | ->]) | (c' & _ & _ & _ & Hn & ->)];
    [done|by apply forget_spent|].
  apply forget_spent in Hs' as [Hs'|He]; [|by right]. left.
  rewrite lookup_insert_ne; [done|]. intros E. congruence.
Qed.

Lemma verify_spent (c : StateClaims) (nowMs : Z) (redeemed : nonces) (state : string) (u : string) :
  claims_of (from_base64url (part 0 state)) = Ok c -> spent_claims c (seconds nowMs) redeemed ->
  (verify hmac nowMs redeemed state).1 <> Ok u.
Proof.
  intros Hc Hs. destruct (verify hmac nowMs redeemed state) as [r red'] eqn:E. simpl.
  unfold verify in E. destruct (negb _); [by simplify_eq|]. destruct (negb _); [by simplify_eq|].
  rewrite Hc in E. apply forget_spent in Hs as [Hs|He].
  - destruct (expired _ _); [by simplify_eq|]. rewrite Hs in E. by simplify_eq.
  - rewrite He in E. by simplify_eq.
Qed.

(** The times of a run, in order and after [t]. *)
Fixpoint chronological (t : Z) (l : list (Z * string)) : Prop :=
  match l with
  | [] => True
  | (now, _) :: l' => t <= now /\ chronological now l'
  end.

Lemma attempts_spent (c : StateClaims) (t : Z) (l : list (Z * string)) (redeemed : nonces) (j : nat)
    (now : Z) (state u : string) :
  chronological t l -> spent_claims c (seconds t) redeemed -> l !! j = Some (now, state) ->
  claims_of (from_base64url (part 0 state)) = Ok c -> attempts hmac l redeemed !! j <> Some (Ok u).
Proof.
  revert t redeemed j. induction l as [|[n s] l IH]; intros t redeemed j; [done|].
  intros [Hle Hch] Hs Hj Hc. cbn [attempts].
  assert (seconds t <= seconds n) as Hsec by (by apply Z.div_le_mono).
  assert (spent_claims c (seconds n) redeemed) as Hs'.
  { destruct Hs as [Hs|He]; [by left|]. right. by eapply expired_later. }
  pose proof (verify_keeps_spent c t n redeemed s Hsec Hs) as Hk.
  destruct j as [|j]; simpl in Hj.
  - injection Hj as <- <-. pose proof (verify_spent c n redeemed s u Hc Hs') as Hv.
    destruct (verify hmac n redeemed s) as [r red'] eqn:E. simpl in *. congruence.
  - destruct (verify hmac n redeemed s) as [r red'] eqn:E. simpl in *. by eapply IH.
Qed.

(** C38: as long as the clock does not go back, a state is accepted at most once,
    whatever else is presented in between and whatever is appended to it. *)
Theorem state_single_use (t : Z) (l : list (Z * string)) (redeemed : nonces) (i j : nat)
    (now now' : Z) (state state' u u' : string) :
  chronological t l -> (i < j)%nat -> l !! i = Some (now, state) -> l !! j = Some (now', state') ->
  part 0 state' = part 0 state ->
  attempts hmac l redeemed !! i = Some (Ok u) -> attempts hmac l redeemed !! j <> Some (Ok u').
Proof.
  revert t redeemed i j. induction l as [|[n s] l IH]; intros t redeemed i j; [done|].
  intros [Hle Hch] Hij Hi Hj Hp. destruct j as [|j]; [lia|]. cbn [attempts].
  destruct (verify hmac n redeemed s) as [r red'] eqn:E. simpl in Hj.
  destruct i as [|i]; simpl in Hi |- *.
  - injection Hi as <- <-. intros [= ->].
    apply verify_inv in E as [(e & Hr & _) | (c & Hc & _ & _ & _ & ->)]; [done|].
    apply (attempts_spent c n _ _ _ now' state'); [done|left; apply lookup_insert_eq|done|by rewrite Hp].
  - apply IH with (t := n); [done|lia|done|done|done].
Qed.
End Laws.

(** ** The callback *)

Section CallbackLaws.
Context {TA TM : Type} `{Table MailAccount TA} `{Table Message TM} `{Cipher}.
Context (hmac : string -> string) (randomBytes randomUUID : nat -> string).
Context (reg : registry (mail_db TA TM)).

Abbreviation D := (mail_db TA TM).

(** Whoever presents it, the mailbox a callback connects goes to the user whom
    [authorize] issued the state for; and a second callback with it is refused
    before anything is asked of the provider. *)
Theorem callback_binds_user (slug userId code : string) (provider : MailProvider)
    (adapter : MailProviderAdapter D) (w : world D) (query : list (string * string)) (nowMs : Z)
    (redeemed : nonces) :
  (forall p, truthy (hmac p) = true) -> resolve reg slug = Ok (provider, adapter) ->
  redeemed !! base64url (randomBytes (draws w)) = None ->
  seconds nowMs <= seconds (clock w) + STATE_TTL_SECONDS ->
  exists state w', run (authorize hmac randomBytes reg slug userId) w =
      (Ok (buildAuthorizationUrl adapter state), w') /\
    (query_param "error" query = "" -> query_param "code" query = code -> truthy code = true ->
     query_param "state" query = state ->
     exists redeemed',
       callback hmac randomUUID reg slug query nowMs redeemed =
         (connect_code randomUUID reg adapter provider userId code query, redeemed') /\
       forall later, seconds nowMs <= seconds later <= seconds (clock w) + STATE_TTL_SECONDS ->
         (callback hmac randomUUID reg slug query later redeemed').1 =
         throw (UnauthorizedException "OAuth state has already been used")).
Proof.
  intros Hmac Hres Hfresh Hnow. unfold authorize, issue.
  rewrite run_bind, Hres. cbn [of_result]. rewrite run_ret, run_bind, run_bind, run_draw, run_bind,
    run_Date_now, run_ret. cbn [clock]. rewrite run_ret.
  eexists _, _. split; [done|]. intros Herr Hcode Hct Hstate. unfold callback.
  rewrite Hres, Herr, Hcode, Hct, Hstate. cbn [truthy negb andb].
  assert (forall a b, truthy (a +:+ "." +:+ b) = true) as Ht by (by intros [] b).
  rewrite Ht, verify_issued by done. cbn [negb andb].
  destruct (Z.ltb_spec (seconds (clock w) + STATE_TTL_SECONDS) (seconds nowMs)); [lia|].
  assert (forget (seconds nowMs) redeemed !! base64url (randomBytes (draws w)) = None) as ->
    by (unfold forget; by apply map_lookup_filter_None_2; left).
  eexists. split; [done|]. intros later Hlater. rewrite verify_issued by done.
  destruct (Z.ltb_spec (seconds (clock w) + STATE_TTL_SECONDS) (seconds later)); [lia|].
  set (n := base64url (randomBytes (draws w))).
  set (e := seconds (clock w) + STATE_TTL_SECONDS).
  assert (forget (seconds later) (<[n := inject_Z e]> (forget (seconds nowMs) redeemed)) !! n =
    Some (inject_Z e)) as ->; [|done].
  unfold forget at 1. apply map_lookup_filter_Some_2; [apply lookup_insert_eq|].
  simpl. rewrite expired_inject. apply Z.ltb_ge. subst e. lia.
Qed.

(** A callback that is not accepted changes nothing and asks nothing of the
    provider: what it returns is an exception thrown before the first [await]. *)
Theorem callback_refused (slug : string) (query : list (string * string)) (nowMs : Z)
    (redeemed : nonces) (e : exn) :
  truthy (query_param "error" query) = true \/ truthy (query_param "code" query) = false \/
  (verify hmac nowMs redeemed (query_param "state" query)).1 = Err e ->
  exists e', (callback hmac randomUUID reg slug query nowMs redeemed).1 = throw e'.
Proof.
  intros Hbad. unfold callback. destruct (resolve reg slug) as [[provider adapter]|e']; [|by exists e'].
  destruct (truthy (query_param "error" query)) eqn:He; [by eexists|].
  destruct (truthy (query_param "code" query)) eqn:Hc; [|by eexists].
  destruct (negb _); [by eexists|].
  destruct (verify hmac nowMs redeemed _) as [[u|e'] red']; [|by exists e'].
  naive_solver.
Qed.
End CallbackLaws.

(** ** A concrete flow *)

Module Consent.
Definition hmac (s : string) : string := "mac of " +:+ s.
Definition randomBytes (n : nat) : string := "bytes " +:+ string_of_Z (Z.of_nat n).
Definition state : string :=
  match (run (issue hmac randomBytes "u1") (mkWorld tt 5000 0 true [])).1 with
  | Ok s => s | Err _ => "" end.

(** The state a user of the vault is given. *)
Definition vault_state : string :=
  match (run (issue hmac randomBytes "u1") Vault.w0).1 with Ok s => s | Err _ => "" end.

Definition returned : list (string * string) := [("code", "c1"); ("state", vault_state)].

Definition uuid (n : nat) : string := string_of_Z (Z.of_nat n).

Definition reg : registry Vault.db := Vault.registry_of (Error "x").

Definition attempts_made : list (Z * string) :=
  [(6000, state); (7000, "forged.AAAA"); (8000, state +:+ ".x"); (900000, state)].
End Consent.

Lemma issued_state_accepted_witness :
  exists state w', run (issue Consent.hmac Consent.randomBytes "u1") (mkWorld tt 5000 0 true []) =
    (Ok state, w') /\ (verify Consent.hmac 605000 ∅ state).1 = Ok "u1".
Proof.
  apply (issued_state_accepted Consent.hmac Consent.randomBytes "u1" (mkWorld tt 5000 0 true []) 605000 ∅).
  - intros p. reflexivity.
  - reflexivity.
Defined.

Lemma state_single_use_witness :
  attempts Consent.hmac Consent.attempts_made ∅ !! 0%nat = Some (Ok "u1") /\
  attempts Consent.hmac Consent.attempts_made ∅ !! 2%nat <> Some (Ok "u1").
Proof.
  split; [vm_compute; reflexivity|].
  apply (state_single_use Consent.hmac 0 Consent.attempts_made ∅ 0 2 6000 8000 Consent.state
    (Consent.state +:+ ".x") "u1" "u1").
  - vm_compute. repeat split; discriminate.
  - lia.
  - reflexivity.
  - reflexivity.
  - vm_compute. reflexivity.
  - vm_compute. reflexivity.
Defined.

Lemma callback_binds_user_witness :
  exists redeemed', callback Consent.hmac Consent.uuid Consent.reg "Gmail" Consent.returned 2000 ∅ =
    (connect_code Consent.uuid Consent.reg (Vault.provider (Error "x")) GMAIL "u1" "c1"
       Consent.returned, redeemed').
Proof.
  destruct (callback_binds_user Consent.hmac Consent.randomBytes Consent.uuid Consent.reg "Gmail" "u1"
    "c1" GMAIL (Vault.provider (Error "x")) Vault.w0 Consent.returned 2000 ∅)
    as (state & w' & E & Hcb).
  - intros p. reflexivity.
  - vm_compute. reflexivity.
  - vm_compute. reflexivity.
  - vm_compute. discriminate.
  - destruct Hcb as (redeemed' & Hcb & _).
    + vm_compute. reflexivity.
    + vm_compute. reflexivity.
    + reflexivity.
    + assert (Ok Consent.vault_state = Ok (E := exn) state) as Es.
      { transitivity (run (authorize Consent.hmac Consent.randomBytes Consent.reg "Gmail" "u1") Vault.w0).1.
        - vm_compute. reflexivity.
        - rewrite E. reflexivity. }
      injection Es as <-. vm_compute. reflexivity.
    + exists redeemed'. exact Hcb.
Defined.

Lemma callback_refused_witness :
  exists e', (callback Consent.hmac Consent.uuid
    Consent.reg "gmail" [("code", "c1"); ("state", "forged.AAAA")] 0 ∅).1 = throw e'.
Proof.
  apply (callback_refused Consent.hmac Consent.uuid
    Consent.reg "gmail" [("code", "c1"); ("state", "forged.AAAA")] 0 ∅
    (UnauthorizedException "Invalid OAuth state")).
  right. right. vm_compute. reflexivity.
Defined.
