(* ===== verification/MailSync.v ===== *)
(** * Synchronising a mailbox

    [services/email-ingestion]: [storage/object-storage.service.ts],
    [messages/message-ingestion.service.ts] and [sync/mail-sync.service.ts]. *)

From S2P Require Import Prelude Js World Dates Concurrency Mail Accounts.

Local Open Scope Z_scope.



(** What [simpleParser] finds in a message: addresses are (address, name). *)
Record Parsed := mkParsed {
  ps_date : option Z;
  ps_text : option string;
  ps_subject : option string;
  ps_from : list (option string * string);
  ps_to : list (list (option string));
  ps_attachments : nat;
}.

(** ** Object keys *)

Definition month_path (at_ : Z) : string :=
  string_of_Z (utc_year at_) +:+ "/" +:+ pad2 (utc_month at_).

Definition buildRawKey (accountId : string) (sentAt : Z) (providerMessageId : string) : string :=
  "raw/" +:+ accountId +:+ "/" +:+ month_path sentAt +:+ "/" +:+ providerMessageId +:+ ".eml".

Definition buildBodyKey (accountId : string) (sentAt : Z) (providerMessageId : string) : string :=
  "text/" +:+ accountId +:+ "/" +:+ month_path sentAt +:+ "/" +:+ providerMessageId +:+ ".txt".

Definition addressList (groups : list (list (option string))) : list string :=
  flat_map (fun group =>
    List.filter truthy (List.map (fun a => default "" (to_lower <$> a)) group)) groups.

Record SyncOutcome := mkOutcome {
  so_accountId : string;
  so_mode : string;
  so_fetched : nat;
  so_created : nat;
  so_skipped : nat;
  so_gone : nat;
}.

Definition INITIAL_BATCH : Z := 50.
Definition MAX_IDS_PER_RUN : nat := 200.

Section Sync.
Context {TA TM : Type} `{Table MailAccount TA} `{Table Message TM} `{Cipher}.
Context (randomUUID : nat -> string).
(** [mailparser]. *)
Context (simpleParser : string -> result exn Parsed).
(** Whether the object store answers a request, by the calls made before. *)
Context (storage_ok : nat -> bool).
Context (reg : registry (mail_db TA TM)).

Abbreviation D := (mail_db TA TM).
Abbreviation M := (io (world D) exn).

(** *** ObjectStorageService *)

Definition put (key body : string) : M string :=
  perform (fun w =>
    let w' := mkWorld (data w) (clock w) (draws w) (db_up w) (("put", [key]) :: calls w) in
    if storage_ok (length (calls w)) then
      (Ok key, with_data (mkMailDb (mailAccount (data w)) (messages (data w))
                            (<[key := body]> (objects (data w)))) w')
    else (Err (Error "object storage unavailable"), w')).

Definition get_object (key : string) : M string :=
  perform (fun w =>
    let w' := mkWorld (data w) (clock w) (draws w) (db_up w) (("get", [key]) :: calls w) in
    if storage_ok (length (calls w)) then
      match objects (data w) !! key with
      | Some body => (Ok body, w')
      | None => (Err (Error "NoSuchKey"), w')
      end
    else (Err (Error "object storage unavailable"), w')).

(** What [getStream] answers: the content a stream will deliver, and its length. *)
Record ObjectStream := mkObjectStream { ob_body : string; ob_contentLength : option Z }.

Definition streamed (body : string) : ObjectStream :=
  mkObjectStream body (Some (Z.of_nat (String.length body))).

Definition getStream (key : string) : M ObjectStream :=
  let! body := get_object key in ret (streamed body).

(** *** MessageIngestionService *)

Definition is_message (accountId providerMessageId : string) (m : Message) : bool :=
  bool_decide (m_accountId m = accountId) && bool_decide (m_providerMessageId m = providerMessageId).

(** A statement on the table of messages. *)
Definition on_messages {X} (op : TM -> result exn X * TM) : M X :=
  query (fun d => let '(r, t) := op (messages d) in
                  (r, mkMailDb (mailAccount d) t (objects d))).

(** The unique constraints of the table. *)
Definition message_clash (m m' : Message) : bool :=
  bool_decide (m_id m' = m_id m) || is_message (m_accountId m) (m_providerMessageId m) m'.

(** [message.create]: the account must exist. *)
Definition create_message (row : Z -> Message) : M Message :=
  query_at (fun now d =>
    let m := row now in
    if exists_row (has_account_id (m_accountId m)) (mailAccount d) then
      let '(res, t) := create message_clash m (messages d) in
      (res, mkMailDb (mailAccount d) t (objects d))
    else (Err P2003, d)).

Definition sent_at (parsed : Parsed) (raw : RawMessage) : M Z :=
  match ps_date parsed, r_internalDate raw with
  | Some d, _ => ret d
  | None, Some d => ret d
  | None, None => Date_now
  end.

Definition message_row (i accountId : string) (raw : RawMessage) (parsed : Parsed) (sentAt : Z)
    (rawObjectKey : string) (bodyTextKey : option string) (now : Z) : Message :=
  let from := List.hd_error (ps_from parsed) in
  mkMessage i accountId (r_providerMessageId raw) (r_providerThreadId raw) (ps_subject parsed)
    (from ≫= fun f => to_lower <$> f.1)
    (from ≫= fun f => or_undefined f.2)
    (addressList (ps_to parsed)) sentAt (r_snippet raw) (r_labels raw)
    (Some (default (Z.of_nat (String.length (r_raw raw))) (r_sizeBytes raw)))
    (negb (Nat.eqb (ps_attachments parsed) 0)) rawObjectKey bodyTextKey now.

(** The text part, trimmed, when there is any. *)
Definition body_text (parsed : Parsed) : option string :=
  ps_text parsed ≫= fun t => or_undefined (trim t).

(** [ingest] answers whether it created a row. *)
Definition ingest (accountId : string) (raw : RawMessage) : M bool :=
  let! stored := on_messages (fun t =>
    (Ok (findFirst (is_message accountId (r_providerMessageId raw)) t), t)) in
  match stored with
  | Some _ => ret false
  | None =>
      let! parsed := of_result (simpleParser (r_raw raw)) in
      let! sentAt := sent_at parsed raw in
      let rawObjectKey := buildRawKey accountId sentAt (r_providerMessageId raw) in
      let! _ := put rawObjectKey (r_raw raw) in
      let! bodyTextKey :=
        match body_text parsed with
        | Some t => let! k := put (buildBodyKey accountId sentAt (r_providerMessageId raw)) t in
                    ret (Some k)
        | None => ret None
        end in
      let! i := draw randomUUID in
      try_catch
        (let! _ := create_message
           (message_row i accountId raw parsed sentAt rawObjectKey bodyTextKey) in
         ret true)
        (fun error => if bool_decide (error = P2002) then ret false else throw error)
  end.

(** *** MailSyncService *)

(** The loop over the messages to fetch: (created, skipped, gone). *)
Fixpoint fetch_all (accountId : string) (adapter : MailProviderAdapter D) (c : ProviderConnection)
    (ids : list string) (counts : nat * nat * nat) : M (nat * nat * nat) :=
  match ids with
  | [] => ret counts
  | i :: ids' =>
      let '(created, skipped, gone) := counts in
      let! raw := fetchRawMessage adapter c i in
      match raw with
      | None => fetch_all accountId adapter c ids' (created, skipped, S gone)
      | Some r =>
          let! new := ingest accountId r in
          fetch_all accountId adapter c ids'
            (if new then (S created, skipped, gone) else (created, S skipped, gone))
      end
  end.

(** The distinct ids among the stored rows of the account. *)
Definition known_ids (accountId : string) (ids : list string) (t : TM) : list string :=
  remove_dups (List.map m_providerMessageId
    (t_select (fun m => bool_decide (m_accountId m = accountId)
                        && bool_decide (m_providerMessageId m ∈ ids)) t)).

Definition ingestAll (accountId : string) (adapter : MailProviderAdapter D)
    (c : ProviderConnection) (ids : list string) : M (nat * nat * nat * nat) :=
  let! known := on_messages (fun t => (Ok (known_ids accountId ids t), t)) in
  let toFetch := List.filter (fun i => negb (bool_decide (i ∈ known))) ids in
  let! counts := fetch_all accountId adapter c toFetch (0%nat, length known, 0%nat) in
  let '(created, skipped, gone) := counts in
  ret (length toFetch, created, skipped, gone).

Definition outcome (accountId mode : string) (counts : nat * nat * nat * nat) : SyncOutcome :=
  let '(fetched, created, skipped, gone) := counts in
  mkOutcome accountId mode fetched created skipped gone.

Definition initialSync (account : MailAccount) (adapter : MailProviderAdapter D)
    (c : ProviderConnection) : M SyncOutcome :=
  let! profile := getProfile adapter c in
  let! page := listMessageIds adapter c None INITIAL_BATCH in
  let! counts := ingestAll (ma_id account) adapter c (lp_messageIds page) in
  let! _ := update_account (ma_id account) (set_cursor (Some (p_cursor profile))) in
  ret (outcome (ma_id account) "initial" counts).

(** [Set.add] in order. *)
Definition add_ids (collected ids : list string) : list string :=
  fold_left (fun acc i => if bool_decide (i ∈ acc) then acc else acc ++ [i]) ids collected.

(** What the paging loop ends with. *)
Inductive Collected :=
| Changes (ids : list string) (nextCursor : string)
| CursorInvalid
| OutOfFuel.

(** The [do … while] of [incrementalSync], at most [fuel] pages of it. *)
Fixpoint collect (fuel : nat) (adapter : MailProviderAdapter D) (c : ProviderConnection)
    (cursor : string) (pageToken : option string) (collected : list string) (nextCursor : string) :
  M Collected :=
  match fuel with
  | O => ret OutOfFuel
  | S fuel' =>
      let! page := listChangedMessageIds adapter c cursor pageToken in
      if cp_cursorInvalid page then ret CursorInvalid
      else
        let collected' := add_ids collected (cp_messageIds page) in
        let nextCursor' := match cp_cursor page with
                           | Some k => if truthy k then k else nextCursor
                           | None => nextCursor
                           end in
        if otruthy (cp_nextPageToken page) && Nat.ltb (length collected') MAX_IDS_PER_RUN
        then collect fuel' adapter c cursor (cp_nextPageToken page) collected' nextCursor'
        else ret (Changes collected' nextCursor')
  end.

Definition incrementalSync (fuel : nat) (account : MailAccount) (adapter : MailProviderAdapter D)
    (c : ProviderConnection) (cursor : string) : M SyncOutcome :=
  let! result := collect fuel adapter c cursor None [] cursor in
  match result with
  | CursorInvalid =>
      let! _ := update_account (ma_id account) (set_cursor None) in
      initialSync account adapter c
  | Changes ids nextCursor =>
      let! counts := ingestAll (ma_id account) adapter c ids in
      let! _ := update_account (ma_id account) (set_cursor (Some nextCursor)) in
      ret (outcome (ma_id account) "incremental" counts)
  | OutOfFuel => throw (Error "out of fuel")
  end.

(** The body of the [try]. *)
Definition sync_active (fuel : nat) (account : MailAccount) : M SyncOutcome :=
  let! connection := getConnection reg account in
  let! adapter := of_result (get reg (ma_provider account)) in
  let! out := match ma_syncCursor account with
              | Some cursor =>
                  if truthy cursor then incrementalSync fuel account adapter connection cursor
                  else initialSync account adapter connection
              | None => initialSync account adapter connection
              end in
  let! now := Date_now in
  let! _ := update_account (ma_id account) (set_synced now) in
  ret out.

Definition syncAccount (fuel : nat) (accountId : string) : M SyncOutcome :=
  let! found := find_account (has_account_id accountId) in
  match found with
  | None => throw (UnrecoverableError ("Account " +:+ accountId +:+ " no longer exists"))
  | Some account =>
      if bool_decide (ma_status account = ACTIVE) then
        try_catch (sync_active fuel account) (fun error =>
          let! _ := update_account (ma_id account) (set_error (Some (message error))) in
          throw error)
      else throw (UnrecoverableError ("Account " +:+ accountId +:+ " is "
             +:+ status_name (ma_status account) +:+ "; reconnection required"))
  end.

Context `{!TableLaws MailAccount TA} `{!TableLaws Message TM}.

Definition messages_of (w : world D) : list Message := rows (messages (data w)).

(** ** The blob before its pointer *)

(** Every object a row points to is in the store. *)
Definition blobs_ok (w : world D) : Prop :=
  forall m, m ∈ messages_of w ->
    is_Some (objects (data w) !! m_rawObjectKey m) /\
    forall k, m_bodyTextKey m = Some k -> is_Some (objects (data w) !! k).

(** What every step may do: objects are never lost, and no row is left without
    its objects. *)
Definition keeps_blobs (w w' : world D) : Prop :=
  (forall k, is_Some (objects (data w) !! k) -> is_Some (objects (data w') !! k)) /\
  (blobs_ok w -> blobs_ok w').

Abbreviation safe' := (safe keeps_blobs).

Lemma keeps_refl (w : world D) : keeps_blobs w w.
Proof. by split. Qed.

Lemma keeps_rows (w w' : world D) :
  messages_of w' = messages_of w -> objects (data w') = objects (data w) -> keeps_blobs w w'.
Proof. intros Hm Ho. split; [by rewrite Ho|]. unfold blobs_ok. by rewrite Hm, Ho. Qed.

Lemma step_outside {A} (p : io (world D) exn A) : outside p -> each_step keeps_blobs p.
Proof.
  induction p as [a|B op k IH]; [done|]. intros [Hop Hk]. split; [|intros b; by apply IH, Hk].
  intros w. destruct (Hop w) as [E _]. apply keeps_rows; unfold messages_of; by rewrite E.
Qed.

Lemma step_on_accounts {X} (op : TA -> result exn X * TA) : each_step keeps_blobs (on_accounts op).
Proof.
  apply each_step_perform. intros w. destruct (db_up w); [|apply keeps_refl].
  destruct (op (mailAccount (data w))). by apply keeps_rows.
Qed.

Lemma step_select_messages {X} (f : TM -> X) :
  each_step keeps_blobs (on_messages (fun t => (Ok (f t), t))).
Proof. apply each_step_perform. intros w. destruct (db_up w); by apply keeps_rows. Qed.

Lemma step_draw' {X} (source : nat -> X) : each_step keeps_blobs (draw source : M X).
Proof. apply each_step_perform. intros w. by apply keeps_rows. Qed.

Lemma step_now : each_step keeps_blobs (Date_now : M Z).
Proof. apply each_step_perform. intros w. apply keeps_refl. Qed.

Lemma keeps_put (w : world D) (k b : string) (c : list (string * list string)) :
  keeps_blobs w (with_data (mkMailDb (mailAccount (data w)) (messages (data w))
    (<[k := b]> (objects (data w)))) (mkWorld (data w) (clock w) (draws w) (db_up w) c)).
Proof.
  assert (forall k0, is_Some (objects (data w) !! k0) -> is_Some (<[k := b]> (objects (data w)) !! k0))
    as Hgrow.
  { intros k0 Hk. destruct (decide (k0 = k)) as [->|Hne].
    - rewrite lookup_insert_eq. by eexists.
    - by rewrite lookup_insert_ne. }
  split; [exact Hgrow|]. intros Hok m Hm. destruct (Hok m Hm) as [Hr Hb].
  split; [by apply Hgrow|]. intros k0 Hk. by apply Hgrow, Hb.
Qed.

(** The object is there from the moment [put] returns. *)
Definition stored (k : string) (w : world D) : Prop := is_Some (objects (data w) !! k).

Lemma stored_stable (k : string) (w w' : world D) : keeps_blobs w w' -> stored k w -> stored k w'.
Proof. intros [Hgrow _]. apply Hgrow. Qed.

Lemma step_put (k b : string) : each_step keeps_blobs (put k b).
Proof.
  apply each_step_perform. intros w. destruct (storage_ok _); [apply keeps_put|by apply keeps_rows].
Qed.

Lemma wp_put (k b : string) (P : world D -> Prop) (w : world D) :
  (forall s s', keeps_blobs s s' -> P s -> P s') -> P w ->
  wp keeps_blobs (put k b)
    (fun r w' => match r with Ok k' => k' = k /\ P w' /\ stored k w' | Err _ => True end) w.
Proof.
  intros HP Hw. apply wp_perform. intros w1 Hw1. pose proof (rtc_stable _ P _ _ HP Hw1 Hw) as HP1.
  cbv zeta. destruct (storage_ok _); (split; [apply rtc_once|]); [apply keeps_put| |by apply keeps_rows|done].
  intros w2 Hw2. split; [done|]. simpl in *.
  assert (forall x y, keeps_blobs x y -> (P x /\ stored k x) -> P y /\ stored k y) as Hst.
  { intros x y Hxy [Hx1 Hx2]. split; [by eapply HP|by eapply stored_stable]. }
  apply (rtc_stable _ (fun x => P x /\ stored k x) _ _ Hst Hw2).
  split; [eapply HP; [apply keeps_put|done]|]. unfold stored. simpl. rewrite lookup_insert_eq. by eexists.
Qed.

(** A row whose objects are stored may be created. *)
Lemma wp_create_message (row : Z -> Message) (Q : result exn Message -> world D -> Prop) (w : world D) :
  let objs w := forall now, stored (m_rawObjectKey (row now)) w /\
    forall k, m_bodyTextKey (row now) = Some k -> stored k w in
  objs w -> (forall r s, Q r s) -> wp keeps_blobs (create_message row) Q w.
Proof.
  intros objs Hobjs HQ. apply wp_perform. intros w1 Hw1.
  assert (objs w1) as Ho1.
  { apply (rtc_stable _ objs _ _) in Hw1; [done| |done]. intros x y Hxy Hx now.
    destruct (Hx now) as [Hr Hb]. split; [by eapply stored_stable|].
    intros k Hk. eapply stored_stable; [done|by apply Hb]. }
  split; [|intros s _; apply HQ]. apply rtc_once. destruct (db_up w1); [|apply keeps_refl]. cbv zeta.
  destruct (exists_row _ _); [|by apply keeps_rows]. unfold create.
  destruct (exists_row _ _); [by apply keeps_rows|].
  split; [done|]. intros Hok m Hm. unfold messages_of in Hm. simpl in Hm.
  apply elem_insert in Hm as [->|Hm]; [apply (Ho1 (clock w1))|by apply Hok].
Qed.

(** [ingest] puts the objects first and the row that points to them second. *)
Lemma safe_ingest (accountId : string) (raw : RawMessage) :
  safe' (ingest accountId raw).
Proof.
  unfold ingest. apply safe_bind; [apply safe_each_step, step_select_messages|].
  intros [m|]; [apply safe_done|]. apply safe_bind; [by destruct (simpleParser (r_raw raw))|].
  intros parsed. apply safe_bind.
  { unfold sent_at. repeat case_match; try apply safe_done. apply safe_each_step, step_now. }
  intros sentAt w. apply rg_bind. cbv zeta. set (rk := buildRawKey _ _ _).
  eapply rg_mono; [|by apply (wp_put rk (r_raw raw) (fun _ => True))].
  intros [k0|e] w1; [intros (-> & _ & Hraw)|done]. apply rg_bind.
  apply (rg_mono _ _ _ (fun r w' => match r with
    | Ok bk => stored rk w' /\ forall k, bk = Some k -> stored k w'
    | Err _ => True end)).
  - intros [bk|e] w2; [|done]. intros Hkeys. apply rg_bind.
    assert (forall x y, keeps_blobs x y ->
      (stored rk x /\ (forall k, bk = Some k -> stored k x)) ->
      stored rk y /\ (forall k, bk = Some k -> stored k y)) as Hst.
    { intros x y Hxy [Hx1 Hx2]. split; [by eapply stored_stable|].
      intros k Hk. eapply stored_stable; [done|by apply Hx2]. }
    eapply rg_mono; [|apply (wp_stable _ _ _ w2 Hst (step_draw' randomUUID) Hkeys)].
    intros [i|e] w3 Hk3; [|done]. apply rg_try, rg_bind.
    apply wp_create_message; [intros now; exact Hk3|]. intros [m|e] w4; [done|].
    intros w5 _. by case_match.
  - destruct (body_text parsed) as [t|].
    + apply rg_bind. eapply rg_mono; [|apply (wp_put _ t (stored rk)); [apply stored_stable|done]].
      intros [k|e] w2; [|done]. intros (-> & Hr & Hb) w3 Hw3. split.
      * by apply (rtc_stable _ (stored rk) _ _ (stored_stable rk) Hw3).
      * intros k' [= <-]. by apply (rtc_stable _ (stored _) _ _ (stored_stable _) Hw3).
    + intros w2 Hw2. split; [by apply (rtc_stable _ (stored rk) _ _ (stored_stable rk) Hw2)|done].
Qed.

Lemma safe_outside {A} (p : io (world D) exn A) : outside p -> safe' p.
Proof. intros Hp. by apply safe_each_step, step_outside. Qed.

Lemma safe_accounts {X} (op : TA -> result exn X * TA) : safe' (on_accounts op).
Proof. apply safe_each_step, step_on_accounts. Qed.

Lemma safe_of_result {A} (r : result exn A) : safe' (of_result r : M A).
Proof. destruct r; apply safe_done. Qed.

Lemma safe_encrypt (t : string) (p : CipherPurpose) : safe' (encrypt t p : M string).
Proof. apply safe_bind; [apply safe_each_step, step_draw'|intros n; apply safe_done]. Qed.

#[local] Hint Resolve safe_bind safe_try safe_outside safe_accounts safe_of_result safe_encrypt
  safe_done : safe.

Lemma safe_store_tokens (account : MailAccount) (ts : OAuthTokens) :
  safe' (store_tokens account ts : M string).
Proof.
  unfold store_tokens. apply safe_bind; [apply safe_encrypt|]. intros a. apply safe_bind.
  - unfold encrypt_optional. destruct (t_refreshToken ts) as [r|]; [|apply safe_done].
    destruct (truthy r); [|apply safe_done]. apply safe_bind; [apply safe_encrypt|].
    intros x. apply safe_done.
  - intros r. apply safe_bind; [apply safe_accounts|]. intros x. apply safe_done.
Qed.

Lemma safe_reauth {A} (i reason : string) (e : exn) :
  safe' (markReauthRequired i reason ;! throw e : M A).
Proof. apply safe_bind; [apply safe_accounts|]. intros x. apply safe_done. Qed.

(** Every adapter of the registry keeps the contract. *)
Definition lawful : Prop := forall p a, get reg p = Ok a -> AdapterLaws a.

Lemma safe_with_adapter {A} (p : MailProvider) (f : MailProviderAdapter D -> M A) :
  lawful -> (forall a, AdapterLaws a -> safe' (f a)) ->
  safe' (let! a := of_result (get reg p) in f a).
Proof.
  intros Hreg Hf. destruct (get reg p) as [a|e] eqn:Ha; [|apply safe_done].
  apply Hf. by eapply Hreg.
Qed.

Lemma safe_getConnection (account : MailAccount) : lawful -> safe' (getConnection reg account).
Proof.
  intros Hreg. unfold getConnection. apply safe_bind; [apply safe_each_step, step_now|]. intros now.
  case_match; (apply safe_bind; [|intros t; apply safe_done]); [apply safe_of_result|].
  unfold refresh_access. destruct (ma_refreshTokenEnc account) as [enc|]; [|apply safe_reauth].
  destruct (truthy enc); [|apply safe_reauth]. apply safe_with_adapter; [done|]. intros a Ha.
  apply safe_bind; [|intros ts; apply safe_store_tokens]. apply safe_try.
  - apply safe_bind; [apply safe_of_result|]. intros t. apply safe_outside. auto with outside.
  - intros e. case_match; first [apply safe_done|apply safe_reauth].
Qed.

Lemma safe_fetch_all (accountId : string) (a : MailProviderAdapter D) (c : ProviderConnection)
    (ids : list string) (counts : nat * nat * nat) :
  AdapterLaws a -> safe' (fetch_all accountId a c ids counts).
Proof.
  intros Ha. revert counts. induction ids as [|i ids IH]; intros [[cr sk] gone]; [apply safe_done|].
  simpl. apply safe_bind; [apply safe_outside; auto with outside|]. intros [r|]; [|apply IH].
  apply safe_bind; [apply safe_ingest|]. intros new. apply IH.
Qed.

Lemma safe_ingestAll (accountId : string) (a : MailProviderAdapter D) (c : ProviderConnection)
    (ids : list string) :
  AdapterLaws a -> safe' (ingestAll accountId a c ids).
Proof.
  intros Ha. unfold ingestAll. apply safe_bind; [apply safe_each_step, step_select_messages|].
  intros known. apply safe_bind; [by apply safe_fetch_all|]. intros [[cr sk] gone]. apply safe_done.
Qed.

Lemma safe_initialSync (account : MailAccount) (a : MailProviderAdapter D) (c : ProviderConnection) :
  AdapterLaws a -> safe' (initialSync account a c).
Proof.
  intros Ha. unfold initialSync. apply safe_bind; [apply safe_outside; auto with outside|].
  intros profile. apply safe_bind; [apply safe_outside; auto with outside|]. intros page.
  apply safe_bind; [by apply safe_ingestAll|]. intros counts.
  apply safe_bind; [apply safe_accounts|]. intros x. apply safe_done.
Qed.

Lemma safe_collect (fuel : nat) (a : MailProviderAdapter D) (c : ProviderConnection)
    (cursor : string) (t : option string) (ids : list string) (next : string) :
  AdapterLaws a -> safe' (collect fuel a c cursor t ids next).
Proof.
  intros Ha. revert t ids next. induction fuel as [|fuel IH]; intros t ids next; [apply safe_done|].
  simpl. apply safe_bind; [apply safe_outside; auto with outside|]. intros page.
  destruct (cp_cursorInvalid page); [apply safe_done|]. case_match; [apply IH|apply safe_done].
Qed.

Lemma safe_syncAccount (fuel : nat) (accountId : string) :
  lawful -> safe' (syncAccount fuel accountId).
Proof.
  intros Hreg. unfold syncAccount. apply safe_bind; [apply safe_accounts|].
  intros [account|]; [|apply safe_done]. case_match; [|apply safe_done]. apply safe_try.
  2:{ intros e. apply safe_bind; [apply safe_accounts|]. intros x. apply safe_done. }
  unfold sync_active. apply safe_bind; [by apply safe_getConnection|]. intros connection.
  apply safe_with_adapter; [done|]. intros a Ha. apply safe_bind.
  - destruct (ma_syncCursor account) as [cursor|]; [|by apply safe_initialSync].
    destruct (truthy cursor); [|by apply safe_initialSync]. unfold incrementalSync.
    apply safe_bind; [by apply safe_collect|]. intros [ids next| |]; [| |apply safe_done].
    + apply safe_bind; [by apply safe_ingestAll|]. intros counts.
      apply safe_bind; [apply safe_accounts|]. intros x. apply safe_done.
    + apply safe_bind; [apply safe_accounts|]. intros x. by apply safe_initialSync.
  - intros out. apply safe_bind; [apply safe_each_step, step_now|]. intros now.
    apply safe_bind; [apply safe_accounts|]. intros x. apply safe_done.
Qed.

(** Time passes and the database comes and goes between two steps. *)
Definition elapses (w w' : world D) : Prop := data w' = data w.

(** C34: however many workers synchronise however many accounts at once, and
    wherever the store or the database fails, no stored message points to an
    object that is not in the store. *)
Theorem blob_before_pointer (fuel : nat) (accountIds : list string) (w : world D) (c : config) :
  lawful -> blobs_ok w ->
  rtc (cstep elapses) (List.map (syncAccount fuel) accountIds, w) c -> blobs_ok c.2.
Proof.
  intros Hreg Hok Hreach.
  destruct (pool_rg keeps_blobs elapses (fun _ _ _ => True) (fun _ _ _ => True)
    (List.map (syncAccount fuel) accountIds, w) c) as [Hr _]; [| |done|].
  - intros s s' E. apply rtc_once. unfold elapses in E.
    apply keeps_rows; unfold messages_of; by rewrite E.
  - intros i p Hp. apply list_elem_of_lookup_2, list_elem_of_In, List.in_map_iff in Hp
      as (x & <- & _). by apply safe_syncAccount.
  - apply (rtc_stable _ blobs_ok _ _ (fun x y H => proj2 H) Hr Hok).
Qed.

(** ** Termination of the paging loop *)

(** C40: when the provider's pages come to an end (each page token it hands out is
    closer to the end than the one it was given), the loop of an incremental sync
    ends within that many pages. *)
Theorem collect_terminates (rank : option string -> nat) (a : MailProviderAdapter D)
    (c : ProviderConnection) (cursor : string) (t : option string) (ids : list string)
    (next : string) (fuel : nat) (w : world D) :
  (forall t w page w', run (listChangedMessageIds a c cursor t) w = (Ok page, w') ->
     otruthy (cp_nextPageToken page) = true -> (rank (cp_nextPageToken page) < rank t)%nat) ->
  (rank t < fuel)%nat ->
  (run (collect fuel a c cursor t ids next) w).1 <> Ok OutOfFuel.
Proof.
  intros Hrank. revert t ids next w. induction fuel as [|fuel IH]; intros t ids next w Hf; [lia|].
  simpl. rewrite run_bind. destruct (run (listChangedMessageIds a c cursor t) w) as [[page|e] w1] eqn:E;
    [|done].
  destruct (cp_cursorInvalid page); [done|].
  destruct (otruthy (cp_nextPageToken page)) eqn:Ht; [|done]. simpl.
  pose proof (Hrank t w page w1 E Ht). destruct (Nat.ltb _ _); [|done]. apply IH. lia.
Qed.

(** ** A backlog larger than one run *)

(** When the first page already fills a run, the loop stops there although the
    provider has more pages, and the cursor it returns to be saved is the one of
    that first page: what the further pages hold is never asked for again. *)
Theorem backlog_beyond_first_page (fuel : nat) (a : MailProviderAdapter D) (c : ProviderConnection)
    (cursor k t : string) (page : MessageChangePage) (w w1 : world D) :
  run (listChangedMessageIds a c cursor None) w = (Ok page, w1) ->
  cp_cursorInvalid page = false -> cp_cursor page = Some k -> truthy k = true ->
  cp_nextPageToken page = Some t -> truthy t = true ->
  (MAX_IDS_PER_RUN <= length (add_ids [] (cp_messageIds page)))%nat ->
  run (collect (S fuel) a c cursor None [] cursor) w =
    (Ok (Changes (add_ids [] (cp_messageIds page)) k), w1).
Proof.
  intros Hrun Hvalid Hk Hkt Ht Htt Hlen. simpl. rewrite run_bind, Hrun, Hvalid, Hk, Hkt, Ht.
  apply Nat.ltb_ge in Hlen. rewrite Hlen, andb_false_r. apply run_ret.
Qed.

(** ** What a run leaves behind *)

Definition has_message (accountId i : string) (w : world D) : Prop :=
  exists m, m ∈ messages_of w /\ is_message accountId i m = true.

(** Row ids come from a source that does not repeat. *)
Definition fresh_ids (w : world D) : Prop :=
  forall n m, (draws w <= n)%nat -> m ∈ messages_of w -> m_id m <> randomUUID n.

(** Rows are only added, [n] of them. *)
Definition grows (n : nat) (w w' : world D) : Prop :=
  (forall m, m ∈ messages_of w -> m ∈ messages_of w') /\
  length (messages_of w') = (length (messages_of w) + n)%nat /\
  (fresh_ids w -> fresh_ids w').

Lemma grows_data (w w' : world D) :
  messages (data w') = messages (data w) -> (draws w <= draws w')%nat -> grows 0 w w'.
Proof.
  intros E Hd. unfold grows, fresh_ids, messages_of. rewrite E. split; [done|]. split; [lia|].
  intros Hf n m Hn. apply Hf. lia.
Qed.

Lemma grows_trans (n m : nat) (w w1 w2 : world D) :
  grows n w w1 -> grows m w1 w2 -> grows (n + m) w w2.
Proof. intros (A1 & B1 & C1) (A2 & B2 & C2). split; [auto|]. split; [lia|auto]. Qed.

Lemma grows_outside {A} (p : io (world D) exn A) (w : world D) :
  outside p -> grows 0 w (run p w).2.
Proof. intros Hp. destruct (outside_same p w Hp) as (E & _ & Hd). apply grows_data; [by rewrite E|done]. Qed.

Lemma has_message_grows (accountId i : string) (n : nat) (w w' : world D) :
  grows n w w' -> has_message accountId i w -> has_message accountId i w'.
Proof. intros (Hin & _) (m & Hm & Hk). exists m. auto. Qed.

Lemma grows_put (k b : string) (w : world D) : grows 0 w (run (put k b) w).2.
Proof.
  unfold put. rewrite run_perform. cbv zeta. destruct (storage_ok _); by apply grows_data.
Qed.

Lemma grows_sent_at (parsed : Parsed) (raw : RawMessage) (w : world D) :
  grows 0 w (run (sent_at parsed raw) w).2.
Proof. unfold sent_at. repeat case_match; by apply grows_data. Qed.

(** The step that stores the text part, if there is one. *)
Lemma grows_body (o : option string) (key : string) (w : world D) :
  grows 0 w (run (match o with
                  | Some t => let! k := put key t in ret (Some k)
                  | None => ret None
                  end : M (option string)) w).2.
Proof.
  destruct o as [t|]; [|by apply grows_data]. rewrite run_bind.
  pose proof (grows_put key t w) as Hp. by destruct (run (put key t) w) as [[] ?].
Qed.

Section Complete.
Context (Hinj : forall n m, randomUUID n = randomUUID m -> n = m).

Lemma fresh_after_insert (w : world D) (m : Message) (t : TM) :
  fresh_ids w -> m_id m = randomUUID (draws w) -> rows t ≡ₚ m :: messages_of w ->
  forall n m', (S (draws w) <= n)%nat -> m' ∈ rows t -> m_id m' <> randomUUID n.
Proof.
  intros Hf Hm Ht n m' Hn. rewrite Ht. intros [->|Hin]%elem_of_cons.
  - rewrite Hm. intros E%Hinj. lia.
  - apply Hf; [lia|done].
Qed.

(** The insertion itself, its id just drawn. *)
Lemma run_insert (accountId : string) (i : string) (row : Z -> Message) (w : world D) (b : bool)
    (w' : world D) :
  fresh_ids w -> (forall now, m_id (row now) = randomUUID (draws w) /\
    is_message accountId i (row now) = true) ->
  (forall now m, message_clash (row now) m = true -> m_id m = randomUUID (draws w) \/
     is_message accountId i m = true) ->
  run (try_catch (let! _ := create_message row in ret true)
         (fun error => if bool_decide (error = P2002) then ret false else throw error))
    (mkWorld (data w) (clock w) (S (draws w)) (db_up w) (calls w)) = (Ok b, w') ->
  grows (if b then 1 else 0) w w' /\ has_message accountId i w'.
Proof.
  intros Hf Hrow Hclash. rewrite run_try, run_bind. unfold create_message. rewrite run_query_at.
  cbn [db_up data clock]. destruct (db_up w); [|done]. cbv zeta.
  destruct (exists_row (has_account_id _) _); [|done]. unfold create.
  destruct (exists_row (message_clash _) _) eqn:Hc; cbn -[run].
  - rewrite bool_decide_eq_true_2, run_ret by done. intros [= <- <-]. split; [apply grows_data; [done|simpl; lia]|].
    apply exists_row_true in Hc as (m & Hm & Hcm). destruct (Hclash _ _ Hcm) as [Hid|Hk].
    + by destruct (Hf (draws w) m).
    + by exists m.
  - rewrite run_ret. intros [= <- <-]. destruct (Hrow (clock w)) as [Hid Hk]. split; [split; [|split]|].
    + intros m Hm. apply elem_insert. by right.
    + unfold messages_of. simpl. rewrite (Permutation_length (rows_insert _ _)). simpl. lia.
    + intros _. unfold fresh_ids, messages_of. simpl.
      apply (fresh_after_insert w (row (clock w)) _ Hf Hid), rows_insert.
    + exists (row (clock w)). split; [apply elem_insert; by left|done].
Qed.

Lemma run_ingest (accountId : string) (raw : RawMessage) (b : bool) (w w' : world D) :
  fresh_ids w -> run (ingest accountId raw) w = (Ok b, w') ->
  grows (if b then 1 else 0) w w' /\ has_message accountId (r_providerMessageId raw) w'.
Proof.
  intros Hf. unfold ingest, on_messages. rewrite run_bind, run_query. destruct (db_up w); [|done].
  simpl. destruct (findFirst _ (messages (data w))) as [m|] eqn:Hfind.
  { rewrite run_ret. intros [= <- <-]. split; [by apply grows_data|].
    apply findFirst_Some in Hfind as [Hm Hk]. by exists m. }
  rewrite run_bind. destruct (simpleParser (r_raw raw)) as [parsed|]; [|done].
  cbn [of_result]. rewrite run_ret, run_bind.
  match goal with |- context [run (sent_at parsed raw) ?w0] => set (wa := w0) end.
  assert (grows 0 w wa) as Ga by (by apply grows_data).
  pose proof (grows_trans _ _ _ _ _ Ga (grows_sent_at parsed raw wa)) as Gb.
  destruct (run (sent_at parsed raw) wa) as [[sentAt|] wb]; [|done]. rewrite run_bind. simpl in Gb.
  match goal with |- context [run (put ?k ?b0) wb] =>
    pose proof (grows_trans _ _ _ _ _ Gb (grows_put k b0 wb)) as Gc;
    destruct (run (put k b0) wb) as [[k1|] wc]; [|done] end.
  rewrite run_bind. simpl in Gc.
  match goal with |- context [run (match body_text parsed with Some t => io_bind (put ?k _) _ | None => _ end) wc] =>
    pose proof (grows_trans _ _ _ _ _ Gc (grows_body (body_text parsed) k wc)) as Gd end.
  destruct (run _ wc) as [[bk|] wd]; [|done]. simpl in Gd. rewrite run_bind, run_draw. intros Hrun.
  apply run_insert with (accountId := accountId) (i := r_providerMessageId raw) in Hrun.
  - destruct Hrun as [Ge Hm]. split; [|done]. exact (grows_trans _ _ _ _ _ Gd Ge).
  - apply Gd, Hf.
  - intros now. split; [done|]. unfold is_message. simpl. by rewrite !bool_decide_eq_true_2.
  - intros now m Hcl. unfold message_clash in Hcl. apply orb_true_iff in Hcl as [Hcl|Hcl]; [|by right].
    left. by apply bool_decide_eq_true in Hcl.
Qed.

Section Provider.
Context (a : MailProviderAdapter D) (c : ProviderConnection) `{!AdapterLaws a}.

(** A message is answered under the id it was asked for. *)
Definition answers_by_id : Prop :=
  forall i r w w', run (fetchRawMessage a c i) w = (Ok (Some r), w') -> r_providerMessageId r = i.

(** The messages of which the provider says, in a run of [fetch_all], that it no longer
    has them. *)
Fixpoint gone_among (accountId : string) (ids : list string) (w : world D) : list string :=
  match ids with
  | [] => []
  | i :: ids' =>
      match run (fetchRawMessage a c i) w with
      | (Ok (Some r), w1) => gone_among accountId ids' (run (ingest accountId r) w1).2
      | (Ok None, w1) => i :: gone_among accountId ids' w1
      | (Err _, _) => []
      end
  end.

(** The same of a run of [ingestAll]. *)
Definition reported_gone (accountId : string) (ids : list string) (w : world D) : list string :=
  let known := known_ids accountId ids (messages (data w)) in
  gone_among accountId (List.filter (fun i => negb (bool_decide (i ∈ known))) ids) w.

Lemma run_fetch_all (accountId : string) (ids : list string) (cr sk gone cr' sk' gone' : nat)
    (w w' : world D) :
  answers_by_id -> fresh_ids w ->
  run (fetch_all accountId a c ids (cr, sk, gone)) w = (Ok (cr', sk', gone'), w') ->
  exists n, cr' = (cr + n)%nat /\ grows n w w' /\
    (cr' + sk' + gone' = cr + sk + gone + length ids)%nat /\
    gone' = (gone + length (gone_among accountId ids w))%nat /\
    forall i, i ∈ ids -> has_message accountId i w' \/ i ∈ gone_among accountId ids w.
Proof.
  intros Hans. revert cr sk gone w. induction ids as [|i ids IH]; intros cr sk gone w Hf; simpl.
  - rewrite run_ret. intros [= <- <- <- <-]. exists 0%nat. rewrite !Nat.add_0_r.
    split; [done|]. split; [by apply grows_data|]. split; [done|]. split; [done|]. intros i Hi. by inversion Hi.
  - rewrite run_bind.
    pose proof (grows_outside (fetchRawMessage a c i) w (outside_fetchRawMessage c i)) as G0.
    destruct (run (fetchRawMessage a c i) w) as [[[r|]|e] w1] eqn:E; [| |done]; simpl in G0.
    + rewrite run_bind. destruct (run (ingest accountId r) w1) as [[b|] w2] eqn:Ei; [|done]. cbn [snd].
      apply run_ingest in Ei as [G1 Hm]; [|by apply G0]. rewrite (Hans i r w w1 E) in Hm.
      intros Hrun. assert (grows (if b then 1 else 0) w w2) as G2 by exact (grows_trans _ _ _ _ _ G0 G1).
      destruct b; apply IH in Hrun as (n & -> & G3 & Hsum & Hg & Hall); try (by apply G2).
      * exists (S n). split; [lia|]. split; [exact (grows_trans 1 n _ _ _ G2 G3)|]. split; [lia|]. split; [done|].
        intros j [->|Hj]%elem_of_cons; [left; by eapply has_message_grows|by apply Hall].
      * exists n. split; [done|]. split; [exact (grows_trans 0 n _ _ _ G2 G3)|]. split; [lia|]. split; [done|].
        intros j [->|Hj]%elem_of_cons; [left; by eapply has_message_grows|by apply Hall].
    + intros Hrun. apply IH in Hrun as (n & -> & G3 & Hsum & Hg & Hall); [|by apply G0].
      exists n. split; [done|]. split; [exact (grows_trans 0 n _ _ _ G0 G3)|]. split; [lia|]. split; [simpl; lia|].
      intros j [->|Hj]%elem_of_cons; [right; by left|]. destruct (Hall j Hj); [by left|by right; right].
Qed.

Lemma known_has_message (accountId i : string) (ids : list string) (w : world D) :
  i ∈ known_ids accountId ids (messages (data w)) -> has_message accountId i w.
Proof.
  unfold known_ids. rewrite elem_of_remove_dups, list_elem_of_In, List.in_map_iff.
  intros (m & <- & Hm%list_elem_of_In). apply elem_select in Hm as [Hm Hp].
  apply andb_true_iff in Hp as [Ha _]. exists m. split; [done|].
  unfold is_message. by rewrite Ha, bool_decide_eq_true_2.
Qed.

Lemma run_ingestAll (accountId : string) (ids : list string) (f cr sk gone : nat) (w w' : world D) :
  answers_by_id -> fresh_ids w ->
  run (ingestAll accountId a c ids) w = (Ok (f, cr, sk, gone), w') ->
  grows cr w w' /\ (cr + sk + gone = length (known_ids accountId ids (messages (data w))) + f)%nat /\
  gone = length (reported_gone accountId ids w) /\
  forall i, i ∈ ids -> has_message accountId i w' \/ i ∈ reported_gone accountId ids w.
Proof.
  intros Hans Hf. unfold ingestAll, on_messages. rewrite run_bind, run_query.
  destruct (db_up w); [|done]. simpl. rewrite run_bind.
  replace (with_data _ w) with w by (by destruct w as [[] ? ? ? ?]).
  destruct (run (fetch_all _ _ _ _ _) w) as [[[[cr1 sk1] gone1]|] wb] eqn:E; [|done].
  rewrite run_ret. intros [= <- <- <- <- <-].
  apply run_fetch_all in E as (n & Hn & G & Hsum & Hg & Hall); [|done|exact Hf]. simpl in Hn, Hg. subst cr1.
  split; [exact G|]. split; [simpl in Hsum; lia|]. split; [done|].
  intros i Hi. destruct (decide (i ∈ known_ids accountId ids (messages (data w)))) as [Hk|Hk].
  - left. eapply has_message_grows; [exact G|]. by apply known_has_message in Hk.
  - apply Hall. apply elem_of_filter'. split; [done|]. by rewrite bool_decide_eq_false_2.
Qed.

(** C35: a run that ends well leaves every id it was given stored, except those of which
    the provider said during this run that it no longer has them, and these are as many as
    the run counts as gone; it added exactly the rows it counts as created, lost
    none, and its counts add up to what was known plus what it fetched. *)
Theorem ingestAll_complete (accountId : string) (ids : list string) (f cr sk gone : nat)
    (w w' : world D) :
  answers_by_id -> fresh_ids w ->
  run (ingestAll accountId a c ids) w = (Ok (f, cr, sk, gone), w') ->
  (forall i, i ∈ ids -> has_message accountId i w' \/ i ∈ reported_gone accountId ids w) /\
  gone = length (reported_gone accountId ids w) /\
  (forall m, m ∈ messages_of w -> m ∈ messages_of w') /\
  length (messages_of w') = (length (messages_of w) + cr)%nat /\
  (cr + sk + gone = length (known_ids accountId ids (messages (data w))) + f)%nat.
Proof.
  intros Hans Hf Hrun. apply run_ingestAll in Hrun as ((Hin & Hlen & _) & Hsum & Hg & Hall); [|done|done].
  by repeat split.
Qed.
End Provider.
End Complete.
End Sync.

(** ** A concrete mailbox *)

Module Mailbox.
Definition simpleParser (raw : string) : result exn Parsed :=
  Ok (mkParsed (Some 86400000) (Some " hello ") (Some "subject") [(Some "Bob@Example.com", "Bob")] [] 0).

Definition storage_ok (n : nat) : bool := true.

(** Two hundred ids and another page behind them. *)
Definition many : list string :=
  List.map (fun n => "m" +:+ string_of_Z (Z.of_nat n)) (seq 0 200).

Definition page : MessageChangePage := mkChangePage many (Some "201") (Some "999") false.

(** A provider with messages [m1] and [m2]; [m3] is gone. *)
Definition provider : MailProviderAdapter Vault.db :=
  mkAdapter ["read"] (fun s => s) (fun _ _ => throw (Error "unused")) (fun _ _ => throw (Error "unused"))
    (fun _ => ask "profile" [] (fun _ => Ok (mkProfile "alice@gmail.com" "77")))
    (fun _ _ _ => ask "list" [] (fun _ => Ok (mkListPage ["m1"; "m2"; "m3"] None)))
    (fun _ _ t => ask "history" []
       (fun _ => Ok (match t with
                     | None => page
                     | Some _ => mkChangePage ["old"] None None false
                     end)))
    (fun _ i => ask "fetch" [i]
       (fun _ => Ok (if bool_decide (i = "m3") then None
                     else Some (mkRawMessage i None [] None None None "From: bob")))).

#[export] Instance provider_laws : AdapterLaws provider.
Proof. split; intros; simpl; auto with outside. Qed.

Definition reg : registry Vault.db := mkRegistry [(GMAIL, provider)].

(** An account whose access token is still good. *)
Definition box : MailAccount :=
  mkMailAccount "a1" "u1" GMAIL "g1" "alice@gmail.com" ACTIVE (seal "nonce" "token" access) 9000000
    None ["read"] None None None None 0 0.

Definition w0 : world Vault.db := mkWorld (mkMailDb [box] [] ∅) 1000 0 true [].

Definition connection : ProviderConnection := mkConnection "token" "g1" [].

Lemma lawful_reg : lawful reg.
Proof.
  intros p a Ha. destruct p; [|discriminate]. injection Ha as <-. apply provider_laws.
Qed.

Lemma uuid_inj (n m : nat) : "u" +:+ String.concat "" (replicate n "x") = "u" +:+ String.concat "" (replicate m "x") -> n = m.
Proof.
  intros E%append_inj_l. revert m E. induction n as [|n IH]; intros [|m] E; [done| | |].
  - by destruct m.
  - by destruct n.
  - f_equal. apply IH. destruct n, m; try done; by injection E.
Qed.

Definition uuid (n : nat) : string := "u" +:+ String.concat "" (replicate n "x").
End Mailbox.

#[export] Existing Instance Mailbox.provider_laws.

Lemma blob_before_pointer_witness :
  blobs_ok (schedule (replicate 8 0 ++ replicate 14 1)%nat
    (List.map (syncAccount Mailbox.uuid Mailbox.simpleParser Mailbox.storage_ok Mailbox.reg 3)
       ["a1"; "a1"], Mailbox.w0)).2.
Proof.
  apply (blob_before_pointer Mailbox.uuid Mailbox.simpleParser Mailbox.storage_ok Mailbox.reg 3
    ["a1"; "a1"] Mailbox.w0).
  - exact Mailbox.lawful_reg.
  - intros m Hm. inversion Hm.
  - apply schedule_reachable.
Defined.

Lemma collect_terminates_witness :
  (run (collect 3 Mailbox.provider Mailbox.connection "77" None [] "77") Mailbox.w0).1 <> Ok OutOfFuel.
Proof.
  apply (collect_terminates (fun t => match t with None => 1%nat | Some _ => 0%nat end)
    Mailbox.provider Mailbox.connection "77" None [] "77" 3 Mailbox.w0).
  - intros [t|] w page w' E; injection E as <- _; [discriminate|]. intros _. simpl. lia.
  - lia.
Defined.

Lemma backlog_beyond_first_page_witness :
  exists w1, run (collect 5 Mailbox.provider Mailbox.connection "77" None [] "77") Mailbox.w0 =
    (Ok (Changes (add_ids [] Mailbox.many) "999"), w1).
Proof.
  eexists. apply (backlog_beyond_first_page 4 Mailbox.provider Mailbox.connection "77" "999" "201"
    Mailbox.page Mailbox.w0); try reflexivity.
Defined.

Lemma ingestAll_complete_witness :
  exists w', (run (ingestAll Mailbox.uuid Mailbox.simpleParser Mailbox.storage_ok "a1"
      Mailbox.provider Mailbox.connection ["m1"; "m2"; "m3"]) Mailbox.w0) =
    (Ok (3, 2, 0, 1)%nat, w') /\ length (messages_of w') = 2%nat.
Proof.
  eexists. split; [vm_compute; reflexivity|].
  refine (proj1 (proj2 (proj2 (proj2 (ingestAll_complete Mailbox.uuid Mailbox.simpleParser Mailbox.storage_ok
    Mailbox.uuid_inj Mailbox.provider Mailbox.connection "a1" ["m1"; "m2"; "m3"] 3 2 0 1
    Mailbox.w0 _ _ _ _))))).
  - intros i r w w' E. injection E as E _. case_bool_decide; [discriminate|]. by injection E as <-.
  - intros n m _ Hm. inversion Hm.
  - vm_compute. reflexivity.
Defined.
