(* ===== verification/Messages.v ===== *)
(** * Reading stored messages

    [services/email-ingestion]: [messages/messages.service.ts] and
    [messages/messages.controller.ts]. *)

From S2P Require Import Prelude Js Concurrency World Url Dates Mail Accounts MailSync.

Local Open Scope Z_scope.

Set Default Proof Using "Type*".

Record MessageSummary := mkMessageSummary {
  ms_id : string;
  ms_subject : option string;
  ms_fromAddress : option string;
  ms_fromName : option string;
  ms_sentAt : string;
  ms_snippet : option string;
  ms_hasAttachments : bool;
  ms_labels : list string;
  ms_sizeBytes : option Z;
}.

Record MessageDetail := mkMessageDetail {
  md_summary : MessageSummary;
  md_providerThreadId : option string;
  md_toAddresses : list string;
  md_bodyText : option string;
  md_bodyTruncated : bool;
}.

Record MessagePage := mkMessagePage {
  mp_messages : list MessageSummary;
  mp_nextCursor : option string;
}.

Definition MAX_BODY_BYTES : nat := 256 * 1024.

#[global] Opaque MAX_BODY_BYTES.

Definition message_summary (m : Message) : MessageSummary :=
  mkMessageSummary (m_id m) (m_subject m) (m_fromAddress m) (m_fromName m)
    (toISOString (m_sentAt m)) (m_snippet m) (m_hasAttachments m) (m_labels m) (m_sizeBytes m).

(** ** The order of a listing: newest first, the id breaks ties. *)

Definition newer (a b : Message) : Prop :=
  m_sentAt b < m_sentAt a \/ (m_sentAt a = m_sentAt b /\ String.le (m_id b) (m_id a)).

#[export] Instance newer_total : Total newer.
Proof.
  intros a b. unfold newer. destruct (Z.lt_total (m_sentAt a) (m_sentAt b)) as [|[E|]]; auto.
  destruct (total String.le (m_id a) (m_id b)); auto.
Qed.

#[export] Instance newer_trans : Transitive newer.
Proof.
  intros a b c. unfold newer. intros [Hab|[Eab Lab]] [Hbc|[Ebc Lbc]]; [left; lia|left; lia|left; lia|].
  right. split; [lia|]. by transitivity (m_id b).
Qed.

Lemma newer_refl (a : Message) : newer a a.
Proof. by right. Qed.

Lemma newer_antisymm (a b : Message) : newer a b -> newer b a -> m_id a = m_id b.
Proof.
  unfold newer. intros [Hab|[Eab Lab]] [Hbc|[Ebc Lbc]]; [lia..|].
  by apply (anti_symm String.le).
Qed.

#[export] Instance newer_dec : RelDecision newer.
Proof.
  intros a b. apply or_dec; [apply Z_lt_dec|]. apply and_dec; [apply Z.eq_dec|apply String.le_dec].
Defined.

Section Reading.
Context {TA TM : Type} `{Table MailAccount TA} `{Table Message TM}.
Context (storage_ok : nat -> bool).

Abbreviation D := (mail_db TA TM).
Abbreviation M := (io (world D) exn).

(** [findMany({ where, orderBy, take, cursor, skip: 1 })] as Prisma documents it:
    a cursor names a row of the table, and the page starts after its place in
    the order; a cursor that names none gives an empty page. *)
Definition findMany (where_ : Message -> bool) (cursor : option string) (take_ : nat) (t : TM) :
  list Message :=
  let sorted := merge_sort newer (t_select where_ t) in
  match cursor with
  | None => take take_ sorted
  | Some c =>
      match findFirst (fun m => bool_decide (m_id m = c)) t with
      | None => []
      | Some start => take take_ (drop 1 (List.filter (fun m => bool_decide (newer start m)) sorted))
      end
  end.

Definition of_account (accountId : string) (m : Message) : bool :=
  bool_decide (m_accountId m = accountId).

Definition last_id (page : list Message) : option string := m_id <$> last page.

Definition listForAccount (userId accountId : string) (cursor : option string) (limit : nat) :
  M MessagePage :=
  let! account := owned_account userId accountId in
  match account with
  | None => throw (NotFoundException "Account not found")
  | Some _ =>
      let! rows := on_messages (fun t =>
        (Ok (findMany (of_account accountId)
               (if otruthy cursor then cursor else None) (limit + 1) t), t)) in
      let page := take limit rows in
      ret (mkMessagePage (List.map message_summary page)
             (if Nat.ltb limit (length rows) then last_id page else None))
  end.

(** [where: { id, accountId, account: { userId } }], one statement over both tables. *)
Definition owned_message (userId accountId messageId : string) : M (option Message) :=
  query (fun d =>
    (Ok (findFirst (fun m => bool_decide (m_id m = messageId)
           && bool_decide (m_accountId m = accountId)
           && exists_row (fun a => bool_decide (ma_id a = accountId)
                                   && bool_decide (ma_userId a = userId)) (mailAccount d))
           (messages d)), d)).

Definition getForAccount (userId accountId messageId : string) : M MessageDetail :=
  let! found := owned_message userId accountId messageId in
  match found with
  | None => throw (NotFoundException "Message not found")
  | Some m =>
      let! body :=
        match m_bodyTextKey m with
        | Some k =>
            if truthy k then
              try_catch (let! b := get_object storage_ok k in
                         ret (Some (stake MAX_BODY_BYTES b),
                              Nat.ltb MAX_BODY_BYTES (String.length b)))
                (fun _ => ret (None, false))
            else ret (None, false)
        | None => ret (None, false)
        end in
      ret (mkMessageDetail (message_summary m) (m_providerThreadId m) (m_toAddresses m) body.1 body.2)
  end.

Definition rawObjectKeyFor (userId accountId messageId : string) : M string :=
  let! found := owned_message userId accountId messageId in
  match found with
  | None => throw (NotFoundException "Message not found")
  | Some m => ret (m_rawObjectKey m)
  end.

(** *** MessagesController *)

(** [Math.min(Math.max(Number(limit) || 25, 1), 100)] of an integer; [None] is
    [NaN], as for a missing limit. *)
Definition clamp_limit (limit : option Z) : nat :=
  Z.to_nat (Z.min (Z.max (match limit with
                          | Some n => if n =? 0 then 25 else n
                          | None => 25
                          end) 1) 100).

Definition list_route (userId accountId : string) (cursor : option string) (limit : option Z) :
  M MessagePage := listForAccount userId accountId cursor (clamp_limit limit).

(** The headers of a raw download. *)
Definition raw_head (messageId : string) (contentLength : option Z) : list (string * string) :=
  [("content-type", "message/rfc822");
   ("content-disposition",
    "attachment; filename=" +:+ dquote +:+ "message-" +:+ messageId +:+ ".eml" +:+ dquote)]
  ++ match contentLength with
     | Some n => if bool_decide (n = 0%Z) then [] else [("content-length", string_of_Z n)]
     | None => []
     end.

(** The answer of the raw download: its headers and its body. *)
Definition raw_route (userId accountId messageId : string) : M (list (string * string) * string) :=
  let! key := rawObjectKeyFor userId accountId messageId in
  try_catch
    (let! object := getStream storage_ok key in
     ret (raw_head messageId (ob_contentLength object), ob_body object))
    (fun error =>
       if bool_decide (error = Error "NoSuchKey")
       then throw (NotFoundException "Original message is no longer stored")
       else throw (ServiceUnavailableException "Message storage is unavailable")).

(** Following the cursors from a page on. *)
Fixpoint all_pages (fuel : nat) (userId accountId : string) (cursor : option string) (limit : nat) :
  M (list MessageSummary) :=
  match fuel with
  | O => throw (Error "out of fuel")
  | S fuel' =>
      let! page := listForAccount userId accountId cursor limit in
      match mp_nextCursor page with
      | None => ret (mp_messages page)
      | Some c =>
          let! rest := all_pages fuel' userId accountId (Some c) limit in
          ret (mp_messages page ++ rest)
      end
  end.

Context `{!TableLaws MailAccount TA} `{!TableLaws Message TM}.

(** ** A page *)

(** What is listed after [start]. *)
Definition after (start : option Message) (m : Message) : Prop :=
  match start with
  | None => True
  | Some s => newer s m /\ ~ newer m s
  end.

(** [l] is the messages of the account after [start], newest first. *)
Definition listing (accountId : string) (start : option Message) (t : TM) (l : list Message) : Prop :=
  StronglySorted newer l /\ NoDup (List.map m_id l) /\
  forall m, m ∈ l <-> m ∈ rows t /\ m_accountId m = accountId /\ after start m.

Lemma StronglySorted_filter' (p : Message -> bool) (l : list Message) :
  StronglySorted newer l -> StronglySorted newer (List.filter p l).
Proof.
  induction 1 as [|x l Hl IH Hx]; simpl; [constructor|]. destruct (p x); [|done].
  constructor; [done|]. rewrite Forall_forall in *. intros y [Hy _]%elem_of_filter'. by apply Hx.
Qed.

Lemma NoDup_filter_ids (p : Message -> bool) (l : list Message) :
  NoDup (List.map m_id l) -> NoDup (List.map m_id (List.filter p l)).
Proof.
  induction l as [|x l IH]; simpl; [done|]. rewrite NoDup_cons. intros [Hx Hl].
  destruct (p x); simpl; [|by apply IH]. rewrite NoDup_cons. split; [|by apply IH].
  rewrite list_elem_of_In, List.in_map_iff in *. intros (y & E & Hy%List.filter_In).
  apply Hx. exists y. by destruct Hy.
Qed.

Lemma listing_sorted (accountId : string) (t : TM) :
  NoDup (List.map m_id (rows t)) ->
  listing accountId None t (merge_sort newer (t_select (of_account accountId) t)).
Proof. clear storage_ok.
  intros Hnd. assert (merge_sort newer (t_select (of_account accountId) t)
    ≡ₚ List.filter (of_account accountId) (rows t)) as Hp
    by (by rewrite merge_sort_Permutation, select_filter).
  split; [apply Sorted_StronglySorted, Sorted_merge_sort; exact _|]. split.
  - rewrite Hp. by apply NoDup_filter_ids.
  - intros m. rewrite Hp, elem_of_filter'. unfold of_account. rewrite bool_decide_eq_true. naive_solver.
Qed.

(** The row a cursor names heads what it selects, and is skipped. *)
Lemma drop_cursor (start : Message) (l : list Message) :
  StronglySorted newer l -> NoDup (List.map m_id l) -> start ∈ l ->
  let older := drop 1 (List.filter (fun m => bool_decide (newer start m)) l) in
  StronglySorted newer older /\ NoDup (List.map m_id older) /\
  forall m, m ∈ older <-> m ∈ l /\ after (Some start) m.
Proof. clear storage_ok.
  intros Hs Hnd Hin. set (p := fun m => bool_decide (newer start m)).
  pose proof (StronglySorted_filter' p l Hs) as Hfs. pose proof (NoDup_filter_ids p l Hnd) as Hfn.
  assert (start ∈ List.filter p l) as Hst.
  { apply elem_of_filter'. split; [done|]. apply bool_decide_eq_true, newer_refl. }
  assert (forall m, m ∈ List.filter p l <-> m ∈ l /\ newer start m) as Hmem.
  { intros m. rewrite elem_of_filter'. unfold p. by rewrite bool_decide_eq_true. }
  destruct (List.filter p l) as [|x l'] eqn:E; [by inversion Hst|]. simpl.
  apply StronglySorted_inv in Hfs as [Hfs Hx]. simpl in Hfn. apply NoDup_cons in Hfn as [Hxn Hfn].
  assert (m_id x = m_id start) as Hid.
  { apply elem_of_cons in Hst as [->|Hst]; [done|]. apply newer_antisymm.
    - by apply (proj1 (Forall_forall _ _) Hx).
    - apply Hmem. by left. }
  split; [done|]. split; [done|]. intros m. split.
  - intros Hm. destruct (proj1 (Hmem m)) as [Hl Hn]; [by right|]. split; [done|]. split; [done|].
    intros Hn'. pose proof (newer_antisymm _ _ Hn Hn') as Em.
    apply Hxn. rewrite list_elem_of_In, List.in_map_iff. exists m.
    by rewrite <- list_elem_of_In, <- Em.
  - intros (Hl & Hn & Hne). assert (m ∈ x :: l') as Hm by (by apply Hmem).
    apply elem_of_cons in Hm as [->|Hm]; [|done]. destruct Hne.
    apply elem_of_cons in Hst as [->|Hst]; [apply newer_refl|].
    by apply (proj1 (Forall_forall _ _) Hx).
Qed.

Lemma findMany_page (accountId : string) (start : option Message) (n : nat) (t : TM) :
  NoDup (List.map m_id (rows t)) ->
  (forall s, start = Some s -> s ∈ rows t /\ m_accountId s = accountId) ->
  exists l, findMany (of_account accountId) (m_id <$> start) n t = take n l /\
    listing accountId start t l.
Proof. clear storage_ok.
  intros Hnd Hstart. pose proof (listing_sorted accountId t Hnd) as (Hs & Hn & Hm).
  unfold findMany. destruct start as [s|]; simpl; [|by eexists].
  destruct (Hstart s eq_refl) as [Hin Hacc]. rewrite (findFirst_key m_id t s Hnd Hin).
  destruct (drop_cursor s _ Hs Hn) as (Hs' & Hn' & Hm'); [by apply Hm|].
  eexists. split; [done|]. split; [done|]. split; [done|]. intros m. rewrite Hm', Hm. simpl. naive_solver.
Qed.

(** ** All pages *)

(** A mailbox of at most [N] messages, whose account belongs to the user. *)
Record mailbox_ok (N : nat) (userId accountId : string) (w : world D) : Prop := {
  mb_up : db_up w = true;
  mb_owned : exists_row (fun a => bool_decide (ma_id a = accountId)
                                  && bool_decide (ma_userId a = userId)) (mailAccount (data w)) = true;
  mb_ids : NoDup (List.map m_id (messages_of w));
  mb_truthy : forall m, m ∈ messages_of w -> truthy (m_id m) = true;
  mb_size : (length (messages_of w) <= N)%nat;
}.

(** What may happen between two requests: messages arrive, of any date. *)
Definition arrives (N : nat) (userId accountId : string) (w w' : world D) : Prop :=
  mailbox_ok N userId accountId w' /\ forall m, m ∈ messages_of w -> m ∈ messages_of w'.

Section Pages.
Context (N : nat) (userId accountId : string) (limit : nat) (Hlimit : (1 <= limit)%nat).

Abbreviation ok := (mailbox_ok N userId accountId).
Abbreviation R := (arrives N userId accountId).

Definition keeps (w w' : world D) : Prop := forall m, m ∈ messages_of w -> m ∈ messages_of w'.

Lemma arrives_rtc (w w' : world D) : ok w -> rtc R w w' -> ok w' /\ keeps w w'.
Proof.
  intros Hok Hs. induction Hs as [w|w w1 w' [Hok' Hk] _ IH]; [split; [done|by intros m]|].
  destruct (IH Hok') as [Hok2 Hk2]. split; [done|]. intros m Hm. by apply Hk2, Hk.
Qed.

Lemma same_id (w : world D) (x y : Message) :
  ok w -> x ∈ messages_of w -> y ∈ messages_of w -> m_id x = m_id y -> x = y.
Proof.
  intros Hok Hx Hy E. pose proof (findFirst_key m_id (messages (data w)) x (mb_ids _ _ _ _ Hok) Hx) as Fx.
  pose proof (findFirst_key m_id (messages (data w)) y (mb_ids _ _ _ _ Hok) Hy) as Fy.
  rewrite E in Fx. congruence.
Qed.

(** What a page holds, from the rows [w1] it was read from. *)
Definition page_of (start : option Message) (w w' : world D) (page : MessagePage) : Prop :=
  exists w1 l, keeps w w1 /\ keeps w1 w' /\ ok w1 /\ ok w' /\
    listing accountId start (messages (data w1)) l /\
    page = mkMessagePage (List.map message_summary (take limit l))
             (if Nat.ltb limit (length l) then last_id (take limit l) else None).

(** A statement that only reads. *)
Lemma read_same (w : world D) :
  with_data (mkMailDb (mailAccount (data w)) (messages (data w)) (objects (data w))) w = w.
Proof. by destruct w as [[]]. Qed.

Lemma wp_listForAccount (start : option Message) (w : world D) :
  ok w -> (forall s, start = Some s -> s ∈ messages_of w /\ m_accountId s = accountId) ->
  wp R (listForAccount userId accountId (m_id <$> start) limit)
    (fun r w' => exists page, r = Ok page /\ page_of start w w' page) w.
Proof.
  intros Hok Hstart. unfold listForAccount, owned_account, find_account, on_accounts, query.
  apply rg_bind, wp_perform. intros w1 Hw1. destruct (arrives_rtc w w1 Hok Hw1) as [Hok1 Hk1].
  rewrite (mb_up _ _ _ _ Hok1). pose proof (mb_owned _ _ _ _ Hok1) as Ho. unfold exists_row in Ho.
  destruct (findFirst _ (mailAccount (data w1))) as [acc|]; [|done]. simpl.
  rewrite read_same. split; [done|]. intros w2 Hw2.
  destruct (arrives_rtc w1 w2 Hok1 Hw2) as [Hok2 Hk2].
  apply rg_bind. unfold on_messages, query. apply wp_perform. intros w3 Hw3.
  destruct (arrives_rtc w2 w3 Hok2 Hw3) as [Hok3 Hk3]. rewrite (mb_up _ _ _ _ Hok3). simpl.
  rewrite read_same. split; [done|]. intros w4 Hw4.
  destruct (arrives_rtc w3 w4 Hok3 Hw4) as [Hok4 Hk4].
  assert (keeps w w3) as Hk by (intros m Hm; by apply Hk3, Hk2, Hk1).
  assert ((if otruthy (m_id <$> start) then m_id <$> start else None) = m_id <$> start) as ->.
  { destruct start as [s|]; [|done]. destruct (Hstart s eq_refl) as [Hs _].
    simpl. by rewrite (mb_truthy _ _ _ _ Hok3 s (Hk s Hs)). }
  destruct (findMany_page accountId start (limit + 1) (messages (data w3))) as (l & -> & Hl);
    [apply Hok3|intros s Es; destruct (Hstart s Es); split; [by apply Hk|done]|].
  apply rg_ret. intros w5 Hw5. destruct (arrives_rtc w4 w5 Hok4 Hw5) as [Hok5 Hk5].
  eexists. split; [done|]. exists w3, l. split; [done|]. split; [intros m Hm; by apply Hk5, Hk4|].
  split; [done|]. split; [done|]. split; [done|].
  rewrite take_take, Nat.min_l, length_take by lia. f_equal.
  destruct (Nat.ltb_spec limit (length l)), (Nat.ltb_spec limit ((limit + 1) `min` length l)); done || lia.
Qed.

Definition all_of (start : option Message) (w w' : world D) (ms : list Message) : Prop :=
  StronglySorted newer ms /\ NoDup (List.map m_id ms) /\
  (forall m, m ∈ ms -> m ∈ messages_of w' /\ m_accountId m = accountId /\ after start m) /\
  (forall m, m ∈ messages_of w -> m_accountId m = accountId -> after start m -> m ∈ ms).

Lemma after_trans (start : option Message) (s m : Message) :
  after start s -> after (Some s) m -> after start m.
Proof.
  destruct start as [s0|]; [|done]. intros [Ha Hb] [Hc Hd].
  split; [by transitivity s|]. intros He. apply Hb. by transitivity m.
Qed.

(** The last message of a page: everything on the page is at or before it,
    everything beyond is after it. *)
Lemma page_split (l page rest : list Message) (s : Message) :
  l = page ++ rest -> last page = Some s -> StronglySorted newer l -> NoDup (List.map m_id l) ->
  (forall x, x ∈ page -> newer x s) /\ (forall y, y ∈ rest -> after (Some s) y).
Proof.
  intros -> Hlast Hs Hnd. apply last_Some in Hlast as [p ->].
  rewrite StronglySorted_app in Hs. destruct Hs as (Hc & Hp & _).
  split.
  - intros x [Hx | ->%list_elem_of_singleton]%elem_of_app; [|apply newer_refl].
    rewrite StronglySorted_app in Hp. destruct Hp as (Hc' & _). apply Hc'; [done|by left].
  - intros y Hy. assert (newer s y) as Hsy by (apply Hc; [apply elem_of_app; right; by left|done]).
    split; [done|]. intros Hys. pose proof (newer_antisymm _ _ Hsy Hys) as E.
    rewrite List.map_app in Hnd. apply NoDup_app in Hnd as (_ & Hd & _).
    apply (Hd (m_id s)).
    + rewrite List.map_app. apply elem_of_app. right. by left.
    + rewrite E, list_elem_of_In. apply List.in_map. by rewrite <- list_elem_of_In.
Qed.

(** Distinct rows of the mailbox are at most [N]. *)
Lemma seen_bound (w : world D) (seen : list Message) :
  ok w -> NoDup (List.map m_id seen) -> (forall m, m ∈ seen -> m ∈ messages_of w) ->
  (length seen <= N)%nat.
Proof.
  intros Hok Hnd Hin. etransitivity; [|exact (mb_size _ _ _ _ Hok)].
  apply submseteq_length, NoDup_submseteq; [|done]. apply NoDup_ListNoDup, (List.NoDup_map_inv m_id).
  by apply NoDup_ListNoDup.
Qed.

(** Ids of two lists of rows that share none. *)
Lemma NoDup_ids_app (w : world D) (l l' : list Message) :
  ok w -> NoDup (List.map m_id l) -> NoDup (List.map m_id l') ->
  (forall m, m ∈ l -> m ∈ messages_of w) -> (forall m, m ∈ l' -> m ∈ messages_of w) ->
  (forall m, m ∈ l -> m ∈ l' -> False) -> NoDup (List.map m_id (l ++ l')).
Proof.
  intros Hok Hl Hl' Hin Hin' Hd. rewrite List.map_app. apply NoDup_app. split; [done|]. split; [|done].
  intros i Hx Hy. rewrite list_elem_of_In, List.in_map_iff in Hx, Hy.
  destruct Hx as (x & <- & Hx%list_elem_of_In), Hy as (y & E & Hy%list_elem_of_In).
  apply (Hd x Hx). rewrite (same_id w x y); auto.
Qed.

(** The page [page] after [start], and then all that comes after its last row. *)
Lemma all_of_page (start : option Message) (w w1 w2 w' : world D) (l page rest ms : list Message)
    (s : Message) :
  ok w' -> keeps w w1 -> keeps w1 w2 -> keeps w2 w' -> listing accountId start (messages (data w1)) l ->
  l = page ++ rest -> last page = Some s -> all_of (Some s) w2 w' ms ->
  all_of start w w' (page ++ ms).
Proof.
  intros Hok Hk Hk1 Hk' (Hs & Hnd & Hm) El Hlast (Hs' & Hnd' & Hin' & Hall').
  destruct (page_split l page rest s El Hlast Hs Hnd) as [Hp Hr]. subst l.
  assert (s ∈ page) as Hsp by (apply last_Some in Hlast as [p ->]; apply elem_of_app; right; by left).
  assert (forall x, x ∈ page -> x ∈ messages_of w1 /\ m_accountId x = accountId /\ after start x) as Hpg
    by (intros x Hx; apply Hm, elem_of_app; by left).
  rewrite StronglySorted_app in Hs. rewrite List.map_app in Hnd. apply NoDup_app in Hnd as (Hnd & _ & _).
  split; [|split; [|split]].
  - apply StronglySorted_app. split; [|by destruct Hs as (_ & ? & _)].
    intros x y Hx Hy. destruct (Hin' y Hy) as (_ & _ & Ha & _). transitivity s; [by apply Hp|done].
  - apply (NoDup_ids_app w'); [done..| | |].
    + intros m Hx. by apply Hk', Hk1, Hpg.
    + intros m Hx. by apply Hin'.
    + intros m Hx Hy. destruct (Hin' m Hy) as (_ & _ & _ & Hn). by apply Hn, Hp.
  - intros m [Hx|Hy]%elem_of_app.
    + destruct (Hpg m Hx) as (Hw & Ha & Haf). split; [by apply Hk', Hk1|done].
    + destruct (Hin' m Hy) as (Hw & Ha & Haf). split; [done|]. split; [done|].
      eapply after_trans; [|done]. by apply Hpg.
  - intros m Hw Ha Haf. apply elem_of_app.
    assert (m ∈ page ++ rest) as [Hx|Hy]%elem_of_app by (apply Hm; split; [by apply Hk|done]); [by left|].
    right. apply Hall'; [by apply Hk1, Hk|done|by apply Hr].
Qed.

Lemma all_of_keeps (start : option Message) (w w1 w2 : world D) (ms : list Message) :
  keeps w1 w2 -> all_of start w w1 ms -> all_of start w w2 ms.
Proof.
  intros Hk (Hs & Hnd & Hin & Hall). split; [done|]. split; [done|]. split; [|done].
  intros m Hm. destruct (Hin m Hm) as [Hw H']. split; [by apply Hk|done].
Qed.

Lemma wp_all_pages (fuel : nat) (start : option Message) (seen : list Message) (w : world D) :
  ok w -> (forall s, start = Some s -> s ∈ messages_of w /\ m_accountId s = accountId) ->
  NoDup (List.map m_id seen) -> (forall m, m ∈ seen -> m ∈ messages_of w /\ ~ after start m) ->
  (N < length seen + fuel)%nat ->
  wp R (all_pages fuel userId accountId (m_id <$> start) limit)
    (fun r w' => ok w' /\ keeps w w' /\ exists ms, r = Ok (List.map message_summary ms) /\ all_of start w w' ms) w.
Proof.
  revert start seen w. induction fuel as [|fuel IH]; intros start seen w Hok Hstart Hnd Hseen Hfuel.
  { pose proof (seen_bound w seen Hok Hnd (fun m Hm => proj1 (Hseen m Hm))). lia. }
  simpl. apply rg_bind. eapply rg_mono; [|by apply wp_listForAccount].
  intros r w' (page & -> & w1 & l & Hk & Hk' & Hok1 & Hok' & Hl & ->). simpl.
  pose proof Hl as (Hs & Hndl & Hm).
  destruct (Nat.ltb_spec limit (length l)) as [Hlt|Hge].
  - unfold last_id. destruct (last (take limit l)) as [s|] eqn:Hlast;
      [|apply last_None in Hlast; apply (f_equal length) in Hlast; rewrite length_take in Hlast; simpl in Hlast; lia].
    assert (l = take limit l ++ drop limit l) as El by (by rewrite take_drop).
    destruct (page_split l _ _ s El Hlast Hs Hndl) as [Hp Hr].
    assert (forall x, x ∈ take limit l -> x ∈ messages_of w1 /\ m_accountId x = accountId /\ after start x)
      as Hpg by (intros x Hx; apply Hm; rewrite El; apply elem_of_app; by left).
    assert (s ∈ take limit l) as Hsp
      by (apply last_Some in Hlast as [p ->]; apply elem_of_app; right; by left).
    simpl. apply rg_bind. eapply rg_mono;
      [|apply (IH (Some s) (seen ++ take limit l) w'); [done| | | |]].
    + intros r w2 (Hok2 & Hk2 & ms & -> & Hall). apply rg_ret. intros w3 Hw3.
      destruct (arrives_rtc w2 w3 Hok2 Hw3) as [Hok3 Hk3]. split; [done|].
      split; [intros m Hx; by apply Hk3, Hk2, Hk', Hk|].
      exists (take limit l ++ ms). rewrite List.map_app. split; [done|].
      eapply (all_of_page start w w1 w'); try done.
      * intros m Hx. by apply Hk3, Hk2.
      * by eapply all_of_keeps.
    + intros s' [= <-]. split; [by apply Hk', Hpg|by apply Hpg].
    + apply (NoDup_ids_app w'); [done|done| | | |].
      * rewrite El, List.map_app in Hndl. by apply NoDup_app in Hndl as [].
      * intros m Hx. by apply Hk', Hk, Hseen.
      * intros m Hx. by apply Hk', Hpg.
      * intros m Hx Hy. destruct (Hseen m Hx) as [_ Hn]. by apply Hn, Hpg.
    + intros m [Hx|Hx]%elem_of_app.
      * destruct (Hseen m Hx) as [Hw Hn]. split; [by apply Hk', Hk|].
        intros Ha. apply Hn. eapply after_trans; [|done]. by apply Hpg.
      * split; [by apply Hk', Hpg|]. intros [_ Hn]. by apply Hn, Hp.
    + rewrite length_app, length_take. lia.
  - rewrite take_ge by lia. apply rg_ret. intros w2 Hw2.
    destruct (arrives_rtc w' w2 Hok' Hw2) as [Hok2 Hk2]. split; [done|].
    split; [intros m Hx; by apply Hk2, Hk', Hk|]. exists l. split; [done|].
    split; [done|]. split; [done|]. split.
    + intros m Hx. destruct (proj1 (Hm m) Hx) as [Hw Ha]. split; [by apply Hk2, Hk'|done].
    + intros m Hw Ha Haf. apply Hm. split; [by apply Hk|done].
Qed.
End Pages.

(** C36: a client that follows the cursors to the end gets every message that was
    there when it began exactly once, newest first, and nothing of another account,
    however many messages, and of whatever date, arrive between its requests. *)
Theorem pages_complete (N : nat) (userId accountId : string) (limit : nat) (w : world D)
    (c : config) (r : result exn (list MessageSummary)) :
  (1 <= limit)%nat -> mailbox_ok N userId accountId w ->
  rtc (cstep (arrives N userId accountId))
    ([all_pages (S N) userId accountId None limit], w) c ->
  c.1 = [Done r] ->
  exists ms, r = Ok (List.map message_summary ms) /\
    StronglySorted newer ms /\ NoDup (List.map m_id ms) /\
    (forall m, m ∈ ms -> m ∈ messages_of c.2 /\ m_accountId m = accountId) /\
    (forall m, m ∈ messages_of w -> m_accountId m = accountId -> m ∈ ms).
Proof.
  intros Hlimit Hok Hreach Hr.
  assert (wp (arrives N userId accountId) (all_pages (S N) userId accountId None limit)
    (fun r w' => mailbox_ok N userId accountId w' /\ keeps w w' /\
       exists ms, r = Ok (List.map message_summary ms) /\ all_of accountId None w w' ms) w) as Hw.
  { apply (wp_all_pages N userId accountId limit Hlimit (S N) None [] w);
      [done|done|constructor| |simpl; lia]. intros m Hm. by inversion Hm. }
  destruct (alone_rg _ _ _ _ _ _ Hw Hreach Hr) as (_ & _ & ms & -> & Hs & Hnd & Hin & Hall).
  exists ms. split; [done|]. split; [done|]. split; [done|]. split; [|intros m Hm Ha; by apply Hall].
  intros m Hm. destruct (Hin m Hm) as (Hm' & Ha & _). by split.
Qed.

(** ** Only the owner reads *)

Definition owns (userId accountId : string) (w : world D) : Prop :=
  exists a, a ∈ rows (mailAccount (data w)) /\ ma_id a = accountId /\ ma_userId a = userId.

Lemma owned_rows (userId accountId : string) (w : world D) :
  exists_row (fun a => bool_decide (ma_id a = accountId) && bool_decide (ma_userId a = userId))
    (mailAccount (data w)) = true <-> owns userId accountId w.
Proof.
  rewrite exists_row_true. unfold owns. setoid_rewrite andb_true_iff.
  setoid_rewrite bool_decide_eq_true. done.
Qed.

Lemma run_owned_message (userId accountId messageId : string) (w : world D) :
  db_up w = true ->
  exists o, run (owned_message userId accountId messageId) w = (Ok o, w) /\
    (~ owns userId accountId w -> o = None) /\
    (owns userId accountId w -> NoDup (List.map m_id (messages_of w)) ->
     forall m, m ∈ messages_of w -> m_id m = messageId -> m_accountId m = accountId -> o = Some m).
Proof.
  intros Hup. unfold owned_message. rewrite run_query, Hup. cbn [fst snd].
  eexists. split; [f_equal; by destruct w|]. split.
  - intros Hno. apply findFirst_None. intros m _.
    destruct (exists_row _ (mailAccount (data w))) eqn:E; [by apply owned_rows in E|].
    by rewrite andb_false_r.
  - intros Ho%owned_rows Hnd m Hm <- <-. apply findFirst_unique; [done| |].
    + by rewrite Ho, !bool_decide_eq_true_2.
    + intros m' Hm' Hp. apply andb_true_iff in Hp as [[Hi%bool_decide_eq_true _]%andb_true_iff _].
      pose proof (findFirst_key m_id (messages (data w)) m Hnd Hm) as F.
      pose proof (findFirst_key m_id (messages (data w)) m' Hnd Hm') as F'. rewrite Hi in F'. congruence.
Qed.

(** A user to whom the account does not belong is told that nothing is there,
    by every route over its messages, and the object store is not even asked. *)
Theorem messages_private (userId accountId messageId : string) (cursor : option string)
    (limit : option Z) (w : world D) :
  db_up w = true -> ~ owns userId accountId w ->
  run (list_route userId accountId cursor limit) w = (Err (NotFoundException "Account not found"), w) /\
  run (getForAccount userId accountId messageId) w = (Err (NotFoundException "Message not found"), w) /\
  run (raw_route userId accountId messageId) w = (Err (NotFoundException "Message not found"), w).
Proof.
  intros Hup Hno. destruct (run_owned_message userId accountId messageId w Hup) as (o & Ho & Hnone & _).
  rewrite (Hnone Hno) in Ho. split; [|split].
  - unfold list_route, listForAccount, owned_account, find_account, on_accounts.
    rewrite run_bind, run_query, Hup. cbn [fst snd].
    destruct (exists_row (fun a => bool_decide (ma_id a = accountId) && bool_decide (ma_userId a = userId))
      (mailAccount (data w))) eqn:E; [by apply owned_rows in E|].
    unfold exists_row in E. destruct (findFirst _ (mailAccount (data w))); [done|]. cbn.
    by rewrite read_same, run_throw.
  - unfold getForAccount. by rewrite run_bind, Ho, run_throw.
  - unfold raw_route, rawObjectKeyFor. by rewrite !run_bind, Ho, run_throw.
Qed.

(** The text of a message, as far as the store answers. *)
Definition stored_text (m : Message) (w : world D) : option string :=
  match m_bodyTextKey m with
  | Some k => if truthy k && storage_ok (length (calls w)) then objects (data w) !! k else None
  | None => None
  end.

(** Reading a message answers its row, and as much of its text as the store
    has and the limit allows: a missing or unreadable object is no error. *)
Theorem detail_degrades (userId accountId : string) (m : Message) (w : world D) :
  db_up w = true -> owns userId accountId w -> NoDup (List.map m_id (messages_of w)) ->
  m ∈ messages_of w -> m_accountId m = accountId ->
  exists w', run (getForAccount userId accountId (m_id m)) w =
    (Ok (mkMessageDetail (message_summary m) (m_providerThreadId m) (m_toAddresses m)
           (stake MAX_BODY_BYTES <$> stored_text m w)
           match stored_text m w with
           | Some b => Nat.ltb MAX_BODY_BYTES (String.length b)
           | None => false
           end), w') /\ data w' = data w.
Proof.
  intros Hup Ho Hnd Hm Ha.
  destruct (run_owned_message userId accountId (m_id m) w Hup) as (o & Hrun & _ & Hsome).
  rewrite (Hsome Ho Hnd m Hm eq_refl Ha) in Hrun.
  unfold getForAccount, stored_text. rewrite run_bind, Hrun, run_bind.
  destruct (m_bodyTextKey m) as [k|]; [|rewrite !run_ret; by eexists].
  destruct (truthy k); [|rewrite !run_ret; by eexists]. simpl.
  rewrite run_try, run_bind. unfold get_object. rewrite run_perform. cbv zeta.
  destruct (storage_ok _); [|rewrite run_ret; simpl; rewrite run_ret; by eexists].
  destruct (objects (data w) !! k); rewrite run_ret; simpl; rewrite run_ret; by eexists.
Qed.

Lemma run_raw (userId accountId : string) (m : Message) (w : world D) :
  db_up w = true -> owns userId accountId w -> NoDup (List.map m_id (messages_of w)) ->
  m ∈ messages_of w -> m_accountId m = accountId ->
  exists w', run (raw_route userId accountId (m_id m)) w =
    (if storage_ok (length (calls w)) then
       match objects (data w) !! m_rawObjectKey m with
       | Some body => Ok (raw_head (m_id m) (ob_contentLength (streamed body)), body)
       | None => Err (NotFoundException "Original message is no longer stored")
       end
     else Err (ServiceUnavailableException "Message storage is unavailable"), w') /\
    data w' = data w.
Proof.
  intros Hup Ho Hnd Hm Ha.
  destruct (run_owned_message userId accountId (m_id m) w Hup) as (o & Hrun & _ & Hsome).
  rewrite (Hsome Ho Hnd m Hm eq_refl Ha) in Hrun.
  unfold raw_route, rawObjectKeyFor, getStream. rewrite !run_bind, Hrun, run_ret.
  rewrite run_try, run_bind, run_bind. unfold get_object. rewrite run_perform. cbv zeta.
  destruct (storage_ok _).
  - destruct (objects (data w) !! _); [rewrite !run_ret|rewrite bool_decide_eq_true_2, run_throw by done];
      by eexists.
  - rewrite bool_decide_eq_false_2, run_throw by done. by eexists.
Qed.

(** The owner downloads a stored original unchanged, with its length, under a
    name made of the id alone; an object that is gone is 404, a store that does
    not answer 503. *)
Theorem raw_download (userId accountId : string) (m : Message) (w : world D) :
  db_up w = true -> owns userId accountId w -> NoDup (List.map m_id (messages_of w)) ->
  m ∈ messages_of w -> m_accountId m = accountId ->
  exists w', run (raw_route userId accountId (m_id m)) w =
    (if storage_ok (length (calls w)) then
       match objects (data w) !! m_rawObjectKey m with
       | Some body => Ok (raw_head (m_id m) (ob_contentLength (streamed body)), body)
       | None => Err (NotFoundException "Original message is no longer stored")
       end
     else Err (ServiceUnavailableException "Message storage is unavailable"), w') /\
    data w' = data w.
Proof. apply run_raw. Qed.
End Reading.

(** ** A concrete listing *)

Module Inbox.
Definition mail (i : string) (at_ : Z) (body : option string) : Message :=
  mkMessage i "a1" ("p" +:+ i) None None None None [] at_ None [] None false ("raw/" +:+ i) body 0.

Definition stored : list Message := [mail "x" 5 (Some "text/x"); mail "y" 7 None; mail "z" 5 None].

Definition w0 : world Vault.db :=
  mkWorld (mkMailDb [Mailbox.box] stored {["raw/x" := "From: bob"; "text/x" := "hello"]}) 1000 0 true [].

Definition three : nat := 3.

Lemma mailbox : mailbox_ok three "u1" "a1" w0.
Proof.
  split; [done|done| | |simpl; unfold three; lia].
  - apply (bool_decide_unpack _). vm_compute. exact I.
  - intros m Hm. assert (Forall (fun m => truthy (m_id m) = true) stored) as Hall by (repeat constructor).
    by apply (proj1 (Forall_forall _ _) Hall).
Qed.
End Inbox.

Lemma pages_complete_witness :
  exists ms, (schedule (replicate 4 0%nat)
      ([all_pages 4 "u1" "a1" None 2], Inbox.w0)).1 = [Done (Ok (List.map message_summary ms))] /\
    NoDup (List.map m_id ms).
Proof.
  destruct (pages_complete 3 "u1" "a1" 2 Inbox.w0
    (schedule (replicate 4 0%nat) ([all_pages 4 "u1" "a1" None 2], Inbox.w0))
    (Ok (List.map message_summary [Inbox.mail "y" 7 None; Inbox.mail "z" 5 None;
                                   Inbox.mail "x" 5 (Some "text/x")])))
    as (ms & E & _ & Hnd & _).
  - lia.
  - exact Inbox.mailbox.
  - apply schedule_reachable.
  - vm_compute. reflexivity.
  - exists ms. split; [|exact Hnd]. rewrite <- E. vm_compute. reflexivity.
Defined.

Lemma messages_private_witness :
  run (raw_route Mailbox.storage_ok "u2" "a1" "x") Inbox.w0 =
    (Err (NotFoundException "Message not found"), Inbox.w0).
Proof.
  refine (proj2 (proj2 (messages_private Mailbox.storage_ok "u2" "a1" "x" None None Inbox.w0 _ _))).
  - reflexivity.
  - intros (a & Ha & _ & E). apply list_elem_of_singleton in Ha as ->. discriminate E.
Defined.

Lemma detail_degrades_witness :
  exists w', run (getForAccount Mailbox.storage_ok "u1" "a1" "x") Inbox.w0 =
    (Ok (mkMessageDetail (message_summary (Inbox.mail "x" 5 (Some "text/x"))) None []
           (Some "hello") false), w').
Proof.
  destruct (detail_degrades Mailbox.storage_ok "u1" "a1" (Inbox.mail "x" 5 (Some "text/x")) Inbox.w0)
    as (w' & E & _).
  - reflexivity.
  - exists Mailbox.box. repeat split. left.
  - exact (mb_ids _ _ _ _ Inbox.mailbox).
  - left.
  - reflexivity.
  - exists w'. exact E.
Defined.

Lemma raw_download_witness :
  exists w', run (raw_route Mailbox.storage_ok "u1" "a1" "x") Inbox.w0 =
    (Ok (raw_head "x" (Some 9%Z), "From: bob"), w').
Proof.
  destruct (raw_download Mailbox.storage_ok "u1" "a1" (Inbox.mail "x" 5 (Some "text/x")) Inbox.w0)
    as (w' & E & _).
  - reflexivity.
  - exists Mailbox.box. repeat split. left.
  - exact (mb_ids _ _ _ _ Inbox.mailbox).
  - left.
  - reflexivity.
  - exists w'. exact E.
Defined.
