(* ===== verification/Isolation.v ===== *)
(** * What a user can learn of the mail of others

    [messages.service.ts] and [messages.controller.ts] once more, as what they show:
    two states of the service that look the same to a user, whatever the accounts,
    messages and objects of others, answer alike.  The exception is a page that
    starts at a cursor, which Prisma looks up among all messages. *)

From S2P Require Import Prelude Js World Mail Accounts MailSync Messages.

Local Open Scope Z_scope.

Set Default Proof Using "Type*".

Section Isolation.
Context {TA TM : Type} `{Table MailAccount TA} `{Table Message TM} `{!TableLaws MailAccount TA} `{!TableLaws Message TM}.
Context (storage_ok : nat -> bool) (userId : string).

Abbreviation W := (world (mail_db TA TM)).

Definition mine (m : Message) (w : W) : Prop := owns userId (m_accountId m) w.

(** The accounts, the messages and the objects of the user are the same, and the
    database and the store answer alike. *)
Record looks_same (w w' : W) : Prop := {
  ls_up : db_up w = db_up w';
  ls_calls : length (calls w) = length (calls w');
  ls_accounts i : owns userId i w <-> owns userId i w';
  ls_messages m : mine m w -> (m ∈ messages_of w <-> m ∈ messages_of w');
  ls_objects m k : mine m w -> m ∈ messages_of w -> (k = m_rawObjectKey m \/ m_bodyTextKey m = Some k) ->
    objects (data w) !! k = objects (data w') !! k;
}.

#[export] Instance looks_same_equivalence : Equivalence looks_same.
Proof.
  split.
  - by intros w.
  - intros w w' [Hu Hc Ha Hm Ho]. split; [done|done|by intros i|intros m Hw; symmetry; by apply Hm, Ha|].
    intros m k Hw Hin Hk. symmetry. apply (Ho m); [by apply Ha|by apply Hm; [apply Ha|]|done].
  - intros w1 w2 w3 [Hu Hc Ha Hm Ho] [Hu' Hc' Ha' Hm' Ho'].
    split; [congruence|congruence|intros i; by rewrite Ha|intros m Hw; rewrite Hm by done; by apply Hm', Ha|].
    intros m k Hw Hin Hk. rewrite (Ho m k Hw Hin Hk). apply (Ho' m); [by apply Ha|by apply Hm|done].
Qed.

(** ** Lookups and listings *)

(** A lookup that can match one row finds it in every table that has it. *)
Lemma findFirst_same {Row T} `{TableLaws Row T} (p : Row -> bool) (t t' : T) :
  (forall r, p r = true -> (r ∈ rows t <-> r ∈ rows t')) ->
  (forall r r', r ∈ rows t -> r' ∈ rows t -> p r = true -> p r' = true -> r' = r) ->
  findFirst p t = findFirst p t'.
Proof.
  clear storage_ok userId. intros Hsame Huniq. destruct (findFirst p t) as [r|] eqn:E; symmetry.
  - apply findFirst_Some in E as [Hr Hp]. apply findFirst_unique; [by apply Hsame|done|].
    intros r' Hr' Hp'. apply Huniq; [done| |done|done]. by apply Hsame.
  - apply findFirst_None. intros r Hr. destruct (p r) eqn:Hp; [|done].
    apply Hsame in Hr; [|done]. by rewrite (proj1 (findFirst_None t p) E r Hr) in Hp.
Qed.

Lemma same_id_same (w : W) (m m' : Message) : NoDup (List.map m_id (messages_of w)) ->
  m ∈ messages_of w -> m' ∈ messages_of w -> m_id m' = m_id m -> m' = m.
Proof.
  intros Hnd Hm Hm' E. pose proof (findFirst_key m_id (messages (data w)) m Hnd Hm) as F.
  pose proof (findFirst_key m_id (messages (data w)) m' Hnd Hm') as F'. rewrite E in F'. congruence.
Qed.

(** A listing is determined by what it lists. *)
Lemma listing_unique (i : string) (t t' : TM) (l l' : list Message) :
  listing i None t l -> listing i None t' l' ->
  (forall m, m_accountId m = i -> (m ∈ rows t <-> m ∈ rows t')) -> l = l'.
Proof.
  intros (Hs & Hn & Hm) (Hs' & Hn' & Hm') Hsame.
  assert (Hmem : forall m, m ∈ l <-> m ∈ l').
  { intros m. rewrite Hm, Hm'. simpl. naive_solver. }
  assert (Hid : forall m m', m ∈ l -> m' ∈ l -> m_id m = m_id m' -> m = m').
  { intros m m' [a Ha]%list_elem_of_lookup [b Hb]%list_elem_of_lookup E.
    assert (a = b) as ->; [|congruence].
    eapply (NoDup_lookup _ a b (m_id m) Hn); rewrite list_lookup_fmap; [by rewrite Ha|by rewrite Hb, E]. }
  apply (StronglySorted_unique_strong newer); [|done|done|].
  - intros m m' Hin Hin' Hmm Hmm'. apply Hid; [done|by apply Hmem|by apply newer_antisymm].
  - apply NoDup_Permutation; [by eapply NoDup_fmap_1|by eapply NoDup_fmap_1|done].
Qed.

Section Same.
Context (w w' : W) (Hsame : looks_same w w').
Context (Hnd : NoDup (List.map m_id (messages_of w))) (Hnd' : NoDup (List.map m_id (messages_of w'))).

Lemma owned_same (i : string) :
  exists_row (fun a => bool_decide (ma_id a = i) && bool_decide (ma_userId a = userId)) (mailAccount (data w)) =
  exists_row (fun a => bool_decide (ma_id a = i) && bool_decide (ma_userId a = userId)) (mailAccount (data w')).
Proof. apply eq_true_iff_eq. rewrite !owned_rows. apply Hsame. Qed.

Lemma message_same (a i : string) :
  (run (owned_message userId a i) w).1 = (run (owned_message userId a i) w').1.
Proof.
  unfold owned_message. rewrite !run_query, <- (ls_up _ _ Hsame). destruct (db_up w); [|done].
  cbn [fst]. f_equal. rewrite <- owned_same.
  destruct (exists_row _ (mailAccount (data w))) eqn:E.
  - apply owned_rows in E. apply findFirst_same.
    + intros m [[_ <-%bool_decide_eq_true]%andb_true_iff _]%andb_true_iff. by apply (ls_messages _ _ Hsame).
    + intros m m' Hm Hm' [[<-%bool_decide_eq_true _]%andb_true_iff _]%andb_true_iff
        [[Hi%bool_decide_eq_true _]%andb_true_iff _]%andb_true_iff. by apply (same_id_same w).
  - rewrite !(proj2 (findFirst_None _ _)); [done|intros m _; by rewrite andb_false_r..].
Qed.

(** The messages of an account, in their order. *)
Lemma sorted_same (a : string) : owns userId a w ->
  merge_sort newer (t_select (of_account a) (messages (data w))) =
  merge_sort newer (t_select (of_account a) (messages (data w'))).
Proof.
  intros Ha. eapply (listing_unique a); [by apply listing_sorted|by apply listing_sorted|].
  intros m <-. by apply (ls_messages _ _ Hsame).
Qed.

(** A cursor that is not a message of others is looked up alike. *)
Definition own_cursor (cursor : option string) : Prop :=
  forall c m, cursor = Some c -> m ∈ messages_of w \/ m ∈ messages_of w' -> m_id m = c -> mine m w.

Lemma findMany_same (a : string) (cursor : option string) (n : nat) : owns userId a w -> own_cursor cursor ->
  findMany (of_account a) cursor n (messages (data w)) = findMany (of_account a) cursor n (messages (data w')).
Proof.
  intros Ha Hc. unfold findMany. rewrite (sorted_same a Ha). destruct cursor as [c|]; [|done].
  assert (findFirst (fun m => bool_decide (m_id m = c)) (messages (data w)) =
          findFirst (fun m => bool_decide (m_id m = c)) (messages (data w'))) as ->; [|done].
  destruct (findFirst (fun m => bool_decide (m_id m = c)) (messages (data w))) as [s|] eqn:E; symmetry.
  - apply findFirst_Some in E as [Hs Hi%bool_decide_eq_true].
    rewrite <- Hi. apply findFirst_key; [done|]. apply (ls_messages _ _ Hsame s); [|done].
    by eapply Hc; [|left|].
  - apply findFirst_None. intros m Hm. apply bool_decide_eq_false. intros Hi.
    pose proof (Hc c m eq_refl (or_intror Hm) Hi) as Hmine. apply (ls_messages _ _ Hsame m Hmine) in Hm.
    pose proof (proj1 (findFirst_None _ _) E m Hm) as F. by rewrite bool_decide_eq_false in F.
Qed.

Lemma list_same (a : string) (cursor : option string) (limit : option Z) : own_cursor cursor ->
  (run (list_route userId a cursor limit) w).1 = (run (list_route userId a cursor limit) w').1.
Proof.
  intros Hc. unfold list_route, listForAccount, owned_account, find_account, on_accounts, on_messages.
  rewrite !run_bind, !run_query, <- (ls_up _ _ Hsame). destruct (db_up w) eqn:Hup; [|done].
  cbn [fst snd]. rewrite !read_same. pose proof (owned_same a) as Ho.
  pose proof (proj1 (owned_rows userId a w)) as Hown. unfold exists_row in Ho, Hown.
  destruct (findFirst _ (mailAccount (data w))), (findFirst _ (mailAccount (data w'))); try done.
  rewrite !run_bind, !run_query, <- (ls_up _ _ Hsame), Hup. cbn [fst snd]. rewrite !run_ret. cbn [fst].
  rewrite (findMany_same a); [done|by apply Hown|].
  destruct (otruthy cursor); [exact Hc|done].
Qed.

Lemma object_same (m : Message) (k : string) : mine m w -> m ∈ messages_of w ->
  k = m_rawObjectKey m \/ m_bodyTextKey m = Some k ->
  (run (get_object storage_ok k) w).1 = (run (get_object storage_ok k) w').1.
Proof.
  intros Hm Hin Hk. unfold get_object. rewrite !run_perform. cbv zeta.
  rewrite <- (ls_calls _ _ Hsame), (ls_objects _ _ Hsame m k Hm Hin Hk).
  destruct (storage_ok _); [|done]. by destruct (objects (data w') !! k).
Qed.

(** What a message is found as is one of the user's, and finding it changes nothing. *)
Lemma found_mine (v : W) (a i : string) (o : option Message) : (run (owned_message userId a i) v).1 = Ok o ->
  run (owned_message userId a i) v = (Ok o, v) /\
  forall m, o = Some m -> mine m v /\ m ∈ messages_of v.
Proof.
  unfold owned_message. rewrite run_query. destruct (db_up v); [|done]. cbn [fst snd]. intros [= <-].
  split; [by destruct v|]. intros m [Hm [[_ <-%bool_decide_eq_true]%andb_true_iff E]%andb_true_iff]%findFirst_Some.
  split; [|done]. by apply owned_rows.
Qed.

Lemma get_same (a i : string) :
  (run (getForAccount storage_ok userId a i) w).1 = (run (getForAccount storage_ok userId a i) w').1.
Proof.
  pose proof (message_same a i) as E. unfold getForAccount. rewrite !run_bind.
  destruct (run (owned_message userId a i) w) as [[o|e] v] eqn:E1,
    (run (owned_message userId a i) w') as [[o'|e'] v'] eqn:E2; cbn [fst] in E; try done; [|by injection E as <-].
  injection E as <-. destruct (found_mine w a i o) as [E1' Hm]; [by rewrite E1|].
  destruct (found_mine w' a i o) as [E2' _]; [by rewrite E2|]. rewrite E1 in E1'. rewrite E2 in E2'.
  injection E1' as ->. injection E2' as ->. destruct o as [m|]; [|done]. destruct (Hm m eq_refl) as [Hmine Hin].
  rewrite !run_bind. destruct (m_bodyTextKey m) as [k|] eqn:Hk; [|done]. destruct (truthy k); [|done].
  pose proof (object_same m k Hmine Hin (or_intror Hk)) as Eo. rewrite !run_try, !run_bind.
  destruct (run (get_object storage_ok k) w) as [[b|e] v1], (run (get_object storage_ok k) w') as [[b'|e'] v2];
    cbn [fst] in Eo; try done. by injection Eo as <-.
Qed.

Lemma raw_same (a i : string) :
  (run (raw_route storage_ok userId a i) w).1 = (run (raw_route storage_ok userId a i) w').1.
Proof.
  pose proof (message_same a i) as E. unfold raw_route, rawObjectKeyFor. rewrite !run_bind.
  destruct (run (owned_message userId a i) w) as [[o|e] v] eqn:E1,
    (run (owned_message userId a i) w') as [[o'|e'] v'] eqn:E2; cbn [fst] in E; try done; [|by injection E as <-].
  injection E as <-. destruct (found_mine w a i o) as [E1' Hm]; [by rewrite E1|].
  destruct (found_mine w' a i o) as [E2' _]; [by rewrite E2|]. rewrite E1 in E1'. rewrite E2 in E2'.
  injection E1' as ->. injection E2' as ->. destruct o as [m|]; [|done]. destruct (Hm m eq_refl) as [Hmine Hin].
  pose proof (object_same m _ Hmine Hin (or_introl eq_refl)) as Eo. unfold getStream. rewrite !run_ret, !run_try, !run_bind.
  destruct (run (get_object storage_ok _) w) as [[b|e] v1], (run (get_object storage_ok _) w') as [[b'|e'] v2];
    cbn [fst] in Eo; try done; injection Eo as <-; [done|].
  by case_bool_decide.
Qed.
End Same.

(** C37: what the routes over messages answer a user depends on the accounts, the
    messages and the objects of that user alone: whatever others have, receive or
    lose, two states that agree on the user's mail answer alike, the errors included,
    unless a page is asked for at a cursor that names a message of someone else. *)
Theorem reading_isolated (w w' : W) (a i : string) (cursor : option string) (limit : option Z) :
  looks_same w w' -> NoDup (List.map m_id (messages_of w)) -> NoDup (List.map m_id (messages_of w')) ->
  (own_cursor w w' cursor ->
   (run (list_route userId a cursor limit) w).1 = (run (list_route userId a cursor limit) w').1) /\
  (run (getForAccount storage_ok userId a i) w).1 = (run (getForAccount storage_ok userId a i) w').1 /\
  (run (raw_route storage_ok userId a i) w).1 = (run (raw_route storage_ok userId a i) w').1.
Proof.
  intros Hsame Hnd Hnd'. split; [intros Hc; by apply list_same|].
  split; [by apply get_same|by apply raw_same].
Qed.
End Isolation.

(** ** Two mailboxes *)

Module Neighbours.
Definition other : MailAccount :=
  mkMailAccount "a2" "u2" GMAIL "g2" "bob@gmail.com" ACTIVE "" 0 None [] None None None None 0 0.

Definition theirs (at_ : Z) : Message :=
  mkMessage "s" "a2" "ps" None None None None [] at_ None [] None false "raw/s" None 0.

(** Alice's three messages, and one of Bob's, sent at [at_]. *)
Definition w (at_ : Z) : world Vault.db :=
  mkWorld (mkMailDb [Mailbox.box; other] (theirs at_ :: Inbox.stored)
    {["raw/x" := "From: bob"; "text/x" := "hello"; "raw/s" := "secret"]}) 1000 0 true [].

Definition alone : world Vault.db :=
  mkWorld (mkMailDb [Mailbox.box] Inbox.stored {["raw/x" := "From: bob"; "text/x" := "hello"]}) 1000 0 true [].

Lemma owned (i : string) (v : world Vault.db) : v = alone \/ (exists t, v = w t) -> owns "u1" i v <-> i = "a1".
Proof.
  unfold owns. intros [-> | [t ->]]; cbn [mailAccount data alone w rows list_table]; split.
  - by intros (a & ->%list_elem_of_singleton & <- & _).
  - intros ->. exists Mailbox.box. split; [by left|done].
  - intros (a & [-> | ->%list_elem_of_singleton]%elem_of_cons & <- & Hu); [done|discriminate].
  - intros ->. exists Mailbox.box. split; [by left|done].
Qed.

Lemma same (v v' : world Vault.db) : v = alone \/ (exists t, v = w t) -> v' = alone \/ (exists t, v' = w t) ->
  looks_same "u1" v v'.
Proof.
  intros Hv Hv'. assert (Hmem : forall v m, v = alone \/ (exists t, v = w t) -> m_accountId m = "a1" ->
    m ∈ messages_of v <-> m ∈ Inbox.stored).
  { intros u m [-> | [t ->]] Ha; [done|]. unfold messages_of. cbn [w data messages rows list_table].
    rewrite elem_of_cons. split; [|tauto]. intros [-> |]; done. }
  split.
  - by destruct Hv as [-> | [? ->]], Hv' as [-> | [? ->]].
  - by destruct Hv as [-> | [? ->]], Hv' as [-> | [? ->]].
  - intros i. by rewrite !owned.
  - intros m Hm%owned; [|done]. by rewrite !Hmem.
  - intros m k Hm%owned Hin Hk; [|done]. apply Hmem in Hin; [|done|done].
    assert (k <> "raw/s") as Hs.
    { intros ->. unfold Inbox.stored in Hin.
      repeat (apply elem_of_cons in Hin as [-> | Hin]; [destruct Hk; discriminate|]). by apply elem_of_nil in Hin. }
    destruct Hv as [-> | [? ->]], Hv' as [-> | [? ->]]; cbn [alone w data objects];
      rewrite ?lookup_insert, ?lookup_singleton; repeat case_decide; congruence.
Qed.

Lemma ids (v : world Vault.db) : v = alone \/ (exists t, v = w t) -> NoDup (List.map m_id (messages_of v)).
Proof. intros [-> | [t ->]]; apply (bool_decide_unpack _); vm_compute; exact I. Qed.
End Neighbours.

(** The exception is real: a user who has the id of a message of someone else
    learns where it stands in time among their own, by asking for the page that
    starts there; the two states agree on all that is the user's. *)
Theorem foreign_cursor_leaks :
  looks_same "u1" (Neighbours.w 4) (Neighbours.w 9) /\
  (run (list_route "u1" "a1" (Some "s") None) (Neighbours.w 4)).1 = Ok (mkMessagePage [] None) /\
  (run (list_route "u1" "a1" (Some "s") None) (Neighbours.w 9)).1 =
    Ok (mkMessagePage (List.map message_summary [Inbox.mail "z" 5 None; Inbox.mail "x" 5 (Some "text/x")]) None).
Proof.
  split; [apply Neighbours.same; right; by eexists|].
  by split; vm_compute.
Qed.

Lemma reading_isolated_witness :
  looks_same "u1" (Neighbours.w 4) Neighbours.alone /\
  (run (list_route "u1" "a1" (Some "x") None) (Neighbours.w 4)).1 =
  (run (list_route "u1" "a1" (Some "x") None) Neighbours.alone).1.
Proof.
  assert (Hs : looks_same "u1" (Neighbours.w 4) Neighbours.alone).
  { apply Neighbours.same; [right; by eexists|by left]. }
  split; [exact Hs|].
  refine (proj1 (reading_isolated Mailbox.storage_ok "u1" (Neighbours.w 4) Neighbours.alone "a1" "x" (Some "x") None Hs _ _) _).
  - apply Neighbours.ids. right. by eexists.
  - apply Neighbours.ids. by left.
  - intros c m [= <-] Hm Hi. apply Neighbours.owned; [right; by eexists|].
    assert (m ∈ Neighbours.theirs 4 :: Inbox.stored) as Hin.
    { destruct Hm as [Hm|Hm]; [exact Hm|]. by right. }
    apply elem_of_cons in Hin as [-> | Hin]; [discriminate|]. unfold Inbox.stored in Hin.
    repeat (apply elem_of_cons in Hin as [-> | Hin]; [done|]). by apply elem_of_nil in Hin.
Defined.
