(* ===== verification/Providers.v ===== *)
(** * Gmail and Zoho

    [services/email-ingestion]: [mail/providers/gmail.provider.ts] and
    [mail/providers/zoho.provider.ts], over an HTTP client that is a parameter:
    the answer to a request may depend on the requests made before.

    The adapters cast what they receive ([as T]).  Where a documented field is
    missing, JavaScript would carry [undefined] on; the model stops there with a
    [TypeError]. *)

From S2P Require Import Prelude Js Base64 World Url Forms Json Concurrency Mail Accounts MailSync.
From Stdlib Require Import QArith Qround.

Local Open Scope Z_scope.

(** ** HTTP *)

Record Response := mkResponse { rs_status : Z; rs_body : string }.

(** [response.ok] *)
Definition ok (r : Response) : bool := (200 <=? rs_status r) && (rs_status r <? 300).

(** [Number(s)] of a string of digits; [None] is [NaN]. *)
Definition Number (s : string) : option Z :=
  if truthy s && all_digits s then Some (digits_value 0 s) else None.

Definition shape {A} (o : option A) : result exn A :=
  match o with Some a => Ok a | None => Err (TypeError "unexpected response") end.

(** The fields of a response: of a string, of a list. *)
Definition string_field (name : string) (x : json) : option string := as_string (field_of name x).

Definition as_list (x : option json) : option (list json) :=
  match x with Some (JArr l) => Some l | _ => None end.

(** [data.f ?? []] *)
Definition list_field (name : string) (x : json) : list json :=
  default [] (as_list (field_of name x)).

(** A list of values all of which have what [f] reads. *)
Fixpoint all_of {A B} (f : A -> option B) (l : list A) : option (list B) :=
  match l with
  | [] => Some []
  | x :: l' => match f x, all_of f l' with Some y, Some l'' => Some (y :: l'') | _, _ => None end
  end.

(** [new Date(Date.now() + seconds * 1000)] *)
Definition expiry (now : Z) (seconds : Q) : Z := now + Qfloor (seconds * inject_Z 1000)%Q.

Section Http.
Context {D : Type}.
(** The network: what the nth call to the outside is answered, given its URL and
    the rest of the request; [Err] is a transport failure and its cause. *)
Context (net : nat -> string -> list string -> result string Response).

Abbreviation M := (io (world D) exn).

(** [fetch]: the URLs here are https, or have no scheme and are rejected. *)
Definition fetch (url : string) (init : list string) : M Response :=
  if starts_with "https://" url then
    ask "fetch" (url :: init) (fun n => match net n url init with
                                        | Ok r => Ok r
                                        | Err cause => Err (TypeError cause)
                                        end)
  else throw (TypeError "Failed to parse URL").

(** [await response.json()], whose fields are read next. *)
Definition json_body (r : Response) : M json :=
  match JSON_parse (rs_body r) with
  | Err e => throw e
  | Ok JNull => throw (TypeError "Cannot read properties of null")
  | Ok x => ret x
  end.
End Http.

(** ** Gmail *)

Module Gmail.
Definition AUTH_ENDPOINT : string := "https://accounts.google.com/o/oauth2/v2/auth".
Definition TOKEN_ENDPOINT : string := "https://oauth2.googleapis.com/token".
Definition API_BASE : string := "https://gmail.googleapis.com/gmail/v1/users/me".
Definition GMAIL_READONLY : string := "https://www.googleapis.com/auth/gmail.readonly".
Definition SCOPES : list string := ["openid"; "email"; GMAIL_READONLY].

Record Config := mkConfig { client_id : string; client_secret : string; redirect_uri : string }.

Section Provider.
Context {D : Type} (net : nat -> string -> list string -> result string Response) (config : Config).

Abbreviation M := (io (world D) exn).

Definition buildAuthorizationUrl (state : string) : string :=
  AUTH_ENDPOINT +:+ "?" +:+ URLSearchParams
    [("client_id", client_id config); ("redirect_uri", redirect_uri config);
     ("response_type", "code"); ("scope", str_join " " SCOPES); ("access_type", "offline");
     ("prompt", "consent"); ("include_granted_scopes", "true"); ("state", state)].

Definition postToken (fields : list (string * string)) : M json :=
  let! response := fetch net TOKEN_ENDPOINT
    ["POST"; URLSearchParams (fields ++ [("client_id", client_id config);
                                         ("client_secret", client_secret config)])] in
  if negb (ok response) then
    if includes "invalid_grant" (rs_body response)
    then throw (ProviderAuthRevokedError "Google" "invalid_grant")
    else throw (BadGatewayException "Could not complete Google authorization")
  else json_body response.

Definition toTokens (payload : json) : M OAuthTokens :=
  let! now := Date_now in
  let! token := of_result (shape (string_field "access_token" payload)) in
  let! expires := of_result (shape (as_number (field_of "expires_in" payload))) in
  let! scope := of_result (shape (string_field "scope" payload)) in
  ret (mkOAuthTokens token (string_field "refresh_token" payload) (expiry now expires)
         (split_on " "%char scope)).

Definition identityFromIdToken (idToken : option string) : result exn ProviderIdentity :=
  match idToken with
  | Some t =>
      if truthy t then
        match split_on "."%char t !! 1%nat with
        | None => Err (TypeError "The first argument must be of type string")
        | Some payloadPart =>
            match JSON_parse (from_base64url payloadPart) with
            | Err e => Err e
            | Ok claims =>
                match string_field "sub" claims, string_field "email" claims with
                | Some s, Some m => Ok (mkIdentity s m)
                | _, _ => Err (TypeError "unexpected response")
                end
            end
        end
      else Err (BadGatewayException "Google did not return an id_token")
  | None => Err (BadGatewayException "Google did not return an id_token")
  end.

Definition exchangeCode (code : string) (_ : list (string * string)) : M ConnectResult :=
  let! payload := postToken [("code", code); ("redirect_uri", redirect_uri config);
                             ("grant_type", "authorization_code")] in
  let! ts := toTokens payload in
  let! identity := of_result (identityFromIdToken (string_field "id_token" payload)) in
  ret (mkConnectResult ts identity None).

Definition refreshAccessToken (refreshToken : string) (_ : ProviderMetadata) : M OAuthTokens :=
  let! payload := postToken [("refresh_token", refreshToken); ("grant_type", "refresh_token")] in
  toTokens payload.

Definition request (accessToken path : string) : M Response :=
  fetch net (API_BASE +:+ path) ["Authorization: Bearer " +:+ accessToken].

Definition handle (response : Response) : M json :=
  if negb (ok response) then
    if rs_status response =? 401 then throw (UnauthorizedException "Gmail rejected the access token")
    else if (rs_status response =? 429) || (rs_status response =? 403)
    then throw (ServiceUnavailableException "Gmail rate limit exceeded")
    else throw (BadGatewayException "Gmail API request failed")
  else json_body response.

Definition apiGet (accessToken path : string) : M json :=
  let! response := request accessToken path in handle response.

Definition getProfile (c : ProviderConnection) : M ProviderProfile :=
  let! data := apiGet (accessToken c) "/profile" in
  of_result (shape (match string_field "emailAddress" data, string_field "historyId" data with
                    | Some e, Some h => Some (mkProfile e h)
                    | _, _ => None
                    end)).

(** [if (pageToken) params.set('pageToken', pageToken)] *)
Definition paged (fields : list (string * string)) (pageToken : option string) : string :=
  URLSearchParams (fields ++ match pageToken with
                             | Some t => if truthy t then [("pageToken", t)] else []
                             | None => []
                             end).

Definition listMessageIds (c : ProviderConnection) (pageToken : option string) (maxResults : Z) :
  M MessageListPage :=
  let! data := apiGet (accessToken c)
    ("/messages?" +:+ paged [("maxResults", string_of_Z maxResults)] pageToken) in
  let! ids := of_result (shape (all_of (string_field "id") (list_field "messages" data))) in
  ret (mkListPage ids (string_field "nextPageToken" data)).

Definition fetchRawMessage (c : ProviderConnection) (providerMessageId : string) :
  M (option RawMessage) :=
  let! response := request (accessToken c) ("/messages/" +:+ providerMessageId +:+ "?format=RAW") in
  if rs_status response =? 404 then ret None
  else
    let! data := handle response in
    of_result (shape
      (match string_field "id" data, string_field "raw" data,
             match string_field "internalDate" data with Some s => Number s | None => None end,
             all_of (fun l => as_string (Some l)) (list_field "labelIds" data) with
       | Some i, Some raw, Some at_, Some labels =>
           Some (Some (mkRawMessage i (string_field "threadId" data) labels (string_field "snippet" data)
             (Qfloor <$> as_number (field_of "sizeEstimate" data)) (Some at_) (from_base64url raw)))
       | _, _, _, _ => None
       end)).

(** The ids of one entry of the history. *)
Definition added_ids (entry : json) : option (list string) :=
  all_of (fun added => match field_of "message" added with
                       | Some m => string_field "id" m
                       | None => None
                       end) (list_field "messagesAdded" entry).

Definition listChangedMessageIds (c : ProviderConnection) (cursor : string)
    (pageToken : option string) : M MessageChangePage :=
  let! response := request (accessToken c)
    ("/history?" +:+ paged [("startHistoryId", cursor); ("historyTypes", "messageAdded")] pageToken) in
  if rs_status response =? 404 then ret (mkChangePage [] None None true)
  else
    let! data := handle response in
    let! ids := of_result (shape (all_of added_ids (list_field "history" data))) in
    ret (mkChangePage (List.concat ids) (string_field "nextPageToken" data)
           (string_field "historyId" data) false).

Definition provider : MailProviderAdapter D :=
  mkAdapter [GMAIL_READONLY] buildAuthorizationUrl exchangeCode refreshAccessToken getProfile
    listMessageIds listChangedMessageIds fetchRawMessage.
End Provider.
End Gmail.

(** ** Zoho *)

Module Zoho.
Record centre := mkCentre { accounts : string; mail : string }.

Definition DATA_CENTRES : list (string * centre) :=
  [("us", mkCentre "https://accounts.zoho.com" "https://mail.zoho.com");
   ("eu", mkCentre "https://accounts.zoho.eu" "https://mail.zoho.eu");
   ("in", mkCentre "https://accounts.zoho.in" "https://mail.zoho.in");
   ("au", mkCentre "https://accounts.zoho.com.au" "https://mail.zoho.com.au");
   ("jp", mkCentre "https://accounts.zoho.jp" "https://mail.zoho.jp");
   ("ca", mkCentre "https://accounts.zohocloud.ca" "https://mail.zohocloud.ca");
   ("sa", mkCentre "https://accounts.zoho.sa" "https://mail.zoho.sa");
   ("uk", mkCentre "https://accounts.zoho.uk" "https://mail.zoho.uk")].

(** What every object inherits under a name in lower case. *)
Definition inherited (key : string) : bool :=
  bool_decide (key = "constructor") || bool_decide (key = "__proto__").

Definition SCOPES : list string := ["ZohoMail.accounts.READ"; "ZohoMail.messages.READ"].

Record Config := mkConfig {
  client_id : string;
  client_secret : string;
  redirect_uri : string;
  ZOHO_ACCOUNTS_DOMAIN : string;
}.

(** [DATA_CENTRES[key]] with its fields; an inherited value has neither, and
    [undefined] prints as such. *)
Definition lookup_centre (key : string) : option centre :=
  match List.find (fun kv => bool_decide (kv.1 = key)) DATA_CENTRES with
  | Some kv => Some kv.2
  | None => if inherited key then Some (mkCentre "undefined" "undefined") else None
  end.

Definition resolveLocation (location : option string) : result exn (string * centre) :=
  match location with
  | Some l =>
      if truthy l then
        let key := to_lower l in
        match lookup_centre key with
        | Some c => Ok (key, c)
        | None => Err (BadRequestException ("Unknown Zoho data centre '" +:+ l +:+ "'"))
        end
      else Err (BadRequestException
             "Zoho did not return a location; start authorization at accounts.zoho.com")
  | None => Err (BadRequestException
              "Zoho did not return a location; start authorization at accounts.zoho.com")
  end.

Definition meta (name : string) (m : list (string * string)) : option string :=
  snd <$> List.find (fun f => bool_decide (f.1 = name)) m.

(** [s.split(/[\s,]+/)] *)
Definition split_runs (s : string) : list string :=
  let pieces := split_by (fun c => is_blank c || ascii_eqb c ","%char) s in
  match pieces with
  | [] => []
  | first :: rest =>
      first :: List.filter truthy (take (length rest - 1) rest) ++ drop (length rest - 1) rest
  end.

Record ZohoMessage := mkZohoMessage { zm_messageId : string; zm_receivedTime : string }.

Definition zoho_message (x : json) : option ZohoMessage :=
  match string_field "messageId" x, string_field "receivedTime" x with
  | Some i, Some t => Some (mkZohoMessage i t)
  | _, _ => None
  end.

Definition view (start limit : Z) : string :=
  "/messages/view?start=" +:+ string_of_Z start +:+ "&limit=" +:+ string_of_Z limit
    +:+ "&sortBy=date&sortorder=false".

Section Provider.
Context {D : Type} (net : nat -> string -> list string -> result string Response) (config : Config).

Abbreviation M := (io (world D) exn).

Definition request (c : ProviderConnection) (path : string) : M Response :=
  let! where_ := of_result (resolveLocation (meta "location" (metadata c))) in
  let url := mail where_.2 +:+ "/api/accounts/" +:+ providerAccountId c +:+ path in
  try_catch (fetch net url ["Authorization: Zoho-oauthtoken " +:+ accessToken c])
    (fun error => throw (ServiceUnavailableException ("Zoho transport failure: " +:+ message error))).

(** The [data] of a response. *)
Definition handle (response : Response) : M (option json) :=
  if negb (ok response) then
    if rs_status response =? 401 then throw (UnauthorizedException "Zoho rejected the access token")
    else if rs_status response =? 429 then throw (ServiceUnavailableException "Zoho rate limit exceeded")
    else throw (BadGatewayException "Zoho API request failed")
  else let! body := json_body response in ret (field_of "data" body).

(** The messages of a view. *)
Definition handle_messages (response : Response) : M (list ZohoMessage) :=
  let! data := handle response in
  let! l := of_result (shape (as_list data)) in
  of_result (shape (all_of zoho_message l)).

Definition buildAuthorizationUrl (state : string) : string :=
  ZOHO_ACCOUNTS_DOMAIN config +:+ "/oauth/v2/auth?" +:+ URLSearchParams
    [("client_id", client_id config); ("redirect_uri", redirect_uri config);
     ("response_type", "code"); ("scope", str_join "," SCOPES); ("access_type", "offline");
     ("prompt", "consent"); ("state", state)].

(** What is wrong with the answer of the token endpoint, if anything. *)
Definition token_error (response : Response) (payload : json) : option exn :=
  let error := default "" (string_field "error" payload) in
  if negb (ok response) || truthy error
     || negb (otruthy (string_field "access_token" payload))
  then Some (if bool_decide (error = "invalid_grant") || bool_decide (error = "invalid_code")
             then ProviderAuthRevokedError "Zoho" error
             else BadGatewayException "Could not complete Zoho authorization")
  else None.

Definition postToken (accountsDomain : string) (fields : list (string * string)) : M json :=
  let! response := fetch net (accountsDomain +:+ "/oauth/v2/token")
    ["POST"; URLSearchParams (fields ++ [("client_id", client_id config);
                                         ("client_secret", client_secret config)])] in
  let! payload := json_body response in
  match token_error response payload with
  | Some e => throw e
  | None => ret payload
  end.

Definition toTokens (payload : json) : M OAuthTokens :=
  let! now := Date_now in
  let! token := of_result (shape (string_field "access_token" payload)) in
  let expires := default (inject_Z 3600) (as_number (field_of "expires_in" payload)) in
  let scope := default "" (string_field "scope" payload) in
  ret (mkOAuthTokens token (string_field "refresh_token" payload) (expiry now expires)
         (if truthy scope then split_runs scope else SCOPES)).

(** [String(accountId)] of a string or an integer. *)
Definition id_text (x : option json) : option string :=
  match x with
  | Some (JStr s) => Some s
  | Some (JNum q) => Some (string_of_Z (Qfloor q))
  | _ => None
  end.

Definition fetchIdentity (mailDomain accessToken : string) : M ProviderIdentity :=
  let! response := fetch net (mailDomain +:+ "/api/accounts")
    ["Authorization: Zoho-oauthtoken " +:+ accessToken] in
  if negb (ok response) then throw (BadGatewayException "Could not read the Zoho account")
  else
    let! body := json_body response in
    match list_field "data" body with
    | [] => throw (BadGatewayException "Zoho returned no accounts")
    | account :: _ =>
        of_result (shape (match id_text (field_of "accountId" account),
                                string_field "primaryEmailAddress" account with
                          | Some i, Some e => Some (mkIdentity i e)
                          | _, _ => None
                          end))
    end.

Definition exchangeCode (code : string) (params : list (string * string)) : M ConnectResult :=
  let! where_ := of_result (resolveLocation (meta "location" params)) in
  let! payload := postToken (accounts where_.2)
    [("code", code); ("redirect_uri", redirect_uri config); ("grant_type", "authorization_code")] in
  let! ts := toTokens payload in
  let! identity := fetchIdentity (mail where_.2) (t_accessToken ts) in
  ret (mkConnectResult ts identity (Some [("location", where_.1)])).

Definition refreshAccessToken (refreshToken : string) (md : ProviderMetadata) : M OAuthTokens :=
  let! where_ := of_result (resolveLocation (meta "location" md)) in
  let! payload := postToken (accounts where_.2)
    [("refresh_token", refreshToken); ("grant_type", "refresh_token")] in
  toTokens payload.

Definition getProfile (c : ProviderConnection) : M ProviderProfile :=
  let! where_ := of_result (resolveLocation (meta "location" (metadata c))) in
  let! identity := fetchIdentity (mail where_.2) (accessToken c) in
  let! response := request c (view 1 1) in
  let! data := handle_messages response in
  ret (mkProfile (i_emailAddress identity)
         (match data with newest :: _ => zm_receivedTime newest | [] => "0" end)).

(** [Number(pageToken ?? '1')] *)
Definition page_start (pageToken : option string) : result exn Z := shape (Number (default "1" pageToken)).

Definition listMessageIds (c : ProviderConnection) (pageToken : option string) (maxResults : Z) :
  M MessageListPage :=
  let! start := of_result (page_start pageToken) in
  let limit := Z.min maxResults 200 in
  let! response := request c (view start limit) in
  let! data := handle_messages response in
  ret (mkListPage (List.map zm_messageId data)
         (if Z.of_nat (length data) =? limit then Some (string_of_Z (start + limit)) else None)).

(** [Number(message.receivedTime) >= since]; a comparison with [NaN] is false. *)
Definition at_or_after (since : option Z) (m : ZohoMessage) : bool :=
  match Number (zm_receivedTime m), since with Some t, Some s => s <=? t | _, _ => false end.

Definition listChangedMessageIds (c : ProviderConnection) (cursor : string)
    (pageToken : option string) : M MessageChangePage :=
  let since := Number cursor in
  let! start := of_result (page_start pageToken) in
  let limit := 200 in
  let! response := request c (view start limit) in
  let! data := handle_messages response in
  let fresh := List.filter (at_or_after since) data in
  ret (mkChangePage (List.map zm_messageId fresh)
         (if Nat.eqb (length fresh) (length data) && (Z.of_nat (length data) =? limit)
          then Some (string_of_Z (start + limit)) else None)
         (if start =? 1 then zm_receivedTime <$> List.hd_error data else None) false).

Definition fetchRawMessage (c : ProviderConnection) (providerMessageId : string) :
  M (option RawMessage) :=
  let! response := request c ("/messages/" +:+ providerMessageId +:+ "/originalmessage") in
  if rs_status response =? 404 then ret None
  else
    let! data := handle response in
    match data with
    | Some d =>
        let! content := of_result (shape (string_field "content" d)) in
        ret (Some (mkRawMessage providerMessageId None [] None None None content))
    | None => throw (TypeError "Cannot read properties of undefined")
    end.

Definition provider : MailProviderAdapter D :=
  mkAdapter SCOPES buildAuthorizationUrl exchangeCode refreshAccessToken getProfile
    listMessageIds listChangedMessageIds fetchRawMessage.
End Provider.
End Zoho.

(** ** Both talk to the outside only *)

Section Outside.
Context {D : Type} (net : nat -> string -> list string -> result string Response).

Lemma outside_result {A} (r : result exn A) : outside (D := D) (of_result r).
Proof. by destruct r. Qed.

Lemma outside_fetch (url : string) (init : list string) : outside (D := D) (fetch net url init).
Proof. unfold fetch. destruct (starts_with _ url); [apply outside_ask|apply outside_throw]. Qed.

Lemma outside_json (r : Response) : outside (D := D) (json_body r).
Proof. unfold json_body. destruct (JSON_parse _) as [[]|]; done. Qed.
End Outside.

#[export] Hint Resolve outside_result outside_fetch outside_json : outside.

(** Every match of a program that talks to the outside. *)
Ltac outside_tac :=
  repeat first [progress auto with outside | intros ?
               | apply outside_bind | apply outside_try | case_match].

#[export] Instance gmail_laws {D : Type} (net : nat -> string -> list string -> result string Response)
  (config : Gmail.Config) : AdapterLaws (Gmail.provider (D := D) net config).
Proof.
  split; intros; unfold Gmail.provider, Gmail.exchangeCode, Gmail.refreshAccessToken, Gmail.getProfile,
    Gmail.listMessageIds, Gmail.listChangedMessageIds, Gmail.fetchRawMessage, Gmail.apiGet,
    Gmail.request, Gmail.handle, Gmail.postToken, Gmail.toTokens; cbn [exchangeCode refreshAccessToken
    getProfile listMessageIds listChangedMessageIds fetchRawMessage]; outside_tac.
Qed.

#[export] Instance zoho_laws {D : Type} (net : nat -> string -> list string -> result string Response)
  (config : Zoho.Config) : AdapterLaws (Zoho.provider (D := D) net config).
Proof.
  split; intros; unfold Zoho.provider, Zoho.exchangeCode, Zoho.refreshAccessToken, Zoho.getProfile,
    Zoho.listMessageIds, Zoho.listChangedMessageIds, Zoho.fetchRawMessage, Zoho.handle_messages,
    Zoho.request, Zoho.handle, Zoho.postToken, Zoho.toTokens, Zoho.fetchIdentity; cbn [exchangeCode
    refreshAccessToken getProfile listMessageIds listChangedMessageIds fetchRawMessage]; outside_tac.
Qed.

(** ** Where Zoho's tokens go *)

Definition of_table (url : string) : Prop :=
  exists key c, (key, c) ∈ Zoho.DATA_CENTRES /\
    (starts_with (Zoho.accounts c +:+ "/") url = true \/ starts_with (Zoho.mail c +:+ "/") url = true).

(** A step that asks nothing of the outside, or makes a request to [P]. *)
Definition asks_only {D} (P : string -> Prop) (w w' : world D) : Prop :=
  calls w' = calls w \/ exists url init, calls w' = ("fetch", url :: init) :: calls w /\ P url.

Section Hosts.
Context {D : Type} (net : nat -> string -> list string -> result string Response).

Abbreviation only := (each_step (S := world D) (asks_only of_table)).

Lemma only_now : only (Date_now : io (world D) exn Z).
Proof. apply each_step_perform. intros w. by left. Qed.

Lemma only_result {A} (r : result exn A) : only (of_result r).
Proof. by destruct r. Qed.

Lemma only_json (r : Response) : only (json_body r).
Proof. unfold json_body. destruct (JSON_parse _) as [[]|]; done. Qed.

Lemma only_throw {A} (e : exn) : only (throw e : io (world D) exn A).
Proof. done. Qed.

Lemma only_ret {A} (a : A) : only (ret a : io (world D) exn A).
Proof. done. Qed.

Lemma only_bind {A B} (m : io (world D) exn A) (k : A -> io (world D) exn B) :
  only m -> (forall a, only (k a)) -> only (io_bind m k).
Proof. apply each_step_bind. Qed.

Lemma only_try {A} (m : io (world D) exn A) (h : exn -> io (world D) exn A) :
  only m -> (forall e, only (h e)) -> only (try_catch m h).
Proof. apply each_step_try. Qed.

(** A bind on the data centre: what is known of it goes on. *)
Lemma only_located {B} (l : option string) (k : string * Zoho.centre -> io (world D) exn B) :
  (forall key c, Zoho.resolveLocation l = Ok (key, c) -> only (k (key, c))) ->
  only (io_bind (of_result (Zoho.resolveLocation l)) k).
Proof.
  intros Hk. destruct (Zoho.resolveLocation l) as [[key c]|e]; [|done].
  change (only (k (key, c))). by apply Hk.
Qed.

Lemma located (l : option string) (key : string) (c : Zoho.centre) :
  Zoho.resolveLocation l = Ok (key, c) ->
  (key, c) ∈ Zoho.DATA_CENTRES \/ (Zoho.accounts c = "undefined" /\ Zoho.mail c = "undefined").
Proof.
  unfold Zoho.resolveLocation. destruct l as [l|]; [|done]. destruct (truthy l); [|done].
  unfold Zoho.lookup_centre. destruct (List.find _ Zoho.DATA_CENTRES) as [[k c']|] eqn:E.
  - intros [= <- <-]. left. apply List.find_some in E as [Hin Hk%bool_decide_eq_true].
    simpl in Hk. subst k. by rewrite list_elem_of_In.
  - destruct (Zoho.inherited (to_lower l)); [|done]. intros [= <- <-]. by right.
Qed.

Lemma only_fetch (base rest : string) (init : list string) (key : string) (c : Zoho.centre) :
  (key, c) ∈ Zoho.DATA_CENTRES \/ (Zoho.accounts c = "undefined" /\ Zoho.mail c = "undefined") ->
  base = Zoho.accounts c \/ base = Zoho.mail c ->
  only (fetch net (base +:+ String "/" rest) init).
Proof.
  intros Hc Hb. unfold fetch. destruct (starts_with "https://" _) eqn:Hs; [|done].
  destruct Hc as [Hc|[Ha Hm]].
  - apply each_step_perform. intros w. right. eexists _, _. split; [done|].
    exists key, c. split; [done|]. change (String "/" rest) with ("/" +:+ rest).
    rewrite <- append_assoc. destruct Hb as [-> | ->]; [left|right]; apply starts_with_append.
  - exfalso. destruct Hb as [-> | ->]; [rewrite Ha in Hs|rewrite Hm in Hs]; discriminate Hs.
Qed.
End Hosts.

Create HintDb hosts.
#[export] Hint Resolve only_now only_result only_json only_throw only_ret : hosts.

Ltac hosts_tac :=
  repeat first [ progress auto with hosts
               | match goal with H : Zoho.resolveLocation _ = Ok _ |- each_step _ (fetch _ _ _) =>
                   eapply only_fetch; [by eapply located|auto] end
               | apply only_located; intros ? ? ? | apply only_bind; [|intros ?]
               | apply only_try; [|intros ?] | case_match ].

(** Whatever the provider answers and whatever location a redirect named,
    every request the Zoho adapter makes goes to a data centre of its table; the
    tokens, the grant and the client secret leave the process for nowhere else. *)
Theorem zoho_stays_in_table {D : Type} (net : nat -> string -> list string -> result string Response)
    (config : Zoho.Config) (c : ProviderConnection) (code t i cursor : string)
    (params : list (string * string)) (md : ProviderMetadata) (page : option string) (n : Z) :
  let only {A} (p : io (world D) exn A) := each_step (asks_only of_table) p in
  let zoho := Zoho.provider net config in
  only (exchangeCode zoho code params) /\ only (refreshAccessToken zoho t md) /\
  only (getProfile zoho c) /\ only (listMessageIds zoho c page n) /\
  only (listChangedMessageIds zoho c cursor page) /\ only (fetchRawMessage zoho c i).
Proof.
  cbv zeta. unfold Zoho.provider, Zoho.exchangeCode, Zoho.refreshAccessToken, Zoho.getProfile,
    Zoho.listMessageIds, Zoho.listChangedMessageIds, Zoho.fetchRawMessage, Zoho.handle_messages,
    Zoho.request, Zoho.handle, Zoho.postToken, Zoho.toTokens, Zoho.fetchIdentity; cbn [exchangeCode
    refreshAccessToken getProfile listMessageIds listChangedMessageIds fetchRawMessage].
  repeat split; hosts_tac.
Qed.

(** ** When a grant is gone *)

Section Revoked.
Context {D : Type} (net : nat -> string -> list string -> result string Response).

Lemma run_fetch (url : string) (init : list string) (w : world D) :
  starts_with "https://" url = true ->
  exists w', run (fetch net url init) w =
    (match net (length (calls w)) url init with
     | Ok r => Ok r
     | Err cause => Err (TypeError cause)
     end, w').
Proof. intros Hu. unfold fetch. rewrite Hu, run_ask. by eexists. Qed.

(** [m] never says that a grant is gone. *)
Definition never_revoked {A} (m : io (world D) exn A) : Prop :=
  forall w p d, (run m w).1 <> Err (ProviderAuthRevokedError p d).

Lemma never_bind {A B} (m : io (world D) exn A) (k : A -> io (world D) exn B) :
  never_revoked m -> (forall a, never_revoked (k a)) -> never_revoked (io_bind m k).
Proof.
  intros Hm Hk w p d. rewrite run_bind. specialize (Hm w p d).
  destruct (run m w) as [[a|e] w']; [apply Hk|]. simpl in *. congruence.
Qed.

Lemma never_shape {A} (o : option A) : never_revoked (of_result (shape o)).
Proof. intros w p d. by destruct o. Qed.

Lemma never_now : never_revoked (Date_now : io (world D) exn Z).
Proof. by intros w p d. Qed.

Lemma never_ret {A} (a : A) : never_revoked (ret a).
Proof. by intros w p d. Qed.

Lemma never_json (r : Response) : never_revoked (json_body r).
Proof.
  intros w p d. unfold json_body, JSON_parse. destruct (parse_value _ _) as [[x rest]|]; [|done].
  destruct (truthy _); [done|]. by destruct x.
Qed.

Lemma never_gmail_tokens (payload : json) : never_revoked (Gmail.toTokens payload).
Proof. unfold Gmail.toTokens. eauto 10 using never_bind, never_shape, never_now, never_ret. Qed.

Lemma never_zoho_tokens (payload : json) : never_revoked (Zoho.toTokens payload).
Proof. unfold Zoho.toTokens. eauto 10 using never_bind, never_shape, never_now, never_ret. Qed.

Lemma token_error_revoked (r : Response) (x : json) (p d : string) :
  Zoho.token_error r x = Some (ProviderAuthRevokedError p d) <->
  p = "Zoho" /\ (d = "invalid_grant" \/ d = "invalid_code") /\ string_field "error" x = Some d.
Proof.
  unfold Zoho.token_error. destruct (string_field "error" x) as [e|] eqn:E; simpl.
  - split.
    + destruct (_ || _ || _); [|done]. destruct (_ || _) eqn:Hd; [|done]. intros [= <- <-].
      apply orb_true_iff in Hd as [Hd%bool_decide_eq_true|Hd%bool_decide_eq_true]; auto.
    + intros (-> & Hd & [= ->]). assert (truthy d = true) as -> by (by destruct Hd as [-> | ->]).
      rewrite orb_true_r. simpl. by destruct Hd as [-> | ->].
  - split; [|by intros (_ & _ & ?)]. destruct (_ || _); [|done]. by intros [= <- <-].
Qed.

Lemma run_json_body (r : Response) (w : world D) :
  (exists x, JSON_parse (rs_body r) = Ok x /\ x <> JNull /\ run (json_body r) w = (Ok x, w)) \/
  (exists e, run (json_body r) w = (Err e, w) /\
     (forall x, JSON_parse (rs_body r) = Ok x -> x = JNull)).
Proof.
  unfold json_body. destruct (JSON_parse (rs_body r)) as [x|e]; [|right; exists e; by split].
  destruct x; try (left; eexists; split; [done|]; by split). right. eexists. split; [done|]. by intros x [= <-].
Qed.

(** What the token endpoints are sent to refresh. *)
Definition gmail_refresh_init (config : Gmail.Config) (t : string) : list string :=
  ["POST"; URLSearchParams [("refresh_token", t); ("grant_type", "refresh_token");
    ("client_id", Gmail.client_id config); ("client_secret", Gmail.client_secret config)]].

Definition zoho_refresh_init (config : Zoho.Config) (t : string) : list string :=
  ["POST"; URLSearchParams [("refresh_token", t); ("grant_type", "refresh_token");
    ("client_id", Zoho.client_id config); ("client_secret", Zoho.client_secret config)]].

(** Refreshing a token reports the grant gone exactly when the provider said
    so: Google by a failure that names invalid_grant, Zoho by an error of
    invalid_grant or invalid_code in a body of any status.  A provider that is
    down, slow or unreadable never disables an account. *)
Theorem revoked_only_when_told (gconfig : Gmail.Config) (zconfig : Zoho.Config) (t : string)
    (md : ProviderMetadata) (key : string) (centre : Zoho.centre) (w : world D) :
  Zoho.resolveLocation (Zoho.meta "location" md) = Ok (key, centre) ->
  starts_with "https://" (Zoho.accounts centre +:+ "/oauth/v2/token") = true ->
  (forall p d, (run (refreshAccessToken (Gmail.provider net gconfig) t md) w).1 =
       Err (ProviderAuthRevokedError p d) <->
     (p, d) = ("Google", "invalid_grant") /\
     exists r, net (length (calls w)) Gmail.TOKEN_ENDPOINT (gmail_refresh_init gconfig t) = Ok r /\
       ok r = false /\ includes "invalid_grant" (rs_body r) = true) /\
  (forall p d, (run (refreshAccessToken (Zoho.provider net zconfig) t md) w).1 =
       Err (ProviderAuthRevokedError p d) <->
     p = "Zoho" /\ (d = "invalid_grant" \/ d = "invalid_code") /\
     exists r x, net (length (calls w)) (Zoho.accounts centre +:+ "/oauth/v2/token")
         (zoho_refresh_init zconfig t) = Ok r /\
       JSON_parse (rs_body r) = Ok x /\ string_field "error" x = Some d).
Proof.
  intros Hloc Hhttps. split; intros p d.
  - cbn [Gmail.provider refreshAccessToken]. unfold Gmail.refreshAccessToken, Gmail.postToken.
    rewrite !run_bind. destruct (run_fetch Gmail.TOKEN_ENDPOINT (gmail_refresh_init gconfig t) w eq_refl)
      as [w1 E]. unfold gmail_refresh_init in E. simpl app. rewrite E. unfold gmail_refresh_init.
    destruct (net _ _ _) as [r|cause]; [|split; [done|by intros (_ & r & ? & _)]].
    destruct (ok r) eqn:Hok; cbn [negb].
    + split; [|intros (_ & r' & [= <-] & Hok' & _); congruence]. intros Hr. exfalso.
      pose proof (never_bind (json_body r) Gmail.toTokens (never_json r) never_gmail_tokens w1 p d) as Hn.
      by rewrite run_bind in Hn.
    + destruct (includes _ _) eqn:Hi; rewrite run_throw; simpl.
      * split; [intros [= <- <-]; split; [done|]; by exists r|by intros ([= -> ->] & _)].
      * split; [done|]. intros (_ & r' & [= <-] & _ & Hi'). congruence.
  - cbn [Zoho.provider refreshAccessToken]. unfold Zoho.refreshAccessToken, Zoho.postToken.
    rewrite !run_bind, Hloc. cbn [of_result]. rewrite run_ret, !run_bind. cbn [snd].
    destruct (run_fetch (Zoho.accounts centre +:+ "/oauth/v2/token") (zoho_refresh_init zconfig t) w Hhttps)
      as [w1 E]. unfold zoho_refresh_init in E. simpl app. rewrite E. unfold zoho_refresh_init.
    destruct (net _ _ _) as [r|cause]; [|split; [done|by intros (_ & _ & r & x & ? & _)]].
    rewrite ?run_bind. destruct (run_json_body r w1) as [(x & Hx & _ & Hrun)|(e & Hrun & Hnull)].
    + rewrite Hrun. destruct (Zoho.token_error r x) as [e|] eqn:He.
      * rewrite run_throw. simpl. split.
        { intros [= ->]. apply token_error_revoked in He as (-> & Hd & Hs). eauto 10. }
        { intros (-> & Hd & r' & x' & [= <-] & Hx' & Hs). rewrite Hx in Hx'. injection Hx' as <-.
          pose proof (proj2 (token_error_revoked r x "Zoho" d) (conj eq_refl (conj Hd Hs))). congruence. }
      * rewrite run_ret. split; [intros Hr; by apply never_zoho_tokens in Hr|].
        intros (-> & Hd & r' & x' & [= <-] & Hx' & Hs). rewrite Hx in Hx'. injection Hx' as <-.
        pose proof (proj2 (token_error_revoked r x "Zoho" d) (conj eq_refl (conj Hd Hs))). congruence.
    + split.
      * intros Hr. pose proof (never_json r w1 p d) as Hn. rewrite Hrun in Hn, Hr. simpl in *. congruence.
      * intros (_ & _ & r' & x' & [= <-] & Hx'%Hnull & Hs). subst x'. discriminate Hs.
Qed.
End Revoked.

(** ** A run over a Zoho mailbox *)

Definition zoho_json (m : Zoho.ZohoMessage) : json :=
  JObj [("messageId", JStr (Zoho.zm_messageId m)); ("receivedTime", JStr (Zoho.zm_receivedTime m))].

(** The body of a view that lists [l]. *)
Definition zoho_body (l : list Zoho.ZohoMessage) : string :=
  JSON_stringify (JObj [("data", JArr (List.map zoho_json l))]).

(** Newest first, and times that are numbers. *)
Definition newest_first (l : list Zoho.ZohoMessage) : Prop :=
  StronglySorted (fun a b => forall s, Zoho.at_or_after (Some s) b = true ->
                                       Zoho.at_or_after (Some s) a = true) l /\
  Forall (fun m => exists n, Number (Zoho.zm_receivedTime m) = Some n) l.

Lemma filter_take_sorted (since : option Z) (n : nat) (l : list Zoho.ZohoMessage) :
  newest_first l ->
  List.filter (Zoho.at_or_after since) (take n l) = take n (List.filter (Zoho.at_or_after since) l).
Proof.
  intros [Hs _]. assert (forall x y, Zoho.at_or_after since y = true ->
    (forall s, Zoho.at_or_after (Some s) y = true -> Zoho.at_or_after (Some s) x = true) ->
    Zoho.at_or_after since x = true) as Hstep.
  { intros x y Hy H. destruct since as [s|]; [by apply H|].
    unfold Zoho.at_or_after in Hy. by destruct (Number _). }
  revert n. induction Hs as [|x l Hl IH Hx]; intros [|n]; try done. simpl.
  destruct (Zoho.at_or_after since x) eqn:E; [by rewrite IH|]. rewrite IH.
  assert (List.filter (Zoho.at_or_after since) l = []) as ->; [|by destruct n].
  clear -Hx Hstep E. induction l as [|y l IHl]; [done|]. apply Forall_cons in Hx as [Hy Hx]. simpl.
  destruct (Zoho.at_or_after since y) eqn:Ey; [|by apply IHl].
  by rewrite (Hstep x y Ey Hy) in E.
Qed.

Lemma zoho_body_printable (l : list Zoho.ZohoMessage) :
  printable (JObj [("data", JArr (List.map zoho_json l))]).
Proof.
  split; [apply (bool_decide_unpack _); vm_compute; exact I|]. split; [|done]. simpl.
  induction l as [|m l IH]; [done|]. simpl. split; [|done].
  split; [apply (bool_decide_unpack _); vm_compute; exact I|by repeat split].
Qed.

Lemma all_zoho (l : list Zoho.ZohoMessage) : all_of Zoho.zoho_message (List.map zoho_json l) = Some l.
Proof. induction l as [|[i t] l IH]; [done|]. simpl. by rewrite IH. Qed.

Lemma sublist_List_filter {A} (p : A -> bool) (l : list A) : List.filter p l `sublist_of` l.
Proof.
  induction l as [|x l IH]; [constructor|]. simpl. destruct (p x); by constructor.
Qed.

Lemma NoDup_map_sublist {A B} (f : A -> B) (l l' : list A) :
  l' `sublist_of` l -> NoDup (List.map f l) -> NoDup (List.map f l').
Proof.
  intros Hs. assert (List.map f l' `sublist_of` List.map f l) as Hm by (induction Hs; simpl; by constructor).
  intros Hnd. by eapply sublist_NoDup.
Qed.

Section Window.
Context {D : Type} (net : nat -> string -> list string -> result string Response).
Context (config : Zoho.Config).

Lemma run_zoho_messages (l : list Zoho.ZohoMessage) (w : world D) :
  run (Zoho.handle_messages (mkResponse 200 (zoho_body l))) w = (Ok l, w).
Proof.
  unfold Zoho.handle_messages, Zoho.handle, json_body, zoho_body. cbn [ok rs_status rs_body negb].
  change (ok (mkResponse 200 _)) with true. cbn [negb].
  rewrite JSON_parse_stringify by apply zoho_body_printable.
  rewrite !run_bind, !run_ret, run_bind.
  change (as_list (field_of "data" _)) with (Some (List.map zoho_json l)).
  cbn [shape of_result]. by rewrite run_ret, all_zoho.
Qed.

Lemma run_zoho_request (c : ProviderConnection) (path key : string) (centre : Zoho.centre)
    (r : Response) (w : world D) :
  let url := Zoho.mail centre +:+ "/api/accounts/" +:+ providerAccountId c +:+ path in
  Zoho.resolveLocation (Zoho.meta "location" (metadata c)) = Ok (key, centre) ->
  starts_with "https://" url = true ->
  net (length (calls w)) url ["Authorization: Zoho-oauthtoken " +:+ accessToken c] = Ok r ->
  exists w', run (Zoho.request net c path) w = (Ok r, w').
Proof.
  intros url Hloc Hu Hnet. unfold Zoho.request. rewrite run_bind, Hloc. cbn [of_result].
  rewrite run_ret, run_try. cbn [snd]. fold url.
  destruct (run_fetch net url ["Authorization: Zoho-oauthtoken " +:+ accessToken c] w Hu) as [w' E].
  rewrite E, Hnet. by exists w'.
Qed.

(** The first page of changes. *)
Lemma run_zoho_changes (c : ProviderConnection) (cursor key : string) (centre : Zoho.centre)
    (mailbox : list Zoho.ZohoMessage) (w : world D) :
  let url := Zoho.mail centre +:+ "/api/accounts/" +:+ providerAccountId c +:+ Zoho.view 1 200 in
  let data := take MAX_IDS_PER_RUN mailbox in
  let fresh := List.filter (Zoho.at_or_after (Number cursor)) data in
  Zoho.resolveLocation (Zoho.meta "location" (metadata c)) = Ok (key, centre) ->
  starts_with "https://" url = true ->
  net (length (calls w)) url ["Authorization: Zoho-oauthtoken " +:+ accessToken c] =
    Ok (mkResponse 200 (zoho_body data)) ->
  exists w', run (listChangedMessageIds (Zoho.provider net config) c cursor None) w =
    (Ok (mkChangePage (List.map Zoho.zm_messageId fresh)
           (if Nat.eqb (length fresh) (length data) && (Z.of_nat (length data) =? 200)
            then Some "201" else None)
           (Zoho.zm_receivedTime <$> List.hd_error data) false), w').
Proof.
  intros url data fresh Hloc Hu Hnet.
  cbn [Zoho.provider listChangedMessageIds]. unfold Zoho.listChangedMessageIds.
  rewrite run_bind. change (Zoho.page_start None) with (Ok (E := exn) 1). cbn [of_result].
  rewrite run_ret, run_bind.
  destruct (run_zoho_request c (Zoho.view 1 200) key centre _ w Hloc Hu Hnet) as [w' E].
  rewrite E, run_bind, run_zoho_messages, run_ret. by exists w'.
Qed.

Lemma add_ids_fresh (acc ids : list string) :
  NoDup (acc ++ ids) -> add_ids acc ids = acc ++ ids.
Proof.
  revert acc. induction ids as [|i ids IH]; intros acc Hnd; [by rewrite app_nil_r|].
  unfold add_ids. simpl. apply NoDup_app in Hnd as Hs. destruct Hs as (_ & Hd & _).
  rewrite bool_decide_eq_false_2.
  - fold (add_ids (acc ++ [i]) ids). rewrite IH by (by rewrite <- app_assoc). by rewrite <- app_assoc.
  - intros Hi. apply (Hd i Hi). by left.
Qed.

End Window.

(** An incremental sync of a Zoho mailbox collects the messages received at or
    after its cursor, newest first, but two hundred at most; the cursor it goes on
    with is the newest message's all the same. *)
Theorem zoho_run_takes_200 {TA TM : Type}
    (net : nat -> string -> list string -> result string Response) (config : Zoho.Config) (fuel : nat)
    (c : ProviderConnection) (cursor key : string) (since : Z) (centre : Zoho.centre)
    (newest : Zoho.ZohoMessage) (older : list Zoho.ZohoMessage) (w : world (mail_db TA TM)) :
  let mailbox := newest :: older in
  let url := Zoho.mail centre +:+ "/api/accounts/" +:+ providerAccountId c +:+ Zoho.view 1 200 in
  let fresh := List.filter (Zoho.at_or_after (Some since)) mailbox in
  newest_first mailbox -> NoDup (List.map Zoho.zm_messageId mailbox) ->
  Number cursor = Some since ->
  Zoho.resolveLocation (Zoho.meta "location" (metadata c)) = Ok (key, centre) ->
  starts_with "https://" url = true ->
  net (length (calls w)) url ["Authorization: Zoho-oauthtoken " +:+ accessToken c] =
    Ok (mkResponse 200 (zoho_body (take MAX_IDS_PER_RUN mailbox))) ->
  exists w', run (collect (S fuel) (Zoho.provider net config) c cursor None [] cursor) w =
    (Ok (Changes (List.map Zoho.zm_messageId (take MAX_IDS_PER_RUN fresh))
           (Zoho.zm_receivedTime newest)), w').
Proof.
  intros mailbox url fresh Hsorted Hnd Hcursor Hloc Hu Hnet.
  destruct (run_zoho_changes net config c cursor key centre mailbox w Hloc Hu Hnet) as [w' E].
  rewrite Hcursor, filter_take_sorted in E by done. fold fresh in E.
  exists w'. cbn [collect]. rewrite run_bind, E. cbn [cp_cursorInvalid cp_messageIds cp_cursor cp_nextPageToken].
  assert (NoDup (List.map Zoho.zm_messageId (take MAX_IDS_PER_RUN fresh))) as Hndf
    by (apply (NoDup_map_sublist _ mailbox); [etransitivity; [apply sublist_take|apply sublist_List_filter]|done]).
  rewrite add_ids_fresh by (by rewrite app_nil_l). rewrite app_nil_l, length_map.
  change (Zoho.zm_receivedTime <$> List.hd_error (take MAX_IDS_PER_RUN mailbox))
    with (Some (Zoho.zm_receivedTime newest)).
  destruct (proj1 (Forall_cons _ _ _) (proj2 Hsorted)) as [[n Hn] _].
  unfold Number in Hn. destruct (truthy (Zoho.zm_receivedTime newest)); [|done].
  destruct (otruthy _ && Nat.ltb _ _) eqn:Hmore; [|by rewrite run_ret].
  exfalso. apply andb_true_iff in Hmore as [Hfull Hlt]. apply Nat.ltb_lt in Hlt.
  destruct (Nat.eqb _ _ && _) eqn:Hpage; [|done]. apply andb_true_iff in Hpage as [Heq H200].
  apply Nat.eqb_eq in Heq. apply Z.eqb_eq in H200. unfold MAX_IDS_PER_RUN in *. lia.
Qed.

(** ** A concrete network *)

Module Net.
Definition config : Zoho.Config := Zoho.mkConfig "id" "secret" "https://app/callback" "https://accounts.zoho.com".
Definition gconfig : Gmail.Config := Gmail.mkConfig "id" "secret" "https://app/callback".

Definition connection : ProviderConnection := mkConnection "token" "42" [("location", "EU")].

Definition mailbox : list Zoho.ZohoMessage :=
  [Zoho.mkZohoMessage "m3" "300"; Zoho.mkZohoMessage "m2" "200"; Zoho.mkZohoMessage "m1" "100"].

(** Every view lists the mailbox, and every grant is gone. *)
Definition net (n : nat) (url : string) (init : list string) : result string Response :=
  if includes "/messages/view" url then Ok (mkResponse 200 (zoho_body (take MAX_IDS_PER_RUN mailbox)))
  else Ok (mkResponse 400 (JSON_stringify (JObj [("error", JStr "invalid_grant")]))).

Lemma sorted : newest_first mailbox.
Proof.
  split; [|repeat constructor; by eexists].
  repeat apply SSorted_cons; try apply SSorted_nil; repeat (apply Forall_cons; split);
    try apply Forall_nil; try exact I; intros s; unfold Zoho.at_or_after;
    cbn [Zoho.zm_receivedTime]; change (Number "100") with (Some 100);
    change (Number "200") with (Some 200); change (Number "300") with (Some 300);
    rewrite !Z.leb_le; lia.
Qed.
End Net.

Lemma zoho_run_takes_200_witness :
  exists w', run (collect 1 (Zoho.provider Net.net Net.config) Net.connection "200" None [] "200") Vault.w0 =
    (Ok (Changes ["m3"; "m2"] "300"), w').
Proof.
  apply (zoho_run_takes_200 Net.net Net.config 0 Net.connection "200" "eu" 200
    (Zoho.mkCentre "https://accounts.zoho.eu" "https://mail.zoho.eu")
    (Zoho.mkZohoMessage "m3" "300") [Zoho.mkZohoMessage "m2" "200"; Zoho.mkZohoMessage "m1" "100"] Vault.w0).
  - exact Net.sorted.
  - apply (bool_decide_unpack _). vm_compute. exact I.
  - reflexivity.
  - reflexivity.
  - reflexivity.
  - reflexivity.
Defined.

Lemma revoked_only_when_told_witness :
  (run (refreshAccessToken (Zoho.provider Net.net Net.config) "grant" [("location", "EU")]) Vault.w0).1 =
    Err (ProviderAuthRevokedError "Zoho" "invalid_grant").
Proof.
  apply (revoked_only_when_told Net.net Net.gconfig Net.config "grant" [("location", "EU")] "eu"
    (Zoho.mkCentre "https://accounts.zoho.eu" "https://mail.zoho.eu") Vault.w0).
  - reflexivity.
  - reflexivity.
  - split; [reflexivity|]. split; [left; reflexivity|].
    exists (mkResponse 400 (JSON_stringify (JObj [("error", JStr "invalid_grant")]))).
    eexists. split; [vm_compute; reflexivity|]. split; vm_compute; reflexivity.
Defined.
