(* ===== verification/SyncEvents.v ===== *)
(** * Sync events, from the queue to the browser

    [services/email-ingestion]: [queue/sync-events.service.ts] and the [events]
    route of [accounts/accounts.controller.ts].  [apps/web]: [api/sse.ts] and
    [accounts/useSyncEvents.ts]. *)

From S2P Require Import Prelude Js World Json.

Local Open Scope Z_scope.

Definition LF : string := String (Ascii.ascii_of_nat 10) "".
Definition CR : Ascii.ascii := Ascii.ascii_of_nat 13.

Inductive SyncOutcomeKind := completed | failed.

#[export] Instance kind_eq_dec : EqDecision SyncOutcomeKind.
Proof. solve_decision. Defined.

Definition kind_name (k : SyncOutcomeKind) : string :=
  match k with completed => "completed" | failed => "failed" end.

Record SyncEvent := mkSyncEvent { se_accountId : string; se_outcome : SyncOutcomeKind }.

Definition event_json (e : SyncEvent) : json :=
  JObj [("accountId", JStr (se_accountId e)); ("outcome", JStr (kind_name (se_outcome e)))].

(** ** The server: the subscribers of one process *)

(** An open or closed event stream: the accounts its user owned when it was
    opened, and what was written to it. *)
Record stream := mkStream { st_owned : list string; st_listening : bool; st_text : string }.

Abbreviation hub := (gmap nat stream).

Definition write (t : string) (s : stream) : stream :=
  mkStream (st_owned s) (st_listening s) (st_text s +:+ t).

Definition connected : string := ": connected" +:+ LF +:+ LF.
Definition ping : string := ": ping" +:+ LF +:+ LF.

Definition event_frame (e : SyncEvent) : string :=
  "event: sync" +:+ LF +:+ "data: " +:+ JSON_stringify (event_json e) +:+ LF +:+ LF.

(** The listener of a stream. *)
Definition on_sync (e : SyncEvent) (s : stream) : stream :=
  if st_listening s && bool_decide (se_accountId e ∈ st_owned s) then write (event_frame e) s else s.

(** The account a job is for. *)
Definition account_of_job (jobId : string) : option string :=
  if starts_with "sync-" jobId then or_undefined (sdrop 5 jobId) else None.

Definition publish (jobId : string) (outcome : SyncOutcomeKind) (h : hub) : hub :=
  match account_of_job jobId with
  | None => h
  | Some accountId => on_sync (mkSyncEvent accountId outcome) <$> h
  end.

Inductive hub_event :=
| Opens (i : nat) (owned : list string)    (* the route, once [listForUser] answered *)
| Publishes (jobId : string) (outcome : SyncOutcomeKind)
| Heartbeat (i : nat)
| Closes (i : nat).

Definition hub_step (h : hub) (ev : hub_event) : hub :=
  match ev with
  | Opens i owned => <[i := mkStream owned true connected]> h
  | Publishes jobId outcome => publish jobId outcome h
  | Heartbeat i => alter (fun s => if st_listening s then write ping s else s) i h
  | Closes i => alter (fun s => mkStream (st_owned s) false (st_text s)) i h
  end.

Definition hub_run (h : hub) (evs : list hub_event) : hub := fold_left hub_step evs h.

(** ** The client: api/sse.ts *)

(** [s.indexOf('\n\n')] and what is before and after it. *)
Definition cut_frame (s : string) : option (string * string) :=
  match index_of (LF +:+ LF) s with
  | None => None
  | Some boundary => Some (stake boundary s, sdrop (boundary + 2) s)
  end.

(** The loop of [splitFrames]; every turn takes at least the separator. *)
Fixpoint split_loop (fuel : nat) (frames : list string) (rest : string) : list string * string :=
  match fuel with
  | O => (frames, rest)
  | S fuel' =>
      match cut_frame rest with
      | None => (frames, rest)
      | Some (frame, rest') => split_loop fuel' (frames ++ [frame]) rest'
      end
  end.

Definition splitFrames (buffer : string) : list string * string :=
  split_loop (S (String.length buffer)) [] buffer.

Record SseFrame := mkSseFrame { sf_event : option string; sf_data : option string }.

Definition strip_cr (line : string) : string :=
  if ends_with_char CR line then drop_last line else line.

(** A line of a frame: the event so far and the data lines so far. *)
Definition parse_line (acc : option string * list string) (rawLine : string) :
  option string * list string :=
  let line := strip_cr rawLine in
  if bool_decide (line = "") || starts_with ":" line then acc
  else
    let colon := index_of ":" line in
    let field := match colon with None => line | Some n => stake n line end in
    let value := match colon with None => "" | Some n => sdrop (n + 1) line end in
    let value := if starts_with " " value then sdrop 1 value else value in
    if bool_decide (field = "event") then (Some value, acc.2)
    else if bool_decide (field = "data") then (acc.1, acc.2 ++ [value])
    else acc.

Definition parseFrame (frame : string) : option SseFrame :=
  let '(event, data) := fold_left parse_line (split_on (Ascii.ascii_of_nat 10) frame) (None, []) in
  if Nat.ltb 0 (length data) then Some (mkSseFrame event (Some (str_join LF data))) else None.

(** ** The client: useSyncEvents.ts *)

(** What [handleFrame] does: nothing, or the queries it invalidates ([accounts],
    and the messages of [event.accountId], which may be [undefined]). *)
Inductive handled := Ignored | Invalidates (accountId : option json) (outcome : option json).

Definition handleFrame (frame : string) : result exn handled :=
  match parseFrame frame with
  | Some f =>
      if otruthy (sf_data f) then
        match JSON_parse (default "" (sf_data f)) with
        | Err _ => Ok Ignored
        | Ok x => match get "accountId" x with
                  | Err e => Err e
                  | Ok a => Ok (Invalidates a (field_of "outcome" x))
                  end
        end
      else Ok Ignored
  | None => Ok Ignored
  end.

(** [for (const frame of frames) handleFrame(frame)] *)
Fixpoint handle_all (frames : list string) : result exn (list handled) :=
  match frames with
  | [] => Ok []
  | f :: frames' =>
      match handleFrame f with
      | Err e => Err e
      | Ok x => match handle_all frames' with Ok l => Ok (x :: l) | Err e => Err e end
      end
  end.

(** The reading loop of [consume]: a chunk after the other. *)
Fixpoint consume (buffer : string) (chunks : list string) : result exn (list handled) :=
  match chunks with
  | [] => Ok []
  | value :: chunks' =>
      let '(frames, rest) := splitFrames (buffer +:+ value) in
      match handle_all frames with
      | Err e => Err e
      | Ok l => match consume rest chunks' with Ok l' => Ok (l ++ l') | Err e => Err e end
      end
  end.

(** The connection of a mounted hook. *)
Inductive phase :=
| Connecting
| Reading
| Waiting (delay : Z)
| Unmounted.

Record connection := mkConn { cx_phase : phase; cx_attempt : Z }.

Definition start : connection := mkConn Connecting 0.

Definition backoff (attempt : Z) : Z := Z.min (1000 * 2 ^ (attempt - 1)) 30000.

Definition scheduleReconnect (c : connection) : connection :=
  match cx_phase c with
  | Unmounted => c
  | _ => let attempt := cx_attempt c + 1 in mkConn (Waiting (backoff attempt)) attempt
  end.

Inductive conn_event := Responds (ok : bool) | Ends | Fires | Unmounts.

Definition conn_step (c : connection) (ev : conn_event) : connection :=
  match cx_phase c, ev with
  | Unmounted, _ => c
  | _, Unmounts => mkConn Unmounted (cx_attempt c)
  | Connecting, Responds true => mkConn Reading 0
  | Connecting, (Responds false | Ends) => scheduleReconnect c
  | Reading, Ends => scheduleReconnect c
  | Waiting _, Fires => mkConn Connecting (cx_attempt c)
  | _, _ => c
  end.

Definition conn_run (c : connection) (evs : list conn_event) : connection := fold_left conn_step evs c.

(** ** Chunks *)

Lemma starts_with_app (p s t : string) :
  (String.length p <= String.length s)%nat -> starts_with p (s +:+ t) = starts_with p s.
Proof.
  revert s. induction p as [|a p IH]; intros [|b s] Hl; try done; [simpl in Hl; lia|].
  rewrite append_cons. simpl in *. rewrite IH by lia. done.
Qed.

Lemma starts_with_length (p s : string) :
  starts_with p s = true -> (String.length p <= String.length s)%nat.
Proof.
  intros [t ->]%starts_with_spec. rewrite length_append. lia.
Qed.

Lemma index_of_length (p s : string) (n : nat) :
  index_of p s = Some n -> (n + String.length p <= String.length s)%nat.
Proof.
  revert n. induction s as [|c s IH]; intros n; cbn [index_of].
  - destruct (starts_with p "") eqn:E; [|done]. intros [= <-]. by apply starts_with_length in E.
  - destruct (starts_with p (String c s)) eqn:E.
    + intros [= <-]. by apply starts_with_length in E.
    + destruct (index_of p s) as [m|]; [|done]. intros [= <-]. specialize (IH m eq_refl). simpl. lia.
Qed.

Lemma index_of_app (p s t : string) (n : nat) :
  index_of p s = Some n -> index_of p (s +:+ t) = Some n.
Proof.
  revert n. induction s as [|c s IH]; intros n H.
  - pose proof (index_of_length p "" n H) as Hl. destruct p; [|simpl in Hl; lia].
    injection H as <-. by destruct t.
  - pose proof (index_of_length _ _ _ H) as Hl. rewrite append_cons. cbn [index_of] in *.
    rewrite <- append_cons, starts_with_app by (simpl in *; lia).
    destruct (starts_with p (String c s)); [done|]. destruct (index_of p s) as [m|]; [|done].
    by rewrite (IH m eq_refl).
Qed.

Lemma stake_app (n : nat) (s t : string) : (n <= String.length s)%nat -> stake n (s +:+ t) = stake n s.
Proof.
  revert s. induction n as [|n IH]; intros s Hn; [by destruct s|].
  destruct s as [|c s]; [simpl in Hn; lia|]. rewrite append_cons. simpl in *. f_equal. apply IH. lia.
Qed.

Lemma sdrop_app (n : nat) (s t : string) :
  (n <= String.length s)%nat -> sdrop n (s +:+ t) = sdrop n s +:+ t.
Proof.
  revert s. induction n as [|n IH]; intros s Hn; [by destruct s|].
  destruct s as [|c s]; [simpl in Hn; lia|]. rewrite append_cons. simpl in *. apply IH. lia.
Qed.

Lemma sdrop_length (n : nat) (s : string) : String.length (sdrop n s) = (String.length s - n)%nat.
Proof. revert s. induction n as [|n IH]; intros [|c s]; simpl; auto. Qed.

Lemma cut_frame_app (s t frame rest : string) :
  cut_frame s = Some (frame, rest) -> cut_frame (s +:+ t) = Some (frame, rest +:+ t).
Proof.
  unfold cut_frame. destruct (index_of _ s) as [n|] eqn:E; [|done]. intros [= <- <-].
  rewrite (index_of_app _ _ _ _ E). pose proof (index_of_length _ _ _ E) as Hl. simpl in Hl.
  by rewrite stake_app, sdrop_app by lia.
Qed.

Lemma cut_frame_shorter (s frame rest : string) :
  cut_frame s = Some (frame, rest) -> (String.length rest < String.length s)%nat.
Proof.
  unfold cut_frame. destruct (index_of _ s) as [n|] eqn:E; [|done]. intros [= <- <-].
  pose proof (index_of_length _ _ _ E) as Hl. rewrite sdrop_length. simpl in Hl. lia.
Qed.

(** The equation of [splitFrames]: its fuel is always enough. *)
Lemma split_loop_fuel (n m : nat) (frames : list string) (rest : string) :
  (String.length rest < n)%nat -> (String.length rest < m)%nat ->
  split_loop n frames rest = split_loop m frames rest.
Proof.
  revert m frames rest. induction n as [|n IH]; intros [|m] frames rest Hn Hm; try lia. simpl.
  destruct (cut_frame rest) as [[frame rest']|] eqn:E; [|done].
  apply cut_frame_shorter in E. apply IH; lia.
Qed.

Lemma split_loop_frames (n : nat) (frames : list string) (rest : string) :
  split_loop n frames rest = (frames ++ (split_loop n [] rest).1, (split_loop n [] rest).2).
Proof.
  revert frames rest. induction n as [|n IH]; intros frames rest; simpl; [by rewrite app_nil_r|].
  destruct (cut_frame rest) as [[frame rest']|]; [|by rewrite app_nil_r].
  rewrite IH, (IH [frame]). simpl. by rewrite <- app_assoc.
Qed.

Lemma splitFrames_eq (s : string) :
  splitFrames s = match cut_frame s with
                  | None => ([], s)
                  | Some (frame, rest) => (frame :: (splitFrames rest).1, (splitFrames rest).2)
                  end.
Proof.
  unfold splitFrames at 1. cbn [split_loop]. destruct (cut_frame s) as [[frame rest]|] eqn:E; [|done].
  apply cut_frame_shorter in E. rewrite split_loop_frames. unfold splitFrames.
  by rewrite (split_loop_fuel (String.length s) (S (String.length rest))) by lia.
Qed.

(** Splitting a text and what follows it, or the whole at once. *)
Lemma splitFrames_app (s t : string) :
  splitFrames (s +:+ t) =
  let '(frames, rest) := splitFrames s in
  (frames ++ (splitFrames (rest +:+ t)).1, (splitFrames (rest +:+ t)).2).
Proof.
  remember (String.length s) as n eqn:Hn. revert s Hn.
  induction (lt_wf n) as [n _ IH]. intros s ->. rewrite (splitFrames_eq s).
  destruct (cut_frame s) as [[frame rest]|] eqn:E; [|by destruct (splitFrames (s +:+ t))].
  rewrite splitFrames_eq, (cut_frame_app _ _ _ _ E).
  rewrite (IH (String.length rest)) by (done || by eapply cut_frame_shorter).
  by destruct (splitFrames rest).
Qed.

Lemma handle_all_app (l l' : list string) :
  handle_all (l ++ l') =
  match handle_all l with
  | Ok x => match handle_all l' with Ok y => Ok (x ++ y) | Err e => Err e end
  | Err e => Err e
  end.
Proof.
  induction l as [|f l IH]; simpl; [by destruct (handle_all l')|].
  destruct (handleFrame f); [|done]. rewrite IH. destruct (handle_all l), (handle_all l'); done.
Qed.

(** Wherever the network cuts the text, the frames are those of the whole. *)
Lemma consume_concat (buffer : string) (chunks : list string) :
  cut_frame buffer = None ->
  consume buffer chunks = handle_all (splitFrames (buffer +:+ str_join "" chunks)).1.
Proof.
  revert buffer. induction chunks as [|c chunks IH]; intros buffer Hb; simpl.
  - by rewrite append_nil_r, splitFrames_eq, Hb.
  - assert (match chunks with [] => c | _ :: _ => c +:+ "" +:+ str_join "" chunks end =
      c +:+ str_join "" chunks) as ->.
    { destruct chunks; [by rewrite append_nil_r|by rewrite append_nil_l]. }
    rewrite <- append_assoc, (splitFrames_app (buffer +:+ c)).
    destruct (splitFrames (buffer +:+ c)) as [frames rest] eqn:E. simpl.
    rewrite handle_all_app, IH; [done|].
    clear IH Hb. revert frames rest E. generalize (buffer +:+ c) as s. intros s.
    remember (String.length s) as n eqn:Hn. revert s Hn. induction (lt_wf n) as [n _ IH].
    intros s -> frames rest E. rewrite splitFrames_eq in E.
    destruct (cut_frame s) as [[frame rest']|] eqn:Ec; [|by simplify_eq].
    destruct (splitFrames rest') as [fr' rr] eqn:E'. injection E as <- <-.
    eapply IH; [by eapply cut_frame_shorter|done|exact E'].
Qed.

(** ** What the server writes, as frames *)

Definition frame_text (frames : list string) : string :=
  str_join "" (List.map (fun f => f +:+ LF +:+ LF) frames).

(** A frame that a separator after it ends, and nothing before. *)
Definition whole_frame (f : string) : Prop := index_of (LF +:+ LF) (f +:+ LF) = None.

Lemma join_nil_cons (x : string) (l : list string) : str_join "" (x :: l) = x +:+ str_join "" l.
Proof. destruct l; [by rewrite append_nil_r|done]. Qed.

Lemma starts_LF (c : Ascii.ascii) (s : string) :
  starts_with (LF +:+ LF) (String c s) = ascii_eqb (Ascii.ascii_of_nat 10) c && starts_with LF s.
Proof. reflexivity. Qed.

Lemma index_whole (f t : string) :
  whole_frame f -> index_of (LF +:+ LF) (f +:+ LF +:+ LF +:+ t) = Some (String.length f).
Proof.
  unfold whole_frame. induction f as [|c f IH]; [reflexivity|].
  rewrite !append_cons. cbn [index_of]. rewrite !starts_LF.
  assert (starts_with LF (f +:+ LF +:+ LF +:+ t) = starts_with LF (f +:+ LF)) as ->.
  { destruct f as [|d f]; [reflexivity|]. reflexivity. }
  destruct (ascii_eqb _ c && _); [done|]. intros H.
  rewrite IH; [done|]. by destruct (index_of (LF +:+ LF) (f +:+ LF)).
Qed.

Lemma cut_whole (f t : string) : whole_frame f -> cut_frame (f +:+ LF +:+ LF +:+ t) = Some (f, t).
Proof.
  intros Hf. unfold cut_frame. rewrite index_whole by done.
  assert (stake (String.length f) (f +:+ LF +:+ LF +:+ t) = f) as ->.
  { rewrite stake_app by done. clear. induction f as [|c f IH]; [done|]. simpl. by rewrite IH. }
  do 2 f_equal. rewrite <- (append_assoc LF LF t), <- (append_assoc f (LF +:+ LF) t).
  replace (String.length f + 2)%nat with (String.length (f +:+ LF +:+ LF)) by (rewrite length_append; done).
  by rewrite sdrop_append.
Qed.

Lemma splitFrames_text (frames : list string) :
  Forall whole_frame frames -> splitFrames (frame_text frames) = (frames, "").
Proof.
  induction 1 as [|f frames Hf _ IH]; [reflexivity|]. rewrite splitFrames_eq.
  unfold frame_text. cbn [List.map]. rewrite join_nil_cons, !append_assoc, cut_whole by done.
  fold (frame_text frames). by rewrite IH.
Qed.

Lemma no_LF_whole (f : string) : occurs (Ascii.ascii_of_nat 10) f = false -> whole_frame f.
Proof.
  unfold whole_frame. induction f as [|c f IH]; [reflexivity|]. intros H.
  cbn [occurs] in H. apply orb_false_iff in H as [Hc H]. rewrite append_cons. cbn [index_of].
  rewrite starts_LF, Ascii.eqb_sym, Hc. cbn [andb]. by rewrite (IH H).
Qed.

Lemma two_lines_whole (a b : string) (c : Ascii.ascii) :
  occurs (Ascii.ascii_of_nat 10) a = false -> occurs (Ascii.ascii_of_nat 10) (String c b) = false ->
  whole_frame (a +:+ LF +:+ String c b).
Proof.
  intros Ha Hb. unfold whole_frame. induction a as [|d a IH].
  - rewrite append_nil_l, append_assoc. change (LF +:+ ?u) with (String (Ascii.ascii_of_nat 10) u) at 2.
    cbn [index_of]. rewrite starts_LF. pose proof (no_LF_whole _ Hb) as Hw. unfold whole_frame in Hw.
    cbn [occurs] in Hb. apply orb_false_iff in Hb as [Hc _]. rewrite append_cons.
    change (starts_with LF (String c (b +:+ LF))) with (ascii_eqb (Ascii.ascii_of_nat 10) c && true).
    rewrite (Ascii.eqb_sym _ c), Hc, andb_false_r. rewrite append_cons in Hw. by rewrite Hw.
  - cbn [occurs] in Ha. apply orb_false_iff in Ha as [Hd Ha]. rewrite !append_cons. cbn [index_of].
    rewrite starts_LF, Ascii.eqb_sym, Hd. cbn [andb]. by rewrite (IH Ha).
Qed.

(** JSON has no line breaks. *)
Lemma escape_no_LF (s : string) : occurs (Ascii.ascii_of_nat 10) (escape s) = false.
Proof.
  induction s as [|c s IH]; [done|].
  change (escape (String c s)) with (escape_char c +:+ escape s). rewrite occurs_app, IH, orb_false_r.
  destruct c as [[] [] [] [] [] [] [] []]; reflexivity.
Qed.

Definition event_body (e : SyncEvent) : string :=
  quote "accountId" +:+ ":" +:+ quote (se_accountId e) +:+ "," +:+ quote "outcome" +:+ ":" +:+
  quote (kind_name (se_outcome e)).

Lemma event_stringify (e : SyncEvent) :
  JSON_stringify (event_json e) = String "{" (event_body e +:+ "}").
Proof.
  change (JSON_stringify (event_json e)) with
    ("{" +:+ ((quote "accountId" +:+ ":" +:+ quote (se_accountId e)) +:+ "," +:+
              (quote "outcome" +:+ ":" +:+ quote (kind_name (se_outcome e)))) +:+ "}").
  unfold event_body. by rewrite !append_assoc.
Qed.

Lemma event_no_LF (e : SyncEvent) :
  occurs (Ascii.ascii_of_nat 10) (String "{" (event_body e +:+ "}")) = false.
Proof.
  unfold event_body, quote. cbn [occurs]. rewrite !occurs_app. cbn [occurs]. rewrite !occurs_app.
  rewrite !escape_no_LF. by destruct (se_outcome e).
Qed.

Definition frame_of (e : SyncEvent) : string :=
  "event: sync" +:+ LF +:+ "data: " +:+ JSON_stringify (event_json e).

Lemma frame_of_whole (e : SyncEvent) : whole_frame (frame_of e).
Proof.
  unfold frame_of. apply (two_lines_whole "event: sync" _ "d"%char); [done|].
  change (String "d" _) with ("data: " +:+ JSON_stringify (event_json e)).
  by rewrite occurs_app, event_stringify, event_no_LF.
Qed.

Lemma ends_with_append (c : Ascii.ascii) (s : string) (a : Ascii.ascii) :
  ends_with_char c (s +:+ String a "") = ascii_eqb a c.
Proof.
  induction s as [|b s IH]; [done|]. rewrite append_cons. simpl.
  destruct (s +:+ String a "") eqn:E; [by destruct s|exact IH].
Qed.

(** The browser understands the frame. *)
Lemma handle_event (e : SyncEvent) :
  handleFrame (frame_of e) =
  Ok (Invalidates (Some (JStr (se_accountId e))) (Some (JStr (kind_name (se_outcome e))))).
Proof.
  unfold handleFrame, parseFrame, frame_of.
  change (LF +:+ ?u) with (String (Ascii.ascii_of_nat 10) u).
  rewrite split_on_app_sep, split_on_no_sep;
    [|by rewrite occurs_app, event_stringify, event_no_LF|done].
  cbn [fold_left].
  assert (forall acc, parse_line acc ("data: " +:+ JSON_stringify (event_json e)) =
    (acc.1, acc.2 ++ [JSON_stringify (event_json e)])) as Hdata.
  { intros acc. unfold parse_line, strip_cr. rewrite event_stringify.
    assert (ends_with_char CR ("data: " +:+ String "{" (event_body e +:+ "}")) = false) as ->; [|done].
    change ("data: " +:+ String "{" (event_body e +:+ "}")) with
      (("data: {" +:+ event_body e) +:+ String "}" ""). by rewrite ends_with_append. }
  rewrite Hdata. change (parse_line (None, []) "event: sync") with (Some "sync", @nil string).
  cbn [fst snd app length Nat.ltb Nat.leb str_join sf_data otruthy].
  assert (truthy (JSON_stringify (event_json e)) = true) as -> by (by rewrite event_stringify).
  change (default "" (Some ?x)) with x. rewrite JSON_parse_stringify; [done|].
  split; [apply (bool_decide_unpack _); vm_compute; exact I|by repeat split].
Qed.

(** ** From publication to the browser *)

(** What an event of the hub adds to an open stream: frames. *)
Definition adds (i : nat) (owned : list string) (ev : hub_event) : list string :=
  match ev with
  | Publishes jobId outcome =>
      match account_of_job jobId with
      | Some a => if bool_decide (a ∈ owned) then [frame_of (mkSyncEvent a outcome)] else []
      | None => []
      end
  | Heartbeat j => if Nat.eqb i j then [": ping"] else []
  | _ => []
  end.

(** The events a user is to see: those of the jobs of their accounts. *)
Definition visible (owned : list string) (ev : hub_event) : list SyncEvent :=
  match ev with
  | Publishes jobId outcome =>
      match account_of_job jobId with
      | Some a => if bool_decide (a ∈ owned) then [mkSyncEvent a outcome] else []
      | None => []
      end
  | _ => []
  end.

(** The event neither opens nor closes stream [i]. *)
Definition leaves_open (i : nat) (ev : hub_event) : Prop :=
  match ev with Opens j _ | Closes j => j <> i | _ => True end.

Lemma frame_text_app (l l' : list string) : frame_text (l ++ l') = frame_text l +:+ frame_text l'.
Proof.
  unfold frame_text. induction l as [|f l IH]; [done|].
  rewrite <- app_comm_cons. cbn [List.map]. by rewrite !join_nil_cons, IH, !append_assoc.
Qed.

Lemma write_step (i : nat) (owned : list string) (t : string) (h : hub) (ev : hub_event) :
  leaves_open i ev -> h !! i = Some (mkStream owned true t) ->
  hub_step h ev !! i = Some (mkStream owned true (t +:+ frame_text (adds i owned ev))).
Proof.
  intros Hev Hi. destruct ev as [j o|jobId outcome|j|j]; simpl in Hev |- *.
  - rewrite lookup_insert_ne by done. by rewrite append_nil_r.
  - unfold publish. destruct (account_of_job jobId) as [a|]; [|by rewrite append_nil_r].
    rewrite lookup_fmap, Hi. simpl. unfold on_sync. simpl.
    destruct (bool_decide (a ∈ owned)); [|by rewrite append_nil_r].
    unfold write, frame_text, event_frame, frame_of. simpl. by rewrite !append_assoc.
  - destruct (Nat.eqb_spec i j) as [<-|Hne].
    + rewrite lookup_alter_eq, Hi. simpl. unfold write. simpl. done.
    + rewrite lookup_alter_ne by done. by rewrite append_nil_r.
  - rewrite lookup_alter_ne by done. by rewrite append_nil_r.
Qed.

Lemma write_run (i : nat) (owned : list string) (t : string) (h : hub) (evs : list hub_event) :
  Forall (leaves_open i) evs -> h !! i = Some (mkStream owned true t) ->
  hub_run h evs !! i = Some (mkStream owned true (t +:+ frame_text (flat_map (adds i owned) evs))).
Proof.
  intros Hall. revert t h. induction Hall as [|ev evs Hev Hall IH]; intros t h Hi; simpl.
  - by rewrite append_nil_r.
  - unfold hub_run in *. simpl. rewrite (IH _ _ (write_step i owned t h ev Hev Hi)).
    by rewrite frame_text_app, append_assoc.
Qed.

Definition notice (e : SyncEvent) : handled :=
  Invalidates (Some (JStr (se_accountId e))) (Some (JStr (kind_name (se_outcome e)))).

Definition noticed (x : handled) : bool := match x with Ignored => false | _ => true end.

Lemma handle_adds (i : nat) (owned : list string) (ev : hub_event) :
  exists l, handle_all (adds i owned ev) = Ok l /\
    List.filter noticed l = List.map notice (visible owned ev).
Proof.
  destruct ev as [j o|jobId outcome|j|j]; simpl; [by exists []| | |by exists []].
  - destruct (account_of_job jobId) as [a|]; [|by exists []].
    destruct (bool_decide (a ∈ owned)); [|by exists []].
    exists [notice (mkSyncEvent a outcome)]. cbn [handle_all]. by rewrite handle_event.
  - destruct (Nat.eqb i j); [by exists [Ignored]|by exists []].
Qed.

Lemma handle_all_adds (i : nat) (owned : list string) (evs : list hub_event) :
  exists l, handle_all (flat_map (adds i owned) evs) = Ok l /\
    List.filter noticed l = List.map notice (flat_map (visible owned) evs).
Proof.
  induction evs as [|ev evs (l & Hl & El)]; [by exists []|]. cbn [flat_map].
  destruct (handle_adds i owned ev) as (x & Hx & Ex). exists (x ++ l).
  rewrite handle_all_app, Hx, Hl. split; [done|]. by rewrite List.filter_app, List.map_app, Ex, El.
Qed.

Lemma adds_whole (i : nat) (owned : list string) (evs : list hub_event) :
  Forall whole_frame (flat_map (adds i owned) evs).
Proof.
  induction evs as [|ev evs IH]; [constructor|]. cbn [flat_map]. apply Forall_app. split; [|done].
  destruct ev as [j o|jobId outcome|j|j]; simpl; [constructor| | |constructor].
  - destruct (account_of_job jobId) as [a|]; [|constructor].
    destruct (bool_decide (a ∈ owned)); repeat constructor. apply frame_of_whole.
  - destruct (Nat.eqb i j); repeat constructor.
Qed.

(** What has been written to a stream since it was opened. *)
Lemma opened_text (h : hub) (i : nat) (owned : list string) (evs : list hub_event) :
  Forall (leaves_open i) evs ->
  st_text <$> hub_run h (Opens i owned :: evs) !! i =
    Some (frame_text (": connected" :: flat_map (adds i owned) evs)).
Proof.
  intros Hall. unfold hub_run. cbn [fold_left hub_step].
  fold (hub_run (<[i := mkStream owned true connected]> h) evs).
  rewrite (write_run i owned connected _ evs Hall) by apply lookup_insert_eq.
  change connected with (frame_text [": connected"]). by rewrite <- frame_text_app.
Qed.

(** What the browser makes of it. *)
Lemma consume_opened (i : nat) (owned : list string) (evs : list hub_event) (chunks : list string) :
  str_join "" chunks = frame_text (": connected" :: flat_map (adds i owned) evs) ->
  exists l, consume "" chunks = Ok l /\
    List.filter noticed l = List.map notice (flat_map (visible owned) evs).
Proof.
  intros Htext. rewrite consume_concat, append_nil_l, Htext by done. rewrite splitFrames_text.
  - destruct (handle_all_adds i owned evs) as (l & Hl & El). exists (Ignored :: l).
    cbn [fst handle_all]. rewrite Hl. by split.
  - constructor; [by apply no_LF_whole|apply adds_whole].
Qed.

(** C39: while a stream is open, the browser is told of every job of the accounts
    its user owned when it was opened, with its outcome, in order and once each,
    and of nothing else, however the network cuts the stream and whatever other
    streams open, close or keep themselves alive. *)
Theorem sync_events_delivered (h : hub) (i : nat) (owned : list string) (evs : list hub_event)
    (chunks : list string) :
  Forall (leaves_open i) evs ->
  st_text <$> hub_run h (Opens i owned :: evs) !! i = Some (str_join "" chunks) ->
  exists l, consume "" chunks = Ok l /\
    List.filter noticed l = List.map notice (flat_map (visible owned) evs).
Proof.
  intros Hall. rewrite opened_text by done. intros [= Htext]. by apply (consume_opened i).
Qed.

(** ** Line endings rewritten on the way *)

Fixpoint to_crlf (s : string) : string :=
  match s with
  | EmptyString => EmptyString
  | String c s' => if ascii_eqb c (Ascii.ascii_of_nat 10)
                   then String CR (String c (to_crlf s')) else String c (to_crlf s')
  end.

Lemma crlf_no_separator (s : string) : index_of (LF +:+ LF) (to_crlf s) = None.
Proof.
  induction s as [|c s IH]; [done|]. cbn [to_crlf]. destruct (ascii_eqb c (Ascii.ascii_of_nat 10)) eqn:E.
  - cbn [index_of]. rewrite !starts_LF. apply Ascii.eqb_eq in E as ->.
    change (ascii_eqb (Ascii.ascii_of_nat 10) CR) with false. cbn [andb].
    assert (starts_with LF (to_crlf s) = false) as ->.
    { destruct s as [|d s]; [done|]. cbn [to_crlf]. destruct (ascii_eqb d (Ascii.ascii_of_nat 10)) eqn:Ed; [done|].
      change (starts_with LF (String d (to_crlf s))) with (ascii_eqb (Ascii.ascii_of_nat 10) d && true).
      by rewrite Ascii.eqb_sym, Ed. }
    rewrite andb_false_r, IH. done.
  - cbn [index_of]. rewrite starts_LF, Ascii.eqb_sym, E. cbn [andb]. by rewrite IH.
Qed.

(** A stream whose line endings a proxy rewrote to CR LF delivers nothing,
    whatever it says, although [parseFrame] strips the CR of every line. *)
Theorem crlf_delivers_nothing (text : string) (chunks : list string) :
  to_crlf text = str_join "" chunks -> consume "" chunks = Ok [].
Proof.
  intros E. rewrite consume_concat, append_nil_l, <- E by done.
  rewrite splitFrames_eq. unfold cut_frame. by rewrite crlf_no_separator.
Qed.

(** ** Reconnection *)

(** A failed attempt after the delay before it. *)
Definition retry : list conn_event := [Fires; Responds false].

Lemma conn_run_attempt (c : connection) (evs : list conn_event) :
  (0 <= cx_attempt c)%Z ->
  (forall d, cx_phase c = Waiting d -> 1 <= cx_attempt c /\ d = backoff (cx_attempt c)) ->
  let c' := conn_run c evs in
  (0 <= cx_attempt c')%Z /\
  (forall d, cx_phase c' = Waiting d -> 1 <= cx_attempt c' /\ d = backoff (cx_attempt c')).
Proof.
  revert c. induction evs as [|ev evs IH]; intros c Hc Hd; [by split|]. simpl. apply IH.
  - destruct c as [[]], ev as [[]| | |]; simpl in *; lia.
  - destruct c as [p a], ev as [[]| | |], p; simpl in *; try done; intros d0;
      try (intros [= <-]; split; [lia|done]); try (intros Hx; by apply Hd).
Qed.

Lemma backoff_bounds (n : Z) : 1 <= n -> 1000 <= backoff n <= 30000.
Proof.
  intros Hn. unfold backoff. pose proof (Z.pow_le_mono_r 2 0 (n - 1) ltac:(lia) ltac:(lia)) as Hp.
  rewrite Z.pow_0_r in Hp. lia.
Qed.

Lemma backoff_doubles (n : Z) : 1 <= n -> backoff (n + 1) = Z.min (2 * backoff n) 30000.
Proof.
  intros Hn. unfold backoff. replace (n + 1 - 1) with (Z.succ (n - 1)) by lia.
  rewrite Z.pow_succ_r by lia. lia.
Qed.

(** Whatever happened before, a dropped stream is tried again after one to
    thirty seconds; each further failure doubles the delay up to the cap, and a
    connection that opened starts again from one second. *)
Theorem reconnect_backoff (evs : list conn_event) (d : Z) :
  cx_phase (conn_run start evs) = Waiting d ->
  1000 <= d <= 30000 /\
  cx_phase (conn_run start (evs ++ retry)) = Waiting (Z.min (2 * d) 30000) /\
  cx_phase (conn_run start (evs ++ [Fires; Responds true; Ends])) = Waiting 1000.
Proof.
  intros Hd. destruct (conn_run_attempt start evs) as [_ Ha]; [done|done|].
  destruct (Ha d Hd) as [Hn ->]. unfold conn_run in *. rewrite !fold_left_app.
  destruct (fold_left conn_step evs start) as [p n]. simpl in *. subst p. simpl.
  split; [by apply backoff_bounds|]. split; [|done]. by rewrite backoff_doubles.
Qed.

(** ** Concrete streams *)

Module Tab.
Definition evs : list hub_event :=
  [Publishes "sync-a1" completed; Heartbeat 0; Opens 1 ["a2"]; Publishes "sync-a2" failed;
   Publishes "other" failed; Publishes "sync-a1" failed].

Definition text : string :=
  default "" (st_text <$> hub_run ∅ (Opens 0 ["a1"] :: evs) !! 0%nat).

Definition chunks : list string := [stake 40 text; sdrop 40 text].
End Tab.

Lemma sync_events_delivered_witness :
  exists l, consume "" Tab.chunks = Ok l /\
    List.filter noticed l = [notice (mkSyncEvent "a1" completed); notice (mkSyncEvent "a1" failed)].
Proof.
  apply (sync_events_delivered ∅ 0 ["a1"] Tab.evs Tab.chunks).
  - repeat constructor; discriminate.
  - vm_compute. reflexivity.
Defined.

Lemma crlf_delivers_nothing_witness : consume "" [to_crlf Tab.text] = Ok [].
Proof. apply (crlf_delivers_nothing Tab.text). reflexivity. Defined.

Lemma reconnect_backoff_witness :
  1000 <= 2000 <= 30000 /\
  cx_phase (conn_run start ([Ends; Fires; Ends] ++ retry)) = Waiting 4000 /\
  cx_phase (conn_run start ([Ends; Fires; Ends] ++ [Fires; Responds true; Ends])) = Waiting 1000.
Proof. apply (reconnect_backoff [Ends; Fires; Ends] 2000). reflexivity. Defined.
