(* ===== verification/Heartbeat.v ===== *)
(** * Event streams that stay open

    [events] of [services/email-ingestion/src/accounts/accounts.controller.ts] writes a
    comment at an interval, because [services/gateway/src/proxy.ts] gives up a service
    that has been silent for too long: the one interval against the other. *)

From S2P Require Import Prelude Js Timers SyncEvents.
From stdpp Require Import sorting.

Local Open Scope Z_scope.

Set Default Proof Using "Type*".

(** [setInterval(() => res.write(': ping\n\n'), 15_000)] *)
Definition HEARTBEAT_MS : Z := 15000.

(** [upstreamReq.setTimeout(30_000, ...)] *)
Definition UPSTREAM_TIMEOUT_MS : Z := 30000.

(** An open stream: its heartbeat, and what has been written to it. *)
Record open_stream := mkOpenStream { os_heartbeat : timer; os_stream : stream }.

(** The route, once the accounts of the user are known. *)
Definition events (owned : list string) (now : Z) : open_stream :=
  mkOpenStream (setInterval HEARTBEAT_MS now) (mkStream owned true connected).

(** A turn of the event loop of the service. *)
Definition beat (now : Z) (s : open_stream) : open_stream :=
  let '(fires, t) := turn HEARTBEAT_MS now (os_heartbeat s) in
  mkOpenStream t (if fires then write ping (os_stream s) else os_stream s).

(** [res.on('close', ...)] *)
Definition on_close (s : open_stream) : open_stream :=
  mkOpenStream (clearInterval (os_heartbeat s))
    (mkStream (st_owned (os_stream s)) false (st_text (os_stream s))).

(** So many comments. *)
Definition pings (n : nat) : string := Nat.iter n (fun t => ping +:+ t) "".

Lemma written_pings (turns : list Z) (s : open_stream) :
  st_text (os_stream (fold_left (fun s now => beat now s) turns s)) =
  st_text (os_stream s) +:+ pings (length (ticks HEARTBEAT_MS turns (os_heartbeat s))).
Proof.
  revert s. induction turns as [|now turns IH]; intros s; simpl; [by rewrite append_nil_r|].
  rewrite IH. unfold beat. destruct (turn HEARTBEAT_MS now (os_heartbeat s)) as [[] t] eqn:E; [|done].
  simpl. by rewrite append_assoc.
Qed.

(** C27: a stream on which nothing happens is kept open: as long as the event loop of the
    service is late by [gap], and what it writes is under way for [delay], less than fifteen
    seconds together, its comments, which arrive among whatever else it writes, never let
    the gateway see it silent for the thirty seconds after which it would be given up. *)
Theorem event_stream_kept (gap delay start first until : Z) (owned : list string) (turns arrivals : list Z) :
  0 <= gap -> 0 <= delay -> gap + delay < 15000 ->
  brisk gap start turns -> start <= first -> until <= default start (last turns) ->
  StronglySorted Z.le (first :: arrivals) ->
  let beats := ticks HEARTBEAT_MS turns (os_heartbeat (events owned start)) in
  (forall w, w ∈ beats -> exists a, a ∈ arrivals /\ w <= a <= w + delay) ->
  st_text (os_stream (fold_left (fun s now => beat now s) turns (events owned start))) =
    connected +:+ pings (length beats) /\
  times_out UPSTREAM_TIMEOUT_MS first arrivals until = false.
Proof.
  intros Hg Hd Hl Hb Hf Hu Hs. cbv zeta. intros Hw. split; [apply written_pings|].
  apply (ticks_keep_busy HEARTBEAT_MS UPSTREAM_TIMEOUT_MS gap delay start first until turns arrivals);
    unfold HEARTBEAT_MS, UPSTREAM_TIMEOUT_MS; first [done|lia].
Qed.

(** Without them a silent stream is given up. *)
Lemma silence_times_out (first : Z) : times_out UPSTREAM_TIMEOUT_MS first [] (first + 30000) = true.
Proof. apply Z.leb_le. unfold UPSTREAM_TIMEOUT_MS. lia. Qed.

(** A stream that has closed writes no more. *)
Theorem closed_stream_silent (turns : list Z) (s : open_stream) :
  st_text (os_stream (fold_left (fun s now => beat now s) turns (on_close s))) = st_text (os_stream s).
Proof.
  rewrite written_pings. assert (ticks HEARTBEAT_MS turns (os_heartbeat (on_close s)) = []) as ->
    by (by induction turns). apply append_nil_r.
Qed.

(** A minute in which nothing happens. *)
Lemma event_stream_kept_witness :
  times_out UPSTREAM_TIMEOUT_MS 5 [16005; 32005; 48005] 60000 = false.
Proof.
  refine (proj2 (event_stream_kept 4000 5 0 5 60000 ["a1"]
    [4000; 8000; 12000; 16000; 20000; 24000; 28000; 32000; 36000; 40000; 44000; 48000; 52000; 56000; 60000]
    [16005; 32005; 48005] _ _ _ _ _ _ _ _)); try lia.
  - repeat split; lia.
  - simpl. lia.
  - repeat constructor; lia.
  - intros w Hw. change (w ∈ [16000; 32000; 48000]) in Hw.
    exists (w + 5). split; [|lia].
    repeat (apply elem_of_cons in Hw as [->|Hw]; [by repeat constructor|]). by apply not_elem_of_nil in Hw.
Defined.
