(* ===== verification/ApiClient.v ===== *)
(** * The browser's API client

    [apps/web]: [api/client.ts].  The module keeps the access token and the
    refresh in flight; its functions run in turns between which answers arrive in
    any order.  A turn is a step: the code up to its next [await]. *)

From S2P Require Import Prelude Js World.

(** What a promise of [refreshSession] settled with: a session with its access
    token, [null], or an exception. *)
Inductive refreshed := Session (accessToken : string) | NoSession | Failed (e : exn).

(** What a call of [apiFetch] ends with. *)
Inductive ended := Response (status : nat) | Throws (e : exn).

(** A call of [apiFetch]: its first request is out, with the token it carries; it
    awaits a refresh; its second request is out; it has ended. *)
Inductive call :=
| First (bearer : option string)
| Awaits (promise : nat)
| Second (bearer : option string)
| Finished (r : ended).

#[export] Instance refreshed_eq_dec : EqDecision refreshed.
Proof. solve_decision. Defined.

(** A refresh: its request is out; its body has ended and its [finally] is still
    to run; the promise callers await, which is that of the [finally], has settled. *)
Inductive refresh := Out | Ran (r : refreshed) | Settled (r : refreshed).

(** [promises]: every refresh begun. *)
Record client := mkClient {
  accessToken : option string;
  promises : list refresh;
  refreshInFlight : option nat;
  calls : list call;
}.

Definition unauthenticated : exn := Error "Session expired".

(** The header a request is sent with: none when the token is falsy. *)
Definition withToken (c : client) : option string :=
  match accessToken c with Some t => or_undefined t | None => None end.

Definition setAccessToken (t : option string) (c : client) : client :=
  mkClient t (promises c) (refreshInFlight c) (calls c).

Definition set_call (i : nat) (x : call) (c : client) : client :=
  mkClient (accessToken c) (promises c) (refreshInFlight c) (<[i := x]> (calls c)).

(** [refreshSession()]: the promise the caller is given; a request is sent only
    when none is in flight. *)
Definition refreshSession (c : client) : nat * client :=
  match refreshInFlight c with
  | Some p => (p, c)
  | None =>
      let p := length (promises c) in
      (p, mkClient (accessToken c) (promises c ++ [Out]) (Some p) (calls c))
  end.

(** The request of a refresh is answered. *)
Definition refresh_answered (p : nat) (r : refreshed) (c : client) : client :=
  let token := match r with
               | Session t => Some t
               | NoSession => None
               | Failed _ => accessToken c
               end in
  mkClient token (<[p := Ran r]> (promises c)) (refreshInFlight c) (calls c).

(** [.finally(() => { refreshInFlight = null })] *)
Definition refresh_finally (p : nat) (r : refreshed) (c : client) : client :=
  mkClient (accessToken c) (<[p := Settled r]> (promises c)) None (calls c).

Inductive event :=
| Calls                                      (* [apiFetch] is called *)
| Answered (i : nat) (status : nat)          (* a request of call [i] is answered *)
| Broken (i : nat) (e : exn)                 (* or [fetch] rejects *)
| RefreshCalled                              (* [refreshSession] is called elsewhere *)
| RefreshAnswered (p : nat) (r : refreshed)
| RefreshCleared (p : nat)                   (* the [finally] of promise [p] *)
| Resumes (i : nat)                          (* call [i] takes what it awaited *)
| LoggedIn (t : string)                      (* [login] got its session *)
| LoggedOut.                                 (* [logout] got its answer *)

(** An event that cannot happen in a state leaves it. *)
Definition step (c : client) (ev : event) : client :=
  match ev with
  | Calls => mkClient (accessToken c) (promises c) (refreshInFlight c) (calls c ++ [First (withToken c)])
  | Answered i status =>
      match calls c !! i with
      | Some (First _) =>
          if Nat.eqb status 401 then let '(p, c') := refreshSession c in set_call i (Awaits p) c'
          else set_call i (Finished (Response status)) c
      | Some (Second _) => set_call i (Finished (Response status)) c
      | _ => c
      end
  | Broken i e =>
      match calls c !! i with
      | Some (First _ | Second _) => set_call i (Finished (Throws e)) c
      | _ => c
      end
  | RefreshCalled => (refreshSession c).2
  | RefreshAnswered p r =>
      match promises c !! p with Some Out => refresh_answered p r c | _ => c end
  | RefreshCleared p =>
      match promises c !! p with Some (Ran r) => refresh_finally p r c | _ => c end
  | Resumes i =>
      match calls c !! i with
      | Some (Awaits p) =>
          match promises c !! p with
          | Some (Settled (Session _)) => set_call i (Second (withToken c)) c
          | Some (Settled NoSession) => set_call i (Finished (Throws unauthenticated)) c
          | Some (Settled (Failed e)) => set_call i (Finished (Throws e)) c
          | _ => c
          end
      | _ => c
      end
  | LoggedIn t => setAccessToken (Some t) c
  | LoggedOut => setAccessToken None c
  end.

(** *** What the other functions of the module do with an answer

    An answer is a status and what [response.json()] resolves with, or what
    [fetch] rejects with. *)

Record answer (A : Type) := mkAnswer { status : nat; json_body : result exn A }.

Arguments mkAnswer {A} _ _.
Arguments status {A} _.
Arguments json_body {A} _.

(** [response.ok] *)
Definition ok {A} (a : answer A) : bool := Nat.leb 200 (status a) && Nat.leb (status a) 299.

(** The body of [refreshSession] once its [fetch] has settled. *)
Definition refresh_body (a : result exn (answer string)) : refreshed :=
  match a with
  | Err e => Failed e
  | Ok a => if ok a then match json_body a with Ok t => Session t | Err e => Failed e end
            else NoSession
  end.

Definition login (a : result exn (answer string)) (c : client) : result exn string * client :=
  match a with
  | Err e => (Err e, c)
  | Ok a => if ok a then match json_body a with
                         | Ok t => (Ok t, setAccessToken (Some t) c)
                         | Err e => (Err e, c)
                         end
            else (Err (Error "Invalid email or password"), c)
  end.

(** [logout] does not look at the status. *)
Definition logout {A} (a : result exn (answer A)) (c : client) : result exn unit * client :=
  match a with
  | Err e => (Err e, c)
  | Ok _ => (Ok tt, setAccessToken None c)
  end.

(** [apiJson], once [apiFetch] has settled. *)
Definition apiJson {A} (method : option string) (input : string) (a : result exn (answer A)) :
  result exn A :=
  match a with
  | Err e => Err e
  | Ok a => if ok a then json_body a
            else Err (Error (default "GET" method +:+ " " +:+ input +:+ " → " +:+
                             string_of_Z (Z.of_nat (status a))))
  end.

Definition client_run (c : client) (evs : list event) : client := fold_left step evs c.

Definition fresh : client := mkClient None [] None [].

(** ** One refresh at a time *)

(** A refresh that has not settled is the one in flight, and that one has not
    settled; what a call awaits exists. *)
Definition single_flight (c : client) : Prop :=
  (forall p, (exists x, promises c !! p = Some x /\ forall r, x <> Settled r) <->
             refreshInFlight c = Some p) /\
  (forall i p, calls c !! i = Some (Awaits p) -> p < length (promises c)).

Lemma in_flight_bound (c : client) (p : nat) :
  single_flight c -> refreshInFlight c = Some p -> p < length (promises c).
Proof. intros (Hp & _) (x & Hx & _)%Hp. by eapply lookup_lt_Some. Qed.

Lemma refreshSession_flight (c : client) :
  single_flight c ->
  let '(p, c') := refreshSession c in
  single_flight c' /\ p < length (promises c') /\ calls c' = calls c.
Proof.
  intros Hs. pose proof Hs as (Hp & Hc). unfold refreshSession.
  destruct (refreshInFlight c) as [p|] eqn:E.
  - split; [done|]. split; [by apply in_flight_bound|done].
  - split; [|by split; [simpl; rewrite length_app; simpl; lia|]]. split; simpl.
    + intros p. split.
      * intros (x & Hl & Hx). apply lookup_app_Some in Hl as [Hl|[Hge Hl]].
        { assert (None = Some p) as Hq by (apply Hp; eauto). done. }
        apply list_lookup_singleton_Some in Hl as [Hl _]. f_equal. lia.
      * intros [= <-]. exists Out. split; [|done]. by rewrite lookup_app_r, Nat.sub_diag by lia.
    + intros i p Hi. rewrite length_app. apply Hc in Hi. lia.
Qed.

Lemma set_call_flight (i : nat) (x : call) (c : client) :
  single_flight c -> (forall p, x = Awaits p -> p < length (promises c)) ->
  single_flight (set_call i x c).
Proof.
  intros (Hp & Hc) Hx. split; [done|]. simpl. intros j p Hj.
  destruct (decide (i = j)) as [<-|Hne].
  - destruct (decide (i < length (calls c))).
    + rewrite list_lookup_insert_eq in Hj by done. simplify_eq. by apply Hx.
    + rewrite list_insert_ge in Hj by lia. by eapply Hc.
  - rewrite list_lookup_insert_ne in Hj by done. by eapply Hc.
Qed.

(** The body of the refresh in flight ends. *)
Lemma moved_flight (c : client) (p : nat) (r : refreshed) :
  single_flight c -> promises c !! p = Some Out -> single_flight (refresh_answered p r c).
Proof.
  intros (Hp & Hc) E. split; simpl; [|intros i q Hi; rewrite length_insert; by eapply Hc].
  intros q. rewrite <- Hp. destruct (decide (p = q)) as [<-|Hne]; [|by rewrite list_lookup_insert_ne].
  rewrite list_lookup_insert_eq by (by eapply lookup_lt_Some). split; intros _; eauto.
Qed.

(** Its [finally] runs. *)
Lemma settled_flight (c : client) (p : nat) (r : refreshed) :
  single_flight c -> promises c !! p = Some (Ran r) -> single_flight (refresh_finally p r c).
Proof.
  intros (Hp & Hc) E. split; simpl; [|intros i q Hi; rewrite length_insert; by eapply Hc].
  intros q. split; [|done]. intros (x & Hx & Hn). destruct (decide (p = q)) as [<-|Hne].
  - rewrite list_lookup_insert_eq in Hx by (by eapply lookup_lt_Some). simplify_eq. by destruct (Hn r).
  - rewrite list_lookup_insert_ne in Hx by done.
    assert (refreshInFlight c = Some p) as H1 by (apply Hp; by exists (Ran r)).
    assert (refreshInFlight c = Some q) as H2 by (apply Hp; eauto). congruence.
Qed.

Lemma step_flight (c : client) (ev : event) : single_flight c -> single_flight (step c ev).
Proof.
  intros Hs. pose proof Hs as (Hp & Hc).
  destruct ev as [|i status|i e| |p r|p|i|t|]; simpl; try done.
  - split; [done|]. simpl. intros i p Hi.
    apply lookup_app_Some in Hi as [Hi|[_ Hi]]; [by eapply Hc|].
    apply list_lookup_singleton_Some in Hi as [_ Hi]. discriminate Hi.
  - destruct (calls c !! i) as [[]|]; try done; [|by apply set_call_flight].
    destruct (Nat.eqb status 401); [|by apply set_call_flight].
    pose proof (refreshSession_flight c Hs) as Hr. destruct (refreshSession c) as [p c'].
    destruct Hr as (Hs' & Hlt & _). apply set_call_flight; [done|]. by intros q [= <-].
  - destruct (calls c !! i) as [[]|]; try done; by apply set_call_flight.
  - pose proof (refreshSession_flight c Hs) as Hr.
    destruct (refreshSession c) as [p c']. apply Hr.
  - destruct (promises c !! p) as [[]|] eqn:E; try done.
    by apply moved_flight.
  - destruct (promises c !! p) as [[]|] eqn:E; try done.
    by apply settled_flight.
  - destruct (calls c !! i) as [[]|]; try done.
    destruct (promises c !! promise) as [[| |[]]|]; try done; by apply set_call_flight.
Qed.

Lemma run_flight (c : client) (evs : list event) :
  single_flight c -> single_flight (client_run c evs).
Proof.
  revert c. induction evs as [|ev evs IH]; intros c Hs; [done|]. simpl. by apply IH, step_flight.
Qed.

Lemma fresh_flight : single_flight fresh.
Proof. split; [|by intros ?]. intros p. split; [by intros (x & Hx & _)|done]. Qed.

(** However calls, answers and sign-ins interleave, two refresh requests are
    never out at once, and a call that waits for a session waits for a refresh
    that has settled or for the one in flight. *)
Theorem one_refresh_at_a_time (evs : list event) :
  let c := client_run fresh evs in
  (forall p q, promises c !! p = Some Out -> promises c !! q = Some Out -> p = q) /\
  (forall i p, calls c !! i = Some (Awaits p) ->
     (exists r, promises c !! p = Some (Settled r)) \/ refreshInFlight c = Some p).
Proof.
  cbv zeta. destruct (run_flight fresh evs fresh_flight) as (Hp & Hc). split.
  - intros p q H1 H2. assert (refreshInFlight (client_run fresh evs) = Some p) by (apply Hp; by exists Out).
    assert (refreshInFlight (client_run fresh evs) = Some q) by (apply Hp; by exists Out). congruence.
  - intros i p Hi%Hc. apply lookup_lt_is_Some in Hi as [x Hx]. destruct x as [|r|r].
    + right. apply Hp. by exists Out.
    + right. apply Hp. by exists (Ran r).
    + left. by exists r.
Qed.

(** A refresh that was out when its user signed out brings a token back. *)
Lemma signout_overtaken (t : string) :
  accessToken (client_run fresh [Calls; Answered 0 401; LoggedOut; RefreshAnswered 0 (Session t)]) = Some t.
Proof. done. Qed.

(** The answer of a sign-in or a sign-out is the event the model has for it. *)
Lemma login_event (a : result exn (answer string)) (c : client) :
  (login a c).2 = match (login a c).1 with Ok t => step c (LoggedIn t) | Err _ => c end.
Proof. destruct a as [a|e]; [|done]. simpl. destruct (ok a); [|done]. by destruct (json_body a). Qed.

(** ** A burst of 401s *)

(** Every call of [l] moves from [x] to [y], whatever the order. *)
Lemma burst (l : list nat) (mk : nat -> event) (good : client -> Prop) (x : call -> Prop) (y : call)
    (c : client) :
  (forall i c, good c -> (exists k, calls c !! i = Some k /\ x k) -> step c (mk i) = set_call i y c) ->
  (forall i c, good c -> good (set_call i y c)) ->
  NoDup l -> good c -> (forall i, i ∈ l -> exists k, calls c !! i = Some k /\ x k) ->
  let c' := client_run c (List.map mk l) in
  good c' /\ accessToken c' = accessToken c /\ promises c' = promises c /\
  refreshInFlight c' = refreshInFlight c /\ length (calls c') = length (calls c) /\
  (forall i, i ∈ l -> calls c' !! i = Some y) /\ (forall i, i ∉ l -> calls c' !! i = calls c !! i).
Proof.
  intros Hstep Hgood Hnd. revert c. induction Hnd as [|i l Hi Hnd IH]; intros c Hc Hl.
  - repeat split; [done|]. intros j Hj. by inversion Hj.
  - simpl. rewrite Hstep by (done || apply Hl; by left).
    assert (i < length (calls c)) as Hlt
      by (destruct (Hl i) as (k & Hk & _); [by left|]; by eapply lookup_lt_Some).
    destruct (IH (set_call i y c)) as (H1 & H2 & H3 & H4 & H5 & H6 & H7); [by apply Hgood| |].
    + intros j Hj. destruct (Hl j) as (k & Hk & Hx); [by right|]. exists k. split; [|done]. simpl.
      rewrite list_lookup_insert_ne; [done|]. by intros ->.
    + split; [done|]. split; [done|]. split; [done|]. split; [done|].
      split; [by rewrite H5; simpl; rewrite length_insert|]. split.
      * intros j [->|Hj]%elem_of_cons; [|by apply H6]. rewrite H7 by done. simpl.
        by rewrite list_lookup_insert_eq.
      * intros j Hj. rewrite H7 by (intros Hj'; apply Hj; by right). simpl.
        rewrite list_lookup_insert_ne; [done|]. intros ->. apply Hj. by left.
Qed.

Lemma calls_all (n : nat) (y : call) (l : list call) :
  length l = n -> (forall i, i < n -> l !! i = Some y) -> l = replicate n y.
Proof.
  intros Hn Hall. apply list_eq. intros i. destruct (decide (i < n)) as [Hi|Hi].
  - by rewrite Hall, lookup_replicate_2.
  - rewrite lookup_ge_None_2 by lia. symmetry. apply lookup_ge_None_2. rewrite length_replicate. lia.
Qed.

(** The token a session leaves is sent with every request. *)
Definition bearing (t : string) : option string := or_undefined t.

(** When the token expires under any number of calls at once, one refresh is
    sent for all of them, and each is repeated once with the new token. *)
Theorem burst_shares_refresh (bearers : list (option string)) (token : option string) (t : string)
    (order order' : list nat) :
  bearers <> [] -> order ≡ₚ seq 0 (length bearers) -> order' ≡ₚ seq 0 (length bearers) ->
  client_run (mkClient token [] None (List.map First bearers))
    (List.map (fun i => Answered i 401) order ++ [RefreshAnswered 0 (Session t); RefreshCleared 0]
     ++ List.map Resumes order') =
  mkClient (Some t) [Settled (Session t)] None
    (replicate (length bearers) (Second (bearing t))).
Proof.
  intros Hne Ho Ho'. unfold client_run. rewrite !fold_left_app.
  assert (NoDup order) as Hnd by (rewrite Ho; apply NoDup_seq).
  assert (NoDup order') as Hnd' by (rewrite Ho'; apply NoDup_seq).
  assert (forall i, i ∈ order <-> i < length bearers) as Hin by (intros i; rewrite Ho, elem_of_seq; lia).
  assert (forall i, i ∈ order' <-> i < length bearers) as Hin' by (intros i; rewrite Ho', elem_of_seq; lia).
  destruct order as [|i order]; [by destruct bearers; [|apply Permutation_length in Ho]|].
  cbn [List.map fold_left]. set (c0 := mkClient token [] None (List.map First bearers)).
  assert (i < length bearers) as Hi by (apply Hin; by left).
  assert (forall j, j < length bearers -> exists b, List.map First bearers !! j = Some (First b)) as Hfirst.
  { intros j Hj. destruct (bearers !! j) as [b|] eqn:E; [|apply lookup_ge_None in E; lia].
    exists b. change (List.map First bearers) with (First <$> bearers). by rewrite list_lookup_fmap, E. }
  assert (step c0 (Answered i 401) = mkClient token [Out] (Some 0)
    (<[i := Awaits 0]> (List.map First bearers))) as ->.
  { simpl. by destruct (Hfirst i Hi) as [b ->]. }
  set (c1 := mkClient token [Out] (Some 0) (<[i := Awaits 0]> (List.map First bearers))).
  apply NoDup_cons in Hnd as [Hio Hnd].
  destruct (burst order (fun i => Answered i 401) (fun c => refreshInFlight c = Some 0)
    (fun k => exists b, k = First b) (Awaits 0) c1) as (_ & H1 & H2 & H3 & H4 & H5 & H6); [|done|done|done| |].
  { intros j c Hf (k & Hk & b & ->). simpl. rewrite Hk. unfold refreshSession. by rewrite Hf. }
  { intros j Hj. destruct (Hfirst j) as [b Hb]; [apply Hin; by right|]. exists (First b).
    split; [|by exists b]. simpl. rewrite list_lookup_insert_ne; [done|]. by intros ->. }
  unfold client_run in *. set (c2 := fold_left step _ c1) in *.
  assert (length (calls c2) = length bearers) as Hlen
    by (rewrite H4; simpl; by rewrite length_insert, length_map).
  assert (forall j, j < length bearers -> calls c2 !! j = Some (Awaits 0)) as Hawait.
  { intros j Hj. apply Hin in Hj as [->|Hj]%elem_of_cons; [|by apply H5].
    rewrite H6 by done. simpl. by rewrite list_lookup_insert_eq by (by rewrite length_map). }
  clearbody c2. destruct c2 as [tk ps inf cs]. simpl in *. subst ps tk inf. simpl.
  destruct (burst order' Resumes (fun c => promises c = [Settled (Session t)] /\ accessToken c = Some t)
    (fun k => k = Awaits 0) (Second (bearing t)) (mkClient (Some t) [Settled (Session t)] None cs))
    as ((K1 & K2) & _ & _ & K3 & K4 & K5 & _); [|done|done|done| |].
  { intros j c (Hp & Ht) (k & Hk & ->). simpl. rewrite Hk, Hp. simpl. unfold withToken. by rewrite Ht. }
  { intros j Hj. exists (Awaits 0). split; [|done]. apply Hawait. by apply Hin'. }
  unfold client_run in *. set (c3 := fold_left step _ _) in *. clearbody c3.
  destruct c3 as [tk ps inf cs']. simpl in *. subst. f_equal.
  apply calls_all; [by rewrite K4|]. intros j Hj. by apply K5, Hin'.
Qed.

Lemma burst_shares_refresh_witness :
  client_run (mkClient (Some "old") [] None (List.map First [Some "old"; Some "old"]))
    (List.map (fun i => Answered i 401) [1; 0] ++ [RefreshAnswered 0 (Session "new"); RefreshCleared 0]
     ++ List.map Resumes [0; 1]) =
  mkClient (Some "new") [Settled (Session "new")] None (replicate 2 (Second (bearing "new"))).
Proof.
  apply (burst_shares_refresh [Some "old"; Some "old"] (Some "old") "new" [1; 0] [0; 1]).
  - discriminate.
  - apply Permutation_swap.
  - reflexivity.
Defined.
