(* ===== verification/Logging.v ===== *)
(** * Logging and request ids

    [logging/json-logger.ts], [logging/request-context.ts] and
    [logging/crash-handlers.ts] of the services (the files of [email-ingestion]
    and of [user-management] are the same), [logger.ts] and the handlers of
    [main.ts] of the gateway.  A line is what one call writes to stdout. *)

From S2P Require Import Prelude Js World Json Dates.

Set Default Proof Using "Type*".

Definition newline : Ascii.ascii := Ascii.ascii_of_nat 10.

(** ** request-context.ts

    The store of [AsyncLocalStorage] is what a function is run under: an
    argument of it. *)

Record RequestStore := mkRequestStore { requestId : string }.

Abbreviation context := (option RequestStore).

Definition runWithRequestId {T} (i : string) (fn : context -> T) : T :=
  fn (Some (mkRequestStore i)).

Definition currentRequestId (storage : context) : option string := requestId <$> storage.

(** ** json-logger.ts *)

Inductive Level := debug | info | warn | error.

#[export] Instance Level_eq_dec : EqDecision Level.
Proof. solve_decision. Defined.

Definition level_name (l : Level) : string :=
  match l with debug => "debug" | info => "info" | warn => "warn" | error => "error" end.

(** What is logged: an [Error], a value of JSON, or [undefined]. *)
Inductive logged :=
| AnError (name message : string) (stack : option string)
| AValue (v : json)
| Undefined.

(** [typeof x === 'string' ? x : undefined] *)
Definition if_string (x : option logged) : option string :=
  match x with Some (AValue (JStr s)) => Some s | _ => None end.

Definition or_null (o : option string) : json :=
  match o with Some s => JStr s | None => JNull end.

(** The fields of an object literal, of which [JSON.stringify] leaves out the
    undefined ones. *)
Definition defined_fields (fields : list (string * option json)) : list (string * json) :=
  omap (fun f => pair f.1 <$> f.2) fields.

(** [message] as the text of a line. *)
Definition serialised (message : logged) : option string :=
  match message with
  | AnError name m _ => Some (name +:+ ": " +:+ m)
  | AValue (JStr s) => Some s
  | AValue v => Some (JSON_stringify v)
  | Undefined => None
  end.

Definition error_stack (message : logged) : option string :=
  match message with AnError _ _ s => s | _ => None end.

(** The object of a line. *)
Definition log_fields (service : string) (now : Z) (storage : context) (level : Level)
    (message : logged) (params : list logged) : list (string * json) :=
  let ctx := if_string (last params) in
  let stack := if bool_decide (level = error) && Nat.ltb 1 (length params)
               then if_string (List.hd_error params) else None in
  defined_fields
    [("ts", Some (JStr (toISOString now)));
     ("level", Some (JStr (level_name level)));
     ("service", Some (JStr service));
     ("requestId", Some (or_null (currentRequestId storage)));
     ("context", Some (or_null ctx));
     ("msg", JStr <$> serialised message);
     ("stack", JStr <$> match stack with Some s => Some s | None => error_stack message end)].

Definition write (service : string) (now : Z) (storage : context) (level : Level)
    (message : logged) (params : list logged) : string :=
  JSON_stringify (JObj (log_fields service now storage level message params)) +:+ String newline "".

(** The methods of [JsonLogger], and the level each writes at. *)
Inductive LoggerMethod := Log | Warn | LogError | Debug | Verbose.

Definition method_level (m : LoggerMethod) : Level :=
  match m with Log => info | Warn => warn | LogError => error | Debug | Verbose => debug end.

(** A call of a method of the logger of a service. *)
Definition call_logger (service : string) (now : Z) (storage : context) (m : LoggerMethod)
    (message : logged) (params : list logged) : string :=
  write service now storage (method_level m) message params.

(** ** The gateway's logger.ts *)

(** [{ ...base, ...fields }]: a later field of the same name replaces. *)
Definition spread (base fields : list (string * option json)) : list (string * option json) :=
  fold_left (fun acc f =>
    if List.existsb (fun g => bool_decide (g.1 = f.1)) acc
    then List.map (fun g => if bool_decide (g.1 = f.1) then f else g) acc
    else acc ++ [f]) fields base.

Definition gateway_fields (now : Z) (level : Level) (msg : string)
    (fields : list (string * option json)) : list (string * json) :=
  defined_fields (spread
    [("ts", Some (JStr (toISOString now))); ("level", Some (JStr (level_name level)));
     ("service", Some (JStr "gateway")); ("msg", Some (JStr msg))] fields).

Definition log (now : Z) (level : Level) (msg : string) (fields : list (string * option json)) :
  string :=
  JSON_stringify (JObj (gateway_fields now level msg fields)) +:+ String newline "".

(** ** crash-handlers.ts and the gateway's main.ts *)

Inductive crash := uncaughtException | unhandledRejection.

Definition crash_name (k : crash) : string :=
  match k with
  | uncaughtException => "uncaughtException"
  | unhandledRejection => "unhandledRejection"
  end.

(** A process: what it has printed, its exit code, the timers that will end it
    (when, with which code), and whether the server still accepts connections. *)
Record process := mkProcess {
  stdout : list string;
  exitCode : option Z;
  exits : list (Z * Z);
  accepting : bool;
  exited : option Z;
}.

Section Crash.
(** The stack of [new Error(message)] made in the handler. *)
Context (fresh_stack : string -> option string).

(** [reason instanceof Error ? reason : new Error(String(reason))]; the reason is
    an [Error], or what [String] makes of it. *)
Definition as_error (reason : logged + string) : logged :=
  match reason with
  | inl e => e
  | inr text => AnError "Error" text (fresh_stack text)
  end.

Definition print (line : string) (p : process) : process :=
  mkProcess (stdout p ++ [line]) (exitCode p) (exits p) (accepting p) (exited p).

(** [process.exitCode = 1; setTimeout(() => process.exit(1), 50)] *)
Definition dying (now : Z) (p : process) : process :=
  mkProcess (stdout p) (Some 1%Z) (exits p ++ [((now + 50)%Z, 1%Z)]) (accepting p) (exited p).

Definition stack_param (e : logged) : logged :=
  match error_stack e with Some s => AValue (JStr s) | None => Undefined end.

(** [installCrashHandlers]: the handler of one kind. *)
Definition die (service : string) (storage : context) (kind : crash) (reason : logged + string)
    (now : Z) (p : process) : process :=
  let e := as_error reason in
  dying now (print (call_logger service now storage LogError e
    [stack_param e; AValue (JStr (crash_name kind))]) p).

Definition error_message (e : logged) : string :=
  match e with AnError _ m _ => m | _ => "" end.

(** The handler of the gateway. *)
Definition gateway_die (kind : crash) (reason : logged + string) (now : Z) (p : process) : process :=
  let e := as_error reason in
  dying now (print (log now error "fatal"
    [("kind", Some (JStr (crash_name kind))); ("error", Some (JStr (error_message e)));
     ("stack", JStr <$> error_stack e)]) p).
End Crash.

(** A timer that is due ends a process that is still there. *)
Definition elapse (now : Z) (p : process) : process :=
  match exited p, List.find (fun t => (t.1 <=? now)%Z) (exits p) with
  | None, Some (_, c) => mkProcess (stdout p) (exitCode p) (exits p) false (Some c)
  | _, _ => p
  end.

(** ** One call, one line *)

Lemma escape_char_line (c : Ascii.ascii) : occurs newline (escape_char c) = false.
Proof. destruct c as [[] [] [] [] [] [] [] []]; vm_compute; reflexivity. Qed.

Lemma escape_line (s : string) : occurs newline (escape s) = false.
Proof.
  induction s as [|c s IH]; [done|].
  change (escape (String c s)) with (escape_char c +:+ escape s).
  by rewrite occurs_app, escape_char_line, IH.
Qed.

Lemma quote_line (s : string) : occurs newline (quote s) = false.
Proof.
  unfold quote. change (String quote_char ?u) with (String quote_char "" +:+ u).
  by rewrite !occurs_app, escape_line.
Qed.

Lemma digits_line (fuel : nat) (n : Z) (acc : string) :
  occurs newline acc = false -> occurs newline (digits_of fuel n acc) = false.
Proof.
  assert (forall m, (0 <= m < 10)%Z -> ascii_eqb (digit m) newline = false) as Hd.
  { apply below_10. repeat (constructor; [reflexivity|]). constructor. }
  revert n acc. induction fuel as [|fuel IH]; intros n acc Ha.
  - change (ascii_eqb (digit (n mod 10)) newline || occurs newline acc = false).
    by rewrite Hd, Ha by (apply Z.mod_pos_bound; lia).
  - rewrite digits_of_S.
    assert (occurs newline (String (digit (n mod 10)) acc) = false) as Hs.
    { change (ascii_eqb (digit (n mod 10)) newline || occurs newline acc = false).
      by rewrite Hd, Ha by (apply Z.mod_pos_bound; lia). }
    destruct (n <? 10)%Z; [done|]. by apply IH.
Qed.

Lemma number_line (n : Z) : occurs newline (string_of_Z n) = false.
Proof.
  unfold string_of_Z. destruct (n <? 0)%Z; [rewrite occurs_app|]; by rewrite digits_line.
Qed.

Lemma join_line (l : list string) :
  Forall (fun s => occurs newline s = false) l -> occurs newline (str_join "," l) = false.
Proof.
  induction 1 as [|x l Hx Hl IH]; [done|]. destruct l as [|y l]; [done|].
  by rewrite join_cons2, !occurs_app, Hx, IH.
Qed.

(** [JSON.stringify] never writes a line feed. *)
Lemma stringify_line (x : json) : occurs newline (JSON_stringify x) = false.
Proof.
  revert x. fix IH 1. intros [|[]|q|s|l|fields]; try reflexivity.
  - apply number_line.
  - apply quote_line.
  - change (JSON_stringify (JArr l)) with ("[" +:+ (print_elements l +:+ "]")).
    rewrite !occurs_app. unfold print_elements. rewrite join_line; [done|].
    induction l as [|x l IHl]; constructor; [apply IH|apply IHl].
  - change (JSON_stringify (JObj fields)) with ("{" +:+ (print_fields fields +:+ "}")).
    rewrite !occurs_app. unfold print_fields. rewrite join_line; [done|].
    induction fields as [|f fields IHl]; constructor; [|apply IHl].
    by rewrite !occurs_app, quote_line, IH.
Qed.

(** A text that a reader of lines takes for one line, with this content. *)
Definition one_line (body line : string) : Prop :=
  line = body +:+ String newline "" /\ occurs newline body = false.

Lemma one_line_reads (body line : string) :
  one_line body line -> split_on newline line = [body; ""].
Proof. intros [-> Hb]. by rewrite split_on_app_sep. Qed.

Lemma defined_names (fields : list (string * option json)) (name : string) :
  name ∈ List.map fst (defined_fields fields) -> name ∈ List.map fst fields.
Proof.
  unfold defined_fields. induction fields as [|[k [v|]] fields IH]; simpl; [done| |].
  - intros [->|Hn]%elem_of_cons; [by left|right; by apply IH].
  - intros Hn. right. by apply IH.
Qed.

Lemma defined_nodup (fields : list (string * option json)) :
  NoDup (List.map fst fields) -> NoDup (List.map fst (defined_fields fields)).
Proof.
  unfold defined_fields. induction fields as [|[k [v|]] fields IH]; simpl; [done| |].
  - intros [Hk Hn]%NoDup_cons. apply NoDup_cons. split; [|by apply IH].
    intros Hin. apply Hk. by apply (defined_names fields).
  - intros [_ Hn]%NoDup_cons. by apply IH.
Qed.

(** An object whose fields are texts or [null] is read back. *)
Definition plain (v : json) : Prop := match v with JStr _ | JNull => True | _ => False end.

Lemma plain_printable (fields : list (string * json)) :
  NoDup (List.map fst fields) -> Forall (fun f => plain f.2) fields -> printable (JObj fields).
Proof.
  intros Hnd Hp. split; [done|]. clear Hnd.
  induction Hp as [|[k v] fields Hv Hp IH]; [done|]. simpl. split; [by destruct v|done].
Qed.

(** A field reads back as what it was given, [undefined] as no field. *)
Lemma field_of_defined (fields : list (string * option json)) (i : nat) (k : string) (o : option json) :
  NoDup (List.map fst fields) -> fields !! i = Some (k, o) ->
  field_of k (JObj (defined_fields fields)) = o.
Proof.
  unfold field_of, get, defined_fields. revert i.
  induction fields as [|[k' x] fields IH]; intros i; [done|]. intros [Hk Hnd]%NoDup_cons Hi.
  destruct i as [|i]; simpl in Hi.
  - simplify_eq. destruct o as [v|]; simpl; [by rewrite bool_decide_eq_true_2|].
    destruct (List.find _ _) as [[k'' v]|] eqn:E; [|done]. exfalso.
    apply List.find_some in E as [Hin E]. apply bool_decide_eq_true in E. simpl in E. subst.
    apply Hk, defined_names, list_elem_of_In, List.in_map_iff. by exists (k, v).
  - destruct x as [v|]; simpl; [|by apply (IH i)].
    rewrite bool_decide_eq_false_2; [by apply (IH i)|]. intros ->. apply Hk.
    apply list_elem_of_lookup_2, list_elem_of_In in Hi. apply list_elem_of_In, List.in_map_iff.
    by exists (k, o).
Qed.

(** Names that are written out are compared by evaluation. *)
Lemma distinct_names (names : list string) : bool_decide (NoDup names) = true -> NoDup names.
Proof. apply bool_decide_eq_true. Qed.

(** Read a field of an object that is written out. *)
Ltac read_field :=
  first [ by apply (field_of_defined _ 0); [apply distinct_names; by vm_compute|]
        | by apply (field_of_defined _ 1); [apply distinct_names; by vm_compute|]
        | by apply (field_of_defined _ 2); [apply distinct_names; by vm_compute|]
        | by apply (field_of_defined _ 3); [apply distinct_names; by vm_compute|]
        | by apply (field_of_defined _ 4); [apply distinct_names; by vm_compute|]
        | by apply (field_of_defined _ 5); [apply distinct_names; by vm_compute|] ].

Lemma defined_plain (fields : list (string * option json)) :
  Forall (fun f => match f.2 with Some v => plain v | None => True end) fields ->
  Forall (fun f => plain f.2) (defined_fields fields).
Proof.
  unfold defined_fields. induction 1 as [|[k [v|]] fields Hv Hl IH]; simpl; [done| |done].
  by constructor.
Qed.

Lemma log_fields_plain (service : string) (now : Z) (storage : context) (level : Level)
    (message : logged) (params : list logged) :
  Forall (fun f => plain f.2) (log_fields service now storage level message params).
Proof.
  apply defined_plain. unfold or_null.
  repeat (constructor; [simpl; repeat case_match; simplify_option_eq; done|]). constructor.
Qed.

(** C29: a call of a method of the logger prints one line, whatever a message, an error or a
    parameter contains (line feeds and quotes included); read as JSON it is an
    object that names the time, the level, the service and the request it was
    logged under, and no text that is logged can change these. *)
Theorem one_call_one_line (service : string) (now : Z) (storage : context) (m : LoggerMethod)
    (message : logged) (params : list logged) :
  let line := call_logger service now storage m message params in
  exists body fields, split_on newline line = [body; ""] /\ JSON_parse body = Ok (JObj fields) /\
    field_of "ts" (JObj fields) = Some (JStr (toISOString now)) /\
    field_of "level" (JObj fields) = Some (JStr (level_name (method_level m))) /\
    field_of "service" (JObj fields) = Some (JStr service) /\
    field_of "requestId" (JObj fields) = Some (or_null (currentRequestId storage)) /\
    field_of "msg" (JObj fields) = (JStr <$> serialised message).
Proof.
  cbv zeta. set (level := method_level m).
  exists (JSON_stringify (JObj (log_fields service now storage level message params))), (log_fields service now storage level message params).
  split; [apply one_line_reads; split; [done|apply stringify_line]|].
  split; [apply JSON_parse_stringify, plain_printable; [apply defined_nodup, distinct_names; by vm_compute
                                                       |apply log_fields_plain]|].
  unfold log_fields. cbv zeta.
  do 4 (split; [read_field|]). read_field.
Qed.

(** ** A crash *)

(** An error that escaped every request is printed on a line of its own, and
    ends the process with exit code 1 once fifty milliseconds have passed. *)
Theorem crash_exits (fresh_stack : string -> option string) (service : string) (storage : context)
    (kind : crash) (reason : logged + string) (now later : Z) (p : process) :
  exited p = None -> exits p = [] -> (now + 50 <= later)%Z ->
  let p' := die fresh_stack service storage kind reason now p in
  exited p' = None /\ exitCode p' = Some 1%Z /\ exited (elapse later p') = Some 1%Z /\
  exists line, stdout p' = stdout p ++ [line] /\ length (split_on newline line) = 2.
Proof.
  intros He Hx Hl. cbv zeta. unfold elapse. simpl. rewrite He, Hx. simpl.
  assert ((now + 50 <=? later)%Z = true) as -> by (apply Z.leb_le; lia).
  do 3 (split; [done|]). eexists. split; [done|].
  unfold call_logger, write. by rewrite split_on_app_sep by apply stringify_line.
Qed.

Lemma crash_exits_witness :
  exited (elapse 150 (die (fun _ => None) "user-management" None unhandledRejection (inr "boom") 100
    (mkProcess [] None [] true None))) = Some 1%Z.
Proof.
  destruct (crash_exits (fun _ => None) "user-management" None unhandledRejection (inr "boom") 100 150
    (mkProcess [] None [] true None)) as (_ & _ & H & _); [reflexivity|reflexivity|lia|exact H].
Defined.
