(* ===== verification/AuthGuard.v ===== *)
(** * The access token guard of the services

    [packages/auth-lib]: [jwt-auth.guard.ts], [auth-lib.module.ts] and
    [current-user.decorator.ts]; and the route of [users/users.controller.ts] of
    [user-management] that it guards. *)

From S2P Require Import Prelude Js World Json Url StaticFiles RefreshTokens Auth Gateway Concurrency Sessions.
From Stdlib Require Import QArith.

Local Open Scope nat_scope.

Set Default Proof Using "Type*".

(** [AuthLibOptions]. *)
Record AuthLibOptions := mkAuthLibOptions {
  al_publicKey : string;
  al_issuer : string;
  al_audience : string;
}.

(** The options [JwtModule] is registered with. *)
Record JwtModuleOptions := mkJwtOptions {
  jm_publicKey : string;
  jm_algorithms : list string;
  jm_issuer : string;
  jm_audience : string;
}.

(** [AuthLibModule.forRootAsync]: what [useFactory] answers becomes. *)
Definition forRootAsync (o : AuthLibOptions) : JwtModuleOptions :=
  mkJwtOptions (al_publicKey o) ["RS256"] (al_issuer o) (al_audience o).

(** [request.user]: what the payload of the token holds under [sub] and [role]. *)
Record requestUser := mkRequestUser { user_id : option json; user_role : option json }.

(** The part of an Express request the guard reads and writes. *)
Record httpRequest := mkHttpRequest {
  authorization : option string;
  request_user : option requestUser;
}.

(** [@nestjs/jwt]: the payload of a token that verifies under some options at a
    time. *)
Class JwtService := {
  verifyAsync : JwtModuleOptions -> Z -> string -> result exn json;
  signed_by : string -> list string -> string -> Prop;
}.

(** What it documents: a token verifies only if it is signed by the key with an
    allowed algorithm, has not expired and names the issuer and the audience. *)
Class JwtLaws `{JwtService} : Prop := {
  verified_signed o now t p :
    verifyAsync o now t = Ok p -> signed_by (jm_publicKey o) (jm_algorithms o) t;
  verified_claims o now t p :
    verifyAsync o now t = Ok p ->
    field_of "iss" p = Some (JStr (jm_issuer o)) /\ field_of "aud" p = Some (JStr (jm_audience o)) /\
    forall e, as_number (field_of "exp" p) = Some e -> ~ Qle_bool e (inject_Z (now / 1000)) = true;
}.

Section Guard.
Context `{JwtService}.
Context (options : AuthLibOptions).

Definition extractBearerToken (request : httpRequest) : option string :=
  let parts := match authorization request with Some h => split_on " "%char h | None => [] end in
  match List.hd_error parts with
  | Some scheme => if bool_decide (to_lower scheme = "bearer") then parts !! 1 else None
  | None => None
  end.

Definition with_user (p : json) (request : httpRequest) : httpRequest :=
  mkHttpRequest (authorization request)
    (Some (mkRequestUser (field_of "sub" p) (field_of "role" p))).

(** [canActivate]: its answer, and the request it leaves. *)
Definition canActivate (now : Z) (request : httpRequest) : result exn bool * httpRequest :=
  let token := extractBearerToken request in
  if otruthy token then
    match verifyAsync (forRootAsync options) now (default "" token) with
    | Ok (JNull) => (Err (UnauthorizedException "Invalid or expired access token"), request)
    | Ok payload => (Ok true, with_user payload request)
    | Err _ => (Err (UnauthorizedException "Invalid or expired access token"), request)
    end
  else (Err (UnauthorizedException "Missing access token"), request).

(** [CurrentUser]: [request.user!]. *)
Definition CurrentUser (request : httpRequest) : option requestUser := request_user request.

(** A handler behind [@UseGuards(JwtAuthGuard)], which is given the current user. *)
Definition guarded {D A} (request : httpRequest) (handler : option requestUser -> io (world D) exn A) :
  io (world D) exn A :=
  let! now := Date_now in
  let '(answer, request') := canActivate now request in
  match answer with
  | Ok true => handler (CurrentUser request')
  | Ok false => throw (ForbiddenException "Forbidden resource")
  | Err e => throw e
  end.

(** [UsersController.me]; Prisma refuses an id that is not a text. *)
Definition me {TU TR} `{Table User TU} (current : option requestUser) :
  io (world (users_db TU TR)) exn PublicUser :=
  match current with
  | Some u => match user_id u with
              | Some (JStr i) => getPublicProfile i
              | _ => throw (Error "PrismaClientValidationError")
              end
  | None => throw (TypeError "Cannot read properties of undefined (reading 'id')")
  end.

(** ** What the guard accepts *)

(** The header of a bearer token: the scheme in any case, one space, the token;
    what follows a second space is not looked at. *)
Definition bears (h token : string) : Prop :=
  exists scheme rest, h = scheme +:+ " " +:+ token +:+ rest /\
    occurs " "%char scheme = false /\ to_lower scheme = "bearer" /\
    occurs " "%char token = false /\ truthy token = true /\
    (rest = "" \/ starts_with " " rest = true).

Lemma split_two (h : string) :
  match split_on " "%char h with
  | a :: b :: _ => exists rest, h = a +:+ " " +:+ b +:+ rest /\ (rest = "" \/ starts_with " " rest = true) /\
                     occurs " "%char a = false /\ occurs " "%char b = false
  | [a] => h = a
  | [] => False
  end.
Proof.
  pose proof (join_split_on " "%char h) as Hj. pose proof (split_on_pieces " "%char h) as Hp.
  pose proof (split_on_nonempty " "%char h) as Hn.
  destruct (split_on " "%char h) as [|a [|b l]]; [done|by simpl in Hj|].
  inversion Hp as [|? ? Ha Hp']; subst x l0. inversion Hp' as [|? ? Hb _]; subst x l0.
  destruct l as [|c l].
  - exists "". rewrite append_nil_r. split; [by rewrite <- Hj|]. auto.
  - exists (String " " (str_join " " (c :: l))). split; [rewrite <- Hj|by auto].
    change (str_join " " (a :: b :: c :: l)) with (a +:+ " " +:+ (b +:+ " " +:+ str_join " " (c :: l))).
    done.
Qed.

Lemma extract_iff (request : httpRequest) (token : string) :
  extractBearerToken request = Some token /\ truthy token = true <->
  exists h, authorization request = Some h /\ bears h token.
Proof.
  unfold extractBearerToken, bears. destruct (authorization request) as [h|]; [|naive_solver].
  split.
  - intros [E Ht]. exists h. split; [done|]. pose proof (split_two h) as Hs.
    destruct (split_on " "%char h) as [|a [|b l]]; [done| |]; simpl in E; case_bool_decide; simplify_eq.
    destruct Hs as (rest & -> & Hr & Ha & Hb). by exists a, rest.
  - intros (h' & [= <-] & scheme & rest & -> & Hs & Hl & Ht & Hne & Hr).
    change (" " +:+ ?u) with (String " " u). rewrite split_on_app_sep by done. simpl.
    rewrite bool_decide_eq_true_2 by done. split; [|done].
    destruct Hr as [->|Hr]; [by rewrite append_nil_r, split_on_no_sep|].
    apply starts_with_spec in Hr as [u ->]. change (" " +:+ u) with (String " " u).
    by rewrite split_on_app_sep.
Qed.

Lemma canActivate_cases (now : Z) (request : httpRequest) :
  (exists h token p, authorization request = Some h /\ bears h token /\
     verifyAsync (forRootAsync options) now token = Ok p /\ p <> JNull /\
     canActivate now request = (Ok true, with_user p request)) \/
  ((forall h token p, authorization request = Some h -> bears h token ->
      verifyAsync (forRootAsync options) now token = Ok p -> p = JNull) /\
   exists m, canActivate now request = (Err (UnauthorizedException m), request)).
Proof.
  unfold canActivate. destruct (extractBearerToken request) as [t|] eqn:E; simpl.
  2:{ right. split; [|by eexists]. intros h token p Hh Hb _.
      assert (extractBearerToken request = Some token /\ truthy token = true) as [E' _]
        by (apply extract_iff; eauto). congruence. }
  destruct (truthy t) eqn:Ht.
  2:{ right. split; [|by eexists]. intros h token p Hh Hb _.
      assert (extractBearerToken request = Some token /\ truthy token = true) as [E' ?]
        by (apply extract_iff; eauto). congruence. }
  assert (exists h, authorization request = Some h /\ bears h t) as (h & Hh & Hb)
    by (by apply extract_iff).
  assert (forall token, (exists h, authorization request = Some h /\ bears h token) -> token = t) as Huniq.
  { intros token [E' _]%extract_iff. congruence. }
  destruct (verifyAsync (forRootAsync options) now t) as [p|e] eqn:Hv.
  - assert (p = JNull \/ p <> JNull) as [->|Hp] by (destruct p; auto; by right); [right|left].
    + split; [|by eexists]. intros h' token p Hh' Hb' Hv'. rewrite (Huniq token) in Hv' by eauto. congruence.
    + exists h, t, p. repeat split; try done. by destruct p.
  - right. split; [|by eexists]. intros h' token p Hh' Hb' Hv'.
    rewrite (Huniq token) in Hv' by eauto. congruence.
Qed.

(** A handler behind the guard runs only for a request that bears a token
    signed by the configured key with RS256, issued and meant for the configured
    parties, and it is given the subject and role of that token; any other request
    is answered 401 and changes nothing. *)
Theorem guarded_runs_for_token_user `{!JwtLaws} {D A : Type} (request : httpRequest)
    (handler : option requestUser -> io (world D) exn A) (w : world D) :
  (exists h token p, authorization request = Some h /\ bears h token /\
     verifyAsync (forRootAsync options) (clock w) token = Ok p /\
     signed_by (al_publicKey options) ["RS256"] token /\
     field_of "iss" p = Some (JStr (al_issuer options)) /\
     field_of "aud" p = Some (JStr (al_audience options)) /\
     run (guarded request handler) w =
       run (handler (Some (mkRequestUser (field_of "sub" p) (field_of "role" p)))) w) \/
  (exists m, run (guarded request handler) w = (Err (UnauthorizedException m), w)).
Proof.
  unfold guarded. rewrite run_bind, run_Date_now.
  destruct (canActivate_cases (clock w) request) as [(h & t & p & Hh & Hb & Hv & _ & ->)|(_ & m & ->)].
  - left. exists h, t, p. do 3 (split; [done|]).
    split; [exact (verified_signed (forRootAsync options) _ _ _ Hv)|].
    destruct (verified_claims (forRootAsync options) _ _ _ Hv) as (Hi & Ha & _). done.
  - right. exists m. apply run_throw.
Qed.
End Guard.

(** ** Behind the gateway *)

Lemma header_forwardable (name : string) (hs : headers) :
  name ∉ HOP_BY_HOP -> name <> "host" -> header name (forwardable hs) = header name hs.
Proof.
  intros Hn Hh. unfold header, forwardable. induction hs as [|[n v] hs IH]; [done|]. simpl.
  destruct (decide (n = name)) as [->|Hne].
  - rewrite (bool_decide_eq_false_2 (name ∈ _)), (bool_decide_eq_false_2 (name = "host")) by done. simpl.
    by rewrite bool_decide_eq_true_2.
  - rewrite (bool_decide_eq_false_2 (n = name)) by done. destruct (negb _); [|done]. simpl.
    by rewrite bool_decide_eq_false_2.
Qed.

(** *** Two readings of one header

    The gateway trims what follows [Bearer ], the guard takes it up to the first space.
    Between the first two dots of a token they read the same. *)

Lemma trim_start_upto (a : string) (c : Ascii.ascii) (b : string) :
  is_blank c = false -> trim_start (a +:+ String c b) = trim_start a +:+ String c b.
Proof.
  intros Hc. induction a as [|x a IH]; [by simpl; rewrite Hc|]. simpl. by destruct (is_blank x).
Qed.

Lemma occurs_trim_start (c : Ascii.ascii) (s : string) : occurs c s = false -> occurs c (trim_start s) = false.
Proof.
  induction s as [|x s IH]; [done|]. simpl. rewrite orb_false_iff. intros [Hx Hs].
  destruct (is_blank x); [by apply IH|]. simpl. by rewrite Hx.
Qed.

Lemma srev_mid (a : string) (c : Ascii.ascii) (b : string) : srev (a +:+ String c b) = srev b +:+ String c (srev a).
Proof.
  unfold srev at 1. rewrite srev_app_eq, (srev_app_srev (String c b)).
  change (srev (String c b)) with (srev_app b (String c "")). by rewrite (srev_app_srev b), append_assoc.
Qed.

(** A blank is not cut out from between two characters that stay. *)
Lemma trim_between (a b r : string) (c : Ascii.ascii) :
  is_blank c = false -> exists r', trim (a +:+ String c (b +:+ String c r)) = trim_start a +:+ String c (b +:+ String c r').
Proof.
  intros Hc. unfold trim. rewrite trim_start_upto by done. rewrite <- (append_cons c b), <- append_assoc.
  rewrite srev_mid, trim_start_upto, srev_mid, srev_involutive, append_assoc by done. by eexists.
Qed.

(** The payload segment of a token and of what [trim] leaves of it and what follows it. *)
Lemma segment_trimmed (t more h s sig h' s' sig' : string) :
  split_on "."%char t = [h; s; sig] -> split_on "."%char (trim (t +:+ more)) = [h'; s'; sig'] -> s' = s.
Proof.
  intros Ht Hm. pose proof (split_on_pieces "."%char t) as Hp. rewrite Ht in Hp.
  inversion Hp as [|? ? Hh Hp']; subst. inversion Hp' as [|? ? Hs _]; subst.
  pose proof (join_split_on "."%char t) as Hj. rewrite Ht in Hj. simpl in Hj. subst t.
  replace ((h +:+ "." +:+ s +:+ "." +:+ sig) +:+ more) with (h +:+ String "." (s +:+ String "." (sig +:+ more))) in Hm
    by (by rewrite !append_assoc).
  destruct (trim_between h s (sig +:+ more) "."%char eq_refl) as [r E]. rewrite E in Hm.
  rewrite split_on_app_sep, split_on_app_sep in Hm by (done || by apply occurs_trim_start). congruence.
Qed.

Section Behind.
Context {KeyObject : Type} (createPublicKey : string -> result exn KeyObject)
  (verify : string -> KeyObject -> string -> bool)
  (base64url utf8 : string -> string) (JSON_parse : string -> result exn json)
  (stringify : json -> string) (String_of : option json -> string)
  (parse_host : string -> option string) (parse_other : string -> string -> option url)
  (cwd : string) (stat : string -> option Stats) (config : GatewayConfig).
Context `{JwtService} (options : AuthLibOptions).
(** The payload [@nestjs/jwt] answers is the one the token holds. *)
Context (verified_payload : forall o now t p, verifyAsync o now t = Ok p ->
  exists h s sig, split_on "."%char t = [h; s; sig] /\ decodeSegment base64url utf8 JSON_parse s = Ok p).

Abbreviation handle' := (handle createPublicKey verify base64url utf8 JSON_parse stringify String_of
  parse_host parse_other cwd stat config).

(** The gateway has verified, of the request and for [who], the token it carries. *)
Definition verified_for (req : Request) (now : Z) (who : AuthenticatedUser) : Prop :=
  exists token, bearerToken req = Some token /\
    valid_token createPublicKey verify base64url utf8 JSON_parse config token now who.

Lemma forwarded_authorization (req : Request) (rid : string) (now : Z)
    (g g' : gateway (KeyObject := KeyObject)) (u : Upstream) :
  handle' req rid now g = (Forward u, g') ->
  header "authorization" (up_headers u) = header "authorization" (reqHeaders req).
Proof.
  intros (r & Hp)%handle_Forward_proxy. apply proxy_Forward in Hp as [_ ->]. rewrite !header_set_ne by done.
  apply header_forwardable; [by apply (bool_decide_unpack _)|done].
Qed.

(** What the guard verifies of a header has the payload of what the gateway verified. *)
Lemma payloads_agree (req : Request) (token h t : string) (now now' : Z) (who : AuthenticatedUser) (p : json) :
  bearerToken req = Some token -> header "authorization" (reqHeaders req) = Some h -> bears h t ->
  valid_token createPublicKey verify base64url utf8 JSON_parse config token now who ->
  verifyAsync (forRootAsync options) now' t = Ok p ->
  field_of "sub" p = Some (JStr (id who)) /\ field_of "role" p = Some (JStr (role who)).
Proof.
  intros Hb Hauth (scheme & rest & -> & Hsch & Hl & Ht & Hne & Hrest) Hvalid Hp.
  unfold bearerToken in Hb. rewrite Hauth in Hb.
  destruct (starts_with "Bearer " _) eqn:Hstart; [|done]. apply starts_with_spec in Hstart as [u E].
  assert (u = t +:+ rest) as ->.
  { assert (split_on " "%char (scheme +:+ " " +:+ t +:+ rest) = split_on " "%char ("Bearer " +:+ u)) as Es by (by rewrite E).
    change (" " +:+ ?x) with (String " " x) in Es. rewrite split_on_app_sep in Es by done.
    change ("Bearer " +:+ u) with ("Bearer" +:+ String " " u) in Es. rewrite split_on_app_sep in Es by done.
    injection Es as -> _. symmetry. exact (append_inj_l "Bearer " _ _ E). }
  change (sdrop 7 ?x) with (sdrop (String.length "Bearer ") x) in Hb. rewrite E, sdrop_append in Hb.
  unfold or_undefined in Hb. destruct (truthy _); [|done]. injection Hb as <-.
  destruct (verified_payload _ _ _ _ Hp) as (h1 & s & sig & Hs & Hd).
  destruct Hvalid as (h2 & s' & sig' & hd & pl & key & exp & Hs' & _ & _ & _ & _ & Hd' & _ & _ & _ & _ & Hsub & Hrole).
  rewrite (segment_trimmed _ _ _ _ _ _ _ _ Hs Hs'), Hd in Hd'. by injection Hd' as <-.
Qed.

Lemma guard_gateway_user (req : Request) (rid : string) (now now' : Z)
    (g g' : gateway (KeyObject := KeyObject)) (u : Upstream) (w : url) (route : Route)
    (request : httpRequest) :
  new_URL parse_host parse_other (default "/" (rawUrl req)) gateway_invalid = Some w ->
  matchRoute (buildRoutes config) (pathname w) = Some route -> requiresAuth route = true ->
  cache_ok createPublicKey (cached g) -> handle' req rid now g = (Forward u, g') ->
  canActivate options now' (mkHttpRequest (header "authorization" (up_headers u)) None)
    = (Ok true, request) ->
  exists who, verified_for req now who /\
    request_user request = Some (mkRequestUser (Some (JStr (id who))) (Some (JStr (role who)))).
Proof.
  intros Hurl Hroute Hreq Hc Hh Hg. pose proof (forwarded_authorization _ _ _ _ _ _ Hh) as Hup.
  apply handle_forward in Hh as (w' & route' & Hurl' & Hroute' & Hv); [|done].
  rewrite Hurl in Hurl'. injection Hurl' as <-. rewrite Hroute in Hroute'. injection Hroute' as <-.
  destruct (Hv Hreq) as (token & who & Hb & Hvalid). exists who. split; [by exists token|].
  destruct (canActivate_cases options now' (mkHttpRequest (header "authorization" (up_headers u)) None))
    as [(h & t & p & Hh' & Hbt & Hp & _ & Hcan)|(_ & m & Hcan)]; rewrite Hcan in Hg; [|done].
  injection Hg as <-. simpl in *. rewrite Hup in Hh'.
  by destruct (payloads_agree _ _ _ _ _ _ _ _ Hb Hh' Hbt Hvalid Hp) as [-> ->].
Qed.

(** Whatever header a request carries to a route that requires a token, what the guard of
    the service makes of the forwarded header is the user the gateway verified, or a
    refusal: however differently the two cut the token out of the header, they never take
    it for someone else, and a handler is never given a user without an id. *)
Theorem guard_agrees_with_gateway (req : Request) (rid : string) (now now' : Z)
    (g g' : gateway (KeyObject := KeyObject)) (u : Upstream) (w : url) (route : Route)
    (request : httpRequest) :
  new_URL parse_host parse_other (default "/" (rawUrl req)) gateway_invalid = Some w ->
  matchRoute (buildRoutes config) (pathname w) = Some route -> requiresAuth route = true ->
  cache_ok createPublicKey (cached g) -> handle' req rid now g = (Forward u, g') ->
  canActivate options now' (mkHttpRequest (header "authorization" (up_headers u)) None)
    = (Ok true, request) ->
  exists who, verified_for req now who /\
    request_user request = Some (mkRequestUser (Some (JStr (id who))) (Some (JStr (role who)))).
Proof. apply guard_gateway_user. Qed.
End Behind.

(** ** A concrete token *)

Module Bearer.
Definition payload : json :=
  JObj [("exp", JNum 100); ("iss", JStr "finlytic"); ("aud", JStr "web"); ("sub", JStr "u1");
        ("role", JStr "USER")].

#[export] Instance jwt : JwtService := {
  verifyAsync o now t :=
    if bool_decide (t = "H.P.signed" /\ jm_publicKey o = "pem" /\ jm_algorithms o = ["RS256"] /\
                    jm_issuer o = "finlytic" /\ jm_audience o = "web" /\ (now / 1000 < 100)%Z)
    then Ok payload else Err (TokenError "invalid");
  signed_by key algs t := key = "pem" /\ algs = ["RS256"] /\ t = "H.P.signed";
}.

#[export] Instance jwt_laws : JwtLaws.
Proof.
  split; simpl; intros o now t p; case_bool_decide as E; try done;
    destruct E as (-> & Hk & Ha & Hi & Hu & Hn); intros [= <-]; [done|].
  rewrite Hi, Hu. split; [done|]. split; [done|]. intros e [= <-] Hle. apply Qle_bool_iff in Hle.
  change (inject_Z 100 <= inject_Z (now / 1000))%Q in Hle. rewrite <- Zle_Qle in Hle. lia.
Qed.

Definition options : AuthLibOptions := mkAuthLibOptions "pem" "finlytic" "web".

Lemma verified_payload (o : JwtModuleOptions) (now : Z) (t : string) (p : json) :
  verifyAsync o now t = Ok p ->
  exists h s sig, split_on "."%char t = [h; s; sig] /\
    decodeSegment Edge.plain Edge.plain Edge.JSON_parse s = Ok p.
Proof.
  simpl. case_bool_decide as E; [|done]. destruct E as (-> & _). intros [= <-].
  by exists "H", "P", "signed".
Qed.
End Bearer.

#[export] Existing Instance Bearer.jwt.
#[export] Existing Instance Bearer.jwt_laws.

Lemma guarded_runs_for_token_user_witness :
  run (guarded Bearer.options (mkHttpRequest (Some "bEaReR H.P.signed x") None) me) Concrete.w0 =
    run (me (Some (mkRequestUser (Some (JStr "u1")) (Some (JStr "USER"))))) Concrete.w0.
Proof.
  destruct (guarded_runs_for_token_user Bearer.options
    (mkHttpRequest (Some "bEaReR H.P.signed x") None) me Concrete.w0)
    as [(h & t & p & Hh & Hb & Hp & _ & _ & _ & E)|(m & E)].
  - rewrite E. simpl in Hp. case_bool_decide; [|discriminate]. injection Hp as <-. reflexivity.
  - exfalso. vm_compute in E. discriminate E.
Defined.

Lemma guard_agrees_with_gateway_witness :
  exists who, verified_for Edge.createPublicKey Edge.verify Edge.plain Edge.plain Edge.JSON_parse
      Edge.config Edge.me 99000 who /\
    Some (mkRequestUser (Some (JStr "u1")) (Some (JStr "USER"))) =
      Some (mkRequestUser (Some (JStr (id who))) (Some (JStr (role who)))).
Proof.
  refine (guard_agrees_with_gateway Edge.createPublicKey Edge.verify Edge.plain Edge.plain
    Edge.JSON_parse Edge.stringify Edge.String_of Edge.parse_host Edge.parse_other "/" Edge.stat
    Edge.config Bearer.options Bearer.verified_payload Edge.me "rid" 99000 99500
    (mkGateway ∅ None) (Edge.handle' Edge.me "rid" 99000 (mkGateway ∅ None)).2 Edge.me_upstream
    (mkUrl "http" "gateway.invalid" ["api"; "users"; "me"] "?x=1" None)
    (mkRoute "/api/users" "http://users:3001" true (Some "/api"))
    (mkHttpRequest (Some "Bearer H.P.signed") (Some (mkRequestUser (Some (JStr "u1")) (Some (JStr "USER")))))
    _ _ _ _ _ _); try reflexivity; vm_compute; reflexivity.
Defined.
