(* ===== verification/Startup.v ===== *)
(** * Starting the services

    [config/env.validation.ts] of [email-ingestion] and [user-management] and
    [gateway/src/config.ts]; the constructors that read the validated environment
    ([EncryptionService], [OAuthStateService], the connection of [queue.module.ts],
    [security.module.ts]); [ObjectStorageService.onModuleInit], the request ids of
    [main.ts] and the health routes ([app.service.ts]).

    Zod is an interface: its schemas are opaque, and the laws state what the
    operations the services use accept. *)

From S2P Require Import Prelude Js Base64 World RefreshTokens Mail Accounts MailSync.
From S2P Require Providers Gateway AuthGuard Logging.

Local Open Scope nat_scope.

Set Default Proof Using "Type*".

(** ** Values *)

(** What an environment holds, and what validation makes of it. *)
Inductive value := Undefined | Str (s : string) | Num (n : Z).

#[export] Instance value_eq_dec : EqDecision value.
Proof. solve_decision. Defined.

(** [Buffer.from(value, 'base64').length] *)
Definition base64_length (s : string) : nat := String.length (from_base64url s).

(** ** Zod *)

Definition on_string (p : string -> bool) (v : value) : bool := match v with Str s => p s | _ => false end.

(** [check p message s]: [.min(1)], [.startsWith(...)] and [.refine(...)] of a string
    schema, by the predicate they add.  [safeParse] answers the issues, a path and a
    message each, or the data. *)
Class Zod := {
  schema : Type;
  z_string : schema;
  z_check : (string -> bool) -> option string -> schema -> schema;
  z_enum : list string -> schema;
  z_positive_int : schema;                            (* z.coerce.number().int().positive() *)
  z_default : value -> schema -> schema;
  z_optional : schema -> schema;
  z_preprocess : (value -> value) -> schema -> schema;
  z_parse : schema -> value -> option value;
  safeParse : list (string * schema) -> (string -> value) ->
    list (string * string) + list (string * value);
}.

Class ZodLaws `{Zod} : Prop := {
  parse_string v : z_parse z_string v = match v with Str s => Some (Str s) | _ => None end;
  parse_check p m s v : z_parse (z_check p m s) v =
    match z_parse s v with Some v' => if on_string p v' then Some v' else None | None => None end;
  parse_enum l v : z_parse (z_enum l) v = match v with Str s => if bool_decide (s ∈ l) then Some v else None | _ => None end;
  parse_positive v v' : z_parse z_positive_int v = Some v' -> exists n, v' = Num n /\ (0 < n)%Z;
  parse_decimal s n : Providers.Number s = Some n -> (0 < n < 2 ^ 53)%Z -> z_parse z_positive_int (Str s) = Some (Num n);
  parse_default d s v : z_parse (z_default d s) v = if decide (v = Undefined) then Some d else z_parse s v;
  parse_optional s v : z_parse (z_optional s) v = if decide (v = Undefined) then Some Undefined else z_parse s v;
  parse_preprocess f s v : z_parse (z_preprocess f s) v = z_parse s (f v);
  parse_object fields raw env : safeParse fields raw = inr env <->
    Forall2 (fun f e => e.1 = f.1 /\ z_parse f.2 (raw f.1) = Some e.2) fields env;
}.

(** [type Env = z.infer<typeof envSchema>], with what the checks add. *)
Inductive ty := OneOf (l : list string) | PositiveInt | Text (p : string -> bool) | OptionalText (p : string -> bool).

Definition has_type (t : ty) (v : value) : Prop :=
  match t, v with
  | OneOf l, Str s => s ∈ l
  | PositiveInt, Num n => (0 < n)%Z
  | Text p, Str s | OptionalText p, Str s => p s = true
  | OptionalText _, Undefined => True
  | _, _ => False
  end.

Section Validation.
Context `{Zod}.

Definition min1 : schema -> schema := z_check truthy None.

Definition startsWith (prefix : string) (message : option string) : schema -> schema :=
  z_check (starts_with prefix) message.

Definition NODE_ENVS : list string := ["development"; "test"; "production"].

(** [services/email-ingestion/src/config/env.validation.ts] *)
Definition ingestion_envSchema : list (string * schema) := [
  ("NODE_ENV", z_default (Str "development") (z_enum NODE_ENVS));
  ("PORT", z_default (Num 3002) z_positive_int);
  ("JWT_PUBLIC_KEY_PATH", min1 z_string);
  ("JWT_ISSUER", min1 z_string);
  ("JWT_AUDIENCE", min1 z_string);
  ("DATABASE_URL", startsWith "postgresql://" (Some "must be a postgresql:// URL") z_string);
  ("ENCRYPTION_KEY", z_check (fun value => Nat.eqb (base64_length value) 32)
     (Some "must be 32 bytes, base64-encoded (AES-256)") z_string);
  ("GOOGLE_CLIENT_ID", min1 z_string);
  ("GOOGLE_CLIENT_SECRET", min1 z_string);
  ("GOOGLE_REDIRECT_URI", startsWith "http" None z_string);
  ("ZOHO_CLIENT_ID", min1 z_string);
  ("ZOHO_CLIENT_SECRET", min1 z_string);
  ("ZOHO_REDIRECT_URI", startsWith "http" None z_string);
  ("ZOHO_ACCOUNTS_DOMAIN", startsWith "https://accounts.zoho." None z_string);
  ("OAUTH_STATE_SECRET", z_check (fun value => Nat.leb 32 (base64_length value))
     (Some "must be at least 32 bytes, base64-encoded") z_string);
  ("S3_ENDPOINT", startsWith "http" None z_string);
  ("S3_REGION", min1 z_string);
  ("S3_BUCKET", min1 z_string);
  ("S3_ACCESS_KEY_ID", min1 z_string);
  ("S3_SECRET_ACCESS_KEY", min1 z_string);
  ("REDIS_HOST", min1 z_string);
  ("REDIS_PORT", z_default (Num 6379) z_positive_int);
  ("REDIS_PASSWORD", z_preprocess (fun v => if decide (v = Str "") then Undefined else v) (z_optional (min1 z_string)))].

(** [services/user-management/src/config/env.validation.ts] *)
Definition users_envSchema : list (string * schema) := [
  ("NODE_ENV", z_default (Str "development") (z_enum NODE_ENVS));
  ("PORT", z_default (Num 3001) z_positive_int);
  ("DATABASE_URL", startsWith "postgresql://" (Some "must be a postgresql:// URL") z_string);
  ("JWT_PRIVATE_KEY_PATH", min1 z_string);
  ("JWT_PUBLIC_KEY_PATH", min1 z_string);
  ("JWT_ACCESS_TOKEN_TTL_SECONDS", z_default (Num 900) z_positive_int);
  ("JWT_REFRESH_TOKEN_TTL_DAYS", z_default (Num 30) z_positive_int);
  ("JWT_ISSUER", min1 z_string);
  ("JWT_AUDIENCE", min1 z_string)].

Definition newline : string := String Logging.newline "".

(** Of an issue, [issue.path.join('.')] and its message. *)
Definition issue_line (issue : string * string) : string := "  - " +:+ issue.1 +:+ ": " +:+ issue.2.

Definition validateEnv (envSchema : list (string * schema)) (raw : string -> value) :
  result exn (list (string * value)) :=
  match safeParse envSchema raw with
  | inl issues => Err (Error ("Invalid environment configuration:" +:+ newline +:+
                              str_join newline (List.map issue_line issues)))
  | inr env => Ok env
  end.
End Validation.

(** The types of the two environments. *)
Definition ingestion_Env : list (string * ty) := [
  ("NODE_ENV", OneOf NODE_ENVS); ("PORT", PositiveInt); ("JWT_PUBLIC_KEY_PATH", Text truthy);
  ("JWT_ISSUER", Text truthy); ("JWT_AUDIENCE", Text truthy); ("DATABASE_URL", Text (starts_with "postgresql://"));
  ("ENCRYPTION_KEY", Text (fun s => Nat.eqb (base64_length s) 32)); ("GOOGLE_CLIENT_ID", Text truthy);
  ("GOOGLE_CLIENT_SECRET", Text truthy); ("GOOGLE_REDIRECT_URI", Text (starts_with "http"));
  ("ZOHO_CLIENT_ID", Text truthy); ("ZOHO_CLIENT_SECRET", Text truthy); ("ZOHO_REDIRECT_URI", Text (starts_with "http"));
  ("ZOHO_ACCOUNTS_DOMAIN", Text (starts_with "https://accounts.zoho."));
  ("OAUTH_STATE_SECRET", Text (fun s => Nat.leb 32 (base64_length s))); ("S3_ENDPOINT", Text (starts_with "http"));
  ("S3_REGION", Text truthy); ("S3_BUCKET", Text truthy); ("S3_ACCESS_KEY_ID", Text truthy);
  ("S3_SECRET_ACCESS_KEY", Text truthy); ("REDIS_HOST", Text truthy); ("REDIS_PORT", PositiveInt);
  ("REDIS_PASSWORD", OptionalText truthy)].

Definition users_Env : list (string * ty) := [
  ("NODE_ENV", OneOf NODE_ENVS); ("PORT", PositiveInt); ("DATABASE_URL", Text (starts_with "postgresql://"));
  ("JWT_PRIVATE_KEY_PATH", Text truthy); ("JWT_PUBLIC_KEY_PATH", Text truthy);
  ("JWT_ACCESS_TOKEN_TTL_SECONDS", PositiveInt); ("JWT_REFRESH_TOKEN_TTL_DAYS", PositiveInt);
  ("JWT_ISSUER", Text truthy); ("JWT_AUDIENCE", Text truthy)].

(** ** What reads the environment *)

(** [configService.get(key)] *)
Definition get (env : list (string * value)) (key : string) : value :=
  match List.find (fun e => String.eqb e.1 key) env with Some e => e.2 | None => Undefined end.

Definition text (v : value) : string := match v with Str s => s | _ => "undefined" end.

(** [EncryptionService]'s constructor: its key. *)
Definition encryption_key (env : list (string * value)) : result exn string :=
  match get env "ENCRYPTION_KEY" with
  | Str s =>
      let key := from_base64url s in
      if Nat.eqb (String.length key) 32 then Ok key
      else Err (Error ("ENCRYPTION_KEY must decode to 32 bytes, got " +:+ string_of_Z (Z.of_nat (String.length key))))
  | _ => Err (TypeError "The first argument must be of type string")
  end.

(** [OAuthStateService]'s. *)
Definition state_secret (env : list (string * value)) : result exn string :=
  match get env "OAUTH_STATE_SECRET" with
  | Str s => Ok (from_base64url s)
  | _ => Err (TypeError "The first argument must be of type string")
  end.

(** The connection of the queue and of the subscriber to its events. *)
Record redis_connection := mkRedis { rd_host : value; rd_port : value; rd_password : value }.

Definition connection (env : list (string * value)) : redis_connection :=
  mkRedis (get env "REDIS_HOST") (get env "REDIS_PORT") (get env "REDIS_PASSWORD").

(** What the Zoho and Gmail adapters read. *)
Definition gmail_config (env : list (string * value)) : Providers.Gmail.Config :=
  Providers.Gmail.mkConfig (text (get env "GOOGLE_CLIENT_ID")) (text (get env "GOOGLE_CLIENT_SECRET"))
    (text (get env "GOOGLE_REDIRECT_URI")).

Definition zoho_config (env : list (string * value)) : Providers.Zoho.Config :=
  Providers.Zoho.mkConfig (text (get env "ZOHO_CLIENT_ID")) (text (get env "ZOHO_CLIENT_SECRET"))
    (text (get env "ZOHO_REDIRECT_URI")) (text (get env "ZOHO_ACCOUNTS_DOMAIN")).

Section Wiring.
(** [readFileSync(path, 'utf8')], which may throw, and [path.resolve]. *)
Context (readFileSync : string -> result exn string) (resolve : string -> string).

(** [SecurityModule]: what the guard verifies tokens with. *)
Definition auth_options (env : list (string * value)) : result exn AuthGuard.AuthLibOptions :=
  match readFileSync (resolve (text (get env "JWT_PUBLIC_KEY_PATH"))) with
  | Ok publicKey => Ok (AuthGuard.mkAuthLibOptions publicKey (text (get env "JWT_ISSUER")) (text (get env "JWT_AUDIENCE")))
  | Err e => Err e
  end.

(** *** gateway/src/config.ts *)

Definition rbind {X Y} (r : result exn X) (f : X -> result exn Y) : result exn Y :=
  match r with Ok x => f x | Err e => Err e end.

Definition required (env : string -> option string) (name : string) : result exn string :=
  match env name with
  | Some v => if truthy v then Ok v else Err (Error ("Missing required environment variable: " +:+ name))
  | None => Err (Error ("Missing required environment variable: " +:+ name))
  end.

(** The port, [Number] of a text of decimal digits, and the rest of the
    configuration. *)
Definition loadConfig (env : string -> option string) : result exn (option Z * Gateway.GatewayConfig) :=
  let port := Providers.Number (default "3000" (env "PORT")) in
  rbind (required env "JWT_PUBLIC_KEY_PATH") (fun path =>
  rbind (readFileSync path) (fun publicKey =>
  rbind (required env "JWT_ISSUER") (fun issuer =>
  rbind (required env "JWT_AUDIENCE") (fun audience =>
  rbind (required env "USER_MANAGEMENT_URL") (fun userManagementUrl =>
  rbind (required env "EMAIL_INGESTION_URL") (fun emailIngestionUrl =>
  Ok (port, Gateway.mkConfig publicKey issuer audience userManagementUrl emailIngestionUrl
              (match env "WEB_ROOT" with Some v => if truthy v then Some (resolve v) else None | None => None end)))))))).
End Wiring.

(** *** main.ts: the id of a request *)

Definition id_letter (c : Ascii.ascii) : bool :=
  Url.is_alpha c || Url.is_digit c || Url.one_of "_-" c.

Fixpoint all_letters (p : Ascii.ascii -> bool) (s : string) : bool :=
  match s with EmptyString => true | String c s' => p c && all_letters p s' end.

(** [typeof header === 'string' && /^[\w-]{1,64}$/.test(header)] *)
Definition trusted_id (header : option string) : bool :=
  match header with
  | Some h => all_letters id_letter h && Nat.leb 1 (String.length h) && Nat.leb (String.length h) 64
  | None => false
  end.

(** [fresh] is [randomBytes(8).toString('hex')]. *)
Definition service_request_id (fresh : string) (header : option string) : string :=
  if trusted_id header then default "" header else fresh.

(** The middleware: the header of the answer, and the handler run under the id. *)
Definition with_request_id {X} (fresh : string) (header : option string)
    (next : option Logging.RequestStore -> X) : (string * string) * X :=
  let requestId := service_request_id fresh header in
  (("x-request-id", requestId), Logging.runWithRequestId requestId next).

(** ** What validation promises *)

Section Typed.
Context `{ZodLaws}.

(** A schema whose data have a type. *)
Definition sound (s : schema) (t : ty) : Prop := forall v v', z_parse s v = Some v' -> has_type t v'.

Lemma sound_text (p : string -> bool) (m : option string) : sound (z_check p m z_string) (Text p).
Proof.
  intros v v'. rewrite parse_check, parse_string. destruct v as [|s|n]; [done| |done]. simpl.
  destruct (p s) eqn:E; [|done]. by intros [= <-].
Qed.

Lemma sound_positive (n : Z) : (0 < n)%Z -> sound (z_default (Num n) z_positive_int) PositiveInt.
Proof.
  intros Hn v v'. rewrite parse_default. destruct (decide (v = Undefined)); [by intros [= <-]|].
  by intros (m & -> & Hm)%parse_positive.
Qed.

Lemma sound_enum (l : list string) (d : string) : d ∈ l -> sound (z_default (Str d) (z_enum l)) (OneOf l).
Proof.
  intros Hd v v'. rewrite parse_default, parse_enum. destruct (decide (v = Undefined)); [by intros [= <-]|].
  destruct v as [|s|?]; [done| |done]. case_bool_decide; [|done]. by intros [= <-].
Qed.

Lemma sound_optional (p : string -> bool) (m : option string) (f : value -> value) :
  sound (z_preprocess f (z_optional (z_check p m z_string))) (OptionalText p).
Proof.
  intros v v'. rewrite parse_preprocess, parse_optional. destruct (decide (f v = Undefined)); [by intros [= <-]|].
  intros Ht%sound_text. by destruct v'.
Qed.

(** The two schemas, field by field. *)
Definition fields_sound (fields : list (string * schema)) (tys : list (string * ty)) : Prop :=
  Forall2 (fun f t => f.1 = t.1 /\ sound f.2 t.2) fields tys.

Lemma ingestion_sound : fields_sound ingestion_envSchema ingestion_Env.
Proof.
  repeat (constructor; [split; [done|]|]); try constructor; cbn [fst snd];
    first [apply sound_text | by apply sound_positive | apply sound_enum; by left | apply sound_optional].
Qed.

Lemma users_sound : fields_sound users_envSchema users_Env.
Proof.
  repeat (constructor; [split; [done|]|]); try constructor; cbn [fst snd];
    first [apply sound_text | by apply sound_positive | apply sound_enum; by left].
Qed.

Definition well_typed (tys : list (string * ty)) (env : list (string * value)) : Prop :=
  Forall2 (fun t e => e.1 = t.1 /\ has_type t.2 e.2) tys env.

Lemma validateEnv_typed fields tys raw env :
  fields_sound fields tys -> validateEnv fields raw = Ok env -> well_typed tys env.
Proof.
  intros Hs. unfold validateEnv. destruct (safeParse fields raw) as [issues|env'] eqn:E; [done|].
  intros [= ->]. apply parse_object in E. revert tys Hs.
  induction E as [|f e fields env [Hk Hp] _ IH]; intros tys Hs; inversion Hs as [|? t ? tys' [Hn Hf] Hs']; subst;
    constructor; [|by apply IH]. split; [congruence|by eapply Hf].
Qed.

(** C28: an environment that passes validation is well typed, in either service: it
    has the variables of the schema and no other, ports and lifetimes are positive
    integers, whatever text they were given as, and an empty Redis password is none. *)
Theorem validated_env_typed :
  (forall raw env, validateEnv ingestion_envSchema raw = Ok env -> well_typed ingestion_Env env) /\
  (forall raw env, validateEnv users_envSchema raw = Ok env -> well_typed users_Env env).
Proof. split; intros raw env; apply validateEnv_typed; [apply ingestion_sound|apply users_sound]. Qed.

Lemma well_typed_get tys env (key : string) t : well_typed tys env ->
  List.find (fun t => String.eqb t.1 key) tys = Some (key, t) -> has_type t (get env key).
Proof.
  unfold get. induction 1 as [|[k t'] [k' v] tys env [E Ht] _ IH]; simpl in *; [done|]. subst k'.
  destruct (String.eqb k key) eqn:Ek; [|exact IH]. by intros [= -> ->].
Qed.

(** The ingestion service starts on every environment that passes validation:
    the key of the stored tokens has the 32 bytes AES-256 takes, so that the second
    check, in the constructor, never throws; the secret of the OAuth states has as
    many at least; the queue and the subscriber to its events are given one
    connection, whose password is never empty. *)
Theorem validated_env_starts raw env :
  validateEnv ingestion_envSchema raw = Ok env ->
  (exists key, encryption_key env = Ok key /\ String.length key = 32) /\
  (exists secret, state_secret env = Ok secret /\ 32 <= String.length secret) /\
  rd_password (connection env) <> Str "" /\
  (exists host port, rd_host (connection env) = Str host /\ rd_port (connection env) = Num port /\ (0 < port)%Z).
Proof.
  intros Henv. pose proof (validateEnv_typed _ _ _ _ ingestion_sound Henv) as Ht.
  assert (Hkey := well_typed_get _ _ "ENCRYPTION_KEY" _ Ht eq_refl).
  assert (Hsecret := well_typed_get _ _ "OAUTH_STATE_SECRET" _ Ht eq_refl).
  assert (Hhost := well_typed_get _ _ "REDIS_HOST" _ Ht eq_refl).
  assert (Hport := well_typed_get _ _ "REDIS_PORT" _ Ht eq_refl).
  assert (Hpass := well_typed_get _ _ "REDIS_PASSWORD" _ Ht eq_refl).
  unfold encryption_key, state_secret, connection, base64_length in *. cbn [rd_host rd_port rd_password].
  destruct (get env "ENCRYPTION_KEY") as [|k|?]; try done. cbn [has_type] in Hkey. rewrite Hkey.
  destruct (get env "OAUTH_STATE_SECRET") as [|s|?]; try done. apply Nat.leb_le in Hsecret.
  destruct (get env "REDIS_HOST") as [|h|?], (get env "REDIS_PORT") as [|?|port]; try done.
  split; [eexists; split; [done|by apply Nat.eqb_eq]|]. split; [by eexists|].
  split; [intros E; by rewrite E in Hpass|]. by exists h, port.
Qed.
End Typed.

(** The id of a request is short and plain whatever header it came with. *)
Lemma service_request_id_plain (fresh : string) (header : option string) :
  trusted_id (Some fresh) = true -> trusted_id (Some (service_request_id fresh header)) = true.
Proof.
  intros Hf. unfold service_request_id. destruct (trusted_id header) eqn:E; [|done].
  by destruct header as [h|].
Qed.

(** The id a request is answered with is the one on every line it logs, is the
    gateway's when the gateway sent one, and is at most 64 letters, digits, dashes and
    underscores, whatever the header held. *)
Theorem request_id_traced (fresh : string) (header : option string) :
  trusted_id (Some fresh) = true ->
  exists i, with_request_id fresh header Logging.currentRequestId = (("x-request-id", i), Some i) /\
    all_letters id_letter i = true /\ 1 <= String.length i <= 64 /\
    (forall h, header = Some h -> trusted_id header = true -> i = h).
Proof.
  intros Hf. exists (service_request_id fresh header). split; [done|].
  pose proof (service_request_id_plain fresh header Hf) as Hi. cbn [trusted_id] in Hi.
  rewrite !andb_true_iff, !Nat.leb_le in Hi. destruct Hi as [[Hl H1] H64]. split; [done|]. split; [done|].
  intros h -> Ht. unfold service_request_id. by rewrite Ht.
Qed.

(** ** Object storage at start, and health *)

Section Health.
Context {TA TM : Type} `{Table MailAccount TA} `{Table Message TM} `{Cipher}.
(** What S3 answers to a command on the bucket. *)
Context (head_bucket create_bucket : nat -> result exn unit) (bucket : string).

Abbreviation D := (mail_db TA TM).
Abbreviation M := (io (world D) exn).

(** [ObjectStorageService.onModuleInit], with the lines it logs. *)
Definition onModuleInit : M (list string) :=
  let! created := try_catch
    (ask "HeadBucket" [bucket] head_bucket ;! ret [])
    (fun _ => ask "CreateBucket" [bucket] create_bucket ;! ret ["Created bucket " +:+ bucket]) in
  ret (created ++ ["Object storage ready (bucket: " +:+ bucket +:+ ")"]).

Definition isReachable : M bool :=
  try_catch (ask "HeadBucket" [bucket] head_bucket ;! ret true) (fun _ => ret false).

Record health := mkHealth {
  h_status : string; h_database : string; h_encryption : string; h_storage : string;
  h_accounts : nat; h_messages : nat;
}.

Definition count {Row T} `{Table Row T} (t : T) : nat := length (t_select (fun _ : Row => true) t).

(** [AppService.checkHealth] of [email-ingestion]. *)
Definition checkHealth : M health :=
  query (fun d => (Ok tt, d)) ;!
  let! accounts := query (fun d => (Ok (count (mailAccount d)), d)) in
  let! messages := query (fun d => (Ok (count (messages d)), d)) in
  let probe_text := "encryption-self-test" in
  let! sealed := encrypt probe_text probe in
  let! roundTripped := of_result (decrypt sealed probe) in
  let! reachable := isReachable in
  ret (mkHealth "ok" "up" (if bool_decide (roundTripped = probe_text) then "ok" else "FAILED")
         (if reachable then "up" else "DOWN") accounts messages).
End Health.

Section UsersHealth.
Context {TU TR : Type} `{Table User TU}.

(** [AppService.checkHealth] of [user-management]. *)
Definition users_checkHealth : io (world (users_db TU TR)) exn (string * string * nat) :=
  query (fun d => (Ok tt, d)) ;!
  let! users := query (fun d => (Ok (count (user d)), d)) in
  ret ("ok", "up", users).
End UsersHealth.

Section HealthSpec.
Context {TA TM : Type} `{Table MailAccount TA} `{Table Message TM} `{CipherLaws}.
Context (head_bucket create_bucket : nat -> result exn unit) (bucket : string).

Lemma run_isReachable (w : world (mail_db TA TM)) :
  (run (isReachable head_bucket bucket) w).1 = Ok (match head_bucket (length (calls w)) with Ok _ => true | Err _ => false end) /\
  data (run (isReachable head_bucket bucket) w).2 = data w.
Proof.
  unfold isReachable. rewrite run_try, run_bind, run_ask. by destruct (head_bucket _).
Qed.

(** The health route of the ingestion service answers exactly when the database
    does, says that the stored tokens can be read back, and tells whether the bucket
    could be reached without failing when it could not; the probe it encrypts is
    stored nowhere. *)
Theorem health_reports (w : world (mail_db TA TM)) :
  (run (checkHealth head_bucket bucket) w).1 =
    (if db_up w then
       Ok (mkHealth "ok" "up" "ok" (match head_bucket (length (calls w)) with Ok _ => "up" | Err _ => "DOWN" end)
             (count (mailAccount (data w))) (count (messages (data w))))
     else Err DbUnavailable) /\
  data (run (checkHealth head_bucket bucket) w).2 = data w.
Proof.
  unfold checkHealth. rewrite run_bind, run_query. destruct (db_up w) eqn:Hup; [|done].
  cbn [fst snd]. do 2 (rewrite run_bind, run_query; cbn [db_up with_data data fst snd]; rewrite Hup).
  cbn [fst snd with_data data]. rewrite run_bind, run_encrypt, run_bind, decrypt_seal by done.
  cbn [of_result]. rewrite run_ret, run_bind.
  match goal with |- context [run (isReachable head_bucket bucket) ?w'] =>
    destruct (run_isReachable w') as [E1 E2]; destruct (run (isReachable head_bucket bucket) w') as [r w2] end.
  cbn [fst snd] in E1, E2. subst r. rewrite run_ret. cbn [fst snd]. rewrite E2.
  split; [|by destruct (data w)]. cbn. by destruct (head_bucket _).
Qed.
End HealthSpec.

(** ** Concrete environments *)

Module Boot.
(** Schemas as the functions they stand for. *)
#[export] Instance zod : Zod := {
  schema := value -> option value;
  z_string := fun v => match v with Str s => Some (Str s) | _ => None end;
  z_check := fun p _ s v => match s v with Some v' => if on_string p v' then Some v' else None | None => None end;
  z_enum := fun l v => match v with Str s => if bool_decide (s ∈ l) then Some v else None | _ => None end;
  z_positive_int := fun v =>
    match v with
    | Str s => match Providers.Number s with
               | Some n => if decide (0 < n < 2 ^ 53)%Z then Some (Num n) else None
               | None => None
               end
    | _ => None
    end;
  z_default := fun d s v => if decide (v = Undefined) then Some d else s v;
  z_optional := fun s v => if decide (v = Undefined) then Some Undefined else s v;
  z_preprocess := fun f s v => s (f v);
  z_parse := fun s v => s v;
  safeParse := fun fields raw =>
    match mapM (fun f : string * (value -> option value) => pair f.1 <$> f.2 (raw f.1)) fields with
    | Some env => inr env
    | None => inl (List.map (fun f => (f.1, "Invalid input"))
                     (List.filter (fun f => match f.2 (raw f.1) with None => true | Some _ => false end) fields))
    end;
}.

#[export] Instance zod_laws : ZodLaws.
Proof.
  split; try done; simpl.
  - intros v v'. destruct v as [|s|?]; [done| |done]. destruct (Providers.Number s) as [n|]; [|done].
    destruct (decide _) as [Hn|]; [|done]. intros [= <-]. exists n. split; [done|lia].
  - intros s n -> Hn. by rewrite decide_True.
  - intros fields raw env. destruct (mapM _ fields) as [env'|] eqn:E.
    + apply mapM_Some in E. split.
      * intros [= <-]. eapply Forall2_impl; [exact E|]. intros f e (v & Hv & ->)%fmap_Some. done.
      * intros H. f_equal. revert env H. induction E as [|f e' fields env' (v & Hv & ->)%fmap_Some _ IH]; intros env H;
          inversion H as [|? [k v'] ? env2 [Hk Hp] Hr]; subst; [done|]. simpl in *. f_equal; [congruence|by apply IH].
    + split; [done|]. intros H. assert (mapM (fun f : string * (value -> option value) => pair f.1 <$> f.2 (raw f.1)) fields = Some env);
        [|congruence]. apply mapM_Some. eapply Forall2_impl; [exact H|]. intros f [k v] [Hk Hp]. simpl in *.
      rewrite Hp. simpl. by rewrite Hk.
Qed.

Definition key : string := "AAAAAAAAAAAAAAAAAAAAAAAAAAAAAAAAAAAAAAAAAAA=".

(** An environment with an empty Redis password and no port. *)
Definition raw (k : string) : value :=
  if bool_decide (k ∈ ["NODE_ENV"; "PORT"]) then Undefined
  else if String.eqb k "REDIS_PORT" then Str "6380"
  else if String.eqb k "REDIS_PASSWORD" then Str ""
  else if String.eqb k "DATABASE_URL" then Str "postgresql://db/mail"
  else if bool_decide (k ∈ ["ENCRYPTION_KEY"; "OAUTH_STATE_SECRET"]) then Str key
  else if String.eqb k "ZOHO_ACCOUNTS_DOMAIN" then Str "https://accounts.zoho.eu"
  else if bool_decide (k ∈ ["GOOGLE_REDIRECT_URI"; "ZOHO_REDIRECT_URI"; "S3_ENDPOINT"]) then Str "http://localhost"
  else Str "x".

Definition env : list (string * value) :=
  Eval vm_compute in match validateEnv ingestion_envSchema raw with Ok env => env | Err _ => [] end.
End Boot.

#[export] Existing Instances Boot.zod Boot.zod_laws.

Lemma validated_env_typed_witness :
  validateEnv ingestion_envSchema Boot.raw = Ok Boot.env /\ well_typed ingestion_Env Boot.env.
Proof.
  assert (E : validateEnv ingestion_envSchema Boot.raw = Ok Boot.env) by (vm_compute; reflexivity).
  split; [exact E|]. exact (proj1 validated_env_typed Boot.raw Boot.env E).
Defined.

Lemma validated_env_starts_witness :
  get Boot.env "PORT" = Num 3002 /\ get Boot.env "REDIS_PASSWORD" = Undefined /\
  exists key, encryption_key Boot.env = Ok key /\ String.length key = 32.
Proof.
  split; [reflexivity|]. split; [reflexivity|].
  refine (proj1 (validated_env_starts Boot.raw Boot.env _)). vm_compute. reflexivity.
Defined.

Lemma request_id_traced_witness :
  trusted_id (Some "0123456789abcdef") = true /\
  exists i, with_request_id "0123456789abcdef" (Some "bad id") Logging.currentRequestId = (("x-request-id", i), Some i) /\
    i = "0123456789abcdef".
Proof.
  split; [reflexivity|].
  destruct (request_id_traced "0123456789abcdef" (Some "bad id") eq_refl) as (i & E & _).
  exists i. split; [exact E|]. by injection E.
Defined.

Lemma health_reports_witness :
  (run (checkHealth (fun _ => Err (Error "ECONNREFUSED")) "mail") Vault.w0).1 =
    Ok (mkHealth "ok" "up" "ok" "DOWN" 1 0).
Proof. exact (proj1 (health_reports (fun _ => Err (Error "ECONNREFUSED")) "mail" Vault.w0)). Defined.
