(* ===== verification/Ownership.v ===== *)
(** * What a request leaves alone

    [services/email-ingestion]: the statements and programs of [Accounts] and
    [Messages] once more, as what they may change.  A request that speaks for a user
    updates and creates accounts of that user alone, even while the accounts it has
    read are changed by others; it writes no message and no object.  The judgement is
    [rg] of Concurrency: other threads keep the owners of accounts ([keeps_owners]),
    and every step of a request is in [spares]. *)

From S2P Require Import Prelude Js Concurrency World Mail Accounts MailSync Messages OAuthState Startup.

Set Default Proof Using "Type*".

(** Ids stay unique, and no account is lost or changes hands. *)
Record keeps_owners (l l' : list MailAccount) : Prop := {
  ko_ids : NoDup (List.map ma_id l) -> NoDup (List.map ma_id l');
  ko_owner a : a ∈ l -> exists a', a' ∈ l' /\ ma_id a' = ma_id a /\ ma_userId a' = ma_userId a;
}.

#[export] Instance keeps_owners_preorder : PreOrder keeps_owners.
Proof.
  split; [by intros l; split; eauto|]. intros l1 l2 l3 [Hn Ho] [Hn' Ho']. split; [by auto|].
  intros a Ha. destruct (Ho a Ha) as (b & Hb & E1 & E2). destruct (Ho' b Hb) as (c & Hc & E3 & E4).
  exists c. split; [done|]. split; congruence.
Qed.

Definition owned_by (v : string) (a : MailAccount) : bool := bool_decide (ma_userId a = v).

(** The accounts of [v] are the same. *)
Definition same_for (v : string) (l l' : list MailAccount) : Prop :=
  List.filter (owned_by v) l' ≡ₚ List.filter (owned_by v) l.

#[export] Instance same_for_equivalence v : Equivalence (same_for v).
Proof.
  unfold same_for. split; [by intros l|by intros l l' E|intros l1 l2 l3 E E'; by rewrite E', E].
Qed.

#[export] Instance filter_perm_proper {X} (p : X -> bool) :
  Proper (Permutation ==> Permutation) (List.filter p).
Proof.
  intros l l' E. induction E as [|x l l' _ IH|x y l|l l' l'' _ IH _ IH']; simpl; [done| | |by etrans].
  - destruct (p x); by rewrite ?IH.
  - destruct (p x), (p y); done || apply perm_swap.
Qed.

#[export] Instance keeps_owners_proper : Proper (Permutation ==> Permutation ==> iff) keeps_owners.
Proof.
  assert (forall l1 l1' l2 l2', l1 ≡ₚ l1' -> l2 ≡ₚ l2' -> keeps_owners l1 l2 -> keeps_owners l1' l2') as H.
  { intros l1 l1' l2 l2' E1 E2 [Hn Ho]. split; [by rewrite <- E1, <- E2|].
    intros a Ha. rewrite <- E1 in Ha. destruct (Ho a Ha) as (a' & Ha' & E). exists a'. by rewrite <- E2. }
  intros l1 l1' E1 l2 l2' E2. split; by apply H.
Qed.

(** The account [i] is one of [u]. *)
Definition owner_of (u i : string) (l : list MailAccount) : Prop :=
  NoDup (List.map ma_id l) /\ exists a, a ∈ l /\ ma_id a = i /\ ma_userId a = u.

Lemma owner_of_stable (u i : string) (l l' : list MailAccount) :
  keeps_owners l l' -> owner_of u i l -> owner_of u i l'.
Proof.
  intros [Hn Ho] [Hnd (a & Ha & Hi & Hu)]. split; [by apply Hn|].
  destruct (Ho a Ha) as (a' & Ha' & Hi' & Hu'). exists a'. split; [done|]. split; congruence.
Qed.

Lemma owner_of_all (u i : string) (l : list MailAccount) (a : MailAccount) :
  owner_of u i l -> a ∈ l -> ma_id a = i -> ma_userId a = u.
Proof.
  intros [Hnd (b & Hb & Hi & Hu)] Ha E. assert (a = b) as ->; [|done].
  apply list_elem_of_lookup in Ha as [n Hn], Hb as [m Hm].
  assert (n = m) as ->; [|congruence].
  eapply (NoDup_lookup _ n m i Hnd); rewrite list_lookup_fmap; [rewrite Hn|rewrite Hm]; simpl; congruence.
Qed.

(** ** Statements *)

(** A statement that changes rows of [u] alone, and neither their ids nor their owner. *)
Lemma map_owners (u : string) (p : MailAccount -> bool) (f : MailAccount -> MailAccount) (l : list MailAccount) :
  (forall a, ma_id (f a) = ma_id a /\ ma_userId (f a) = ma_userId a) ->
  (forall a, a ∈ l -> p a = true -> ma_userId a = u) ->
  let l' := List.map (fun a => if p a then f a else a) l in
  keeps_owners l l' /\ forall v, v <> u -> same_for v l l'.
Proof.
  intros Hf Hp l'. split.
  - assert (List.map ma_id l' = List.map ma_id l) as E.
    { unfold l'. rewrite List.map_map. apply List.map_ext. intros a. destruct (p a); [apply Hf|done]. }
    split; [by rewrite E|]. intros a Ha. exists (if p a then f a else a).
    split; [|destruct (p a); [apply Hf|done]]. unfold l'. apply list_elem_of_In, List.in_map_iff.
    exists a. split; [done|by apply list_elem_of_In].
  - intros v Hv. unfold same_for. apply reflexive_eq. unfold l'. clear l'. induction l as [|a l IH]; [done|]. simpl.
    assert (forall b, b ∈ l -> p b = true -> ma_userId b = u) as Hl by (intros b Hb; apply Hp; by right).
    destruct (p a) eqn:E; [|simpl; destruct (owned_by v a); by rewrite IH].
    assert (ma_userId a = u) as Ha by (apply Hp; [left|done]).
    assert (owned_by v (f a) = false /\ owned_by v a = false) as [-> ->]; [|by apply IH].
    unfold owned_by. rewrite (proj2 (Hf a)), Ha. by rewrite bool_decide_eq_false_2.
Qed.

Lemma cons_owners (u : string) (a : MailAccount) (l : list MailAccount) :
  ma_userId a = u -> (forall b, b ∈ l -> ma_id b <> ma_id a) ->
  keeps_owners l (a :: l) /\ forall v, v <> u -> same_for v l (a :: l).
Proof.
  intros Ha Hfresh. split.
  - split; [|intros b Hb; exists b; split; [by right|done]]. intros Hnd. simpl. apply NoDup_cons. split; [|done].
    intros (b & E & Hb)%list_elem_of_fmap. by apply (Hfresh b Hb).
  - intros v Hv. unfold same_for. simpl. unfold owned_by at 1. rewrite Ha.
    by rewrite bool_decide_eq_false_2.
Qed.

(** ** Programs that have no hand on the rows *)

Section Same.
Context {TA TM : Type} `{Cipher}.

Abbreviation W := (world (mail_db TA TM)).
Abbreviation M := (io W exn).

Lemma same_query {X} (f : mail_db TA TM -> result exn X) : each_step (fun w w' : W => data w' = data w) (query (fun d => (f d, d))).
Proof. apply each_step_perform. intros w. by destruct (db_up w). Qed.

Lemma same_accounts {X} (f : TA -> result exn X) :
  each_step (fun w w' : W => data w' = data w) (on_accounts (fun t => (f t, t))).
Proof. apply each_step_perform. intros w. destruct (db_up w); [|done]. simpl. by destruct (data w). Qed.

Lemma same_messages {X} (f : TM -> result exn X) :
  each_step (fun w w' : W => data w' = data w) (on_messages (fun t => (f t, t))).
Proof. apply each_step_perform. intros w. destruct (db_up w); [|done]. simpl. by destruct (data w). Qed.

Lemma same_draw {X} (source : nat -> X) : each_step (fun w w' : W => data w' = data w) (draw source : M X).
Proof. by apply each_step_perform. Qed.

Lemma same_ask {X} (name : string) (args : list string) (f : nat -> result exn X) :
  each_step (fun w w' : W => data w' = data w) (ask name args f : M X).
Proof. by apply each_step_perform. Qed.

Lemma same_now : each_step (fun w w' : W => data w' = data w) (Date_now : M Z).
Proof. by apply each_step_perform. Qed.

Lemma same_of_result {A} (r : result exn A) : each_step (fun w w' : W => data w' = data w) (of_result r : M A).
Proof. by destruct r. Qed.

Lemma same_ret {A} (a : A) : each_step (fun w w' : W => data w' = data w) (ret a : M A).
Proof. done. Qed.

Lemma same_throw {A} (e : exn) : each_step (fun w w' : W => data w' = data w) (throw e : M A).
Proof. done. Qed.

Lemma same_encrypt (t : string) (p : CipherPurpose) :
  each_step (fun w w' : W => data w' = data w) (encrypt t p : M string).
Proof. apply each_step_bind; [apply same_draw|done]. Qed.
End Same.

Create HintDb same.
#[export] Hint Resolve each_step_bind each_step_try same_query same_accounts same_messages same_draw
  same_ask same_now same_of_result same_ret same_throw same_encrypt : same.

Section Requests.
Context {TA TM : Type} `{Table MailAccount TA} `{Table Message TM} `{!TableLaws MailAccount TA} `{Cipher}.
(** The users a request speaks for. *)
Context (speaks : string -> Prop).

Abbreviation D := (mail_db TA TM).
Abbreviation W := (world D).
Abbreviation M := (io W exn).

(** The rely of a request. *)
Definition steady (w w' : W) : Prop := keeps_owners (accounts_of w) (accounts_of w').

(** Its guarantee: whoever it does not speak for keeps their accounts as they are;
    messages and objects it leaves to the runs. *)
Definition spares (w w' : W) : Prop :=
  steady w w' /\ messages (data w') = messages (data w) /\ objects (data w') = objects (data w) /\
  forall v, ~ speaks v -> same_for v (accounts_of w) (accounts_of w').

Abbreviation ok p := (rg steady spares p (fun _ _ => True)).

Lemma spares_same (w w' : W) : data w' = data w -> spares w w'.
Proof.
  unfold spares, steady, accounts_of. intros ->. split; [done|]. split; [done|]. split; [done|].
  by intros v _.
Qed.

Lemma spares_steady (w w' : W) : spares w w' -> rtc steady w w'.
Proof. intros [Hs _]. by apply rtc_once. Qed.

Lemma ok_same {A} (p : M A) (w : W) : each_step (fun w w' => data w' = data w) p -> ok p w.
Proof.
  intros Hp. apply rg_each_step. induction p as [a|B op k IH]; [done|]. destruct Hp as [Hop Hk].
  split; [|intros b; by apply IH]. intros s. split; [by apply spares_same|]. by apply spares_steady, spares_same.
Qed.

Lemma ok_outside {A} (p : M A) (w : W) : outside p -> ok p w.
Proof.
  unfold outside. intros Hp. apply ok_same. induction p as [a|B op k IH]; [done|]. destruct Hp as [Hop Hk].
  split; [|intros b; by apply IH]. intros s. apply Hop.
Qed.

End Requests.

(** ** Requests *)

Lemma bind_ret {S E A B} (a : A) (f : A -> io S E B) : io_bind (ret a) f = f a.
Proof. done. Qed.

Section Handlers.
Context {TA TM : Type} `{Table MailAccount TA} `{Table Message TM} `{!TableLaws MailAccount TA} `{Cipher}.
Context (speaks : string -> Prop).
Context (reg : registry (mail_db TA TM)) (lawful : forall p a, Mail.get reg p = Ok a -> AdapterLaws a).

Abbreviation D := (mail_db TA TM).
Abbreviation W := (world D).
Abbreviation M := (io W exn).
Abbreviation ok p := (rg steady (spares speaks) p (fun _ _ => True)).
Abbreviation rely := (steady (TA := TA) (TM := TM)).

Definition has_owner (u i : string) (w : W) : Prop := owner_of u i (accounts_of w).

Lemma has_owner_stable (u i : string) (w w' : W) : rely w w' -> has_owner u i w -> has_owner u i w'.
Proof. apply owner_of_stable. Qed.

Lemma ids_stable (w w' : W) :
  rely w w' -> NoDup (List.map ma_id (accounts_of w)) -> NoDup (List.map ma_id (accounts_of w')).
Proof. intros Hw. apply Hw. Qed.

(** What is known of an account before a program, of it during the program. *)
Lemma ok_bind_owner {A B} (u i : string) (m : M A) (f : A -> M B) (w : W) :
  has_owner u i w -> ok m w -> (forall a w', has_owner u i w' -> ok (f a) w') -> ok (io_bind m f) w.
Proof. apply rg_bind_stable, has_owner_stable. Qed.

Lemma ok_bind_same {A B} (u i : string) (m : M A) (f : A -> M B) (w : W) :
  has_owner u i w -> each_step (fun w w' : W => data w' = data w) m ->
  (forall a w', has_owner u i w' -> ok (f a) w') -> ok (io_bind m f) w.
Proof. intros Ho Hm. apply (ok_bind_owner u i); [done|by apply ok_same]. Qed.

Lemma ok_try {A} (u i : string) (m : M A) (h : exn -> M A) (w : W) :
  has_owner u i w -> outside m -> (forall e w', has_owner u i w' -> ok (h e) w') -> ok (try_catch m h) w.
Proof.
  intros Ho Hm Hh. apply rg_try. eapply rg_mono; [|apply (rg_frame _ _ m (fun _ _ => True) (has_owner u i))].
  - intros [a|e] w' [_ Hw']; [done|by apply Hh].
  - intros s s'. apply has_owner_stable.
  - done.
  - by apply ok_outside.
Qed.

(** Columns of an account, not its identity. *)
Definition keeps_identity (f : MailAccount -> MailAccount) : Prop :=
  forall a, ma_id (f a) = ma_id a /\ ma_userId (f a) = ma_userId a.

Lemma ok_update (u i : string) (f : MailAccount -> MailAccount) (w : W) :
  speaks u -> keeps_identity f -> has_owner u i w -> ok (update_account i f) w.
Proof.
  intros Hu Hf Ho. apply rg_perform. intros w1 Hw1. split; [|done].
  apply (rtc_stable rely (has_owner u i) w w1) in Hw1; [|intros x y; apply has_owner_stable|done].
  assert (forall w2, spares speaks w1 w2 -> spares speaks w1 w2 /\ rtc rely w1 w2) as Hboth.
  { intros w2 H2. split; [done|by eapply spares_steady]. }
  apply Hboth. destruct (db_up w1); [|by apply spares_same]. unfold update.
  destruct (exists_row (has_account_id i) (mailAccount (data w1)));
    [|apply spares_same; simpl; by destruct (data w1)].
  destruct (map_owners u (has_account_id i) f (accounts_of w1)) as [Hk Hs]; [done| |].
  { intros a Ha E%bool_decide_eq_true. by apply (owner_of_all u i (accounts_of w1)). }
  unfold spares, steady, same_for, accounts_of in *. cbn [data with_data snd mailAccount messages objects].
  rewrite rows_update. split; [done|]. split; [done|]. split; [done|]. intros v Hv.
  rewrite rows_update. apply Hs. by intros ->.
Qed.

Lemma ok_reauth {A} (u i reason : string) (e : exn) (w : W) :
  speaks u -> has_owner u i w -> ok (markReauthRequired i reason ;! throw e : M A) w.
Proof. intros Hu Ho. apply (ok_bind_owner u i); [done|by apply (ok_update u)|by intros _ w' _]. Qed.

Lemma ok_store_tokens (u : string) (account : MailAccount) (ts : OAuthTokens) (w : W) :
  speaks u -> has_owner u (ma_id account) w -> ok (store_tokens account ts) w.
Proof.
  intros Hu Ho. unfold store_tokens.
  apply (ok_bind_same u (ma_id account)); [done|auto with same|]. clear w Ho. intros accessEnc w Ho.
  apply (ok_bind_same u (ma_id account)); [done| |].
  { unfold encrypt_optional. destruct (t_refreshToken ts) as [r|]; [destruct (truthy r)|]; auto with same. }
  clear w Ho. intros refreshEnc w Ho.
  apply (ok_bind_owner u (ma_id account)); [done|by apply (ok_update u)|by intros _ w' _].
Qed.

Lemma ok_getConnection (u : string) (account : MailAccount) (w : W) :
  speaks u -> has_owner u (ma_id account) w -> ok (getConnection reg account) w.
Proof.
  intros Hu Ho. unfold getConnection. apply (ok_bind_same u (ma_id account)); [done|auto with same|].
  clear w Ho. intros now w Ho. case_match.
  { apply ok_same. auto with same. }
  apply (ok_bind_owner u (ma_id account)); [done| |by intros t w' _].
  unfold refresh_access. destruct (ma_refreshTokenEnc account) as [enc|]; [|by apply (ok_reauth u)].
  destruct (truthy enc); [|by apply (ok_reauth u)].
  destruct (Mail.get reg (ma_provider account)) as [adapter|e] eqn:Ha; [|done]. apply lawful in Ha.
  cbn [of_result]. rewrite bind_ret.
  apply (ok_bind_owner u (ma_id account)); [done| |by intros ts w' Hw'; apply (ok_store_tokens u)].
  apply (ok_try u (ma_id account)); [done|by destruct (decrypt enc refresh_); [apply Ha|]|].
  clear w Ho. intros e w Ho. destruct e; try done. by apply (ok_reauth u).
Qed.
(** The account a request looks up for its user is one of that user. *)
Lemma rg_owned_account (u i : string) (w : W) :
  NoDup (List.map ma_id (accounts_of w)) ->
  rg rely (spares speaks) (owned_account u i)
    (fun r w' => match r with Ok (Some a) => has_owner u (ma_id a) w' | _ => True end) w.
Proof.
  intros Hnd. apply rg_perform. intros w1 Hw1.
  apply (rtc_stable rely (fun w => NoDup (List.map ma_id (accounts_of w))) w w1) in Hw1;
    [|intros x y; apply ids_stable|done].
  split.
  { assert (spares speaks w1 (if db_up w1 then with_data (mkMailDb (mailAccount (data w1)) (messages (data w1))
      (objects (data w1))) w1 else w1)) as Hs by (apply spares_same; destruct (db_up w1); [simpl; by destruct (data w1)|done]).
    destruct (db_up w1); (split; [exact Hs|by eapply spares_steady]). }
  intros w2. destruct (db_up w1); [|done]. cbn [fst]. destruct (findFirst _ _) as [a|] eqn:E; [|done].
  apply findFirst_Some in E as [Ha Hp]. apply andb_true_iff in Hp as [_ Hu%bool_decide_eq_true].
  intros Hw2. apply (rtc_stable rely (has_owner u (ma_id a)) _ w2) in Hw2; [done|intros x y; apply has_owner_stable|].
  split; [done|]. by exists a.
Qed.

Lemma ok_preview (u i : string) (w : W) :
  speaks u -> NoDup (List.map ma_id (accounts_of w)) -> ok (preview reg u i) w.
Proof.
  intros Hu Hnd. unfold preview. apply rg_bind.
  eapply rg_mono; [|by apply rg_owned_account]. clear w Hnd. intros [[account|]|e] w; [intros Ho|done..].
  apply (ok_bind_owner u (ma_id account)); [done|by apply (ok_getConnection u)|]. clear w Ho. intros c w Ho.
  destruct (Mail.get reg (ma_provider account)) as [adapter|e] eqn:Ha; [|done]. apply lawful in Ha.
  cbn [of_result]. rewrite bind_ret. apply ok_outside. clear Ho.
  apply outside_bind; [apply Ha|]. intros profile. apply outside_bind; [apply Ha|]. intros page.
  apply outside_bind; [|done]. destruct (lp_messageIds page); [done|apply Ha].
Qed.

(** The mailbox of a user is created for them or is theirs already. *)
Lemma ok_upsert (u : string) (p : MailAccount -> bool) (new : Z -> MailAccount) (f : MailAccount -> MailAccount) (w : W) :
  speaks u -> (forall a, p a = true -> ma_userId a = u) -> (forall now, ma_userId (new now) = u) ->
  keeps_identity f -> ok (upsert p new f) w.
Proof.
  intros Hu Hp Hnew Hf. apply rg_perform. intros w1 _. split; [|done].
  assert (forall w2, spares speaks w1 w2 -> spares speaks w1 w2 /\ rtc rely w1 w2) as Hboth.
  { intros w2 H2. split; [done|by eapply spares_steady]. }
  apply Hboth. destruct (db_up w1); [|by apply spares_same]. destruct (findFirst p _).
  - destruct (map_owners u p f (accounts_of w1)) as [Hk Hs]; [done|by intros a' _; apply Hp|].
    unfold spares, steady, same_for, accounts_of in *. cbn [data with_data snd mailAccount messages objects].
    rewrite rows_update. split; [done|]. split; [done|]. split; [done|]. intros v Hv.
    rewrite rows_update. apply Hs. by intros ->.
  - unfold create. destruct (exists_row _ _) eqn:Hc; [apply spares_same; simpl; by destruct (data w1)|].
    destruct (cons_owners u (new (clock w1)) (accounts_of w1)) as [Hk Hs]; [done| |].
    { intros b Hb. apply (proj1 (exists_row_false _ _) Hc) in Hb. by apply bool_decide_eq_false in Hb. }
    unfold spares, steady, same_for, accounts_of in *. cbn [data with_data snd mailAccount messages objects].
    rewrite rows_insert. split; [done|]. split; [done|]. split; [done|]. intros v Hv.
    rewrite rows_insert. apply Hs. by intros ->.
Qed.

Lemma ok_connect (randomUUID : nat -> string) (u : string) (p : MailProvider) (res : ConnectResult) (w : W) :
  speaks u -> ok (connect randomUUID reg u p res) w.
Proof.
  intros Hu. unfold connect. destruct (Mail.get reg p) as [adapter|e]; [|done].
  cbn [of_result]. rewrite bind_ret. case_match; [done|].
  assert (Hb : forall A B (m : M A) (k : A -> M B) w', each_step (fun w w' : W => data w' = data w) m ->
    (forall a w2, ok (k a) w2) -> ok (io_bind m k) w').
  { intros A B m k w' Hm Hk. apply (rg_bind_stable rely _ (fun _ => True)); [done|done|by apply ok_same|].
    intros a w2 _. apply Hk. }
  apply Hb; [auto with same|]. intros accessEnc w1. apply Hb.
  { unfold encrypt_optional. destruct (t_refreshToken (tokens res)) as [r|]; [destruct (truthy r)|]; auto with same. }
  intros refreshEnc w2. apply Hb; [auto with same|]. intros i w3.
  apply (ok_upsert u); [done| |done|by intros a].
  intros a. unfold same_mailbox. by intros ((Ha%bool_decide_eq_true & _)%andb_true_iff & _)%andb_true_iff.
Qed.

Lemma ok_connect_code (randomUUID : nat -> string) (adapter : MailProviderAdapter D) (p : MailProvider)
    (u code : string) (query : list (string * string)) (w : W) :
  speaks u -> Mail.get reg p = Ok adapter -> ok (connect_code randomUUID reg adapter p u code query) w.
Proof.
  intros Hu Ha%lawful. unfold connect_code.
  apply (rg_bind_stable rely _ (fun _ => True)); [done|done|apply ok_outside, Ha|]. intros res w' _.
  apply (rg_bind_stable rely _ (fun _ => True)); [done|done|by apply ok_connect|]. done.
Qed.

End Handlers.

Section Reads.
Context {TA TM : Type} `{Table MailAccount TA} `{Table Message TM} `{Cipher}.
Context (storage_ok : nat -> bool).

Abbreviation W := (world (mail_db TA TM)).
Abbreviation same p := (each_step (fun w w' : W => data w' = data w) p).

Lemma same_listForUser (u : string) : same (listForUser u).
Proof. unfold listForUser. auto with same. Qed.

Lemma same_owned_account (u i : string) : same (owned_account u i).
Proof. apply same_accounts. Qed.

Lemma same_get_object (k : string) : same (get_object storage_ok k).
Proof. apply each_step_perform. intros w. cbv zeta. by repeat case_match. Qed.

Lemma same_listForAccount (u i : string) (cursor : option string) (limit : nat) : same (listForAccount u i cursor limit).
Proof. apply each_step_bind; [apply same_accounts|]. intros [a|]; auto with same. Qed.

Lemma same_getForAccount (u i j : string) : same (getForAccount storage_ok u i j).
Proof.
  apply each_step_bind; [apply same_query|]. intros [m|]; [|done]. apply each_step_bind; [|done].
  destruct (m_bodyTextKey m) as [k|]; [|done]. destruct (truthy k); [|done].
  apply each_step_try; [|done]. apply each_step_bind; [apply same_get_object|done].
Qed.

Lemma same_raw_route (u i j : string) : same (raw_route storage_ok u i j).
Proof.
  apply each_step_bind; [apply each_step_bind; [apply same_query|]; by intros [m|]|]. intros k.
  apply each_step_try; [apply each_step_bind; [|done]; apply each_step_bind; [apply same_get_object|done]|].
  intros e. by case_bool_decide.
Qed.

Lemma same_checkHealth (head_bucket : nat -> result exn unit) (bucket : string) : same (checkHealth head_bucket bucket).
Proof. unfold checkHealth, isReachable. auto 20 with same. Qed.

Lemma same_authorize (hmac : string -> string) (randomBytes : nat -> string) (reg : registry (mail_db TA TM))
    (slug u : string) : same (authorize hmac randomBytes reg slug u).
Proof. unfold authorize, issue. auto 20 with same. Qed.
End Reads.

#[export] Hint Resolve same_listForUser same_owned_account same_listForAccount same_getForAccount same_raw_route
  same_checkHealth same_authorize same_get_object : same.

(** ** Runs

    A run of an account changes that account alone, and writes messages and objects
    of it alone, whatever happens around it. *)

(** The objects of the messages of an account. *)
Definition object_of (i k : string) : Prop :=
  exists sentAt providerMessageId,
    k = buildRawKey i sentAt providerMessageId \/ k = buildBodyKey i sentAt providerMessageId.

Definition another (i : string) (a : MailAccount) : bool := negb (has_account_id i a).
Definition elsewhere_message (i : string) (m : Message) : bool := negb (of_account i m).

Section Runs.
Context {TA TM : Type} `{Table MailAccount TA} `{Table Message TM} `{!TableLaws MailAccount TA}
  `{!TableLaws Message TM} `{Cipher}.
Context (randomUUID : nat -> string) (simpleParser : string -> result exn Parsed) (storage_ok : nat -> bool).
Context (reg : registry (mail_db TA TM)) (lawful : forall p a, Mail.get reg p = Ok a -> AdapterLaws a).

Abbreviation W := (world (mail_db TA TM)).
Abbreviation M := (io W exn).

Record runs_on (i : string) (w w' : W) : Prop := {
  ro_steady : steady w w';
  ro_accounts : List.filter (another i) (accounts_of w') ≡ₚ List.filter (another i) (accounts_of w);
  ro_messages : List.filter (elsewhere_message i) (messages_of w') ≡ₚ
                List.filter (elsewhere_message i) (messages_of w);
  ro_objects k : objects (data w') !! k = objects (data w) !! k \/ object_of i k;
}.

Abbreviation scoped i p := (each_step (runs_on i) p).

Lemma steady_accounts (w w' : W) : mailAccount (data w') = mailAccount (data w) -> steady w w'.
Proof. unfold steady, accounts_of. by intros ->. Qed.

Lemma runs_same (i : string) (w w' : W) : data w' = data w -> runs_on i w w'.
Proof. intros E. split; unfold steady, accounts_of, messages_of; rewrite ?E; [done..|by left]. Qed.

Lemma scoped_same {A} (i : string) (p : M A) : each_step (fun w w' : W => data w' = data w) p -> scoped i p.
Proof.
  intros Hp. induction p as [a|B op k IH]; [done|]. destruct Hp as [Hop Hk].
  split; [|intros b; by apply IH]. intros s. by apply runs_same.
Qed.

Lemma scoped_outside {A} (i : string) (p : M A) : outside p -> scoped i p.
Proof.
  unfold outside. intros Hp. apply scoped_same. induction p as [a|B op k IH]; [done|]. destruct Hp as [Hop Hk].
  split; [|intros b; by apply IH]. intros s. apply Hop.
Qed.

Lemma scoped_update (i : string) (f : MailAccount -> MailAccount) :
  keeps_identity f -> scoped i (update_account i f).
Proof.
  intros Hf. apply each_step_perform. intros w. destruct (db_up w); [|by apply runs_same]. unfold update.
  destruct (exists_row _ _); [|apply runs_same; simpl; by destruct (data w)].
  split; [..|done|by left]; unfold steady, accounts_of; cbn [data with_data snd mailAccount]; rewrite rows_update.
  - assert (keeps_owners (rows (mailAccount (data w)))
      (List.map (fun r => if has_account_id i r then f r else r) (rows (mailAccount (data w))))) as Hk; [|done].
    split.
    + assert (forall l, List.map ma_id (List.map (fun r => if has_account_id i r then f r else r) l) =
        List.map ma_id l) as ->; [|done]. intros l. rewrite List.map_map. apply List.map_ext.
      intros a. destruct (has_account_id i a); [apply Hf|done].
    + intros a Ha. exists (if has_account_id i a then f a else a).
      split; [apply list_elem_of_In, List.in_map_iff; exists a; split; [done|by apply list_elem_of_In]|].
      destruct (has_account_id i a); [apply Hf|done].
  - induction (rows (mailAccount (data w))) as [|a l IH]; [done|]. unfold another in *. cbn [List.map List.filter].
    destruct (has_account_id i a) eqn:E; [|by rewrite E; cbn [negb]; rewrite IH].
    assert (has_account_id i (f a) = true) as ->; [|done]. unfold has_account_id in *. by rewrite (proj1 (Hf a)).
Qed.

Lemma scoped_put (i k body : string) : object_of i k -> scoped i (put storage_ok k body).
Proof.
  intros Hk. apply each_step_perform. intros w. cbv zeta. destruct (storage_ok _); [|by apply runs_same].
  split; [by apply steady_accounts|done|done|]. intros k'. simpl. destruct (decide (k' = k)) as [->|Hne]; [by right|].
  left. by rewrite lookup_insert_ne.
Qed.

Lemma scoped_create_message (i : string) (row : Z -> Message) :
  (forall now, m_accountId (row now) = i) -> scoped i (create_message row).
Proof.
  intros Hrow. apply each_step_perform. intros w. destruct (db_up w); [|by apply runs_same]. cbv zeta.
  destruct (exists_row _ _); [|by apply runs_same; destruct w as [[] ? ? ? ?]]. unfold create.
  destruct (exists_row _ _); [by apply runs_same; destruct w as [[] ? ? ? ?]|].
  split; [by apply steady_accounts|done| |by left]. unfold messages_of. cbn [data with_data snd messages]. rewrite rows_insert.
  simpl. unfold elsewhere_message at 1, of_account. by rewrite bool_decide_eq_true_2.
Qed.

Lemma scoped_ingest (i : string) (raw : RawMessage) : scoped i (ingest randomUUID simpleParser storage_ok i raw).
Proof.
  unfold ingest. apply each_step_bind; [apply scoped_same; auto with same|]. intros [m|]; [done|].
  apply each_step_bind; [apply scoped_same; auto with same|]. intros parsed.
  apply each_step_bind; [unfold sent_at; repeat case_match; apply scoped_same; auto with same|]. intros sentAt.
  apply each_step_bind; [apply scoped_put; do 2 eexists; by left|]. intros k.
  apply each_step_bind.
  { destruct (body_text parsed) as [t|]; [|done]. apply each_step_bind; [|done].
    apply scoped_put. do 2 eexists. by right. }
  intros bk. apply each_step_bind; [apply scoped_same; auto with same|]. intros n.
  apply each_step_try; [apply each_step_bind; [by apply scoped_create_message|done]|]. intros e. by case_match.
Qed.

Lemma scoped_ingestAll (i : string) (a : MailProviderAdapter (mail_db TA TM)) (c : ProviderConnection) (ids : list string) :
  AdapterLaws a -> scoped i (ingestAll randomUUID simpleParser storage_ok i a c ids).
Proof.
  intros Ha. unfold ingestAll. apply each_step_bind; [apply scoped_same; auto with same|]. intros known.
  apply each_step_bind; [|by intros [[cr sk] gone]]. generalize (0%nat, length known, 0%nat).
  induction (List.filter _ ids) as [|j l IH]; intros [[cr sk] gone]; [done|]. cbn [fetch_all].
  apply each_step_bind; [apply scoped_outside, Ha|]. intros [r|]; [|apply IH].
  apply each_step_bind; [apply scoped_ingest|]. intros new. apply IH.
Qed.

Lemma scoped_initialSync (account : MailAccount) (a : MailProviderAdapter (mail_db TA TM)) (c : ProviderConnection) :
  AdapterLaws a -> scoped (ma_id account) (initialSync randomUUID simpleParser storage_ok account a c).
Proof.
  intros Ha. unfold initialSync. apply each_step_bind; [apply scoped_outside, Ha|]. intros profile.
  apply each_step_bind; [apply scoped_outside, Ha|]. intros page.
  apply each_step_bind; [by apply scoped_ingestAll|]. intros counts.
  apply each_step_bind; [by apply scoped_update|done].
Qed.

Lemma scoped_collect (i : string) (fuel : nat) (a : MailProviderAdapter (mail_db TA TM)) (c : ProviderConnection)
    (cursor : string) (t : option string) (ids : list string) (next : string) :
  AdapterLaws a -> scoped i (collect fuel a c cursor t ids next).
Proof.
  intros Ha. revert t ids next. induction fuel as [|fuel IH]; intros t ids next; [done|].
  cbn [collect]. apply each_step_bind; [apply scoped_outside, Ha|]. intros page.
  destruct (cp_cursorInvalid page); [done|]. case_match; [apply IH|done].
Qed.

Lemma scoped_incrementalSync (fuel : nat) (account : MailAccount) (a : MailProviderAdapter (mail_db TA TM))
    (c : ProviderConnection) (cursor : string) :
  AdapterLaws a -> scoped (ma_id account) (incrementalSync randomUUID simpleParser storage_ok fuel account a c cursor).
Proof.
  intros Ha. unfold incrementalSync. apply each_step_bind; [by apply scoped_collect|].
  intros [ids next| |]; [| |done].
  - apply each_step_bind; [by apply scoped_ingestAll|]. intros counts.
    apply each_step_bind; [by apply scoped_update|done].
  - apply each_step_bind; [by apply scoped_update|]. intros x. by apply scoped_initialSync.
Qed.

Lemma scoped_reauth {A} (i reason : string) (e : exn) : scoped i (markReauthRequired i reason ;! throw e : M A).
Proof. apply each_step_bind; [by apply scoped_update|done]. Qed.

Lemma scoped_getConnection (account : MailAccount) : scoped (ma_id account) (getConnection reg account).
Proof.
  unfold getConnection. apply each_step_bind; [apply scoped_same; auto with same|]. intros now.
  case_match; [apply scoped_same; auto with same|]. apply each_step_bind; [|done].
  unfold refresh_access. destruct (ma_refreshTokenEnc account) as [enc|]; [|apply scoped_reauth].
  destruct (truthy enc); [|apply scoped_reauth].
  destruct (Mail.get reg (ma_provider account)) as [adapter|e] eqn:Ha; [|done]. apply lawful in Ha.
  cbn [of_result]. rewrite bind_ret. apply each_step_bind.
  - apply each_step_try; [destruct (decrypt enc refresh_); [apply scoped_outside, Ha|done]|].
    intros e. destruct e; try done. apply scoped_reauth.
  - intros ts. unfold store_tokens. apply each_step_bind; [apply scoped_same; auto with same|]. intros x.
    apply each_step_bind.
    { unfold encrypt_optional. destruct (t_refreshToken ts) as [r|]; [destruct (truthy r)|]; apply scoped_same; auto with same. }
    intros y. apply each_step_bind; [by apply scoped_update|done].
Qed.

Lemma scoped_sync_active (fuel : nat) (account : MailAccount) :
  scoped (ma_id account) (sync_active randomUUID simpleParser storage_ok reg fuel account).
Proof.
  unfold sync_active. apply each_step_bind; [apply scoped_getConnection|]. intros c.
  destruct (Mail.get reg (ma_provider account)) as [a|e] eqn:Ha; [|done]. apply lawful in Ha.
  cbn [of_result]. rewrite bind_ret. apply each_step_bind.
  - destruct (ma_syncCursor account) as [cursor|]; [|by apply scoped_initialSync].
    destruct (truthy cursor); [by apply scoped_incrementalSync|by apply scoped_initialSync].
  - intros out. apply each_step_bind; [apply scoped_same; auto with same|]. intros now.
    apply each_step_bind; [by apply scoped_update|done].
Qed.

(** A program every step of which is in its scope, whatever happens in between. *)
Lemma rg_scoped {A} (i : string) (p : M A) (w : W) : scoped i p -> rg (fun _ _ => True) (runs_on i) p (fun _ _ => True) w.
Proof.
  intros Hp. apply rg_each_step. induction p as [a|B op k IH]; [done|]. destruct Hp as [Hop Hk].
  split; [intros s; split; [apply Hop|by apply rtc_once]|]. intros b. by apply IH.
Qed.

Lemma rg_syncAccount (fuel : nat) (i : string) (w : W) :
  rg (fun _ _ => True) (runs_on i) (syncAccount randomUUID simpleParser storage_ok reg fuel i) (fun _ _ => True) w.
Proof.
  unfold syncAccount. apply rg_bind, rg_perform. intros w1 _. split.
  { split; [|by apply rtc_once]. apply runs_same. destruct (db_up w1); [|done]. simpl. by destruct (data w1). }
  intros w2 _. destruct (db_up w1); [|done]. cbn [fst]. destruct (findFirst _ _) as [account|] eqn:E; [|done].
  apply findFirst_Some in E as [_ Hi%bool_decide_eq_true]. subst i. case_match; [|done].
  apply rg_scoped, each_step_try; [apply scoped_sync_active|]. intros e.
  apply each_step_bind; [by apply scoped_update|done].
Qed.

(** C5: any number of runs at once, whatever happens between their steps: a step of
    the run of an account leaves every other account, every message of one and every
    object of one as it was, and no account changes hands. *)
Theorem runs_isolated (env : W -> W -> Prop) (fuel : nat) (accountIds : list string) (w : W) (c : config)
    (n : nat) (i : string) (p p' : prog W (result exn SyncOutcome)) (w' : W) :
  rtc (cstep env) (List.map (syncAccount randomUUID simpleParser storage_ok reg fuel) accountIds, w) c ->
  accountIds !! n = Some i -> c.1 !! n = Some p -> tstep p c.2 = Some (p', w') -> runs_on i c.2 w'.
Proof.
  intros Hreach Hi Hp Ht.
  destruct (pool_rg (fun _ _ => True) env
    (fun n => match accountIds !! n with Some i => runs_on i | None => fun _ _ => True end)
    (fun _ _ _ => True) (List.map (syncAccount randomUUID simpleParser storage_ok reg fuel) accountIds, w) c)
    as [_ Hall]; [| |done|].
  - intros s s' _. by apply rtc_once.
  - intros j q Hq. simpl in Hq.
    change (List.map ?f accountIds) with (f <$> accountIds) in Hq. rewrite list_lookup_fmap in Hq.
    destruct (accountIds !! j) as [i'|]; [|done]. injection Hq as <-. apply rg_syncAccount.
  - specialize (Hall n p Hp). simpl in Hall. rewrite Hi in Hall. by apply (rg_tstep _ _ _ _ _ _ _ Hall Ht).
Qed.
End Runs.

(** ** A concrete run *)

Module Neighbourhood.
Definition theirs : MailAccount :=
  mkMailAccount "a2" "u2" GMAIL "g2" "bob@gmail.com" ACTIVE "" 0 None ["read"] None None None None 0 0.

Definition w0 : world Vault.db := mkWorld (mkMailDb [Mailbox.box; theirs] [] ∅) 1000 0 true [].

Definition run_of (i : string) : io (world Vault.db) exn SyncOutcome :=
  syncAccount Mailbox.uuid Mailbox.simpleParser Mailbox.storage_ok Mailbox.reg 3 i.

(** The first run has stored the objects of a message, the second has begun; then the
    message is created. *)
Definition before_create : config := schedule (replicate 5 0 ++ [1] ++ replicate 5 0)%nat ([run_of "a1"; run_of "a2"], w0).

Definition created : config := schedule [0]%nat before_create.
End Neighbourhood.

Lemma runs_isolated_witness :
  length (messages_of Neighbourhood.before_create.2) = 0%nat /\ length (messages_of Neighbourhood.created.2) = 1%nat /\
  runs_on "a1" Neighbourhood.before_create.2 Neighbourhood.created.2.
Proof.
  split; [vm_compute; reflexivity|]. split; [vm_compute; reflexivity|].
  destruct (schedule_step 0 Neighbourhood.before_create) as (p & p' & w' & Hp & Ht & E); [vm_compute; reflexivity|].
  unfold Neighbourhood.created. rewrite E.
  exact (runs_isolated Mailbox.uuid Mailbox.simpleParser Mailbox.storage_ok Mailbox.reg Mailbox.lawful_reg
    (fun _ _ => False) 3 ["a1"; "a2"] Neighbourhood.w0 Neighbourhood.before_create 0 "a1" p p' w'
    (schedule_reachable _ _ _) eq_refl Hp Ht).
Defined.
