(* ===== verification/Browser.v ===== *)
(** * A browser against the sessions service

    The composition of [api/client.ts] of [apps/web] (ApiClient) with the refresh
    and sign-in routes of [user-management] (Auth) and the cookie they share: the
    open pages of one browser, its cookie jar, the requests and answers on the
    wire, and the service, which others use as well.  Requests and answers may be
    lost, cut short or abandoned, the database may be away, the service may stop
    half-way and pages may be loaded again.  A page shares one refresh among its
    calls because a refresh token presented twice revokes its family; the theorems
    say what this buys: as long as no answer is lost, and what is lost with one, or
    with a second page. *)

From S2P Require Import Prelude Js World Concurrency RefreshTokens Auth Sessions.
From S2P Require ApiClient.
Import ApiClient (client, mkClient, promises, refreshInFlight).

Local Open Scope Z_scope.

Set Default Proof Using "Type*".

(** What a browser does with the answer's [Set-Cookie]. *)
Definition store_cookie (jar : option string) (op : cookie_op) : option string :=
  match op with
  | SetCookie name v _ _ _ _ _ => if bool_decide (name = REFRESH_COOKIE) then Some v else jar
  | ClearCookie name _ => if bool_decide (name = REFRESH_COOKIE) then None else jar
  end.

(** The [Cookie] header of a request to the auth routes. *)
Definition cookie_header (jar : option string) : option string :=
  (fun t => cookie_pair (REFRESH_COOKIE, t)) <$> jar.

(** A refresh request of page [tab]: the promise it settles and the cookie it was
    sent with; an answer also has what the service answered and did to the cookie. *)
Record sent_request := mkSent { sr_tab : nat; sr_promise : nat; sr_cookie : option string }.
Record wire_answer := mkWire {
  wa_request : sent_request;
  wa_result : ApiClient.refreshed;
  wa_cookies : list cookie_op;
}.

Section Browser.
Context {TU TR : Type} `{TableLaws User TU} `{TableLaws RefreshToken TR}.
Context (sha256_hex : string -> string) (randomToken randomUUID : nat -> string).
Context (jwt_sign : UserRole -> string -> Z -> string).
Context (ttlDays accessTtl : Z) (production : bool).

Abbreviation um := (world (users_db TU TR)).
Abbreviation refresh_route' := (refresh_route sha256_hex randomToken randomUUID jwt_sign ttlDays accessTtl production).
Abbreviation refresh' := (refresh sha256_hex randomToken randomUUID jwt_sign ttlDays accessTtl).

(** [orphans]: requests whose page no longer waits for an answer, but which the
    service may still carry out.  [lost] is not part of the browser: it counts the
    refreshes the service may have carried out, in part or whole, without the page
    being told the outcome. *)
Record browser := mkBrowser {
  tabs : list client;
  jar : option string;
  sent : list sent_request;
  wire : list wire_answer;
  orphans : list sent_request;
  lost : nat;
  service : um;
}.

(** The program a refresh request starts: the body is [{}], the token is in the cookie. *)
Definition refresh_request (r : sent_request) : io um exn (Auth.Session * list cookie_op) :=
  refresh_route' None (cookie_header (sr_cookie r)) None None.

(** The service answers a refresh.  A refused or failed refresh leaves the cookie. *)
Definition serve_refresh (r : sent_request) (w : um) : wire_answer * um :=
  match run (refresh_request r) w with
  | (Ok (s, cookies), w') => (mkWire r (ApiClient.Session (Auth.s_accessToken s)) cookies, w')
  | (Err _, w') => (mkWire r ApiClient.NoSession [], w')
  end.

(** The database goes away, or comes back. *)
Definition lapse (w w' : um) : Prop :=
  exists up, w' = mkWorld (data w) (clock w) (draws w) up (calls w).

(** The service does some of what a refresh asks for, the database lapsing as it may. *)
Definition partly_served (r : sent_request) (w w' : um) : Prop :=
  exists ps, rtc (cstep lapse) ([refresh_request r], w) (ps, w').

(** The requests a page sends when its client moves from [c] to [c']: one for each
    refresh it began, with the cookie of that moment. *)
Definition begun (tab : nat) (jar : option string) (c c' : client) : list sent_request :=
  List.map (fun p => mkSent tab p jar) (seq (length (promises c)) (length (promises c') - length (promises c))).

(** Events of a page between a sign-in and a sign-out, but for the answer of a
    refresh. *)
Definition own_event (ev : ApiClient.event) : Prop :=
  match ev with
  | ApiClient.RefreshAnswered _ _ | ApiClient.LoggedIn _ | ApiClient.LoggedOut => False
  | _ => True
  end.

(** A token none of whose rows was spent or revoked. *)
Definition unspent (t : string) (w : um) : Prop :=
  forall r, r ∈ tokens_of w -> rt_tokenHash r = sha256_hex t -> rt_revokedAt r = None.

(** The service is well formed, its users are active, and the values it will draw
    are not in use. *)
Record sound (w : um) : Prop := {
  snd_wf : db_wf w;
  snd_active : forall u, u ∈ users_of w -> u_isActive u = true;
  snd_fresh : forall n r, (draws w <= n)%nat -> r ∈ tokens_of w ->
    rt_id r <> randomUUID n /\ rt_tokenHash r <> sha256_hex (randomToken n);
}.

(** The tokens a browser holds: its cookie, those requests carry and those answers bring. *)
Definition brings (a : wire_answer) : option string :=
  match wa_result a with
  | ApiClient.Session _ => fold_left store_cookie (wa_cookies a) None
  | _ => None
  end.

Definition held (b : browser) (t : string) : Prop :=
  jar b = Some t \/ (exists r, r ∈ sent b /\ sr_cookie r = Some t) \/
  exists a, a ∈ wire b /\ brings a = Some t.

(** A page's promise [p] settles with [res]. *)
Definition tell (tab p : nat) (res : ApiClient.refreshed) (ts : list client) : list client :=
  alter (fun c => ApiClient.step c (ApiClient.RefreshAnswered p res)) tab ts.

(** What a page makes of an answer whose head arrived: the body of a session may be cut. *)
Definition read_as (a : wire_answer) (res : ApiClient.refreshed) : Prop :=
  res = wa_result a \/ exists s e, wa_result a = ApiClient.Session s /\ res = ApiClient.Failed e.

(** What a page makes of no answer: [fetch] rejects, or the gateway answers for the service. *)
Definition no_session (res : ApiClient.refreshed) : Prop :=
  match res with ApiClient.Session _ => False | _ => True end.

(** An answer that brings a session is worth keeping. *)
Definition worth (a : wire_answer) : nat :=
  match wa_result a with ApiClient.Session _ => 1 | _ => 0 end.

Definition of_tab (i : nat) (r : sent_request) : bool := Nat.eqb (sr_tab r) i.

Inductive bstep : browser -> browser -> Prop :=
(* a page does something of its own *)
| Acts i c ev b :
    tabs b !! i = Some c -> own_event ev ->
    bstep b (mkBrowser (<[i := ApiClient.step c ev]> (tabs b)) (jar b)
               (sent b ++ begun i (jar b) c (ApiClient.step c ev)) (wire b) (orphans b) (lost b) (service b))
(* a request is served *)
| Serves r l1 l2 b :
    sent b = l1 ++ r :: l2 ->
    bstep b (mkBrowser (tabs b) (jar b) (l1 ++ l2) (wire b ++ [(serve_refresh r (service b)).1])
               (orphans b) (lost b) (serve_refresh r (service b)).2)
(* it does not get to the service *)
| Unserved r res l1 l2 b :
    sent b = l1 ++ r :: l2 -> no_session res ->
    bstep b (mkBrowser (tell (sr_tab r) (sr_promise r) res (tabs b)) (jar b) (l1 ++ l2) (wire b)
               (orphans b) (lost b) (service b))
(* the service stops half-way *)
| Breaks r res w l1 l2 b :
    sent b = l1 ++ r :: l2 -> no_session res -> partly_served r (service b) w ->
    bstep b (mkBrowser (tell (sr_tab r) (sr_promise r) res (tabs b)) (jar b) (l1 ++ l2) (wire b)
               (orphans b) (S (lost b)) w)
(* the page, or the gateway, stops waiting *)
| Abandons r res l1 l2 b :
    sent b = l1 ++ r :: l2 -> no_session res ->
    bstep b (mkBrowser (tell (sr_tab r) (sr_promise r) res (tabs b)) (jar b) (l1 ++ l2) (wire b)
               (r :: orphans b) (S (lost b)) (service b))
(* the service carries out what nobody waits for *)
| Finishes r w l1 l2 b :
    orphans b = l1 ++ r :: l2 -> partly_served r (service b) w ->
    bstep b (mkBrowser (tabs b) (jar b) (sent b) (wire b) (l1 ++ l2) (lost b) w)
(* an answer arrives *)
| Delivers a res l1 l2 b :
    wire b = l1 ++ a :: l2 -> read_as a res ->
    bstep b (mkBrowser (tell (sr_tab (wa_request a)) (sr_promise (wa_request a)) res (tabs b))
      (fold_left store_cookie (wa_cookies a) (jar b)) (sent b) (l1 ++ l2) (orphans b) (lost b) (service b))
(* or does not *)
| Drops a res l1 l2 b :
    wire b = l1 ++ a :: l2 -> no_session res ->
    bstep b (mkBrowser (tell (sr_tab (wa_request a)) (sr_promise (wa_request a)) res (tabs b))
      (jar b) (sent b) (l1 ++ l2) (orphans b) (worth a + lost b)%nat (service b))
(* a page is loaded again *)
| Reloads i b :
    bstep b (mkBrowser (<[i := ApiClient.fresh]> (tabs b)) (jar b)
      (List.filter (fun r => negb (of_tab i r)) (sent b))
      (List.filter (fun a => negb (of_tab i (wa_request a))) (wire b))
      (List.filter (of_tab i) (sent b) ++ orphans b)
      (length (List.filter (of_tab i) (sent b)) +
       list_sum (List.map worth (List.filter (fun a => of_tab i (wa_request a)) (wire b))) + lost b)%nat
      (service b))
(* the cookie expires *)
| Expires b :
    bstep b (mkBrowser (tabs b) None (sent b) (wire b) (orphans b) (lost b) (service b))
(* the service is used by others, the database goes and comes *)
| Elsewhere w b :
    sound w -> (forall t, held b t -> unspent t (service b) -> unspent t w) ->
    bstep b (mkBrowser (tabs b) (jar b) (sent b) (wire b) (orphans b) (lost b) w).

Lemma fully_served (r : sent_request) (w : um) : partly_served r w (serve_refresh r w).2.
Proof.
  assert (partly_served r w (run (refresh_request r) w).2) as Hrun.
  { eexists. apply run_cstep. }
  unfold serve_refresh. by destruct (run (refresh_request r) w) as [[[s cookies]|e] w'].
Qed.

(** A browser that opens [n] pages with a cookie it kept. *)
Definition opened (n : nat) (j : option string) (w : um) : browser :=
  mkBrowser (replicate n ApiClient.fresh) j [] [] [] 0 w.

(** ** One page *)

Lemma read_own_cookie (t : string) :
  plain_cookie (REFRESH_COOKIE, t) -> truthy t = true ->
  readRefreshCookie (cookie_header (Some t)) = Some t.
Proof.
  intros Hp Ht. unfold cookie_header. simpl.
  pose proof (read_header [(REFRESH_COOKIE, t)]) as Hr. simpl in Hr. rewrite Hr by (by constructor).
  unfold or_undefined. by rewrite Ht.
Qed.

Lemma refresh_wf (p : option string) (m : ClientMeta) (w : um) :
  db_wf w -> db_wf (run (refresh' p m) w).2.
Proof.
  intros Hw. assert (each_step keeps_wf (refresh' p m : io um exn LoginResponse)) as Hs.
  { by law (steps_refresh _ _ _ _ _ _ (fun _ => True)). }
  by apply (rtc_stable keeps_wf db_wf w _ (fun x y H => H)), Hw; apply each_step_run.
Qed.

(** A cookie as this service sets it. *)
Definition proper (t : string) : Prop := plain_cookie (REFRESH_COOKIE, t) /\ truthy t = true.

(** Rows that are those of [w] but for one spent token keep the others unspent. *)
Definition spends_only (t : string) (w w' : um) : Prop :=
  forall t', sha256_hex t' <> sha256_hex t -> unspent t' w -> unspent t' w'.

Context (Huuid : forall n m, randomUUID n = randomUUID m -> n = m)
        (Htoken : forall n m, sha256_hex (randomToken n) = sha256_hex (randomToken m) -> n = m)
        (Hplain : forall n, plain_cookie (REFRESH_COOKIE, randomToken n) /\ truthy (randomToken n) = true).

Lemma refuse_unspent (t : string) (m : ClientMeta) (w : um) :
  sound w -> db_up w = true -> truthy t = true -> (spend_spec (sha256_hex t) (clock w) (tokens_of w)) = (None, tokens_of w) ->
  exists w', run (refresh' (Some t) m) w = (Err invalid_refresh, w') /\ sound w' /\
    tokens_of w' ≡ₚ tokens_of w.
Proof.
  intros [Hwf Hact Hfresh] Hup Ht Hsp.
  pose proof (refresh_wf (Some t) m w Hwf) as Hwf'.
  destruct (run_refresh_dead sha256_hex randomToken randomUUID jwt_sign ttlDays accessTtl t m w Hwf Hup Ht)
    as (w' & Hrun & Htok & Hus & Hcl & Hdr & Hdb); [by rewrite Hsp|].
  rewrite Hrun in Hwf'. rewrite Hsp in Htok. exists w'. split; [done|]. split; [|done].
  split; [done|by rewrite Hus|]. intros n r Hn. rewrite Htok. apply Hfresh. lia.
Qed.

(** Spending a live token: the session it answers brings a new, unspent token. *)
Lemma rotate_live (t : string) (m : ClientMeta) (r : RefreshToken) (w : um) :
  sound w -> db_up w = true -> truthy t = true -> r ∈ tokens_of w -> spendable (sha256_hex t) (clock w) r = true ->
  exists l w', run (refresh' (Some t) m) w = (Ok l, w') /\ refreshTokenRaw l = randomToken (draws w) /\
    sound w' /\ unspent (randomToken (draws w)) w' /\ spends_only t w w'.
Proof.
  intros [Hwf Hact Hfresh] Hup Ht Hr Hs. pose proof (refresh_wf (Some t) m w Hwf) as Hwf'.
  destruct (wf_token_users _ Hwf r Hr) as (u & Hu & Hid).
  destruct (run_refresh_live sha256_hex randomToken randomUUID jwt_sign ttlDays accessTtl t m r u w)
    as (w' & Hrun & Htok & Hus & Hcl & Hdr & Hdb); try done; [by apply Hact| |].
  { intros r' Hr'. split; [apply (Hfresh (S (draws w)) r')|apply (Hfresh (draws w) r')]; (done || lia). }
  rewrite Hrun in Hwf'. eexists _, w'. split; [done|]. split; [done|].
  assert (forall x, x ∈ tokens_of w' -> rt_revokedAt x = None \/ rt_tokenHash x = sha256_hex t \/ x ∈ tokens_of w) as Hin.
  { intros x. rewrite Htok. intros [->|(y & -> & Hy)%list_elem_of_fmap]%elem_of_cons; [by left|].
    right. destruct (has_hash (sha256_hex t) y) eqn:E; [left|by right].
    by apply bool_decide_eq_true in E. }
  split; [|split].
  - split; [done|by rewrite Hus|]. intros n x Hn. rewrite Htok.
    intros [->|(y & -> & Hy)%list_elem_of_fmap]%elem_of_cons; simpl.
    + split; [intros E%Huuid|intros E%Htoken]; lia.
    + assert (rt_id y <> randomUUID n /\ rt_tokenHash y <> sha256_hex (randomToken n)) as []
        by (apply Hfresh; [lia|done]). by destruct (has_hash _ y).
  - intros x. rewrite Htok. intros [->|(y & -> & Hy)%list_elem_of_fmap]%elem_of_cons; [done|].
    intros E. destruct (Hfresh (draws w) y) as [_ []]; [lia|done|]. by destruct (has_hash _ y).
  - intros t' Hne Hun x Hx E. destruct (Hin x Hx) as [?|[?|Hx']]; [done|congruence|by apply Hun].
Qed.

(** What serving a refresh that carries an unspent token, or none, amounts to. *)
Definition answered_well (cookie : option string) (w w' : um) (a : wire_answer) : Prop :=
  sound w' /\
  ((wa_result a = ApiClient.NoSession /\ wa_cookies a = [] /\
    forall t, unspent t w -> unspent t w') \/
   (exists s t t', cookie = Some t /\ wa_result a = ApiClient.Session s /\
      wa_cookies a = [setRefreshCookie production t' ttlDays] /\
      proper t' /\ unspent t' w' /\ spends_only t w w')).

Lemma refresh_down (t : string) (m : ClientMeta) (w : um) :
  db_up w = false -> truthy t = true -> run (refresh' (Some t) m) w = (Err DbUnavailable, w).
Proof.
  intros Hd Ht. unfold refresh. simpl. rewrite Ht. unfold spend, spend_at.
  rewrite !run_bind, run_Date_now, run_bind. unfold update_tokens, on_tokens. by rewrite run_query, Hd.
Qed.

Lemma served_cookie (r : sent_request) (t : string) (w : um) :
  sr_cookie r = Some t -> proper t ->
  run (refresh_request r) w =
  run (with_cookie ttlDays production (refresh' (Some t) (mkClientMeta None None))) w.
Proof.
  intros Hc [Hp Ht]. unfold refresh_request, refresh_route. rewrite Hc, read_own_cookie by done.
  simpl. by rewrite Ht.
Qed.

Lemma serve_spec (r : sent_request) (w : um) :
  sound w -> (forall t, sr_cookie r = Some t -> proper t /\ unspent t w) ->
  wa_request (serve_refresh r w).1 = r /\
  answered_well (sr_cookie r) w (serve_refresh r w).2 (serve_refresh r w).1.
Proof.
  intros Hw Ht. unfold serve_refresh. destruct (sr_cookie r) as [t|] eqn:Hc.
  2:{ unfold refresh_request, refresh_route. rewrite Hc.
      cbn [cookie_header fmap option_fmap option_map readRefreshCookie coalesce otruthy].
      rewrite run_throw. split; [done|]. split; [done|]. left. auto. }
  destruct (Ht t eq_refl) as [Hp Hun]. rewrite (served_cookie r t) by done. destruct Hp as [Hp Htr].
  unfold with_cookie. rewrite run_bind. destruct (db_up w) eqn:Hup.
  2:{ rewrite refresh_down by done. split; [done|]. split; [done|]. left. auto. }
  pose proof (find_hash (sha256_hex t) w (snd_wf _ Hw)) as Hf.
  pose proof (refuse_unspent t (mkClientMeta None None) w Hw Hup Htr) as Hrefuse.
  unfold spend_spec in Hrefuse. destruct (List.find _ _) as [x|].
  2:{ destruct Hrefuse as (w' & -> & Hs & Htok); [done|]. split; [done|]. split; [done|]. left.
      do 2 (split; [done|]). intros t' Hu y. rewrite Htok. apply Hu. }
  destruct Hf as (Hx & Hh & _). rewrite (Hun x Hx Hh) in Hrefuse.
  destruct (clock w <? rt_expiresAt x) eqn:Hexp.
  - destruct (rotate_live t (mkClientMeta None None) x w Hw Hup Htr Hx) as (l & w' & -> & Hl & Hs & Hnew & Honly).
    { apply spendable_hash. split; [done|]. split; [by apply Hun|by apply Z.ltb_lt]. }
    rewrite run_ret. split; [done|]. split; [done|]. right. rewrite Hl.
    eexists _, t, _. do 3 (split; [done|]). split; [|done]. split; apply Hplain.
  - destruct Hrefuse as (w' & -> & Hs & Htok); [done|]. split; [done|]. split; [done|]. left.
    do 2 (split; [done|]). intros t' Hu y. rewrite Htok. apply Hu.
Qed.

(** *** The client's own events *)

Lemma own_event_begins (c : client) (ev : ApiClient.event) :
  own_event ev ->
  (length (promises (ApiClient.step c ev)) = length (promises c) /\
   forall p, promises (ApiClient.step c ev) !! p = Some ApiClient.Out <-> promises c !! p = Some ApiClient.Out) \/
  (refreshInFlight c = None /\ promises (ApiClient.step c ev) = promises c ++ [ApiClient.Out]).
Proof.
  intros Hev. unfold ApiClient.step, ApiClient.set_call, ApiClient.refreshSession, ApiClient.refresh_finally.
  destruct ev as [|i st|i e| |p r|p|i|t|]; try done; repeat case_match; simplify_eq/=; try (left; done);
    try (right; done).
  left. split; [apply length_insert|]. intros q. destruct (decide (p = q)) as [<-|Hne].
  - rewrite list_lookup_insert_eq by (by eapply lookup_lt_Some). split; [done|congruence].
  - by rewrite list_lookup_insert_ne.
Qed.

Lemma out_in_flight (c : client) (p : nat) :
  ApiClient.single_flight c -> promises c !! p = Some ApiClient.Out -> refreshInFlight c = Some p.
Proof. intros (Hp & _) Ho. apply Hp. by exists ApiClient.Out. Qed.

(** *** The invariant of one page *)

Definition no_out (c : client) : Prop := forall p, promises c !! p <> Some ApiClient.Out.

(** A cookie that can be presented. *)
Definition good (j : option string) (w : um) : Prop := forall t, j = Some t -> proper t /\ unspent t w.

Definition brings_unspent (a : wire_answer) (w : um) : Prop :=
  exists s t', wa_result a = ApiClient.Session s /\
    wa_cookies a = [setRefreshCookie production t' ttlDays] /\ proper t' /\ unspent t' w.

Inductive phase (c : client) (b : browser) : Prop :=
| Idle : sent b = [] -> wire b = [] -> no_out c -> good (jar b) (service b) -> phase c b
| Asked r : sent b = [r] -> wire b = [] -> sr_tab r = 0%nat ->
    promises c !! sr_promise r = Some ApiClient.Out ->
    good (sr_cookie r) (service b) -> jar b = sr_cookie r \/ jar b = None -> phase c b
| Told a : sent b = [] -> wire b = [a] -> sr_tab (wa_request a) = 0%nat ->
    promises c !! sr_promise (wa_request a) = Some ApiClient.Out ->
    (wa_result a = ApiClient.NoSession /\ wa_cookies a = [] /\ good (jar b) (service b) \/
     brings_unspent a (service b)) -> phase c b.

Definition one_page (b : browser) : Prop :=
  exists c, tabs b = [c] /\ ApiClient.single_flight c /\ sound (service b) /\ orphans b = [] /\ phase c b.

(** As long as nothing is lost. *)
Definition spared (b : browser) : Prop := lost b = 0%nat -> one_page b.

Lemma only_one {A} (x y : A) (l1 l2 : list A) : [x] = l1 ++ y :: l2 -> l1 = [] /\ y = x /\ l2 = [].
Proof. destruct l1 as [|z l1]; [by intros [= -> <-]|by destruct l1]. Qed.

Lemma answered_idle (c : client) (p : nat) (res : ApiClient.refreshed) :
  ApiClient.single_flight c -> promises c !! p = Some ApiClient.Out ->
  let c' := ApiClient.step c (ApiClient.RefreshAnswered p res) in
  ApiClient.single_flight c' /\ no_out c'.
Proof.
  intros Hs Ho. simpl. rewrite Ho. split; [by apply ApiClient.moved_flight|].
  intros q. simpl. destruct (decide (p = q)) as [<-|Hne].
  - by rewrite list_lookup_insert_eq by (by eapply lookup_lt_Some).
  - rewrite list_lookup_insert_ne by done. intros Hq.
    apply out_in_flight in Ho, Hq; [|done..]. congruence.
Qed.

(** The page's only promise is told; nothing is on the way any more. *)
Lemma told_one_page (c : client) (p : nat) (res : ApiClient.refreshed) (j : option string) (w : um) (n : nat) :
  ApiClient.single_flight c -> promises c !! p = Some ApiClient.Out -> sound w -> good j w ->
  one_page (mkBrowser (tell 0 p res [c]) j [] [] [] n w).
Proof.
  intros Hs Ho Hw Hj. destruct (answered_idle c p res Hs Ho) as [Hs' Hno].
  eexists. split; [reflexivity|]. split; [exact Hs'|]. split; [done|]. split; [done|]. by apply Idle.
Qed.

Lemma acts_one_page (i : nat) (c : client) (ev : ApiClient.event) (b : browser) :
  one_page b -> tabs b !! i = Some c -> own_event ev ->
  one_page (mkBrowser (<[i := ApiClient.step c ev]> (tabs b)) (jar b)
              (sent b ++ begun i (jar b) c (ApiClient.step c ev)) (wire b) (orphans b) (lost b) (service b)).
Proof.
  intros (c0 & Ht & Hs & Hw & Hor & Hph) Hi Hev. rewrite Ht in Hi.
  apply list_lookup_singleton_Some in Hi as [-> <-]. rewrite Ht.
  exists (ApiClient.step c0 ev). split; [done|]. split; [by apply ApiClient.step_flight|].
  split; [done|]. split; [done|]. unfold begun.
  destruct (own_event_begins c0 ev Hev) as [[Hl Ho]|[Hn Hp]].
  - rewrite Hl, Nat.sub_diag. simpl. rewrite app_nil_r. destruct Hph as [H1' H2' H3 H4|r H1' H2' H3 H4 H5 H6|a H1' H2' H3 H4 H5].
    + apply Idle; try done. intros p Hp%Ho. by apply (H3 p).
    + apply (Asked _ _ r); try done. by apply Ho.
    + apply (Told _ _ a); try done. by apply Ho.
  - rewrite Hp, length_app. simpl. replace (_ + 1 - _)%nat with 1%nat by lia. simpl.
    destruct Hph as [H1' H2' H3 H4|r H1' H2' H3 H4 H5 H6|a H1' H2' H3 H4 H5].
    + rewrite H1'. eapply Asked; try done; [|by left]. simpl. by rewrite Hp, lookup_app_r, Nat.sub_diag by lia.
    + apply out_in_flight in H4; [|done]. congruence.
    + apply out_in_flight in H4; [|done]. congruence.
Qed.

(** A request on the way is the only thing on the way. *)
Lemma sent_one_page (r : sent_request) (l1 l2 : list sent_request) (b : browser) :
  one_page b -> sent b = l1 ++ r :: l2 ->
  exists c, tabs b = [c] /\ ApiClient.single_flight c /\ sound (service b) /\ orphans b = [] /\
    l1 = [] /\ l2 = [] /\ wire b = [] /\ sr_tab r = 0%nat /\
    promises c !! sr_promise r = Some ApiClient.Out /\ good (sr_cookie r) (service b) /\
    (jar b = sr_cookie r \/ jar b = None).
Proof.
  intros (c & Ht & Hs & Hw & Hor & Hph) Hsent.
  destruct Hph as [H1' _ _ _|r' H1' H2' H3 H4 H5 H6|a H1' _ _ _ _]; rewrite H1' in Hsent;
    [by destruct l1| |by destruct l1].
  apply only_one in Hsent as (-> & -> & ->). by exists c.
Qed.

Lemma good_after (r : sent_request) (j : option string) (w w' : um) :
  good (sr_cookie r) w -> (j = sr_cookie r \/ j = None) -> (forall t, unspent t w -> unspent t w') -> good j w'.
Proof. intros Hg [->| ->] Hu t Ht; [|done]. destruct (Hg t Ht). auto. Qed.

Lemma serves_one_page (r : sent_request) (l1 l2 : list sent_request) (b : browser) :
  one_page b -> sent b = l1 ++ r :: l2 ->
  one_page (mkBrowser (tabs b) (jar b) (l1 ++ l2) (wire b ++ [(serve_refresh r (service b)).1])
              (orphans b) (lost b) (serve_refresh r (service b)).2).
Proof.
  intros Hb Hsent. destruct (sent_one_page r l1 l2 b Hb Hsent)
    as (c & Ht & Hs & Hw & Hor & -> & -> & Hwire & Htab & Hp & Hg & Hj).
  destruct (serve_spec r (service b) Hw Hg) as (Hreq & Hw' & Hans).
  rewrite Hwire. exists c. do 4 (split; [done|]).
  apply (Told _ _ (serve_refresh r (service b)).1); rewrite ?Hreq; try done.
  destruct Hans as [(Hr & Hc & Hu)|(s & t & t' & _ & Hr & Hc & Hp' & Hu & _)].
  - left. do 2 (split; [done|]). by eapply good_after.
  - right. by exists s, t'.
Qed.

Lemma wire_one_page (a : wire_answer) (l1 l2 : list wire_answer) (b : browser) :
  one_page b -> wire b = l1 ++ a :: l2 ->
  exists c, tabs b = [c] /\ ApiClient.single_flight c /\ sound (service b) /\ orphans b = [] /\
    l1 = [] /\ l2 = [] /\ sent b = [] /\ sr_tab (wa_request a) = 0%nat /\
    promises c !! sr_promise (wa_request a) = Some ApiClient.Out /\
    (wa_result a = ApiClient.NoSession /\ wa_cookies a = [] /\ good (jar b) (service b) \/
     brings_unspent a (service b)).
Proof.
  intros (c & Ht & Hs & Hw & Hor & Hph) Hwire.
  destruct Hph as [_ H2' _ _|r' _ H2' _ _ _ _|a' H1' H2' H3 H4 H5]; rewrite H2' in Hwire;
    [by destruct l1|by destruct l1|].
  apply only_one in Hwire as (-> & -> & ->). by exists c.
Qed.

Lemma delivers_one_page (a : wire_answer) (res : ApiClient.refreshed) (l1 l2 : list wire_answer) (b : browser) :
  one_page b -> wire b = l1 ++ a :: l2 ->
  one_page (mkBrowser (tell (sr_tab (wa_request a)) (sr_promise (wa_request a)) res (tabs b))
    (fold_left store_cookie (wa_cookies a) (jar b)) (sent b) (l1 ++ l2) (orphans b) (lost b) (service b)).
Proof.
  intros Hb Hwire. destruct (wire_one_page a l1 l2 b Hb Hwire)
    as (c & -> & Hs & Hw & -> & -> & -> & -> & -> & Hp & Hans).
  apply told_one_page; [done..|].
  destruct Hans as [(Hr & -> & Hu)|(s & t' & Hr & -> & Hp' & Hu)]; [done|]. by intros t [= <-].
Qed.

Lemma drops_one_page (a : wire_answer) (res : ApiClient.refreshed) (l1 l2 : list wire_answer) (b : browser) :
  one_page b -> wire b = l1 ++ a :: l2 -> worth a = 0%nat ->
  one_page (mkBrowser (tell (sr_tab (wa_request a)) (sr_promise (wa_request a)) res (tabs b))
    (jar b) (sent b) (l1 ++ l2) (orphans b) (worth a + lost b) (service b)).
Proof.
  intros Hb Hwire Hworth. destruct (wire_one_page a l1 l2 b Hb Hwire)
    as (c & -> & Hs & Hw & -> & -> & -> & -> & -> & Hp & Hans).
  apply told_one_page; [done..|].
  destruct Hans as [(Hr & _ & Hu)|(s & t' & Hr & _)]; [done|]. unfold worth in Hworth. by rewrite Hr in Hworth.
Qed.

Lemma reloads_one_page (i : nat) (b : browser) :
  one_page b ->
  length (List.filter (of_tab i) (sent b)) = 0%nat ->
  list_sum (List.map worth (List.filter (fun a => of_tab i (wa_request a)) (wire b))) = 0%nat ->
  one_page (mkBrowser (<[i := ApiClient.fresh]> (tabs b)) (jar b)
    (List.filter (fun r => negb (of_tab i r)) (sent b))
    (List.filter (fun a => negb (of_tab i (wa_request a))) (wire b))
    (List.filter (of_tab i) (sent b) ++ orphans b) 0 (service b)).
Proof.
  intros (c & Ht & Hs & Hw & Hor & Hph) Hl Hsum. rewrite Ht, Hor. destruct i as [|i]; simpl.
  - assert (forall r, sr_tab r = 0%nat -> of_tab 0 r = true) as Hof by (by intros r E; unfold of_tab; rewrite E).
    exists ApiClient.fresh. split; [done|]. split; [apply ApiClient.fresh_flight|]. split; [done|].
    destruct Hph as [H1' H2' H3 H4|r H1' H2' H3 H4 H5 H6|a H1' H2' H3 H4 H5].
    + rewrite H1', H2'. split; [done|]. by apply Idle.
    + rewrite H1' in Hl. simpl in Hl. by rewrite Hof in Hl.
    + rewrite H1', H2' in *. simpl in *. rewrite Hof in * by done. simpl in *. split; [done|].
      apply Idle; try done. destruct H5 as [(_ & _ & ?)|(s & t' & Hr & _)]; [done|].
      unfold worth in Hsum. by rewrite Hr in Hsum.
  - assert (forall r, sr_tab r = 0%nat -> of_tab (S i) r = false) as Hof by (by intros r E; unfold of_tab; rewrite E).
    exists c. do 3 (split; [done|]).
    destruct Hph as [H1' H2' H3 H4|r H1' H2' H3 H4 H5 H6|a H1' H2' H3 H4 H5]; rewrite H1', H2'; simpl;
      rewrite ?Hof by done; (split; [done|]).
    + by apply Idle.
    + by apply (Asked _ _ r).
    + by apply (Told _ _ a).
Qed.

Lemma expires_one_page (b : browser) :
  one_page b -> one_page (mkBrowser (tabs b) None (sent b) (wire b) (orphans b) (lost b) (service b)).
Proof.
  intros (c & Ht & Hs & Hw & Hor & Hph). exists c. do 4 (split; [done|]).
  destruct Hph as [H1' H2' H3 H4|r H1' H2' H3 H4 H5 H6|a H1' H2' H3 H4 H5].
  - by apply Idle.
  - apply (Asked _ _ r); try done. by right.
  - apply (Told _ _ a); try done. destruct H5 as [(? & ? & _)|?]; [by left|by right].
Qed.

Lemma elsewhere_one_page (w : um) (b : browser) :
  one_page b -> sound w -> (forall t, held b t -> unspent t (service b) -> unspent t w) ->
  one_page (mkBrowser (tabs b) (jar b) (sent b) (wire b) (orphans b) (lost b) w).
Proof.
  intros (c & Ht & Hs & Hw & Hor & Hph) Hw' Hkeep. exists c. do 4 (split; [done|]).
  assert (good (jar b) (service b) -> good (jar b) w) as Hjar.
  { intros Hu t Hjt. destruct (Hu t Hjt). split; [done|]. apply Hkeep; [by left|done]. }
  destruct Hph as [H1' H2' H3 H4|r H1' H2' H3 H4 H5 H6|a H1' H2' H3 H4 H5].
  - apply Idle; auto.
  - apply (Asked _ _ r); try done. intros t Ht'. destruct (H5 t Ht'). split; [done|].
    apply Hkeep; [|done]. right. left. exists r. by rewrite H1', list_elem_of_singleton.
  - apply (Told _ _ a); auto. destruct H5 as [(Hr & Hc & Hu)|(s & t' & Hr & Hc & Hp & Hu)]; [left; auto|right].
    exists s, t'. do 3 (split; [done|]). apply Hkeep; [|done]. right. right. exists a. rewrite H2'.
    split; [by left|]. unfold brings. rewrite Hr, Hc. reflexivity.
Qed.

Lemma bstep_spared (b b' : browser) : bstep b b' -> spared b -> spared b'.
Proof.
  intros Hstep Hb Hl. destruct Hstep; simpl in Hl; try done.
  - by apply acts_one_page; [apply Hb|..].
  - by apply serves_one_page; [apply Hb|].
  - destruct (sent_one_page r l1 l2 b (Hb Hl) H3)
      as (c & -> & Hs & Hw & -> & -> & -> & -> & -> & Hp & Hg & Hj).
    apply told_one_page; [done..|]. by eapply good_after.
  - destruct (Hb Hl) as (c & _ & _ & _ & Hor & _). rewrite Hor in *. by destruct l1.
  - by apply delivers_one_page; [apply Hb|].
  - apply drops_one_page; [apply Hb; lia|done|lia].
  - rewrite Hl. apply reloads_one_page; [apply Hb|..]; lia.
  - by apply expires_one_page, Hb.
  - by apply elsewhere_one_page; [apply Hb|..].
Qed.

Lemma opened_spared (j : option string) (w : um) : sound w -> good j w -> spared (opened 1 j w).
Proof.
  intros Hw Hj _. exists ApiClient.fresh. split; [done|]. split; [apply ApiClient.fresh_flight|].
  do 2 (split; [done|]). by apply Idle.
Qed.

End Browser.

(** ** Concrete pages *)

(** A text without blanks is its own trim. *)
Fixpoint no_blank (s : string) : bool :=
  match s with EmptyString => true | String c s' => negb (is_blank c) && no_blank s' end.

Lemma no_blank_srev_app (s acc : string) : no_blank (srev_app s acc) = no_blank s && no_blank acc.
Proof.
  revert acc. induction s as [|c s IH]; intros acc; [done|]. simpl. rewrite IH. simpl.
  by destruct (negb (is_blank c)), (no_blank s).
Qed.

Lemma srev_app_app (s acc acc' : string) : srev_app (srev_app s acc) acc' = srev_app acc (s +:+ acc').
Proof. revert acc. induction s as [|c s IH]; intros acc; [done|]. simpl. rewrite IH. done. Qed.

Lemma trim_start_no_blank (s : string) : no_blank s = true -> trim_start s = s.
Proof. destruct s as [|c s]; [done|]. simpl. by destruct (is_blank c). Qed.

Lemma trim_no_blank (s : string) : no_blank s = true -> trim s = s.
Proof.
  intros Hs. unfold trim. rewrite (trim_start_no_blank s) by done. unfold srev.
  rewrite trim_start_no_blank by (by rewrite no_blank_srev_app, Hs).
  rewrite srev_app_app. simpl. apply append_nil_r.
Qed.

Module Pages.
Definition xs (n : nat) : string := String.concat "" (replicate n "x").
Definition randomToken (n : nat) : string := "t" +:+ xs n.
Definition randomUUID (n : nat) : string := "u" +:+ xs n.

Lemma xs_S (n : nat) : xs (S n) = String "x" (xs n).
Proof. by destruct n. Qed.

Lemma xs_inj (n m : nat) : xs n = xs m -> n = m.
Proof.
  revert m. induction n as [|n IH]; intros [|m]; rewrite ?xs_S; try done. intros [= E]. by f_equal; apply IH.
Qed.

Lemma xs_occurs (c : Ascii.ascii) (n : nat) : c <> "x"%char -> occurs c (xs n) = false.
Proof.
  intros Hc. induction n as [|n IH]; [done|]. rewrite xs_S. cbn [occurs]. rewrite IH.
  destruct (Ascii.eqb_spec "x" c); [by subst|done].
Qed.

Lemma xs_no_blank (n : nat) : no_blank (xs n) = true.
Proof. induction n as [|n IH]; [done|]. rewrite xs_S. cbn [no_blank]. by rewrite IH. Qed.

Lemma token_proper (n : nat) : plain_cookie (REFRESH_COOKIE, randomToken n) /\ truthy (randomToken n) = true.
Proof.
  split; [|done]. unfold plain_cookie, cookie_pair, randomToken. simpl.
  change ("refresh_token" +:+ String "=" ("t" +:+ xs n)) with ("refresh_token=t" +:+ xs n).
  split; [by rewrite occurs_app, xs_occurs|]. split; [|done]. apply trim_no_blank.
  change (no_blank (xs n) = true). apply xs_no_blank.
Qed.

Lemma token_inj (n m : nat) :
  Concrete.sha256_hex (randomToken n) = Concrete.sha256_hex (randomToken m) -> n = m.
Proof. intros E. apply xs_inj. by injection E. Qed.

Lemma page_uuid_inj (n m : nat) : randomUUID n = randomUUID m -> n = m.
Proof. intros E. apply xs_inj. by injection E. Qed.

(** Alice's session, alone. *)
Definition w0 : world (users_db (list User) (list RefreshToken)) :=
  mkWorld (mkUsersDb [Concrete.alice] [Concrete.live]) 1000 0 true [].

Lemma w0_sound : sound Concrete.sha256_hex randomToken randomUUID w0.
Proof.
  assert (forall r, r ∈ tokens_of w0 -> r = Concrete.live) as Hall by (by intros r ->%list_elem_of_singleton).
  split.
  - split; try (apply (bool_decide_unpack _); vm_compute; exact I).
    intros r ->%Hall. exists Concrete.alice. split; [by left|done].
  - by intros u ->%list_elem_of_singleton.
  - by intros n r _ ->%Hall.
Qed.

Abbreviation step_ := (bstep Concrete.sha256_hex randomToken randomUUID Concrete.jwt_sign 7 900 true).

(** The refresh a page sends when it is opened. *)
Definition asked (i : nat) : sent_request := mkSent i 0 (Some "cookie").

Definition pages : Type := browser (TU := list User) (TR := list RefreshToken).

Abbreviation serve := (serve_refresh Concrete.sha256_hex randomToken randomUUID Concrete.jwt_sign 7 900 true).

Lemma opens (i : nat) (c : client) (b : pages) :
  tabs b !! i = Some c ->
  step_ b (mkBrowser (<[i := ApiClient.step c ApiClient.RefreshCalled]> (tabs b)) (jar b)
    (sent b ++ begun i (jar b) c (ApiClient.step c ApiClient.RefreshCalled)) (wire b) (orphans b) (lost b) (service b)).
Proof. intros Hi. by apply Acts. Qed.

Lemma cleared (i p : nat) (c c' : client) (b : pages) :
  tabs b !! i = Some c -> ApiClient.step c (ApiClient.RefreshCleared p) = c' ->
  step_ b (mkBrowser (<[i := c']> (tabs b)) (jar b) (sent b ++ begun i (jar b) c c') (wire b) (orphans b) (lost b) (service b)).
Proof. intros Hi <-. by apply Acts. Qed.

Lemma served (r : sent_request) (l : list sent_request) (a : wire_answer) (b : pages)
    (w' : world (users_db (list User) (list RefreshToken))) :
  sent b = r :: l -> serve r (service b) = (a, w') ->
  step_ b (mkBrowser (tabs b) (jar b) l (wire b ++ [a]) (orphans b) (lost b) w').
Proof.
  intros Hs E. pose proof (Serves Concrete.sha256_hex randomToken randomUUID Concrete.jwt_sign 7 900 true
    r [] l b Hs) as Hstep. by rewrite E in Hstep.
Qed.

Lemma delivered (a : wire_answer) (l : list wire_answer) (b : pages) (ts : list client) (j : option string) :
  wire b = a :: l -> tell (sr_tab (wa_request a)) (sr_promise (wa_request a)) (wa_result a) (tabs b) = ts ->
  fold_left store_cookie (wa_cookies a) (jar b) = j ->
  step_ b (mkBrowser ts j (sent b) l (orphans b) (lost b) (service b)).
Proof.
  intros Hw <- <-. apply (Delivers Concrete.sha256_hex randomToken randomUUID Concrete.jwt_sign
    7 900 true a (wa_result a) [] l b Hw). by left.
Qed.

Lemma dropped (a : wire_answer) (l : list wire_answer) (b : pages) (e : exn) (ts : list client) :
  wire b = a :: l ->
  tell (sr_tab (wa_request a)) (sr_promise (wa_request a)) (ApiClient.Failed e) (tabs b) = ts ->
  step_ b (mkBrowser ts (jar b) (sent b) l (orphans b) (worth a + lost b)%nat (service b)).
Proof.
  intros Hw <-. by apply (Drops Concrete.sha256_hex randomToken randomUUID Concrete.jwt_sign
    7 900 true a (ApiClient.Failed e) [] l b Hw).
Qed.

Lemma finished (r : sent_request) (l : list sent_request) (b : pages)
    (w' : world (users_db (list User) (list RefreshToken))) :
  orphans b = r :: l -> (serve r (service b)).2 = w' ->
  step_ b (mkBrowser (tabs b) (jar b) (sent b) (wire b) l (lost b) w').
Proof.
  intros Ho <-. apply (Finishes Concrete.sha256_hex randomToken randomUUID Concrete.jwt_sign
    7 900 true r _ [] l b Ho). apply fully_served.
Qed.

(** Both pages have asked; the service answers one after the other. *)
Definition waiting : client := mkClient None [ApiClient.Out] (Some 0%nat) [].
Definition w1 : world (users_db (list User) (list RefreshToken)) := Eval vm_compute in (serve (asked 0) w0).2.
Definition a0 : wire_answer := Eval vm_compute in (serve (asked 0) w0).1.
Definition w2 : world (users_db (list User) (list RefreshToken)) := Eval vm_compute in (serve (asked 1) w1).2.
Definition a1 : wire_answer := Eval vm_compute in (serve (asked 1) w1).1.

Definition last : pages :=
  mkBrowser [mkClient (Some "jwt:u1") [ApiClient.Ran (ApiClient.Session "jwt:u1")] (Some 0%nat) [];
             mkClient None [ApiClient.Ran ApiClient.NoSession] (Some 0%nat) []]
    (Some "t") [] [] [] 0 w2.

Lemma last_reached : rtc step_ (opened 2 (Some "cookie") w0) last.
Proof.
  eapply rtc_l; [apply (opens 0 ApiClient.fresh); reflexivity|].
  eapply rtc_l; [apply (opens 1 ApiClient.fresh); reflexivity|].
  eapply rtc_l; [apply (served (asked 0) [asked 1] a0 _ w1); vm_compute; reflexivity|].
  eapply rtc_l; [apply (served (asked 1) [] a1 _ w2); vm_compute; reflexivity|].
  eapply rtc_l; [eapply (delivered a0 [a1] _ _ (Some "t")); vm_compute; reflexivity|].
  eapply rtc_l; [eapply (delivered a1 [] _ _ (Some "t")); vm_compute; reflexivity|].
  apply rtc_refl.
Qed.

(** One page whose first answer is lost asks again. *)
Definition gone : exn := TypeError "Failed to fetch".
Definition again : sent_request := mkSent 0 1 (Some "cookie").
Definition a2 : wire_answer := Eval vm_compute in (serve again w1).1.

Definition cut_off : pages :=
  mkBrowser [mkClient None [ApiClient.Settled (ApiClient.Failed gone); ApiClient.Ran ApiClient.NoSession]
               (Some 1%nat) []]
    (Some "cookie") [] [] [] 1 w2.

(** One page, its cookie kept. *)
Definition alone (c : client) (sent : list sent_request) (wire : list wire_answer)
    (orphans : list sent_request) (lost : nat) (w : world (users_db (list User) (list RefreshToken))) : pages :=
  mkBrowser [c] (Some "cookie") sent wire orphans lost w.

Ltac to b step := apply (rtc_l _ _ b); [exact step|].

Definition failed : client := mkClient None [ApiClient.Ran (ApiClient.Failed gone)] (Some 0%nat) [].
Definition ready : client := mkClient None [ApiClient.Settled (ApiClient.Failed gone)] None [].
Definition asks_again : client :=
  mkClient None [ApiClient.Settled (ApiClient.Failed gone); ApiClient.Out] (Some 1%nat) [].

Lemma served_a0 : serve (asked 0) w0 = (a0, w1).
Proof. vm_compute. reflexivity. Qed.

Lemma served_a2 : serve again w1 = (a2, w2).
Proof. vm_compute. reflexivity. Qed.

Lemma cut_off_reached : rtc step_ (opened 1 (Some "cookie") w0) cut_off.
Proof.
  to (alone waiting [asked 0] [] [] 0 w0) (opens 0 ApiClient.fresh (opened 1 (Some "cookie") w0) eq_refl).
  to (alone waiting [] [a0] [] 0 w1)
    (served (asked 0) [] a0 (alone waiting [asked 0] [] [] 0 w0) w1 eq_refl served_a0).
  to (alone failed [] [] [] 1 w1)
    (dropped a0 [] (alone waiting [] [a0] [] 0 w1) gone [failed] eq_refl eq_refl).
  to (alone ready [] [] [] 1 w1) (cleared 0 0 failed ready (alone failed [] [] [] 1 w1) eq_refl eq_refl).
  to (alone asks_again [again] [] [] 1 w1) (opens 0 ready (alone ready [] [] [] 1 w1) eq_refl).
  to (alone asks_again [] [a2] [] 1 w2)
    (served again [] a2 (alone asks_again [again] [] [] 1 w1) w2 eq_refl served_a2).
  to cut_off (delivered a2 [] (alone asks_again [] [a2] [] 1 w2) (tabs cut_off) (Some "cookie")
    eq_refl eq_refl eq_refl).
  apply rtc_refl.
Qed.

(** One page is loaded again before its first refresh is answered. *)
Definition reloaded : pages :=
  mkBrowser [mkClient None [ApiClient.Ran ApiClient.NoSession] (Some 0%nat) []]
    (Some "cookie") [] [] [] 1 w2.

Definition a3 : wire_answer := Eval vm_compute in (serve (asked 0) w1).1.

Lemma served_a3 : serve (asked 0) w1 = (a3, w2).
Proof. vm_compute. reflexivity. Qed.

Lemma reloaded_reached : rtc step_ (opened 1 (Some "cookie") w0) reloaded.
Proof.
  to (alone waiting [asked 0] [] [] 0 w0) (opens 0 ApiClient.fresh (opened 1 (Some "cookie") w0) eq_refl).
  to (alone ApiClient.fresh [] [] [asked 0] 1 w0)
    (Reloads Concrete.sha256_hex randomToken randomUUID Concrete.jwt_sign 7 900 true 0
       (alone waiting [asked 0] [] [] 0 w0)).
  to (alone waiting [asked 0] [] [asked 0] 1 w0)
    (opens 0 ApiClient.fresh (alone ApiClient.fresh [] [] [asked 0] 1 w0) eq_refl).
  to (alone waiting [asked 0] [] [] 1 w1)
    (finished (asked 0) [] (alone waiting [asked 0] [] [asked 0] 1 w0) w1 eq_refl (f_equal snd served_a0)).
  to (alone waiting [] [a3] [] 1 w2)
    (served (asked 0) [] a3 (alone waiting [asked 0] [] [] 1 w1) w2 eq_refl served_a3).
  to reloaded (delivered a3 [] (alone waiting [] [a3] [] 1 w2) (tabs reloaded) (Some "cookie")
    eq_refl eq_refl eq_refl).
  apply rtc_refl.
Qed.
End Pages.


(** A browser whose session is over although nobody ended it: every token of it is
    revoked, and its cookie is refused. *)
Definition session_over (b : Pages.pages) : Prop :=
  sent b = [] /\ wire b = [] /\ orphans b = [] /\
  (forall r, r ∈ tokens_of (service b) -> rt_revokedAt r <> None) /\
  forall p, wa_result (Pages.serve (mkSent 0 p (jar b)) (service b)).1 = ApiClient.NoSession.

Lemma w2_revoked (r : RefreshToken) : r ∈ tokens_of Pages.w2 -> rt_revokedAt r <> None.
Proof. revert r. apply Forall_forall. vm_compute. repeat constructor; discriminate. Qed.

(** Two pages of one browser lose the session they share: opened at once, each
    presents the one cookie; the second is taken for a replay of the first, every token of the session is
    revoked, the one the browser has just been given included, and neither page can
    refresh again. *)
Theorem two_pages_lose_session :
  exists b : Pages.pages,
    rtc Pages.step_ (opened 2 (Some "cookie") Pages.w0) b /\ lost b = 0%nat /\
    (exists t, jar b = Some t /\ t <> "cookie") /\ session_over b.
Proof.
  exists Pages.last. split; [exact Pages.last_reached|]. split; [done|]. split; [by exists "t"|].
  do 3 (split; [done|]). split; [exact w2_revoked|]. intros p. vm_compute. reflexivity.
Qed.

(** So does one page whose answer is lost on the way: the token is spent, its successor
    never arrives, and the next refresh presents the spent one again. *)
Theorem lost_answer_loses_session :
  exists b : Pages.pages,
    rtc Pages.step_ (opened 1 (Some "cookie") Pages.w0) b /\ lost b = 1%nat /\ session_over b.
Proof.
  exists Pages.cut_off. split; [exact Pages.cut_off_reached|]. split; [done|].
  do 3 (split; [done|]). split; [exact w2_revoked|]. intros p. vm_compute. reflexivity.
Qed.

(** And one page loaded again while it waits for its refresh. *)
Theorem reload_loses_session :
  exists b : Pages.pages,
    rtc Pages.step_ (opened 1 (Some "cookie") Pages.w0) b /\ lost b = 1%nat /\ session_over b.
Proof.
  exists Pages.reloaded. split; [exact Pages.reloaded_reached|]. split; [done|].
  do 3 (split; [done|]). split; [exact w2_revoked|]. intros p. vm_compute. reflexivity.
Qed.
