(* ===== verification/Queue.v ===== *)
(** * The sync queue

    [services/email-ingestion]: [queue/queue.constants.ts],
    [queue/sync-queue.service.ts], the job options of [queue/queue.module.ts],
    [sync/sync-scheduler.service.ts], [sync/mail-sync.processor.ts] and
    [requestSync] of [accounts/accounts.service.ts].  The queue itself is BullMQ,
    of which [JobQueue] and [Workers] are the interface and [JobQueueLaws] and
    [WorkerLaws] state what is documented. *)

From S2P Require Import Prelude Js World Concurrency Mail Accounts Logging MailSync.

Local Open Scope Z_scope.

Set Default Proof Using "Type*".

Definition MAIL_SYNC_QUEUE : string := "mail-sync".
Definition SYNC_ACCOUNT_JOB : string := "sync-account".

Inductive sync_reason := manual | scheduled.

Record MailSyncJobData := mkJobData {
  jd_accountId : string;
  jd_reason : sync_reason;
  jd_requestId : option string;
}.

(** [defaultJobOptions]: a failed attempt is followed by another after
    [backoff], doubled at each; a failed job is kept for [removeOnFail] seconds. *)
Record JobsOptions := mkJobsOptions {
  attempts : nat;
  backoff : Z;
  removeOnComplete : bool;
  removeOnFail : Z;
}.

Definition defaultJobOptions : JobsOptions := mkJobsOptions 5 60000 true 86400.

(** What [getState] answers. *)
Inductive JobState :=
| waiting | waiting_children | active | delayed | prioritized | completed | failed | unknown.

#[export] Instance JobState_eq_dec : EqDecision JobState.
Proof. solve_decision. Defined.

Definition state_name (s : JobState) : string :=
  match s with
  | waiting => "waiting" | waiting_children => "waiting-children" | active => "active"
  | delayed => "delayed" | prioritized => "prioritized" | completed => "completed"
  | failed => "failed" | unknown => "unknown"
  end.

(** The states in which a job is still to be run, or is. *)
Definition pending_names : list string :=
  ["waiting"; "waiting-children"; "active"; "delayed"; "prioritized"].

Definition pending_state (s : JobState) : bool := bool_decide (state_name s ∈ pending_names).

(** A stored job: [j_due] is when a delayed one is to run again or a finished one
    was finished, [j_stalled] how often its worker has been lost. *)
Record Job := mkJob {
  j_id : string;
  j_name : string;
  j_data : MailSyncJobData;
  j_opts : JobsOptions;
  j_state : JobState;
  j_attemptsMade : nat;
  j_due : Z;
  j_stalled : nat;
}.

Definition set_state (s : JobState) (made : nat) (due : Z) (j : Job) : Job :=
  mkJob (j_id j) (j_name j) (j_data j) (j_opts j) s made due (j_stalled j).

Definition set_stalled (n : nat) (j : Job) : Job :=
  mkJob (j_id j) (j_name j) (j_data j) (j_opts j) (j_state j) (j_attemptsMade j) (j_due j) n.

(** ** What the services rely on of BullMQ *)

(** A queue: the job stored under an id, [queue.add] with a job id and [job.remove]. *)
Class JobQueue (Q : Type) := {
  find_job : string -> Q -> option Job;
  add_job : string -> MailSyncJobData -> JobsOptions -> string -> Q -> Q;
  remove_job : string -> Q -> result exn unit * Q;
}.

(** Only the job under [i] differs. *)
Definition only {Q} `{JobQueue Q} (i : string) (o : option Job) (q q' : Q) : Prop :=
  find_job i q' = o /\ forall k, k <> i -> find_job k q' = find_job k q.

(** Adding under an id that is taken does nothing; removing a job throws while a worker
    holds its lock, which it may lose, and removes it otherwise. *)
Class JobQueueLaws (Q : Type) `{JobQueue Q} : Prop := {
  add_free name d opts i q :
    find_job i q = None ->
    only i (Some (mkJob i name d opts waiting 0 0 0)) q (add_job name d opts i q);
  add_taken name d opts i q :
    find_job i q <> None -> only i (find_job i q) q (add_job name d opts i q);
  remove_active i q j :
    find_job i q = Some j -> j_state j = active ->
    (exists e, remove_job i q = (Err e, q)) \/ exists q', remove_job i q = (Ok tt, q') /\ only i None q q';
  remove_free i q :
    (forall j, find_job i q = Some j -> j_state j <> active) ->
    exists q', remove_job i q = (Ok tt, q') /\ only i None q q';
}.

(** A job is removed, or a worker holds it. *)
Lemma remove_cases {Q} `{JobQueueLaws Q} (i : string) (q : Q) :
  (exists e, remove_job i q = (Err e, q)) \/ exists q', remove_job i q = (Ok tt, q') /\ only i None q q'.
Proof.
  destruct (find_job i q) as [j|] eqn:E; [destruct (decide (j_state j = active)) as [Ha|Ha]|].
  - by eapply remove_active.
  - right. apply remove_free. rewrite E. by intros j' [= <-].
  - right. apply remove_free. by rewrite E.
Qed.

(** A queue that is a map: the laws can hold. *)
#[export] Instance map_queue : JobQueue (gmap string Job) := {
  find_job i q := q !! i;
  add_job name d opts i q :=
    match q !! i with Some _ => q | None => <[i := mkJob i name d opts waiting 0 0 0]> q end;
  remove_job i q :=
    match q !! i with
    | Some j => if decide (j_state j = active)
                then (Err (Error ("Job " +:+ i +:+ " could not be removed because it is locked by another worker")), q)
                else (Ok tt, delete i q)
    | None => (Ok tt, q)
    end;
}.

#[export] Instance map_queue_laws : JobQueueLaws (gmap string Job).
Proof.
  split; unfold only; simpl.
  - intros name d opts i q ->. split; [apply lookup_insert_eq|]. intros k Hk. by rewrite lookup_insert_ne.
  - intros name d opts i q Hq. by destruct (q !! i) eqn:E.
  - intros i q j -> Hj. left. rewrite decide_True by done. by eexists.
  - intros i q Hq. destruct (q !! i) as [j|] eqn:E.
    + rewrite decide_False by (by apply Hq). eexists. split; [done|].
      split; [apply lookup_delete_eq|]. intros k Hk. by rewrite lookup_delete_ne.
    + exists q. by split.
Qed.

(** ** The services *)

(** What the services of this process share: the table of accounts and the queue. *)
Record ingestion (TA Q : Type) := mkIngestion { accounts_table : TA; queue : Q }.

Arguments mkIngestion {TA Q} _ _.
Arguments accounts_table {TA Q} _.
Arguments queue {TA Q} _.

Record SyncRequestResult := mkSyncRequest {
  sq_accepted : bool;
  sq_jobId : string;
  sq_alreadyQueued : bool;
  sq_status : AccountStatus;
}.

Section Queue.
Context {TA Q : Type} `{Table MailAccount TA} `{JobQueue Q}.
(** Whether Redis answers a command, by the calls made before. *)
Context (redis_ok : nat -> bool).

Abbreviation W := (world (ingestion TA Q)).
Abbreviation M := (io W exn).

Definition ConnectionClosed : exn := Error "Connection is closed.".

(** A command sent to Redis. *)
Definition redis {X} (name : string) (args : list string) (op : Q -> result exn X * Q) : M X :=
  perform (fun w =>
    if redis_ok (length (calls w)) then
      let '(r, q) := op (queue (data w)) in
      (r, mkWorld (mkIngestion (accounts_table (data w)) q) (clock w) (draws w) (db_up w)
            ((name, args) :: calls w))
    else (Err ConnectionClosed,
          mkWorld (data w) (clock w) (draws w) (db_up w) ((name, args) :: calls w))).

Definition job_id (accountId : string) : string := "sync-" +:+ accountId.

Definition state_of (i : string) (q : Q) : JobState :=
  match find_job i q with Some j => j_state j | None => unknown end.

(** [queue.add(SYNC_ACCOUNT_JOB, ..., { jobId })] *)
Definition add_sync (storage : context) (accountId : string) (reason : sync_reason) : M (string * bool) :=
  let! _ := redis "add" [job_id accountId] (fun q =>
    (Ok tt, add_job SYNC_ACCOUNT_JOB (mkJobData accountId reason (currentRequestId storage))
              defaultJobOptions (job_id accountId) q)) in
  ret (job_id accountId, false).

(** [enqueueAccountSync]: the id of the job, and [alreadyQueued]. *)
Definition enqueueAccountSync (storage : context) (accountId : string) (reason : sync_reason) :
  M (string * bool) :=
  let jobId := job_id accountId in
  let! existing := redis "getJob" [jobId] (fun q => (Ok (find_job jobId q), q)) in
  match existing with
  | Some _ =>
      let! state := redis "getState" [jobId] (fun q => (Ok (state_of jobId q), q)) in
      if pending_state state then ret (jobId, true)
      else let! _ := redis "remove" [jobId] (remove_job jobId) in
           add_sync storage accountId reason
  | None => add_sync storage accountId reason
  end.

Definition find_accounts {X} (select : TA -> X) : M X :=
  query (fun d => (Ok (select (accounts_table d)), d)).

(** [AccountsService.requestSync] *)
Definition requestSync (storage : context) (userId accountId : string) : M SyncRequestResult :=
  let! found := find_accounts (findFirst (fun a =>
    bool_decide (ma_id a = accountId) && bool_decide (ma_userId a = userId))) in
  match found with
  | None => throw (NotFoundException "Account not found")
  | Some account =>
      let! (jobId, alreadyQueued) := enqueueAccountSync storage (ma_id account) manual in
      ret (mkSyncRequest true jobId alreadyQueued (ma_status account))
  end.

(** The loop of the scheduler: [queued] so far. *)
Fixpoint poll (accounts : list MailAccount) (queued : nat) : M nat :=
  match accounts with
  | [] => ret queued
  | account :: accounts' =>
      let! (_, alreadyQueued) := enqueueAccountSync None (ma_id account) scheduled in
      poll accounts' (if alreadyQueued then queued else S queued)
  end.

(** [pollActiveAccounts]: how many it queued, and how many were pending. *)
Definition pollActiveAccounts : M (nat * nat) :=
  let! accounts := find_accounts (t_select (fun a => bool_decide (ma_status a = ACTIVE))) in
  match accounts with
  | [] => ret (0, 0)%nat
  | _ => let! queued := poll accounts 0 in ret (queued, (length accounts - queued)%nat)
  end.
End Queue.

Section Processor.
Context {TA TM : Type} `{Table MailAccount TA} `{Table Message TM} `{Cipher}.
Context (randomUUID : nat -> string) (randomHex : nat -> string).
Context (simpleParser : string -> result exn Parsed) (storage_ok : nat -> bool).
Context (reg : registry (mail_db TA TM)) (fuel : nat).

(** [MailSyncProcessor.process] *)
Definition process (job : Job) : io (world (mail_db TA TM)) exn SyncOutcome :=
  let! requestId := match jd_requestId (j_data job) with
                    | Some i => ret i
                    | None => draw randomHex
                    end in
  runWithRequestId requestId (fun storage =>
    let! _ := external "log" [default "" (currentRequestId storage);
      "Processing " +:+ j_name job +:+ " " +:+ j_id job +:+ " (attempt " +:+
      string_of_Z (Z.of_nat (j_attemptsMade job) + 1) +:+ ")"] tt in
    syncAccount randomUUID simpleParser storage_ok reg fuel (jd_accountId (j_data job))).
End Processor.

(** ** The workers, as BullMQ documents them *)

Definition unrecoverable (e : exn) : bool :=
  match e with UnrecoverableError _ => true | _ => false end.

(** An attempt that failed is the last one. *)
Definition gives_up (e : exn) (j : Job) : bool :=
  unrecoverable e || Nat.leb (attempts (j_opts j)) (S (j_attemptsMade j)).

Definition retry_at (now : Z) (j : Job) : Z :=
  now + backoff (j_opts j) * 2 ^ Z.of_nat (j_attemptsMade j).

Section Documented.
Context {Q : Type} `{JobQueue Q}.
(** How often a job may lose its worker ([maxStalledCount]), and what running one can end
    with. *)
Context (limit : nat) (outcome : Job -> result exn SyncOutcome -> Prop).

(** The transitions of a job that the documentation names. *)
Inductive documented (now : Z) (i : string) (q q' : Q) : Prop :=
| Takes j :
    find_job i q = Some j -> j_state j = waiting ->
    only i (Some (set_state active (j_attemptsMade j) 0 j)) q q' -> documented now i q q'
| Completes j o :
    find_job i q = Some j -> j_state j = active -> outcome j (Ok o) ->
    only i (if removeOnComplete (j_opts j) then None
            else Some (set_state completed (S (j_attemptsMade j)) now j)) q q' ->
    documented now i q q'
| Retries j e :
    find_job i q = Some j -> j_state j = active -> outcome j (Err e) -> gives_up e j = false ->
    only i (Some (set_state delayed (S (j_attemptsMade j)) (retry_at now j) j)) q q' ->
    documented now i q q'
| GivesUp j e :
    find_job i q = Some j -> j_state j = active -> outcome j (Err e) -> gives_up e j = true ->
    only i (Some (set_state failed (S (j_attemptsMade j)) now j)) q q' -> documented now i q q'
| Stalls j :                                 (* its worker lost the lock: another may take it *)
    find_job i q = Some j -> j_state j = active -> (j_stalled j < limit)%nat ->
    only i (Some (set_stalled (S (j_stalled j)) (set_state waiting (j_attemptsMade j) 0 j))) q q' ->
    documented now i q q'
| StallsOut j :                              (* once too often *)
    find_job i q = Some j -> j_state j = active -> (limit <= j_stalled j)%nat ->
    only i (Some (set_state failed (j_attemptsMade j) now j)) q q' -> documented now i q q'
| Promotes j :
    find_job i q = Some j -> j_state j = delayed -> j_due j <= now ->
    only i (Some (set_state waiting (j_attemptsMade j) 0 j)) q q' -> documented now i q q'
| Expires j :
    find_job i q = Some j -> j_state j = failed ->
    j_due j + removeOnFail (j_opts j) * 1000 <= now ->
    only i None q q' -> documented now i q q'.
End Documented.

(** The workers of a queue: how often a job may stall, and what they may do to the queue
    about the job under an id, at a time, if running a job can end as [outcome] says. *)
Class Workers (Q : Type) `{JobQueue Q} := {
  max_stalled : nat;
  works_on : (Job -> result exn SyncOutcome -> Prop) -> Z -> string -> Q -> Q -> Prop;
}.

(** Whatever the workers are, they do nothing else. *)
Class WorkerLaws (Q : Type) `{Workers Q} : Prop := {
  works_documented outcome now i q q' : works_on outcome now i q q' -> documented max_stalled outcome now i q q';
}.

(** Workers that do any of it, and may lose a job once, as is the default: the laws can hold. *)
#[export] Instance map_workers : Workers (gmap string Job) := { max_stalled := 1; works_on := documented 1 }.

#[export] Instance map_worker_laws : WorkerLaws (gmap string Job).
Proof. by split. Qed.

Section Worker.
Context {Q : Type} `{WorkerLaws Q}.
Context (outcome : Job -> result exn SyncOutcome -> Prop).

(** Whether the job under [i] is to be run, or is. *)
Definition is_pending (i : string) (q : Q) : bool :=
  match find_job i q with Some j => pending_state (j_state j) | None => false end.

Lemma only_pending (i : string) (o : option Job) (q q' : Q) :
  only i o q q' ->
  is_pending i q' = (match o with Some j => pending_state (j_state j) | None => false end) /\
  forall k, k <> i -> is_pending k q' = is_pending k q.
Proof.
  unfold is_pending. intros [-> Hk]. split; [done|]. intros k Hne. by rewrite Hk.
Qed.

Lemma works_only (now : Z) (i : string) (q q' : Q) :
  works_on outcome now i q q' -> find_job i q <> None /\ only i (find_job i q') q q'.
Proof.
  intros Hw%works_documented.
  by destruct Hw as [j Hj _ [E Hk]|j o Hj _ _ [E Hk]|j e Hj _ _ _ [E Hk]|j e Hj _ _ _ [E Hk]|j Hj _ _ [E Hk]|
    j Hj _ _ [E Hk]|j Hj _ _ [E Hk]|j Hj _ _ [E Hk]]; rewrite Hj.
Qed.
End Worker.

(** ** Requests and workers, interleaved *)

Section Served.
Context {TA Q : Type} `{TableLaws MailAccount TA} `{JobQueueLaws Q} `{!Workers Q} `{!WorkerLaws Q}.
Context (redis_ok : nat -> bool) (outcome : Job -> result exn SyncOutcome -> Prop).

Abbreviation W := (world (ingestion TA Q)).
Abbreviation enqueue := (enqueueAccountSync (TA := TA) (Q := Q) redis_ok).

Definition pending_in (i : string) (w : W) : bool := is_pending i (queue (data w)).

(** How often a job under [i] has ended. *)
Definition ended (i : string) (w : W) : nat :=
  length (List.filter (fun c => bool_decide (c = ("ended", [i]))) (calls w)).

(** What happens next to the requests: time passes, and workers run jobs; when a
    pending job ends, the log of the world says so. *)
Inductive elsewhere : W -> W -> Prop :=
| Ticks w t : 0 <= t -> elsewhere w (mkWorld (data w) (clock w + t) (draws w) (db_up w) (calls w))
| Works i w q' :
    works_on outcome (clock w) i (queue (data w)) q' ->
    elsewhere w (mkWorld (mkIngestion (accounts_table (data w)) q') (clock w) (draws w) (db_up w)
      (if is_pending i (queue (data w)) && negb (is_pending i q') then ("ended", [i]) :: calls w
       else calls w)).

Section Account.
Context (i : string) (n0 : nat).

(** A job has been pending since [n0] of them had ended: it still is, or has ended. *)
Definition served (w : W) : Prop :=
  (n0 <= ended i w)%nat /\ (pending_in i w = true \/ (n0 < ended i w)%nat).

(** No job that ended before is still stored. *)
Definition clear (w : W) : Prop :=
  (n0 <= ended i w)%nat /\ (find_job i (queue (data w)) = None \/ pending_in i w = true \/ (n0 < ended i w)%nat).

(** What the steps of other requests and of workers do to it. *)
Definition rely (w w' : W) : Prop :=
  ((n0 <= ended i w)%nat -> (n0 <= ended i w')%nat) /\ (clear w -> clear w').

Lemma ended_other (name : string) (args : list string) (d : ingestion TA Q) (cl : Z) (dr : nat) (up : bool)
    (w : W) :
  name <> "ended" -> ended i (mkWorld d cl dr up ((name, args) :: calls w)) = ended i w.
Proof. intros Hn. unfold ended. simpl. rewrite bool_decide_eq_false_2; [done|]. by intros [=]. Qed.

(** A command of Redis: what it does is what it does to the queue. *)
Lemma step_redis {X} (R : W -> W -> Prop) (name : string) (args : list string) (op : Q -> result exn X * Q) :
  (forall w q, q = (op (queue (data w))).2 \/ q = queue (data w) ->
     R w (mkWorld (mkIngestion (accounts_table (data w)) q) (clock w) (draws w) (db_up w)
            ((name, args) :: calls w))) ->
  each_step R (redis redis_ok name args op).
Proof.
  intros HR. apply each_step_perform. intros w. destruct (redis_ok _).
  - specialize (HR w (op (queue (data w))).2 (or_introl eq_refl)). by destruct (op _).
  - specialize (HR w (queue (data w)) (or_intror eq_refl)). by destruct w as [[] ? ? ? ?].
Qed.

(** Every step of an enqueue for account [a]. *)
Lemma step_enqueue (R : W -> W -> Prop) (storage : context) (a : string) (reason : sync_reason) :
  (forall w name, name <> "ended" ->
     R w (mkWorld (data w) (clock w) (draws w) (db_up w) ((name, [job_id a]) :: calls w))) ->
  (forall w q name, name <> "ended" ->
     only (job_id a) None (queue (data w)) q \/
     (exists j, find_job (job_id a) (queue (data w)) = None /\ j_state j = waiting /\
        only (job_id a) (Some j) (queue (data w)) q) \/
     only (job_id a) (find_job (job_id a) (queue (data w))) (queue (data w)) q ->
     R w (mkWorld (mkIngestion (accounts_table (data w)) q) (clock w) (draws w) (db_up w)
            ((name, [job_id a]) :: calls w))) ->
  each_step R (enqueue storage a reason).
Proof.
  intros Hidle Hchange.
  assert (forall X name (op : Q -> result exn X * Q), name <> "ended" ->
    (forall q, (op q).2 = q \/ only (job_id a) None q (op q).2 \/
       (exists j, find_job (job_id a) q = None /\ j_state j = waiting /\ only (job_id a) (Some j) q (op q).2) \/
       only (job_id a) (find_job (job_id a) q) q (op q).2) ->
    each_step R (redis redis_ok name [job_id a] op)) as Hredis.
  { intros X name op Hname Hop. apply step_redis. intros w q Hq.
    assert (q = queue (data w) \/ q = (op (queue (data w))).2 /\
      (only (job_id a) None (queue (data w)) q \/
       (exists j, find_job (job_id a) (queue (data w)) = None /\ j_state j = waiting /\
          only (job_id a) (Some j) (queue (data w)) q) \/
       only (job_id a) (find_job (job_id a) (queue (data w))) (queue (data w)) q)) as [->|[_ Hq']].
    { destruct Hq as [-> | ->]; [|by left]. destruct (Hop (queue (data w))) as [->|Ho]; [by left|by right]. }
    - specialize (Hidle w name Hname). by destruct w as [[] ? ? ? ?].
    - by apply Hchange. }
  assert (each_step R (add_sync redis_ok storage a reason)) as Hadd.
  { apply each_step_bind; [|done]. apply Hredis; [done|]. intros q. simpl.
    destruct (find_job (job_id a) q) as [j|] eqn:E.
    - do 3 right. rewrite <- E. apply add_taken. by rewrite E.
    - do 2 right. left. eexists. split; [done|]. split; [|by apply add_free]. done. }
  unfold enqueueAccountSync. apply each_step_bind; [apply Hredis; [done|by left]|].
  intros [x|]; [|done]. apply each_step_bind; [apply Hredis; [done|by left]|].
  intros st. destruct (pending_state st); [done|]. apply each_step_bind; [|done].
  apply Hredis; [done|]. intros q.
  destruct (remove_cases (job_id a) q) as [[e ->]|(q' & -> & Ho)]; [by left|right; by left].
Qed.

Lemma served_clear (w : W) : served w -> clear w.
Proof. intros [Hn Hs]. split; [done|by right]. Qed.

Lemma pending_found (w : W) : pending_in i w = true -> find_job i (queue (data w)) <> None.
Proof. unfold pending_in, is_pending. by destruct (find_job _ _). Qed.

(** A change of the queue that leaves job [i], or removes or adds it. *)
Lemma rely_change (name : string) (args : list string) (q : Q) (w : W) (k : string) (o : option Job) :
  name <> "ended" -> only k o (queue (data w)) q ->
  (k = i -> o = None \/ o = find_job i (queue (data w)) \/ exists j, o = Some j /\ j_state j = waiting) ->
  rely w (mkWorld (mkIngestion (accounts_table (data w)) q) (clock w) (draws w) (db_up w)
            ((name, args) :: calls w)).
Proof.
  intros Hn [Hk Ho] Hi. unfold rely, clear, pending_in, is_pending. rewrite ended_other by done. simpl.
  split; [done|]. intros [Hb Hc]. split; [done|].
  destruct (decide (k = i)) as [->|Hne]; [|by rewrite Ho].
  rewrite Hk. destruct (Hi eq_refl) as [->|[->|(j & -> & Hj)]]; [by left|done|].
  right. left. by rewrite Hj.
Qed.

Lemma rely_enqueue (storage : context) (a : string) (reason : sync_reason) :
  each_step rely (enqueue storage a reason).
Proof.
  apply step_enqueue.
  - intros w name Hn. unfold rely, clear, pending_in. rewrite ended_other by done. simpl. tauto.
  - intros w q name Hn [Ho|[(j & _ & Hj & Ho)|Ho]]; eapply rely_change; try done; auto.
    + intros _. right. right. by exists j.
    + intros ->. by right; left.
Qed.

(** A request for another account does not touch what was promised for this one. *)
Lemma served_enqueue (storage : context) (a : string) (reason : sync_reason) :
  job_id a <> i -> each_step (fun w w' => served w -> served w') (enqueue storage a reason).
Proof.
  intros Ha. apply step_enqueue.
  - intros w name Hn. unfold served, pending_in. rewrite ended_other by done. done.
  - intros w q name Hn Hq. unfold served, pending_in, is_pending. rewrite ended_other by done. simpl.
    assert (find_job i q = find_job i (queue (data w))) as ->; [|done].
    destruct Hq as [[_ Ho]|[(j & _ & _ & [_ Ho])|[_ Ho]]]; apply Ho; congruence.
Qed.

Lemma ended_cons (k : string) (d : ingestion TA Q) (cl : Z) (dr : nat) (up : bool) (w : W) :
  ended i (mkWorld d cl dr up (("ended", [k]) :: calls w)) =
  if decide (k = i) then S (ended i w) else ended i w.
Proof.
  unfold ended. simpl. case_bool_decide as E; case_decide as E'; simpl; try done; congruence.
Qed.

Lemma elsewhere_keeps (w w' : W) : elsewhere w w' -> rely w w' /\ (served w -> served w').
Proof.
  clear redis_ok. intros [w1 t _|k w1 q' Hstep]; [by split|].
  apply works_only in Hstep as [Hk [_ Ho]].
  unfold rely, clear, served, pending_in. cbn [data queue].
  destruct (decide (k = i)) as [->|Hne].
  - set (v := mkWorld _ _ _ _ _).
    assert ((ended i v = ended i w1 \/ ended i v = S (ended i w1)) /\
      (is_pending i (queue (data w1)) = true -> is_pending i q' = true \/ ended i v = S (ended i w1)))
      as [Hcount Hpend].
    { subst v. destruct (is_pending i (queue (data w1))), (is_pending i q'); simpl.
      - split; [by left|intros _; by left].
      - rewrite ended_cons, decide_True by done. split; [by right|intros _; by right].
      - by split; [left|].
      - by split; [left|]. }
    change (find_job i (queue (data v))) with (find_job i q').
    change (is_pending i (queue (data v))) with (is_pending i q'). clearbody v.
    split; [split; [lia|]|].
    + intros [Hb [Hc|[Hc|Hc]]]; (split; [lia|]); [done| |right; right; lia].
      destruct (Hpend Hc); [by right; left|right; right; lia].
    + intros [Hb [Hc|Hc]]; (split; [lia|]); [|right; lia]. destruct (Hpend Hc); [by left|right; lia].
  - assert (is_pending i q' = is_pending i (queue (data w1))) as -> by (unfold is_pending; by rewrite Ho).
    rewrite (Ho i) by done.
    set (v := mkWorld _ _ _ _ _).
    assert (ended i v = ended i w1) as E.
    { subst v. destruct (_ && _); [|done]. by rewrite ended_cons, decide_False. }
    clearbody v. rewrite E. tauto.
Qed.

Lemma rely_clear (w w' : W) : rtc rely w w' -> clear w -> clear w'.
Proof. intros Hw. apply (rtc_stable rely clear w w'); [|done]. by intros x y []. Qed.

Lemma rely_base (w w' : W) : rtc rely w w' -> (n0 <= ended i w)%nat -> (n0 <= ended i w')%nat.
Proof. intros Hw. apply (rtc_stable rely (fun w => n0 <= ended i w)%nat w w'); [|done]. by intros x y []. Qed.

(** No request ends a job. *)
Lemma ended_enqueue (storage : context) (a : string) (reason : sync_reason) :
  each_step (fun w w' => ended i w = ended i w') (enqueue storage a reason).
Proof. apply step_enqueue; intros; by rewrite ended_other. Qed.

Lemma ended_later (storage : context) (a : string) (reason : sync_reason) (w : W) :
  ended i (run (enqueue storage a reason) w).2 = ended i w.
Proof.
  symmetry. apply (rtc_stable (fun x y => ended i x = ended i y) (fun x => ended i w = ended i x) w).
  - by intros x y -> ->.
  - apply each_step_run, ended_enqueue.
  - done.
Qed.

(** No request touches the job of another account. *)
Lemma job_untouched (storage : context) (a : string) (reason : sync_reason) (w : W) :
  job_id a <> i ->
  find_job i (queue (data (run (enqueue storage a reason) w).2)) = find_job i (queue (data w)).
Proof.
  intros Ha. symmetry.
  apply (rtc_stable (fun x y => find_job i (queue (data x)) = find_job i (queue (data y)))
    (fun x => find_job i (queue (data w)) = find_job i (queue (data x))) w); [by intros x y -> ->| |done].
  apply each_step_run, step_enqueue; [done|].
  intros x q name _ [[_ Ho]|[(j & _ & _ & [_ Ho])|[_ Ho]]]; symmetry; apply Ho; congruence.
Qed.

(** A request that is made at once, with nothing in between. *)
Inductive later : W -> W -> Prop :=
| Later storage a reason w : later w (run (enqueue storage a reason) w).2.

(** A pending job is left as it is by it, whatever Redis answers. *)
Lemma pending_enqueue (storage : context) (a : string) (reason : sync_reason) (w : W) :
  pending_in (job_id a) w = true -> data (run (enqueue storage a reason) w).2 = data w.
Proof.
  unfold pending_in, is_pending, enqueueAccountSync, redis, state_of. intros Hp.
  rewrite run_bind, run_perform. destruct (redis_ok _); [|done]. cbn [queue data].
  destruct (find_job (job_id a) (queue (data w))) as [j|] eqn:E; [|done].
  rewrite run_bind, run_perform. destruct (redis_ok _); [|by destruct (data w)]. cbn [queue data].
  rewrite E, Hp, run_ret. by destruct (data w).
Qed.

Lemma later_keeps (w w' : W) : later w w' -> rely w w' /\ (served w -> served w').
Proof.
  intros [storage a reason w1].
  pose proof (ended_later storage a reason w1) as He.
  assert (clear w1 -> clear (run (enqueue storage a reason) w1).2) as Hc.
  { apply rely_clear, each_step_run, rely_enqueue. }
  split; [split; [by rewrite He|done]|]. intros Hs. destruct (decide (job_id a = i)) as [Ha|Ha].
  - destruct Hs as [Hb [Hp|Hn]]; (split; [by rewrite He|]); [left|right; by rewrite He].
    rewrite <- Ha in Hp. unfold pending_in. by rewrite pending_enqueue, <- Ha.
  - exact (rtc_stable _ _ _ _ (fun x y H => H) (each_step_run _ _ w1 (served_enqueue storage a reason Ha)) Hs).
Qed.

(** [lands p w]: whatever steps of [rely] come in between, when [p] returns the
    promise holds. *)
Fixpoint lands (p : prog W (result exn (string * bool))) (w : W) : Prop :=
  match p with
  | Done _ => True
  | Atomic op k => forall w', rtc rely w w' ->
      lands (k (op w').1) (op w').2 /\ forall r, k (op w').1 = Done (Ok r) -> served (op w').2
  end.

Lemma lands_rely (p : prog W (result exn (string * bool))) (w w' : W) :
  lands p w -> rtc rely w w' -> lands p w'.
Proof. destruct p as [a|B op k]; [done|]. intros Hp Hw w'' Hw''. apply Hp. by transitivity w'. Qed.

Lemma lands_redis {X} (name : string) (args : list string) (op : Q -> result exn X * Q)
    (f : X -> io W exn (string * bool)) (w : W) :
  name <> "ended" ->
  (forall w' a q, rtc rely w w' -> op (queue (data w')) = (Ok a, q) ->
     let w'' := mkWorld (mkIngestion (accounts_table (data w')) q) (clock w') (draws w') (db_up w')
                  ((name, args) :: calls w') in
     lands (f a) w'' /\ forall r, f a = Done (Ok r) -> served w'') ->
  lands (io_bind (redis redis_ok name args op) f) w.
Proof.
  intros Hn Hf w' Hw'. specialize (Hf w'). simpl.
  destruct (redis_ok _); [|by split]. destruct (op (queue (data w'))) as [[a|e] q]; [|by split].
  by apply (Hf a q).
Qed.

Lemma lands_add (storage : context) (a : string) (reason : sync_reason) (w : W) :
  job_id a = i -> clear w -> lands (add_sync redis_ok storage a reason) w.
Proof.
  intros Ha Hc. apply lands_redis; [done|]. intros w' u q Hw' [= _ <-]. split; [done|]. intros r _.
  destruct (rely_clear _ _ Hw' Hc) as [Hb Hc']. clear Hc. rename Hc' into Hc. unfold served, pending_in. rewrite ended_other by done.
  split; [done|]. cbn [data queue]. rewrite <- Ha in Hc |- *.
  set (d := mkJobData a reason (currentRequestId storage)).
  destruct (find_job (job_id a) (queue (data w'))) as [j|] eqn:E.
  - destruct (only_pending (job_id a) _ _ _ (add_taken SYNC_ACCOUNT_JOB d defaultJobOptions (job_id a)
      (queue (data w')) ltac:(by rewrite E))) as [-> _].
    destruct Hc as [Hc|Hc]; [congruence|].
    unfold pending_in, is_pending in Hc. exact Hc.
  - left. by destruct (only_pending (job_id a) _ _ _ (add_free SYNC_ACCOUNT_JOB d defaultJobOptions
      (job_id a) (queue (data w')) E)) as [-> _].
Qed.

Lemma lands_enqueue (storage : context) (a : string) (reason : sync_reason) (w : W) :
  job_id a = i -> (n0 <= ended i w)%nat -> lands (enqueue storage a reason) w.
Proof.
  intros Ha Hb. unfold enqueueAccountSync. rewrite Ha.
  apply lands_redis; [done|]. intros w1 found q1 Hw1 [= <- <-].
  pose proof (rely_base _ _ Hw1 Hb) as Hb1.
  destruct (find_job i (queue (data w1))) as [j|] eqn:E.
  2:{ split; [|done]. apply lands_add; [done|]. split; [by rewrite ended_other|]. by left. }
  split; [|done]. apply lands_redis; [done|]. intros w2 st q2 Hw2 [= <- <-].
  apply rely_base in Hw2 as Hb2; [|by rewrite ended_other].
  destruct (pending_state (state_of i (queue (data w2)))) eqn:Ep.
  { split; [done|]. intros r _. unfold served. rewrite ended_other by done. split; [done|]. left.
    unfold pending_in, is_pending. simpl. unfold state_of in Ep.
    by destruct (find_job i (queue (data w2))). }
  split; [|done]. apply lands_redis; [done|]. intros w3 u q3 Hw3 Hrm. split; [|done].
  apply rely_base in Hw3 as Hb3; [|by rewrite ended_other].
  apply lands_add; [done|]. split; [by rewrite ended_other|]. left. simpl.
  destruct (remove_cases i (queue (data w3))) as [[e Hf]|(q' & Hf & [Ho _])]; rewrite Hf in Hrm; by simplify_eq.
Qed.

(** *** Any number of requests *)

Context (reqs : list (context * string * sync_reason)).

Definition for_account (k : nat) : Prop := exists r, reqs !! k = Some r /\ job_id r.1.2 = i.

(** What is known of thread [k]. *)
Definition thread_ok (k : nat) (p : prog W (result exn (string * bool))) (w : W) : Prop :=
  each_step rely p /\ (for_account k -> lands p w) /\
  (~ for_account k -> each_step (fun w w' => served w -> served w') p).

Definition on_its_way (c : config (S := W) (A := result exn (string * bool))) : Prop :=
  served c.2 \/ exists k p, c.1 !! k = Some p /\ for_account k /\ forall v, p <> Done (Ok v).

Lemma thread_rely (k : nat) (p : prog W (result exn (string * bool))) (w w' : W) :
  thread_ok k p w -> rely w w' -> thread_ok k p w'.
Proof.
  intros (Hr & Hl & Hk) Hw. split; [done|]. split; [|done]. intros Hf.
  eapply lands_rely; [by apply Hl|by apply rtc_once].
Qed.

Lemma thread_step (k : nat) (p p' : prog W (result exn (string * bool))) (w w' : W) :
  thread_ok k p w -> tstep p w = Some (p', w') ->
  thread_ok k p' w' /\ rely w w' /\ (~ for_account k -> served w -> served w') /\
  (for_account k -> forall v, p' = Done (Ok v) -> served w').
Proof.
  intros (Hr & Hl & Hk) Hs.
  destruct (each_step_tstep _ _ _ _ _ Hr Hs) as [Hw Hr'].
  assert (for_account k -> lands p' w' /\ forall v, p' = Done (Ok v) -> served w') as Hl'.
  { intros Hf. specialize (Hl Hf). destruct p as [a|B op g]; [done|].
    destruct (Hl w (rtc_refl _ _)) as [H5 H6]. simpl in Hs. destruct (op w) as [b w1]. simpl in *.
    simplify_eq. by split. }
  split; [split; [done|]|].
  { split; [intros Hf; by apply Hl'|]. intros Hf. by apply (each_step_tstep _ _ _ _ _ (Hk Hf) Hs). }
  split; [done|]. split; [|intros Hf; by apply Hl'].
  intros Hf. by apply (each_step_tstep _ _ _ _ _ (Hk Hf) Hs).
Qed.

Lemma pool_served (env : W -> W -> Prop) (c c' : config (S := W) (A := result exn (string * bool))) :
  (forall w w', env w w' -> rely w w' /\ (served w -> served w')) ->
  (forall k p, c.1 !! k = Some p -> thread_ok k p c.2) -> on_its_way c ->
  rtc (cstep env) c c' ->
  (forall k p, c'.1 !! k = Some p -> thread_ok k p c'.2) /\ on_its_way c'.
Proof.
  clear redis_ok. intros Henv Hc Ho Hreach.
  apply (reachable_ind env (fun c' =>
    (forall k p, c'.1 !! k = Some p -> thread_ok k p c'.2) /\ on_its_way c') c c'); [done| |done].
  intros c1 c2 [H5 H6] Hstep.
  inversion Hstep as [k p p' ps s s' Hk Ht|ps s s' He]; subst; simpl in *.
  - destruct (thread_step k p p' s s' (H5 k p Hk) Ht) as (Hok & Hrely & Hkeep & Hland).
    assert (k < length ps)%nat as Hlt by (by eapply lookup_lt_Some).
    split.
    + intros l q Hq. simpl in *. destruct (decide (k = l)) as [<-|Hne].
      * rewrite list_lookup_insert_eq in Hq by done. by simplify_eq.
      * rewrite list_lookup_insert_ne in Hq by done. eapply thread_rely; [by apply H5|done].
    + unfold on_its_way in *. simpl in *.
      assert (for_account k \/ ~ for_account k) as [Hf|Hf].
      { unfold for_account. destruct (reqs !! k) as [r|]; [|right; naive_solver].
        destruct (decide (job_id r.1.2 = i)); [left|right]; naive_solver. }
      * destruct p' as [[v|e]|B op g]; [left; by eapply Hland| |];
          (right; eexists k, _; split; [by apply list_lookup_insert_eq|]; by split).
      * destruct H6 as [H6|(l & q & Hl & Hfl & Hq)]; [left; by apply Hkeep|].
        right. exists l, q. split; [|done]. rewrite list_lookup_insert_ne; [done|]. by intros ->.
  - destruct (Henv s s' He) as [Hrely Hkeep]. split.
    + intros l q Hq. eapply thread_rely; [by apply H5|done].
    + destruct H6 as [H6|H6]; [left; by apply Hkeep|by right].
Qed.
End Account.

(** Requests that have not started yet. *)
Definition fresh (reqs : list (context * string * sync_reason)) : list (prog W (result exn (string * bool))) :=
  List.map (fun r => enqueue r.1.1 r.1.2 r.2) reqs.

Lemma job_id_inj (a b : string) : job_id a = job_id b -> a = b.
Proof. apply append_inj_l. Qed.

(** The requests for account [a] have all succeeded; others may have failed or go on. *)
Definition all_accepted (reqs : list (context * string * sync_reason)) (a : string)
    (ps : list (prog W (result exn (string * bool)))) : Prop :=
  forall k storage reason, reqs !! k = Some (storage, a, reason) -> exists v, ps !! k = Some (Done (Ok v)).

(** Once they have, the promise holds. *)
Lemma requests_land (env : W -> W -> Prop) (reqs : list (context * string * sync_reason)) (w : W)
    (c : config (S := W) (A := result exn (string * bool))) (storage : context) (a : string)
    (reason : sync_reason) :
  (forall x y, env x y -> rely (job_id a) (ended (job_id a) w) x y /\
     (served (job_id a) (ended (job_id a) w) x -> served (job_id a) (ended (job_id a) w) y)) ->
  rtc (cstep env) (fresh reqs, w) c -> all_accepted reqs a c.1 -> (storage, a, reason) ∈ reqs ->
  served (job_id a) (ended (job_id a) w) c.2.
Proof.
  intros Henv Hreach Hall Ha.
  destruct (pool_served (job_id a) (ended (job_id a) w) reqs env (fresh reqs, w) c) as [_ Hway]; [done| | |done|].
  - intros k p Hp. simpl in Hp. unfold fresh in Hp. rewrite list_lookup_fmap in Hp.
    destruct (reqs !! k) as [[[st b] re]|] eqn:E; [|done]. simpl in Hp. injection Hp as <-.
    split; [apply rely_enqueue|]. split.
    + intros (r & Hr & Hj). apply lands_enqueue; [|done]. rewrite E in Hr. by simplify_eq.
    + intros Hf. apply served_enqueue. intros Hj. apply Hf. by exists (st, b, re).
  - right. apply list_elem_of_lookup in Ha as [k Hk].
    exists k, (enqueue storage a reason). unfold fresh. simpl. rewrite list_lookup_fmap, Hk. split; [done|].
    split; [by exists (storage, a, reason)|]. by intros v.
  - destruct Hway as [Hs|(k & p & Hp & ([[st b] re] & Hr & Hb) & Hn)]; [done|]. apply job_id_inj in Hb. simpl in Hb. subst b.
    destruct (Hall k st re Hr) as [v Hv]. rewrite Hp in Hv. injection Hv as ->. by destruct (Hn v).
Qed.

(** C16: however requests for any accounts interleave with each other and with the
    workers, once all those for an account have succeeded, whatever has become of the
    requests for others, that account has a job that is to be run or is running, or one
    that has ended since: no request is lost to another, and a stale job is never taken
    for a new one. *)
Theorem requests_served (reqs : list (context * string * sync_reason)) (w : W)
    (c : config (S := W) (A := result exn (string * bool))) (storage : context) (a : string)
    (reason : sync_reason) :
  rtc (cstep elsewhere) (fresh reqs, w) c -> all_accepted reqs a c.1 -> (storage, a, reason) ∈ reqs ->
  pending_in (job_id a) c.2 = true \/ (ended (job_id a) w < ended (job_id a) c.2)%nat.
Proof.
  intros Hreach Hall Ha.
  destruct (requests_land elsewhere reqs w c storage a reason) as [_ Hs]; try done.
  intros x y. apply elsewhere_keeps.
Qed.
End Served.

(** ** A request run alone *)

Section Alone.
Context {TA Q : Type} `{TableLaws MailAccount TA} `{JobQueueLaws Q}.
Context (redis_ok : nat -> bool) (Hredis : forall n, redis_ok n = true).

Abbreviation W := (world (ingestion TA Q)).

(** The queue as a request leaves it: [w] and [w'] differ in the queue and the log. *)
Definition same_but_queue (w w' : W) : Prop :=
  accounts_table (data w') = accounts_table (data w) /\ clock w' = clock w /\
  draws w' = draws w /\ db_up w' = db_up w.

Definition job_in (k : string) (w : W) : option Job := find_job k (queue (data w)).

Lemma run_redis {X} (name : string) (args : list string) (op : Q -> result exn X * Q) (w : W) :
  run (redis redis_ok name args op) w =
  ((op (queue (data w))).1,
   mkWorld (mkIngestion (accounts_table (data w)) (op (queue (data w))).2) (clock w) (draws w) (db_up w)
     ((name, args) :: calls w)).
Proof. unfold redis. rewrite run_perform, Hredis. by destruct (op (queue (data w))). Qed.

(** The job a request adds. *)
Definition new_job (storage : context) (a : string) (reason : sync_reason) : Job :=
  mkJob (job_id a) SYNC_ACCOUNT_JOB (mkJobData a reason (currentRequestId storage))
    defaultJobOptions waiting 0 0 0.

(** An account's job is pending afterwards: as it was, when it was pending, else new. *)
Definition enqueued (storage : context) (a : string) (reason : sync_reason) (w w' : W) : Prop :=
  same_but_queue w w' /\
  job_in (job_id a) w' = (if is_pending (job_id a) (queue (data w)) then job_in (job_id a) w
                          else Some (new_job storage a reason)) /\
  forall k, k <> job_id a -> job_in k w' = job_in k w.

Lemma run_add_sync (storage : context) (a : string) (reason : sync_reason) (w : W) :
  job_in (job_id a) w = None ->
  exists w', run (add_sync redis_ok storage a reason) w = (Ok (job_id a, false), w') /\
    same_but_queue w w' /\ job_in (job_id a) w' = Some (new_job storage a reason) /\
    forall k, k <> job_id a -> job_in k w' = job_in k w.
Proof.
  intros Hn. unfold add_sync. rewrite run_bind, run_redis. cbn [fst snd]. rewrite run_ret.
  eexists. split; [done|]. split; [by repeat split|].
  exact (add_free SYNC_ACCOUNT_JOB (mkJobData a reason (currentRequestId storage)) defaultJobOptions
    (job_id a) (queue (data w)) Hn).
Qed.

Lemma run_enqueue (storage : context) (a : string) (reason : sync_reason) (w : W) :
  exists w', run (enqueueAccountSync redis_ok storage a reason) w =
    (Ok (job_id a, is_pending (job_id a) (queue (data w))), w') /\ enqueued storage a reason w w'.
Proof.
  unfold enqueueAccountSync, enqueued. rewrite run_bind, run_redis. cbn [fst snd].
  set (w1 := mkWorld _ _ _ _ _).
  assert (forall k, job_in k w1 = job_in k w) as Hw1 by done. unfold is_pending.
  destruct (find_job (job_id a) (queue (data w))) as [j|] eqn:E.
  2:{ destruct (run_add_sync storage a reason w1) as (w' & Hrun & Hs & Hj & Hk); [by rewrite Hw1|].
      rewrite Hrun. by exists w'. }
  rewrite run_bind, run_redis. cbn [fst snd]. set (w2 := mkWorld _ _ _ _ _).
  assert (forall k, job_in k w2 = job_in k w) as Hw2 by done.
  change (queue (data w1)) with (queue (data w)). unfold state_of. rewrite E.
  destruct (pending_state (j_state j)) eqn:Ep.
  { rewrite run_ret. exists w2. by repeat split. }
  rewrite run_bind, run_redis. change (queue (data w2)) with (queue (data w)).
  destruct (remove_free (job_id a) (queue (data w))) as (q' & Hr & Hq & Ho).
  { intros j' Hj'. rewrite E in Hj'. injection Hj' as <-. intros Ha. by rewrite Ha in Ep. }
  rewrite Hr. cbn [fst snd]. set (w3 := mkWorld _ _ _ _ _).
  destruct (run_add_sync storage a reason w3) as (w' & Hrun & Hs & Hj & Hk); [done|].
  rewrite Hrun. exists w'. split; [done|]. split; [done|]. split; [done|].
  intros k Hne. rewrite Hk by done. by apply Ho.
Qed.

Lemma enqueued_pending (storage : context) (a : string) (reason : sync_reason) (w w' : W) :
  enqueued storage a reason w w' -> is_pending (job_id a) (queue (data w')) = true /\
  forall k, is_pending k (queue (data w)) = true -> job_in k w' = job_in k w.
Proof.
  intros (_ & Hj & Hk). split.
  - unfold is_pending, job_in in *. rewrite Hj. by repeat case_match.
  - intros k Hp. destruct (decide (k = job_id a)) as [->|Hne]; [by rewrite Hj, Hp|by apply Hk].
Qed.

(** A sync is asked for only by the owner of the account: anyone else is
    answered 404 and neither the queue nor anything else is touched; the owner is
    answered the state of the account, and afterwards its job is pending, as it
    was if it already was, carrying the id of the request otherwise. *)
Theorem requestSync_owner_only (storage : context) (userId accountId : string) (w : W) :
  db_up w = true ->
  match findFirst (fun a => bool_decide (ma_id a = accountId) && bool_decide (ma_userId a = userId))
          (accounts_table (data w)) with
  | None => run (requestSync redis_ok storage userId accountId) w =
              (Err (NotFoundException "Account not found"), w)
  | Some a => ma_id a = accountId /\ ma_userId a = userId /\
      exists w', run (requestSync redis_ok storage userId accountId) w =
          (Ok (mkSyncRequest true (job_id accountId) (is_pending (job_id accountId) (queue (data w)))
                 (ma_status a)), w') /\
        enqueued storage accountId manual w w' /\
        is_pending (job_id accountId) (queue (data w')) = true
  end.
Proof.
  intros Hup. unfold requestSync, find_accounts. rewrite run_bind, run_query, Hup. cbn [fst snd].
  replace (with_data (data w) w) with w by (by destruct w).
  destruct (findFirst _ _) as [a|] eqn:E; [|by rewrite run_throw].
  apply findFirst_Some in E as [_ Ha]. apply andb_true_iff in Ha as [Hi Hu].
  apply bool_decide_eq_true in Hi, Hu. split; [done|]. split; [done|].
  destruct (run_enqueue storage (ma_id a) manual w) as (w' & Hrun & Henq).
  exists w'. rewrite run_bind, Hrun, run_ret, Hi in *. split; [done|]. split; [done|].
  by apply (enqueued_pending storage accountId manual w).
Qed.

(** ** The scheduler *)

Lemma run_poll (accounts : list MailAccount) (n : nat) (w : W) :
  exists n' w', run (poll redis_ok accounts n) w = (Ok n', w') /\ same_but_queue w w' /\
    (n <= n' <= n + length accounts)%nat /\
    (forall k, is_pending k (queue (data w)) = true -> job_in k w' = job_in k w) /\
    (forall a, a ∈ accounts -> is_pending (job_id (ma_id a)) (queue (data w')) = true) /\
    (forall k, (forall a, a ∈ accounts -> k <> job_id (ma_id a)) -> job_in k w' = job_in k w).
Proof.
  revert n w. induction accounts as [|a accounts IH]; intros n w; simpl.
  - rewrite run_ret. exists n, w. split; [done|]. split; [by repeat split|]. split; [lia|].
    split; [done|]. split; [|done]. intros a Ha. by inversion Ha.
  - rewrite run_bind. destruct (run_enqueue None (ma_id a) scheduled w) as (w1 & -> & Henq).
    destruct (enqueued_pending _ _ _ _ _ Henq) as [Hp1 Hk1]. destruct Henq as (Hs1 & _ & Ho1).
    destruct (IH (if is_pending (job_id (ma_id a)) (queue (data w)) then n else S n) w1)
      as (n' & w' & -> & Hs & Hn & Hkeep & Hall & Hother).
    exists n', w'. split; [done|]. split.
    { unfold same_but_queue in *. destruct Hs as (-> & -> & -> & ->). done. }
    split; [destruct (is_pending _ (queue (data w))); lia|].
    assert (forall k, is_pending k (queue (data w)) = true -> is_pending k (queue (data w1)) = true) as Hp.
    { intros k Hk. unfold is_pending. pose proof (Hk1 k Hk) as E. unfold job_in in E. by rewrite E. }
    split; [|split].
    + intros k Hk. rewrite Hkeep by (by apply Hp). by apply Hk1.
    + intros b [->|Hb]%elem_of_cons; [|by apply Hall].
      unfold is_pending. pose proof (Hkeep _ Hp1) as E. unfold job_in in E. by rewrite E.
    + intros k Hk. rewrite Hother by (intros b Hb; apply Hk; by right). apply Ho1. apply Hk. by left.
Qed.

(** After a poll, the accounts that have a pending job because of it are
    exactly the active ones: each of them has a job that is pending, a job that
    already was is as it was, and the job of no other account changes. *)
Theorem poll_queues_active (w : W) :
  db_up w = true ->
  exists queued before w', run (pollActiveAccounts redis_ok) w = (Ok (queued, before), w') /\
    (queued + before = length (List.filter (fun a => bool_decide (ma_status a = ACTIVE)) (rows (accounts_table (data w)))))%nat /\
    (forall a, a ∈ rows (accounts_table (data w)) -> ma_status a = ACTIVE ->
       is_pending (job_id (ma_id a)) (queue (data w')) = true) /\
    (forall k, is_pending k (queue (data w)) = true -> job_in k w' = job_in k w) /\
    (forall k, (forall a, a ∈ rows (accounts_table (data w)) -> ma_status a = ACTIVE ->
                  k <> job_id (ma_id a)) -> job_in k w' = job_in k w).
Proof.
  intros Hup. unfold pollActiveAccounts, find_accounts. rewrite run_bind, run_query, Hup. cbn [fst snd].
  replace (with_data (data w) w) with w by (by destruct w).
  set (active_ := fun a => bool_decide (ma_status a = ACTIVE)).
  assert (forall a, a ∈ t_select active_ (accounts_table (data w)) <->
    a ∈ rows (accounts_table (data w)) /\ ma_status a = ACTIVE) as Hsel.
  { intros a. rewrite elem_select. unfold active_. by rewrite bool_decide_eq_true. }
  pose proof (Permutation_length (select_filter active_ (accounts_table (data w)))) as Hlen.
  rewrite <- Hlen. clear Hlen. destruct (t_select active_ _) as [|a0 l] eqn:E.
  - rewrite run_ret. exists 0%nat, 0%nat, w. split; [done|]. split; [done|].
    split; [|done]. intros a Ha Hact. assert (a ∈ ([] : list MailAccount)) as Hn by (by apply Hsel).
    by inversion Hn.
  - rewrite <- E in *. clear E. rewrite run_bind.
    destruct (run_poll (t_select active_ (accounts_table (data w))) 0 w) as (n & w' & -> & _ & Hn & Hk & Hall & Ho).
    rewrite run_ret. eexists n, _, w'. split; [done|]. split; [lia|]. split; [|split; [done|]].
    + intros a Ha Hact. apply Hall. by apply Hsel.
    + intros k Hne. apply Ho. intros a [Ha Hact]%Hsel. by apply Hne.
Qed.
End Alone.
