(* ===== verification/SyncWorker.v ===== *)
(** * Sync jobs, from the queue to their end

    What becomes of the jobs of Queue: how long a worker can go on with them, that
    each ends, what an account that is gone does to its job, and the events their
    ends give rise to ([onModuleInit] of [queue/sync-events.service.ts]). *)

From S2P Require Import Prelude Js World Concurrency Mail Accounts Logging MailSync Queue.
From S2P Require SyncEvents.

Set Default Proof Using "Type*".

(** ** Termination *)

Section Ends.
Context {Q : Type} `{WorkerLaws Q}.
Context (outcome : Job -> result exn SyncOutcome -> Prop).

Definition attempts_left (j : Job) : nat := attempts (j_opts j) - j_attemptsMade j.

Definition stalls_left (j : Job) : nat := max_stalled - j_stalled j.

(** How many steps a worker can still take with a job. *)
Definition weight (j : Job) : nat :=
  let left := 3 * attempts_left j + 2 * stalls_left j in
  match j_state j with
  | delayed => left + 4
  | waiting | waiting_children | prioritized => left + 3
  | active => left + 2
  | failed => 1
  | completed | unknown => 0
  end.

Definition weight_at (q : Q) (i : string) : nat :=
  match find_job i q with Some j => weight j | None => 0 end.

Lemma only_weight (i : string) (o : option Job) (q q' : Q) :
  only i o q q' ->
  weight_at q' i = match o with Some j => weight j | None => 0 end /\
  forall k, k <> i -> weight_at q' k = weight_at q k.
Proof. unfold weight_at. intros [-> Hk]. split; [done|]. intros k Hne. by rewrite Hk. Qed.

(** Every step with a job uses some of it up. *)
Lemma works_weight (now : Z) (i : string) (q q' : Q) :
  works_on outcome now i q q' ->
  (weight_at q' i < weight_at q i)%nat /\ forall k, k <> i -> weight_at q' k = weight_at q k.
Proof.
  assert (forall j o, find_job i q = Some j -> only i o q q' ->
    (match o with Some j' => weight j' | None => 0 end < weight j)%nat ->
    (weight_at q' i < weight_at q i)%nat /\ forall k, k <> i -> weight_at q' k = weight_at q k) as Hgo.
  { intros j o Hj Ho Hlt. destruct (only_weight i o q q' Ho) as [-> Hk]. split; [|done].
    unfold weight_at at 1. by rewrite Hj. }
  intros Hw%works_documented.
  destruct Hw as [j Hj Hs Ho|j o Hj Hs _ Ho|j e Hj Hs _ Hg Ho|j e Hj Hs _ _ Ho|j Hj Hs Hl Ho|j Hj Hs _ Ho|j Hj Hs _ Ho|j Hj Hs _ Ho];
    (eapply Hgo; [done|done|]); unfold weight, attempts_left, stalls_left; rewrite Hs; simpl; try lia.
  - destruct (removeOnComplete _); simpl; lia.
  - apply orb_false_iff in Hg as [_ Hg]. apply Nat.leb_gt in Hg. lia.
Qed.

Definition total (ids : list string) (q : Q) : nat := sum_list (List.map (weight_at q) ids).

Lemma total_step (ids : list string) (i : string) (q q' : Q) :
  NoDup ids -> i ∈ ids -> (weight_at q' i < weight_at q i)%nat ->
  (forall k, k <> i -> weight_at q' k = weight_at q k) -> (total ids q' < total ids q)%nat.
Proof.
  unfold total. intros Hnd Hi Hlt Hk. induction Hnd as [|x l Hx Hnd IH]; [by inversion Hi|].
  simpl. apply elem_of_cons in Hi as [->|Hi].
  - assert (List.map (weight_at q') l = List.map (weight_at q) l) as ->; [|lia].
    apply List.map_ext_in. intros k Hin. apply Hk. intros ->. apply Hx. by apply list_elem_of_In.
  - rewrite (Hk x) by (by intros ->). specialize (IH Hi). lia.
Qed.

(** A step of a worker with any job. *)
Definition works (q q' : Q) : Prop := exists now i, works_on outcome now i q q'.

(** Workers come to an end: with no further requests, whatever the jobs do and in whatever
    order they are taken, no more than nineteen steps can be made for each stored job,
    retries included, and two for each time it may stall. *)
Theorem workers_terminate (ids : list string) (n : nat) (q q' : Q) :
  NoDup ids -> (forall i, find_job i q <> None -> i ∈ ids) ->
  (forall i j, find_job i q = Some j -> j_opts j = defaultJobOptions) ->
  nsteps works n q q' -> (n <= (19 + 2 * max_stalled) * length ids)%nat.
Proof.
  intros Hnd Hids Hopts Hrun.
  assert (n + total ids q' <= total ids q)%nat as Hle.
  { revert Hids. clear Hopts. induction Hrun as [q|n q1 q2 q3 (now & i & Hs) Hrun IH]; intros Hids; [lia|].
    destruct (works_only outcome now i q1 q2 Hs) as [Hi [_ Ho]].
    destruct (works_weight now i q1 q2 Hs) as [Hlt Hk].
    pose proof (total_step ids i q1 q2 Hnd (Hids i Hi) Hlt Hk).
    assert (n + total ids q3 <= total ids q2)%nat; [|lia]. apply IH. intros k Hin.
    destruct (decide (k = i)) as [->|Hne]; [by apply Hids|]. apply Hids. by rewrite <- Ho. }
  assert (total ids q <= (19 + 2 * max_stalled) * length ids)%nat; [|lia]. clear - Hopts. unfold total.
  induction ids as [|i ids IH]; [simpl; lia|]. simpl.
  assert (weight_at q i <= 19 + 2 * max_stalled)%nat; [|lia]. unfold weight_at. destruct (find_job i q) as [j|] eqn:E; [|lia].
  unfold weight, attempts_left, stalls_left. rewrite (Hopts i j E). simpl. case_match; lia.
Qed.

(** ** Liveness *)

Section Run.
(** A run of the service: the time and the queue at each moment. *)
Context (now : nat -> Z) (q : nat -> Q) (i : string).

(** Between two moments a pending job is left alone or a worker takes a step with it. *)
Definition run_of_worker : Prop := forall n, is_pending i (q n) = true ->
  find_job i (q (S n)) = find_job i (q n) \/ works_on outcome (now n) i (q n) (q (S n)).

(** A worker takes a job that waits, an attempt settles and a delay passes: a
    pending job does not stay as it is for ever. *)
Definition fair : Prop := forall n j,
  find_job i (q n) = Some j -> pending_state (j_state j) = true ->
  exists m, n <= m /\ find_job i (q m) <> Some j.

Lemma pending_job (q1 : Q) (j : Job) :
  find_job i q1 = Some j -> is_pending i q1 = pending_state (j_state j).
Proof. unfold is_pending. by intros ->. Qed.

Lemma first_change (n d : nat) (j : Job) :
  run_of_worker -> pending_state (j_state j) = true ->
  find_job i (q n) = Some j -> find_job i (q (n + d)) <> Some j ->
  exists m, n <= m /\ find_job i (q m) = Some j /\ works_on outcome (now m) i (q m) (q (S m)).
Proof.
  intros Hrun Hp. revert n. induction d as [|d IH]; intros n Hj Hd; [by rewrite Nat.add_0_r in Hd|].
  destruct (Hrun n) as [E|Hs]; [by rewrite (pending_job _ j)| |by exists n].
  destruct (IH (S n)) as (m & Hm & Hjm & Hs).
  - by rewrite E.
  - by rewrite Nat.add_succ_comm.
  - exists m. split; [lia|done].
Qed.

(** What a worker makes of a pending job is a pending job, or its end. *)
Lemma step_settles (t : Z) (q1 q2 : Q) :
  works_on outcome t i q1 q2 ->
  is_pending i q2 = true \/
  (is_pending i q2 = false /\ forall j, find_job i q2 = Some j -> j_state j = completed \/ j_state j = failed).
Proof.
  unfold is_pending. intros Hw%works_documented.
  destruct Hw as [j _ _ [-> _]|j o _ _ _ [-> _]|j e _ _ _ _ [-> _]|j e _ _ _ _ [-> _]|j _ _ _ [-> _]|j _ _ _ [-> _]|j _ _ _ [-> _]|j _ _ _ [-> _]];
    try (left; reflexivity); right.
  - destruct (removeOnComplete _); (split; [done|]); [done|]. intros j' [= <-]. by left.
  - split; [done|]. intros j' [= <-]. by right.
  - split; [done|]. intros j' [= <-]. by right.
  - by split.
Qed.

(** A pending job is, at some moment, taken to its end. *)
Lemma pending_ends (n : nat) :
  run_of_worker -> fair -> is_pending i (q n) = true ->
  exists m, n <= m /\ is_pending i (q m) = true /\ is_pending i (q (S m)) = false /\
    works_on outcome (now m) i (q m) (q (S m)).
Proof.
  intros Hrun Hfair.
  remember (weight_at (q n) i) as k eqn:Hk. revert n Hk.
  induction k as [k IH] using lt_wf_ind. intros n Hk Hp.
  pose proof Hp as Hp'. unfold is_pending in Hp'.
  destruct (find_job i (q n)) as [j|] eqn:Hj; [|done].
  destruct (Hfair n j Hj Hp') as (m & Hm & Hne).
  destruct (first_change n (m - n) j Hrun Hp' Hj) as (m' & Hm' & Hj' & Hs).
  { by replace (n + (m - n)) with m by lia. }
  destruct (works_weight _ _ _ _ Hs) as [Hlt _].
  destruct (step_settles _ _ _ Hs) as [Hpend|[Hend _]].
  - destruct (IH (weight_at (q (S m')) i)) with (n := S m') as (m2 & Hm2 & H5); [|done|done|].
    + subst k. unfold weight_at in *. rewrite Hj' in Hlt. by rewrite Hj.
    + exists m2. split; [lia|done].
  - exists m'. split; [lia|]. by rewrite (pending_job _ j).
Qed.

(** A queued sync comes to its end: whatever its attempts end with, a job that
    is pending at some moment is, at a later one, completed or failed or no longer
    stored. *)
Theorem sync_eventually_ends (n : nat) :
  run_of_worker -> fair -> is_pending i (q n) = true ->
  exists m, n <= m /\ is_pending i (q m) = false /\
    forall j, find_job i (q m) = Some j -> j_state j = completed \/ j_state j = failed.
Proof.
  intros Hrun Hfair Hp. destruct (pending_ends n Hrun Hfair Hp) as (m & Hm & _ & Hend & Hs).
  exists (S m). split; [lia|]. destruct (step_settles _ _ _ Hs) as [Hp'|?]; [congruence|done].
Qed.
End Run.
End Ends.

(** ** Accounts that cannot be synchronised *)

Section Processed.
Context {TA TM : Type} `{TableLaws MailAccount TA} `{TableLaws Message TM} `{Cipher}.
Context (randomUUID randomHex : nat -> string).
Context (simpleParser : string -> result exn Parsed) (storage_ok : nat -> bool).
Context (reg : registry (mail_db TA TM)) (fuel : nat).

Abbreviation D := (mail_db TA TM).

(** The run of a job up to [syncAccount]: it is logged under the id of the request
    that asked for it, or a new one. *)
Lemma run_process (j : Job) (w : world D) :
  exists w1, data w1 = data w /\ db_up w1 = db_up w /\ clock w1 = clock w /\ (draws w <= draws w1)%nat /\
    run (process randomUUID randomHex simpleParser storage_ok reg fuel j) w =
      run (syncAccount randomUUID simpleParser storage_ok reg fuel (jd_accountId (j_data j))) w1 /\
    exists text, calls w1 =
      ("log", [default (randomHex (draws w)) (jd_requestId (j_data j)); text]) :: calls w.
Proof.
  unfold process, runWithRequestId. rewrite run_bind.
  destruct (jd_requestId (j_data j)) as [i|].
  - rewrite run_ret, run_bind, run_external. eexists.
    split; [|split; [|split; [|split; [|split; [reflexivity|by eexists]]]]]; simpl; first [done|lia].
  - rewrite run_draw, run_bind, run_external. eexists.
    split; [|split; [|split; [|split; [|split; [reflexivity|by eexists]]]]]; simpl; first [done|lia].
Qed.

(** The job of an account that is gone, or that is not active, fails at its
    first attempt for good: nothing is asked of a provider, no row changes, and a
    worker does not try again. *)
Theorem dead_account_not_retried (j : Job) (w : world D) :
  db_up w = true ->
  (forall a, a ∈ rows (mailAccount (data w)) -> ma_id a = jd_accountId (j_data j) -> ma_status a <> ACTIVE) ->
  exists m w' text,
    run (process randomUUID randomHex simpleParser storage_ok reg fuel j) w = (Err (UnrecoverableError m), w') /\
    data w' = data w /\
    calls w' = ("log", [default (randomHex (draws w)) (jd_requestId (j_data j)); text]) :: calls w /\
    gives_up (UnrecoverableError m) j = true.
Proof.
  intros Hup Hdead. destruct (run_process j w) as (w1 & Hd & Hu & _ & _ & -> & text & Hc).
  unfold syncAccount, find_account, on_accounts. rewrite run_bind, run_query, Hu, Hup. cbn [fst snd].
  set (w2 := with_data _ w1).
  assert (data w2 = data w /\ calls w2 = calls w1) as [Hd2 Hc2] by (rewrite <- Hd; by destruct w1 as [[] ? ? ? ?]).
  clearbody w2. rewrite <- Hc2 in Hc. destruct (findFirst _ _) as [a|] eqn:E.
  - apply findFirst_Some in E as [Ha Hi]. apply bool_decide_eq_true in Hi. rewrite Hd in Ha.
    rewrite bool_decide_eq_false_2 by (by apply Hdead). rewrite run_throw.
    by eexists _, w2, text.
  - rewrite run_throw. by eexists _, w2, text.
Qed.
End Processed.

(** ** The events of the queue *)

(** [SyncEventsService.onModuleInit]: the two events it subscribes to. *)
Inductive queue_event := CompletedEvent (jobId : string) | FailedEvent (jobId : string).

Definition on_queue_event (e : queue_event) (h : SyncEvents.hub) : SyncEvents.hub :=
  match e with
  | CompletedEvent jobId => SyncEvents.publish jobId SyncEvents.completed h
  | FailedEvent jobId => SyncEvents.publish jobId SyncEvents.failed h
  end.

(** [subscribe]: the listener of a stream, and what removes it. *)
Definition subscribe (i : nat) (s : SyncEvents.stream) (h : SyncEvents.hub) : SyncEvents.hub :=
  <[i := s]> h.

Definition unsubscribe (i : nat) (h : SyncEvents.hub) : SyncEvents.hub :=
  SyncEvents.hub_step h (SyncEvents.Closes i).

(** The account a job was queued for is the one its event names. *)
Lemma event_names_account (a : string) : truthy a = true -> SyncEvents.account_of_job (job_id a) = Some a.
Proof.
  intros Ha. unfold SyncEvents.account_of_job, job_id. rewrite starts_with_append.
  change (sdrop 5 ("sync-" +:+ a)) with a. unfold or_undefined. by rewrite Ha.
Qed.

(** The end of the job of an account is written, once, to every open stream of
    a user who owned it when the stream was opened, and to no other. *)
Theorem job_end_reaches_owners (a : string) (kind : SyncEvents.SyncOutcomeKind) (h : SyncEvents.hub)
    (n : nat) (s : SyncEvents.stream) :
  truthy a = true -> h !! n = Some s ->
  let e := match kind with
           | SyncEvents.completed => CompletedEvent (job_id a)
           | SyncEvents.failed => FailedEvent (job_id a)
           end in
  exists s', on_queue_event e h !! n = Some s' /\
    SyncEvents.st_text s' = SyncEvents.st_text s +:+
      (if SyncEvents.st_listening s && bool_decide (a ∈ SyncEvents.st_owned s)
       then SyncEvents.event_frame (SyncEvents.mkSyncEvent a kind) else "").
Proof.
  intros Ha Hs. cbv zeta.
  assert (on_queue_event (match kind with
           | SyncEvents.completed => CompletedEvent (job_id a)
           | SyncEvents.failed => FailedEvent (job_id a)
           end) h = SyncEvents.on_sync (SyncEvents.mkSyncEvent a kind) <$> h) as ->.
  { destruct kind; simpl; unfold SyncEvents.publish; by rewrite event_names_account. }
  rewrite lookup_fmap, Hs. eexists. split; [done|]. unfold SyncEvents.on_sync. simpl.
  destruct (_ && _); [done|]. by rewrite append_nil_r.
Qed.

(** ** A concrete queue *)

Module Jobs.
Abbreviation Q := (gmap string Job).

Definition redis_ok (n : nat) : bool := true.

Definition w0 : world (ingestion (list MailAccount) Q) :=
  mkWorld (mkIngestion [Mailbox.box] ∅) 1000 0 true [].

Definition requests : list (context * string * sync_reason) :=
  [(None, "a1", scheduled); (Some (mkRequestStore "r1"), "a1", manual)].

Definition both : config (S := world (ingestion (list MailAccount) Q)) (A := result exn (string * bool)) :=
  schedule [0; 1; 0; 1] (List.map (fun r => enqueueAccountSync redis_ok r.1.1 r.1.2 r.2) requests, w0).

(** Every attempt fails. *)
Definition outcome (j : Job) (r : result exn SyncOutcome) : Prop := r = Err (Error "boom").

Definition job : Job :=
  mkJob "sync-a1" SYNC_ACCOUNT_JOB (mkJobData "a1" scheduled None) defaultJobOptions waiting 0 0 0.

Definition now (n : nat) : Z := 10000000 * Z.of_nat n.

(** Five attempts, each waiting, active and then delayed, the last one failed. *)
Definition state_at (n : nat) : Job :=
  if Nat.leb 14 n then set_state failed 5 (now 13) job
  else match Nat.modulo n 3 with
       | 0 => set_state waiting (Nat.div n 3) 0 job
       | 1 => set_state active (Nat.div n 3) 0 job
       | _ => set_state delayed (S (Nat.div n 3)) (now (n - 1) + 60000 * 2 ^ Z.of_nat (Nat.div n 3)) job
       end.

Definition queue_at (n : nat) : Q := {[ "sync-a1" := state_at n ]}.

Lemma find_at (n : nat) : find_job "sync-a1" (queue_at n) = Some (state_at n).
Proof. apply lookup_singleton_eq. Qed.

Lemma only_at (n m : nat) : only "sync-a1" (Some (state_at m)) (queue_at n) (queue_at m).
Proof.
  split; [apply find_at|]. intros k Hk. unfold queue_at. simpl. by rewrite !lookup_singleton_ne.
Qed.

Lemma at_14 (n : nat) : 14 <= n -> state_at n = set_state failed 5 (now 13) job.
Proof. intros Hn. unfold state_at. by rewrite (proj2 (Nat.leb_le 14 n)). Qed.

Lemma runs : run_of_worker outcome now queue_at "sync-a1".
Proof.
  intros n _. destruct (decide (14 <= n)) as [Hn|Hn].
  { left. rewrite !find_at, !at_14 by lia. done. }
  right. pose proof (only_at n (S n)) as Ho. pose proof (find_at n) as Hf.
  do 14 (destruct n as [|n];
    [first [ by eapply Takes; [exact Hf|reflexivity|exact Ho]
           | by eapply Retries; [exact Hf|reflexivity|reflexivity|reflexivity|exact Ho]
           | by eapply GivesUp; [exact Hf|reflexivity|reflexivity|reflexivity|exact Ho]
           | by eapply Promotes; [exact Hf|reflexivity|vm_compute; discriminate|exact Ho] ]|]).
  lia.
Qed.

Lemma fair_run : fair queue_at "sync-a1".
Proof.
  intros n j Hj Hp. rewrite find_at in Hj. injection Hj as <-.
  destruct (decide (14 <= n)) as [Hn|Hn]; [by rewrite at_14 in Hp|].
  exists 14. split; [lia|]. rewrite find_at. intros [= E]. by rewrite <- E in Hp.
Qed.
End Jobs.

Lemma requests_served_witness :
  pending_in "sync-a1" Jobs.both.2 = true \/ (ended "sync-a1" Jobs.w0 < ended "sync-a1" Jobs.both.2)%nat.
Proof.
  apply (requests_served (Q := Jobs.Q) Jobs.redis_ok Jobs.outcome Jobs.requests Jobs.w0 Jobs.both None "a1" scheduled).
  - apply schedule_reachable.
  - unfold all_accepted. intros k st re E. exists ("sync-a1", false).
    destruct k as [|[|k]]; [reflexivity|reflexivity|discriminate E].
  - left.
Defined.

Lemma requestSync_owner_only_witness :
  run (requestSync Jobs.redis_ok None "u2" "a1") Jobs.w0 =
    (Err (NotFoundException "Account not found"), Jobs.w0).
Proof.
  exact (requestSync_owner_only Jobs.redis_ok (fun _ => eq_refl) None "u2" "a1" Jobs.w0 eq_refl).
Defined.

Lemma poll_queues_active_witness :
  exists n m w', run (pollActiveAccounts Jobs.redis_ok) Jobs.w0 = (Ok (n, m), w') /\ n + m = 1 /\
    is_pending "sync-a1" (queue (data w')) = true.
Proof.
  destruct (poll_queues_active Jobs.redis_ok (fun _ => eq_refl) Jobs.w0 eq_refl)
    as (n & m & w' & Hrun & Hn & Hall & _).
  exists n, m, w'. split; [exact Hrun|]. split; [exact Hn|].
  apply (Hall Mailbox.box); [left|reflexivity].
Defined.

Lemma sync_eventually_ends_witness :
  exists m, 0 <= m /\ is_pending "sync-a1" (Jobs.queue_at m) = false /\
    forall j, find_job "sync-a1" (Jobs.queue_at m) = Some j -> j_state j = completed \/ j_state j = failed.
Proof.
  apply (sync_eventually_ends Jobs.outcome Jobs.now Jobs.queue_at "sync-a1" 0 Jobs.runs Jobs.fair_run).
  vm_compute. reflexivity.
Defined.

Lemma dead_account_not_retried_witness :
  exists m w', run (process Mailbox.uuid (fun _ => "hex") Mailbox.simpleParser Mailbox.storage_ok
      Mailbox.reg 3 (mkJob "sync-zz" SYNC_ACCOUNT_JOB (mkJobData "zz" scheduled None) defaultJobOptions
        active 0 0 0)) Mailbox.w0 = (Err (UnrecoverableError m), w').
Proof.
  destruct (dead_account_not_retried Mailbox.uuid (fun _ => "hex") Mailbox.simpleParser Mailbox.storage_ok
    Mailbox.reg 3 (mkJob "sync-zz" SYNC_ACCOUNT_JOB (mkJobData "zz" scheduled None) defaultJobOptions
      active 0 0 0) Mailbox.w0) as (m & w' & text & Hrun & _).
  - reflexivity.
  - intros a Ha Hi. apply list_elem_of_singleton in Ha as ->. discriminate Hi.
  - by exists m, w'.
Defined.

(** ** A request that is lost

    Two requests find a failed job.  The second clears it and adds a new one, and is
    told that it is queued; the first then removes the new job as the stale one it
    had seen, and Redis fails before it adds its own. *)

Module Lost.
Definition redis_ok (n : nat) : bool := negb (Nat.eqb n 7).

Definition w0 : world (ingestion (list MailAccount) (gmap string Job)) :=
  mkWorld (mkIngestion [Mailbox.box] {[ "sync-a1" := set_state failed 5 0 Jobs.job ]}) 1000 0 true [].

Definition after : config (S := world (ingestion (list MailAccount) (gmap string Job)))
    (A := result exn (string * bool)) :=
  schedule [0; 0; 1; 1; 1; 1; 0; 0]
    (List.map (fun r => enqueueAccountSync redis_ok r.1.1 r.1.2 r.2) Jobs.requests, w0).
End Lost.

(** A request can be lost when Redis fails another one between its two commands. *)
Lemma accepted_request_lost :
  Lost.after.1 !! 1 = Some (Done (Ok ("sync-a1", false))) /\
  find_job "sync-a1" (queue (data Lost.after.2)) = None.
Proof. vm_compute. by split. Qed.
