(* ===== verification/Notify.v ===== *)
(** * From a request to the page

    One run of the ingestion service: requests for syncs that overlap, later ones, the
    workers, the Redis stream that carries the ends of jobs, and the event streams of the
    browsers.  Queue and SyncWorker say what becomes of a request and of a job, SyncEvents
    what becomes of an event; here they are put together, from
    [enqueueAccountSync] to [handleFrame] of [accounts/useSyncEvents.ts]. *)

From S2P Require Import Prelude Js World Concurrency Mail Accounts Logging MailSync Queue SyncWorker.
From S2P Require SyncEvents.

Set Default Proof Using "Type*".

(** ** What the queue announces *)

Section Announced.
Context {Q : Type} `{WorkerLaws Q}.

(** BullMQ: the job under [i] ends when it is active and is then completed, which
    removes it or not, or failed for good; an attempt that is tried again, and a job that
    waits for another worker after a stall, is no end. *)
Definition job_end (i : string) (q q' : Q) : option SyncEvents.SyncOutcomeKind :=
  if decide (state_of i q = active) then
    match find_job i q' with
    | None => Some SyncEvents.completed
    | Some j => match j_state j with
                | completed => Some SyncEvents.completed
                | failed => Some SyncEvents.failed
                | _ => None
                end
    end
  else None.

Definition event_of (i : string) (kind : SyncEvents.SyncOutcomeKind) : queue_event :=
  match kind with
  | SyncEvents.completed => CompletedEvent i
  | SyncEvents.failed => FailedEvent i
  end.

(** [QueueEvents]: the events a step with the job adds to the stream of the queue. *)
Definition announced (i : string) (q q' : Q) : list queue_event :=
  match job_end i q q' with Some kind => [event_of i kind] | None => [] end.

(** What the last run of a job ended with, for it to end so; or it was lost once too often. *)
Definition ended_with (outcome : Job -> result exn SyncOutcome -> Prop) (kind : SyncEvents.SyncOutcomeKind)
    (j : Job) : Prop :=
  match kind with
  | SyncEvents.completed => exists o, outcome j (Ok o)
  | SyncEvents.failed => (exists x, outcome j (Err x) /\ gives_up x j = true) \/ (max_stalled <= j_stalled j)%nat
  end.

(** A job that is taken to its end is announced, as what it ended with. *)
Lemma works_announced (outcome : Job -> result exn SyncOutcome -> Prop) (now : Z) (i : string)
    (q q' : Q) :
  works_on outcome now i q q' -> is_pending i q = true -> is_pending i q' = false ->
  exists kind j, job_end i q q' = Some kind /\ announced i q q' = [event_of i kind] /\
    find_job i q = Some j /\ ended_with outcome kind j.
Proof.
  intros Hs%works_documented Hp Hp'. unfold announced.
  enough (exists kind j, job_end i q q' = Some kind /\ find_job i q = Some j /\ ended_with outcome kind j)
    as (kind & j & E & Hj) by (exists kind, j; by rewrite E).
  unfold job_end, state_of, is_pending in *.
  destruct Hs as [j Hj Hst [Ho _]|j o Hj Hst Hr [Ho _]|j e Hj Hst _ _ [Ho _]|j e Hj Hst Hr Hg [Ho _]|
                  j Hj Hst _ [Ho _]|j Hj Hst Hl [Ho _]|j Hj Hst _ [Ho _]|j Hj Hst _ [Ho _]];
    rewrite Ho in Hp' |- *; rewrite Hj, Hst in *; cbn in Hp' |- *; try done.
  - exists SyncEvents.completed, j. split; [by destruct (removeOnComplete _)|]. split; [done|by exists o].
  - exists SyncEvents.failed, j. split; [done|]. split; [done|left; by exists e].
  - exists SyncEvents.failed, j. split; [done|]. split; [done|by right].
Qed.
End Announced.

Lemma on_event_of (i : string) (kind : SyncEvents.SyncOutcomeKind) (h : SyncEvents.hub) :
  on_queue_event (event_of i kind) h = SyncEvents.hub_step h (SyncEvents.Publishes i kind).
Proof. by destruct kind. Qed.

Lemma on_event_is_step (e : queue_event) (h : SyncEvents.hub) :
  exists i kind, on_queue_event e h = SyncEvents.hub_step h (SyncEvents.Publishes i kind).
Proof. destruct e as [i|i]; by exists i; eexists. Qed.

(** What holds until something happens holds when it does. *)
Lemma until (P D : nat -> Prop) (n m : nat) :
  (forall k, P k -> P (S k) \/ D k) -> P n -> n <= m -> D m -> exists k, n <= k /\ P k /\ D k.
Proof.
  intros Hstep Hn Hm. revert n Hn Hm. intros n Hn Hm HD. remember (m - n) as d eqn:Hd. revert n Hn Hm Hd.
  induction d as [|d IH]; intros n Hn Hm Hd.
  - exists n. assert (m = n) as <- by lia. done.
  - destruct (Hstep n Hn) as [HS|HD']; [|by exists n].
    destruct (IH (S n)) as (k & Hk & H5); [done|lia|lia|]. exists k. split; [lia|done].
Qed.

(** ** The service *)

Section System.
Context {TA Q : Type} `{TableLaws MailAccount TA} `{JobQueueLaws Q} `{!Workers Q} `{!WorkerLaws Q}.
Context (redis_ok : nat -> bool) (outcome : Job -> result exn SyncOutcome -> Prop).

Abbreviation W := (world (ingestion TA Q)).
Abbreviation Pool := (config (S := W) (A := result exn (string * bool))).

(** The requests in progress with what they share, the events of the queue that have not
    been read yet, oldest first, and the event streams. *)
Record system := mkSystem {
  sy_pool : Pool;
  sy_backlog : list queue_event;
  sy_hub : SyncEvents.hub;
}.

Definition sy_queue (s : system) : Q := queue (data (sy_pool s).2).

Inductive action :=
| Request (k : nat)                                                (* a step of request [k] *)
| Asks (storage : context) (accountId : string) (reason : sync_reason)   (* a request, at once *)
| Time (t : Z)
| Work (i : string)                                                (* a worker, with job [i] *)
| Deliver
| Streams (ev : SyncEvents.hub_event).

(** The world after a step of a worker, as [Works] has it. *)
Definition worked (i : string) (w : W) (q' : Q) : W :=
  mkWorld (mkIngestion (accounts_table (data w)) q') (clock w) (draws w) (db_up w)
    (if is_pending i (queue (data w)) && negb (is_pending i q') then ("ended", [i]) :: calls w
     else calls w).

#[export] Instance is_request (x : action) (k : nat) : Decision (x = Request k).
Proof.
  refine (match x with Request k' => cast_if (decide (k' = k)) | _ => right _ end); congruence.
Defined.

(** What the workers end is announced in order and read in order; the streams open, close
    and keep themselves alive next to it. *)
Inductive sys_step : action -> system -> system -> Prop :=
| DoesRequest k p p' ps w w' b h :
    ps !! k = Some p -> tstep p w = Some (p', w') ->
    sys_step (Request k) (mkSystem (ps, w) b h) (mkSystem (<[k := p']> ps, w') b h)
| DoesAsk storage a reason ps w b h :
    sys_step (Asks storage a reason) (mkSystem (ps, w) b h)
      (mkSystem (ps, (run (enqueueAccountSync redis_ok storage a reason) w).2) b h)
| DoesTime t ps w b h :
    (0 <= t)%Z ->
    sys_step (Time t) (mkSystem (ps, w) b h)
      (mkSystem (ps, mkWorld (data w) (clock w + t) (draws w) (db_up w) (calls w)) b h)
| DoesWork i ps w q' b h :
    works_on outcome (clock w) i (queue (data w)) q' ->
    sys_step (Work i) (mkSystem (ps, w) b h)
      (mkSystem (ps, worked i w q') (b ++ announced i (queue (data w)) q') h)
| DoesDeliver c e b h :
    sys_step Deliver (mkSystem c (e :: b) h) (mkSystem c b (on_queue_event e h))
| DoesStreams ev c b h :
    (forall i kind, ev <> SyncEvents.Publishes i kind) ->
    sys_step (Streams ev) (mkSystem c b h) (mkSystem c b (SyncEvents.hub_step h ev)).

(** What the requests in progress see of the others. *)
Definition around (w w' : W) : Prop := elsewhere outcome w w' \/ later redis_ok w w'.

Lemma sys_step_pool (x : action) (s s' : system) :
  sys_step x s s' -> sy_pool s' = sy_pool s \/ cstep around (sy_pool s) (sy_pool s').
Proof.
  intros [k p p' ps w w' b h Hp Ht|storage a reason ps w b h|t ps w b h Ht|i ps w q' b h Hs|c e b h|ev c b h _];
    simpl; [right|right|right|right|by left|by left].
  - by eapply CThread.
  - apply CEnv. by right.
  - apply CEnv. left. by apply Ticks.
  - apply CEnv. left. by apply Works.
Qed.

Lemma around_keeps (i : string) (n0 : nat) (w w' : W) :
  around w w' -> rely i n0 w w' /\ (served i n0 w -> served i n0 w').
Proof. intros [He|He]; [by eapply elsewhere_keeps|by eapply later_keeps]. Qed.

(** *** A run *)

Section Run.
Context (s : nat -> system) (act : nat -> action).
Context (Hrun : forall n, sys_step (act n) (s n) (s (S n))).

Definition threads (n : nat) : list (prog W (result exn (string * bool))) := (sy_pool (s n)).1.
Definition shared (n : nat) : W := (sy_pool (s n)).2.
Definition queue_at (n : nat) : Q := sy_queue (s n).

(** A request that is in progress goes on. *)
Definition requests_go_on : Prop := forall n k p,
  threads n !! k = Some p -> (forall r, p <> Done r) -> exists m, n <= m /\ act m = Request k.

(** What the queue has announced is read. *)
Definition events_go_on : Prop := forall n,
  sy_backlog (s n) <> [] -> exists m, n <= m /\ act m = Deliver.

(** The requests for account [a] that come to their end succeed; others may fail. *)
Definition requests_succeed (reqs : list (context * string * sync_reason)) (a : string) : Prop :=
  forall n k storage reason r, reqs !! k = Some (storage, a, reason) ->
    threads n !! k = Some (Done r) -> exists v, r = Ok v.

Lemma pool_reached (n : nat) : rtc (cstep around) (sy_pool (s 0)) (sy_pool (s n)).
Proof.
  induction n as [|n IH]; [apply rtc_refl|].
  destruct (sys_step_pool _ _ _ (Hrun n)) as [->|Hs]; [done|by eapply rtc_r].
Qed.

(** A step changes at most the thread it is of. *)
Lemma thread_kept (n k : nat) (p : prog W (result exn (string * bool))) :
  threads n !! k = Some p -> act n <> Request k \/ (exists r, p = Done r) -> threads (S n) !! k = Some p.
Proof.
  unfold threads. intros Hk Hne.
  destruct (Hrun n) as [k' p0 p' ps w w' b h Hp Ht|st a re ps w b h|t ps w b h Ht|i ps w q' b h Hs|c e b h|ev c b h _];
    simpl in *; try done.
  destruct (decide (k' = k)) as [->|Hd]; [|by rewrite list_lookup_insert_ne].
  destruct Hne as [?|[r ->]]; [done|]. rewrite Hp in Hk. by simplify_eq.
Qed.

Lemma done_stays (n m k : nat) (r : result exn (string * bool)) :
  n <= m -> threads n !! k = Some (Done r) -> threads m !! k = Some (Done r).
Proof. induction 1 as [|m Hm IH]; [done|]. intros Hk. apply thread_kept; [by apply IH|right; by eexists]. Qed.

(** Up to its next step a thread is as it was. *)
Lemma next_step (k n m : nat) (p : prog W (result exn (string * bool))) :
  threads n !! k = Some p -> n <= m -> act m = Request k ->
  exists m', n <= m' /\ threads m' !! k = Some p /\ act m' = Request k.
Proof.
  intros Hk Hm Ha. apply (until (fun m => threads m !! k = Some p) (fun m => act m = Request k) n m); try done.
  intros m' Hk'. destruct (decide (act m' = Request k)) as [?|Hne]; [by right|].
  left. apply thread_kept; auto.
Qed.

(** Every request comes to its end. *)
Lemma thread_finishes (k : nat) (p : prog W (result exn (string * bool))) (n : nat) :
  requests_go_on -> threads n !! k = Some p ->
  exists m r, n <= m /\ threads m !! k = Some (Done r).
Proof.
  intros Hfair. revert n. induction p as [r|B op g IH]; intros n Hk; [by exists n, r|].
  destruct (Hfair n k _ Hk) as (m & Hm & Ha); [done|].
  destruct (next_step k n m _ Hk Hm Ha) as (m' & Hm' & Hk' & Ha').
  destruct (IH (op (shared m')).1 (S m')) as (m2 & r & Hm2 & Hr).
  - pose proof (Hrun m') as Hs. rewrite Ha' in Hs. unfold threads, shared in *.
    inversion Hs as [k0 p0 p' ps w w' b h Hp Ht E1 E2 E3| | | | |]. rewrite <- E2 in Hk'. simpl in Hk'.
    rewrite Hp in Hk'. injection Hk' as ->. simpl in Ht |- *. destruct (op w) as [x w2]. injection Ht as <- <-.
    by apply list_lookup_insert_eq; eapply lookup_lt_Some.
  - exists m2, r. split; [lia|done].
Qed.

Lemma threads_length (n : nat) : length (threads n) = length (threads 0).
Proof.
  apply (reachable_ind around (fun c => length c.1 = length (threads 0)) (sy_pool (s 0))); [done| |apply pool_reached].
  intros c1 c2 <- Hs. by eapply cstep_length.
Qed.

(** So at some moment all of those there were have. *)
Lemma all_finish : requests_go_on -> exists n, forall k p, threads n !! k = Some p -> exists r, p = Done r.
Proof.
  intros Hfair.
  assert (forall K, exists n, forall k p, k < K -> threads n !! k = Some p -> exists r, p = Done r) as Hall.
  { induction K as [|K (n & IH)]; [exists 0; lia|].
    destruct (threads n !! K) as [p|] eqn:E.
    - destruct (thread_finishes K p n Hfair E) as (m & r & Hm & Hr). exists m. intros k q Hk Hq.
      destruct (decide (k = K)) as [->|Hne]; [exists r; congruence|].
      destruct (lookup_lt_is_Some_2 (threads n) k) as [p' Hp'].
      { rewrite threads_length, <- (threads_length m). by eapply lookup_lt_Some. }
      destruct (IH k p') as [r' ->]; [lia|done|].
      exists r'. pose proof (done_stays n m k r' Hm Hp'). congruence.
    - exists n. intros k q Hk Hq. destruct (decide (k = K)) as [->|Hne]; [congruence|]. apply (IH k); [lia|done]. }
  destruct (Hall (length (threads 0))) as [n Hn]. exists n. intros k p Hp.
  apply (Hn k); [|done]. rewrite <- (threads_length n). by eapply lookup_lt_Some.
Qed.

(** *** One job *)

Section Job.
Context (i : string).

Definition job_goes_on : Prop := fair queue_at i.

(** No step of a request ends it. *)
Definition same_count (w w' : W) : Prop := ended i w = ended i w'.

(** The step that ends the job. *)
Definition ends_at (n : nat) : Prop :=
  act n = Work i /\ is_pending i (queue_at n) = true /\ is_pending i (queue_at (S n)) = false.

Lemma threads_keep_count (n : nat) :
  Forall (each_step same_count) (threads 0) ->
  Forall (each_step same_count) (threads n).
Proof.
  intros Hinit. apply (reachable_ind around
    (fun c => Forall (each_step same_count) c.1) (sy_pool (s 0)) (sy_pool (s n)));
    [done| |apply pool_reached].
  intros c1 c2 Hc Hs. destruct Hs as [k p p' ps w w' Hp Ht|ps w w' He]; [|done]. simpl in *.
  apply Forall_insert; [done|]. rewrite Forall_lookup in Hc.
  by destruct (each_step_tstep same_count p p' w w' (Hc k p Hp) Ht).
Qed.

(** Only a worker that takes the job to its end adds to the count of ends. *)
Lemma count_step (n : nat) :
  Forall (each_step same_count) (threads n) ->
  ended i (shared (S n)) = ended i (shared n) \/ ends_at n.
Proof.
  unfold threads, shared, ends_at, queue_at, sy_queue. intros Hall.
  destruct (Hrun n) as [k p p' ps w w' b h Hp Ht|st a re ps w b h|t ps w b h Ht|k ps w q' b h Hs|c e b h|ev c b h _];
    simpl in *; try (by left).
  - left. rewrite Forall_lookup in Hall. symmetry.
    by destruct (each_step_tstep same_count p p' w w' (Hall k p Hp) Ht).
  - left. apply ended_later.
  - unfold worked. destruct (is_pending k (queue (data w)) && negb (is_pending k q')) eqn:E; [|by left].
    rewrite ended_cons. destruct (decide (k = i)) as [->|Hne]; [|by left]. right.
    apply andb_true_iff in E as [E1 E2]. apply negb_true_iff in E2. by repeat split.
Qed.

Lemma count_ends (n : nat) :
  Forall (each_step same_count) (threads 0) ->
  ended i (shared 0) < ended i (shared n) -> exists m, ends_at m.
Proof.
  intros Hall. induction n as [|n IH]; [lia|]. intros Hlt.
  destruct (count_step n (threads_keep_count n Hall)) as [E|Hn]; [|by exists n].
  apply IH. lia.
Qed.

(** When no request is in progress, a pending job is left to the workers. *)
Lemma job_step (n : nat) :
  (forall k p, threads n !! k = Some p -> exists r, p = Done r) -> is_pending i (queue_at n) = true ->
  find_job i (queue_at (S n)) = find_job i (queue_at n) \/
  (act n = Work i /\ works_on outcome (clock (shared n)) i (queue_at n) (queue_at (S n))).
Proof.
  unfold threads, shared, queue_at, sy_queue. intros Hall Hpend.
  destruct (Hrun n) as [k p p' ps w w' b h Hp Ht|st a re ps w b h|t ps w b h Ht|k ps w q' b h Hs|c e b h|ev c b h _];
    simpl in *; try (by left).
  - destruct (Hall k p Hp) as [r ->]. done.
  - left. destruct (decide (job_id a = i)) as [<-|Hne].
    + by rewrite pending_enqueue.
    + apply job_untouched. congruence.
  - destruct (decide (k = i)) as [->|Hne]; [by right|]. left.
    destruct (works_only outcome _ k _ _ Hs) as [_ [_ Ho]]. apply Ho. congruence.
Qed.

Lemma fair_later (q : nat -> Q) (n : nat) : fair q i -> fair (fun m => q (n + m)) i.
Proof.
  intros Hfair m j Hj Hp. destruct (Hfair (n + m) j Hj Hp) as (m' & Hm & Hne).
  exists (m' - n). split; [lia|]. by replace (n + (m' - n)) with m' by lia.
Qed.

(** A pending job, with no request in progress, is taken to its end. *)
Lemma pending_is_ended (n : nat) :
  (forall k p, threads n !! k = Some p -> exists r, p = Done r) -> job_goes_on ->
  is_pending i (queue_at n) = true -> exists m, ends_at m.
Proof.
  intros Hall Hfair Hp.
  assert (forall m k p, threads (n + m) !! k = Some p -> exists r, p = Done r) as Hdone.
  { intros m k p Hk. destruct (lookup_lt_is_Some_2 (threads n) k) as [p' Hp'].
    { rewrite threads_length, <- (threads_length (n + m)). by eapply lookup_lt_Some. }
    destruct (Hall k p' Hp') as [r ->]. exists r.
    pose proof (done_stays n (n + m) k r ltac:(lia) Hp'). congruence. }
  destruct (pending_ends outcome (fun m => clock (shared (n + m))) (fun m => queue_at (n + m)) i 0)
    as (m & _ & Hpend & Hend & _).
  - intros m Hpm. rewrite Nat.add_succ_r.
    destruct (job_step (n + m) (Hdone m) Hpm) as [E|[_ Hs]]; [by left|by right].
  - by apply fair_later.
  - by rewrite Nat.add_0_r.
  - exists (n + m). rewrite Nat.add_succ_r in Hend.
    destruct (job_step (n + m) (Hdone m) Hpend) as [E|[Ha _]]; [|done].
    exfalso. unfold is_pending in Hpend, Hend. rewrite E in Hend. congruence.
Qed.
End Job.

(** An accepted request leads to the end of a sync that came after it was made. *)
Lemma accepted_ends (reqs : list (context * string * sync_reason)) (storage : context) (a : string)
    (reason : sync_reason) :
  threads 0 = fresh redis_ok reqs -> (storage, a, reason) ∈ reqs ->
  requests_go_on -> requests_succeed reqs a -> job_goes_on (job_id a) -> exists m, ends_at (job_id a) m.
Proof.
  intros Hinit Ha Hgo Hok Hjob. destruct (all_finish Hgo) as [n Hn].
  assert (served (job_id a) (ended (job_id a) (shared 0)) (shared n)) as [_ [Hp|Hlt]].
  - apply (requests_land redis_ok around reqs (shared 0) (sy_pool (s n)) storage a reason); [| | |done].
    + intros x y. apply around_keeps.
    + rewrite <- Hinit. unfold threads, shared. rewrite <- surjective_pairing. apply pool_reached.
    + intros k st re Hk. destruct (lookup_lt_is_Some_2 (threads n) k) as [p Hp].
      { rewrite threads_length, Hinit. unfold fresh. rewrite length_map. by eapply lookup_lt_Some. }
      destruct (Hn k p Hp) as [r ->]. destruct (Hok n k st re r Hk Hp) as [v ->]. by exists v.
  - by apply (pending_is_ended (job_id a) n).
  - apply (count_ends (job_id a) n); [|done]. rewrite Hinit. unfold fresh.
    apply Forall_forall. intros p Hp. apply list_elem_of_fmap in Hp as (r & -> & _). apply ended_enqueue.
Qed.

(** *** The events *)

(** An event is moved up by each that is read before it. *)
Lemma backlog_step (n p : nat) (e : queue_event) :
  sy_backlog (s n) !! p = Some e ->
  (act n <> Deliver /\ sy_backlog (s (S n)) !! p = Some e) \/
  (act n = Deliver /\ match p with
                      | O => sy_hub (s (S n)) = on_queue_event e (sy_hub (s n))
                      | S p' => sy_backlog (s (S n)) !! p' = Some e
                      end).
Proof.
  intros Hp.
  destruct (Hrun n) as [k p0 p' ps w w' b h _ Ht|st a re ps w b h|t ps w b h Ht|k ps w q' b h Hs|c e' b h|ev c b h _];
    simpl in *; try (by left).
  - left. split; [done|]. by apply lookup_app_l_Some.
  - right. split; [done|]. destruct p as [|p]; [by injection Hp as ->|done].
Qed.

Lemma next_read (p n : nat) (e : queue_event) :
  events_go_on -> sy_backlog (s n) !! p = Some e ->
  exists m, n <= m /\ sy_backlog (s m) !! p = Some e /\ act m = Deliver.
Proof.
  intros Hgo Hp. destruct (Hgo n) as (m & Hm & Hd); [by intros E; rewrite E in Hp|].
  apply (until (fun n => sy_backlog (s n) !! p = Some e) (fun n => act n = Deliver) n m); try done.
  intros k Hk. destruct (backlog_step k p e Hk) as [[_ ?]|[? _]]; [by left|by right].
Qed.

(** So every event is read. *)
Lemma event_read (p n : nat) (e : queue_event) :
  events_go_on -> sy_backlog (s n) !! p = Some e ->
  exists m, n <= m /\ sy_hub (s (S m)) = on_queue_event e (sy_hub (s m)).
Proof.
  intros Hgo. revert n. induction p as [|p IH]; intros n Hp;
    destruct (next_read _ n e Hgo Hp) as (k & Hk & Hpk & Hd);
    destruct (backlog_step k _ e Hpk) as [[? _]|[_ Hh]]; try done.
  - by exists k.
  - destruct (IH (S k) Hh) as (m' & Hm' & H5). exists m'. split; [lia|done].
Qed.

(** The end of a job is announced at once. *)
Lemma end_announced (i : string) (n : nat) :
  ends_at i n -> exists kind j, find_job i (queue_at n) = Some j /\ ended_with outcome kind j /\
    job_end i (queue_at n) (queue_at (S n)) = Some kind /\ event_of i kind ∈ sy_backlog (s (S n)).
Proof.
  unfold ends_at, queue_at, sy_queue. intros (Ha & Hp & Hp').
  destruct (Hrun n) as [k p0 p' ps w w' b h _ Ht|st a re ps w b h|t ps w b h Ht|k ps w q' b h Hs|c e' b h|ev c b h _];
    simplify_eq; simpl in *.
  destruct (works_announced outcome _ i _ _ Hs Hp Hp') as (kind & j & Hk & -> & Hj & Hend).
  exists kind, j. split; [done|]. split; [done|]. split; [done|]. apply elem_of_app. right. by left.
Qed.

(** What the streams have been through. *)
Lemma hub_history (j n : nat) :
  (forall m ev, act m = Streams ev -> SyncEvents.leaves_open j ev) ->
  exists evs, Forall (SyncEvents.leaves_open j) evs /\
    sy_hub (s n) = SyncEvents.hub_run (sy_hub (s 0)) evs.
Proof.
  intros Hopen. induction n as [|n (evs & Hevs & E)]; [by exists []|].
  assert (sy_hub (s (S n)) = sy_hub (s n) \/
    exists ev, SyncEvents.leaves_open j ev /\ sy_hub (s (S n)) = SyncEvents.hub_step (sy_hub (s n)) ev)
    as [->|(ev & Hev & ->)]; [|by exists evs|].
  - pose proof (Hopen n) as Ho.
    destruct (Hrun n) as [k p0 p' ps w w' b h _ Ht|st a re ps w b h|t ps w b h Ht|k ps w q' b h Hs|c e b h|ev c b h _];
      simpl in *; try (by left); right.
    + destruct (on_event_is_step e h) as (i & kind & ->). by exists (SyncEvents.Publishes i kind).
    + exists ev. split; [by apply Ho|done].
  - exists (evs ++ [ev]). split; [by apply Forall_app; split; [|apply Forall_singleton]|].
    unfold SyncEvents.hub_run in *. by rewrite fold_left_app, <- E.
Qed.

(** C17: a sync that is asked for is seen to end: however requests overlap, whatever becomes
    of those for other accounts, whatever is asked for later and however the attempts of the
    workers go, if the overlapping requests for an account all succeed and nothing that is
    to be done is put off for ever, then a request for that account, of a user whose page
    has its event stream open, leads to the end of a sync of it, and the last thing the page
    is told is then how its last run ended, however the network cuts the text.  (One that
    fails between its commands can take the job of another with it:
    [accepted_request_lost].) *)
Theorem request_reaches_page (reqs : list (context * string * sync_reason)) (storage : context)
    (a : string) (reason : sync_reason) (h : SyncEvents.hub) (j : nat) (owned : list string) :
  threads 0 = fresh redis_ok reqs -> (storage, a, reason) ∈ reqs -> truthy a = true ->
  sy_hub (s 0) = SyncEvents.hub_step h (SyncEvents.Opens j owned) -> a ∈ owned ->
  (forall n ev, act n = Streams ev -> SyncEvents.leaves_open j ev) ->
  requests_succeed reqs a -> requests_go_on -> job_goes_on (job_id a) -> events_go_on ->
  exists e m kind job text,
    ends_at (job_id a) e /\ find_job (job_id a) (queue_at e) = Some job /\ ended_with outcome kind job /\
    job_end (job_id a) (queue_at e) (queue_at (S e)) = Some kind /\ e < m /\
    SyncEvents.st_text <$> sy_hub (s m) !! j = Some text /\
    forall chunks, str_join "" chunks = text ->
      exists earlier l, SyncEvents.consume "" chunks = Ok l /\
        List.filter SyncEvents.noticed l =
          earlier ++ [SyncEvents.notice (SyncEvents.mkSyncEvent a kind)].
Proof.
  intros Hinit Ha Ht Hhub Howned Hopen Hok Hgo Hjob Hev.
  destruct (accepted_ends reqs storage a reason Hinit Ha Hgo Hok Hjob) as [e He].
  destruct (end_announced (job_id a) e He) as (kind & job & Hj & Hend & Hkind & [p Hp]%list_elem_of_lookup).
  destruct (event_read p (S e) _ Hev Hp) as (m & Hm & Hh).
  destruct (hub_history j m Hopen) as (evs & Hevs & Hhist).
  set (evs' := evs ++ [SyncEvents.Publishes (job_id a) kind]).
  assert (Forall (SyncEvents.leaves_open j) evs') as Hall.
  { apply Forall_app; split; [done|by apply Forall_singleton]. }
  exists e, (S m), kind, job, (SyncEvents.frame_text (": connected" :: flat_map (SyncEvents.adds j owned) evs')).
  do 4 (split; [done|]). split; [lia|]. split.
  - rewrite <- (SyncEvents.opened_text h j owned evs' Hall), Hh, on_event_of, Hhist, Hhub. unfold evs'.
    unfold SyncEvents.hub_run. rewrite app_comm_cons, fold_left_app. done.
  - intros chunks Hc. destruct (SyncEvents.consume_opened j owned evs' chunks Hc) as (l & Hl & El).
    eexists _, l. split; [done|]. rewrite El. unfold evs'. rewrite flat_map_app, List.map_app. f_equal.
    simpl. rewrite event_names_account by done. by rewrite bool_decide_eq_true_2.
Qed.
End Run.
End System.

(** ** A concrete run

    A poll and a user ask for a sync of the same account at once, a later poll finds it
    queued; a worker runs it, and the page of the user is told. *)

Module Story.
Abbreviation Q := (gmap string Job).
Abbreviation sys := (@system (list MailAccount) Q).

Definition outcome (j : Job) (r : result exn SyncOutcome) : Prop := exists o, r = Ok o.

Definition script : list action :=
  [Request 0; Request 1; Request 0; Request 1; Asks None "a1" scheduled; Work "sync-a1"; Work "sync-a1";
   Deliver].

Definition act (n : nat) : action := nth n script (Time 0).

(** A worker takes the job, or completes it. *)
Definition work (i : string) (q : Q) : Q :=
  match q !! i with
  | Some j => if decide (j_state j = waiting) then <[i := set_state active (j_attemptsMade j) 0 j]> q
              else delete i q
  | None => q
  end.

Definition next (s : sys) (x : action) : sys :=
  let '(mkSystem (ps, w) b h) := s in
  match x with
  | Request k => mkSystem (schedule [k] (ps, w)) b h
  | Asks storage a reason => mkSystem (ps, (run (enqueueAccountSync Jobs.redis_ok storage a reason) w).2) b h
  | Time t => mkSystem (ps, mkWorld (data w) (clock w + t) (draws w) (db_up w) (calls w)) b h
  | Work i => mkSystem (ps, worked i w (work i (queue (data w))))
                (b ++ announced i (queue (data w)) (work i (queue (data w)))) h
  | Deliver => match b with e :: b' => mkSystem (ps, w) b' (on_queue_event e h) | [] => s end
  | Streams ev => mkSystem (ps, w) b (SyncEvents.hub_step h ev)
  end.

Definition start : sys :=
  mkSystem (fresh Jobs.redis_ok Jobs.requests, Jobs.w0) []
    (SyncEvents.hub_step ∅ (SyncEvents.Opens 0 ["a1"])).

Definition at_moment (n : nat) : sys := fold_left next (take n script) start.

Lemma later_same (n : nat) : 8 <= n -> at_moment n = at_moment 8 /\ act n = Time 0.
Proof.
  intros Hn. unfold at_moment, act. rewrite take_ge by (simpl; lia). split; [done|].
  apply nth_overflow. simpl. lia.
Qed.

Abbreviation steps := (sys_step Jobs.redis_ok outcome).

Lemma next_request (k : nat) (s : sys) :
  match (sy_pool s).1 !! k with Some (Atomic _ _) => true | _ => false end = true ->
  steps (Request k) s (next s (Request k)).
Proof.
  destruct s as [[ps w] b h]. intros Hk. destruct (schedule_step k (ps, w) Hk) as (p & p' & w' & Hp & Ht & E).
  unfold next. rewrite E. by apply (DoesRequest Jobs.redis_ok outcome k p p').
Qed.

Lemma next_work (s : sys) (j : Job) :
  sy_queue s = {[ "sync-a1" := j ]} -> j_state j = waiting \/ j_state j = active ->
  removeOnComplete (j_opts j) = true -> steps (Work "sync-a1") s (next s (Work "sync-a1")).
Proof.
  destruct s as [[ps w] b h]. unfold sy_queue. simpl. intros Hq Hj Hr. apply DoesWork. unfold work. rewrite Hq.
  rewrite lookup_singleton_eq. destruct Hj as [Hj|Hj].
  - rewrite decide_True by done. eapply Takes; [apply lookup_singleton_eq|done|].
    split; [apply lookup_insert_eq|]. intros k Hk. simpl. by rewrite lookup_insert_ne.
  - rewrite decide_False by (by rewrite Hj).
    eapply (Completes _ _ _ _ _ _ j (mkOutcome "a1" "backfill" 0 0 0 0)); [apply lookup_singleton_eq|done|by eexists|].
    rewrite Hr. split; [apply lookup_delete_eq|]. intros k Hk. simpl. by rewrite lookup_delete_ne.
Qed.

Lemma story_runs (n : nat) : steps (act n) (at_moment n) (at_moment (S n)).
Proof.
  destruct (decide (8 <= n)) as [Hn|Hn].
  { destruct (later_same n Hn) as [-> ->]. destruct (later_same (S n)) as [-> _]; [lia|].
    destruct (at_moment 8) as [[ps [d c dr up cl]] b h].
    pose proof (DoesTime Jobs.redis_ok outcome 0 ps (mkWorld d c dr up cl) b h ltac:(lia)) as Hs.
    cbn [data clock draws db_up calls] in Hs. by rewrite Z.add_0_r in Hs. }
  destruct n as [|[|[|[|[|[|[|[|n]]]]]]]]; [| | | | | | | |lia].
  1-4: by apply next_request.
  - destruct (at_moment 4) as [[ps w] b h] eqn:E. change (at_moment 5) with (next (at_moment 4) (act 4)).
    rewrite E. apply DoesAsk.
  - apply (next_work (at_moment 5) (new_job None "a1" scheduled)); [vm_compute; reflexivity|by left|done].
  - apply (next_work (at_moment 6) (set_state active 0 0 (new_job None "a1" scheduled)));
      [vm_compute; reflexivity|by right|done].
  - change (at_moment 8) with (next (at_moment 7) Deliver).
    assert (sy_backlog (at_moment 7) = [CompletedEvent "sync-a1"]) as E by (vm_compute; reflexivity).
    destruct (at_moment 7) as [[ps w] b h]. simpl in E. subst b. apply DoesDeliver.
Qed.

Lemma succeed : requests_succeed at_moment Jobs.requests "a1".
Proof.
  intros n k st re r _ Hr%list_elem_of_lookup_2.
  assert (forallb (fun p => match p with Done (Err _) => false | _ => true end) (threads at_moment n) = true) as Hall.
  { unfold threads. destruct (decide (8 <= n)) as [Hn|Hn]; [rewrite (proj1 (later_same n Hn)); by vm_compute|].
    destruct n as [|[|[|[|[|[|[|[|n]]]]]]]]; [| | | | | | | |lia]; by vm_compute. }
  rewrite forallb_forall in Hall. destruct r as [v|e]; [by eexists|].
  apply list_elem_of_In, Hall in Hr. done.
Qed.

Lemma go_on : requests_go_on at_moment act.
Proof.
  intros n k p Hk Hp. destruct k as [|[|k]].
  - destruct (decide (n <= 2)) as [Hn|Hn]; [by exists 2|]. exfalso. apply (Hp (Ok ("sync-a1", false))).
    assert (threads at_moment 3 !! 0 = Some (Done (Ok ("sync-a1", false)))) as E by (vm_compute; reflexivity).
    pose proof (done_stays Jobs.redis_ok outcome at_moment act story_runs 3 n 0 _ ltac:(lia) E). congruence.
  - destruct (decide (n <= 3)) as [Hn|Hn]; [by exists 3|]. exfalso. apply (Hp (Ok ("sync-a1", false))).
    assert (threads at_moment 4 !! 1 = Some (Done (Ok ("sync-a1", false)))) as E by (vm_compute; reflexivity).
    pose proof (done_stays Jobs.redis_ok outcome at_moment act story_runs 4 n 1 _ ltac:(lia) E). congruence.
  - apply lookup_lt_Some in Hk. rewrite (threads_length Jobs.redis_ok outcome at_moment act story_runs) in Hk. simpl in Hk. lia.
Qed.

Lemma events_read : events_go_on at_moment act.
Proof.
  intros n Hb. destruct (decide (n <= 7)) as [Hn|Hn]; [by exists 7|]. exfalso. apply Hb.
  rewrite (proj1 (later_same n ltac:(lia))). vm_compute. reflexivity.
Qed.

Lemma job_run : job_goes_on at_moment (job_id "a1").
Proof.
  intros n j _ _. exists (8 + n). split; [lia|]. unfold queue_at.
  rewrite (proj1 (later_same (8 + n) ltac:(lia))). vm_compute. discriminate.
Qed.

Lemma no_streams (n : nat) (ev : SyncEvents.hub_event) : act n = Streams ev -> SyncEvents.leaves_open 0 ev.
Proof.
  destruct (decide (8 <= n)) as [Hn|Hn]; [by rewrite (proj2 (later_same n Hn))|].
  destruct n as [|[|[|[|[|[|[|[|n]]]]]]]]; [| | | | | | | |lia]; done.
Qed.
End Story.

Lemma request_reaches_page_witness :
  exists m kind text,
    SyncEvents.st_text <$> sy_hub (Story.at_moment m) !! 0 = Some text /\
    exists earlier l, SyncEvents.consume "" [text] = Ok l /\
      List.filter SyncEvents.noticed l =
        earlier ++ [SyncEvents.notice (SyncEvents.mkSyncEvent "a1" kind)].
Proof.
  destruct (request_reaches_page Jobs.redis_ok Story.outcome Story.at_moment Story.act Story.story_runs Jobs.requests
    (Some (mkRequestStore "r1")) "a1" manual ∅ 0 ["a1"]) as (e & m & kind & job & text & _ & _ & _ & _ & _ & Htext & Hall).
  - reflexivity.
  - right. left.
  - reflexivity.
  - reflexivity.
  - left.
  - exact Story.no_streams.
  - exact Story.succeed.
  - exact Story.go_on.
  - exact Story.job_run.
  - exact Story.events_read.
  - exists m, kind, text. split; [exact Htext|]. exact (Hall [text] eq_refl).
Defined.
