(* ===== verification/Routes.v ===== *)
(** * The routes of email-ingestion

    [services/email-ingestion]: [accounts/accounts.controller.ts],
    [messages/messages.controller.ts], [oauth/oauth.controller.ts] and
    [app.controller.ts] as one table of routes over the state the services of the
    process share: the tables and the bucket, the queue, the redeemed states and the
    open event streams.  What Express and Nest do with such a table (matching a path,
    guards before pipes before the handler, exceptions to statuses) is stated where it
    is used. *)

From S2P Require Import Prelude Js Base64 Concurrency World Json RefreshTokens Gateway Mail Accounts MailSync Messages.
From S2P Require Import OAuthState SyncEvents Logging AuthGuard Startup Queue Ownership.
From Stdlib Require Import QArith Qminmax.

Local Open Scope Z_scope.

Set Default Proof Using "Type*".

(** ** The state of the process *)

Record service (TA TM Q : Type) := mkService {
  sv_mail : mail_db TA TM;
  sv_queue : Q;
  sv_redeemed : gmap string QArith_base.Q;
  sv_hub : gmap nat stream;
}.

Arguments mkService {TA TM Q} _ _ _ _.
Arguments sv_mail {TA TM Q} _.
Arguments sv_queue {TA TM Q} _.
Arguments sv_redeemed {TA TM Q} _.
Arguments sv_hub {TA TM Q} _.

(** ** Requests and answers *)

(** A request as Express parses it: the decoded segments of the path, the query (no
    name of which is repeated), what the guard reads, the request id of its
    asynchronous context, and the identity of its response. *)
Record serviceRequest := mkServiceRequest {
  q_method : string;
  q_segments : list string;
  q_query : list (string * string);
  q_http : httpRequest;
  q_storage : context;
  q_response : nat;
}.

Inductive answer :=
| AHealth (h : health)
| AAccounts (l : list MailAccountSummary)
| AStream                                        (* the response is the event stream *)
| APreview (p : Preview)
| ASync (r : Queue.SyncRequestResult)
| APage (p : MessagePage)
| ADetail (d : MessageDetail)
| ARaw (head : list (string * string)) (body : string)
| AAuthorize (authorizationUrl : string)
| AConnected (c : Connected).

(** ** Paths *)

Inductive seg := Lit (s : string) | Param (name : string).

Abbreviation params := (list (string * string)).

(** Express matches words whatever their case, and allows one slash at the end. *)
Fixpoint match_path (pattern : list seg) (segs : list string) : option params :=
  match pattern, segs with
  | [], [] | [], [""] => Some []
  | Lit s :: pattern', w :: segs' =>
      if bool_decide (to_lower w = to_lower s) then match_path pattern' segs' else None
  | Param n :: pattern', w :: segs' =>
      if truthy w then cons (n, w) <$> match_path pattern' segs' else None
  | _, _ => None
  end.

Definition lookup_param (name : string) (ps : params) : option string :=
  snd <$> List.find (fun p => bool_decide (p.1 = name)) ps.

(** [Number(x)] *)
Inductive number := NaN | Infinity (negative : bool) | Finite (q : QArith_base.Q).

(** [Math.min(Math.max(Number(limit) || 25, 1), 100)] *)
Definition clamped (n : number) : QArith_base.Q :=
  match n with
  | NaN => 25
  | Infinity negative => if negative then 1 else 100
  | Finite q => Qmin (Qmax (if Qeq_bool q 0 then 25 else q) 1) 100
  end.

Section Routes.
Context {TA TM Q : Type} `{Table MailAccount TA} `{Table Message TM} `{JobQueue Q} `{Cipher} `{JwtService}.
(** The services: the secret of the states, the sources of randomness, whether the
    object store and Redis answer, S3 on the bucket, the adapters. *)
Context (hmac : string -> string) (randomBytes randomUUID : nat -> string).
Context (storage_ok redis_ok : nat -> bool) (head_bucket : nat -> result exn unit) (bucket : string).
Context (reg : registry (mail_db TA TM)) (options : AuthLibOptions).
(** The test of [ParseUUIDPipe], and [Number] of a text. *)
Context (isUUID : string -> bool) (Number_of : string -> number).

Abbreviation S := (service TA TM Q).
Abbreviation W := (world S).
Abbreviation M := (io W exn).

(** *** The parts of the state *)

Definition mail_view (w : W) : world (mail_db TA TM) :=
  mkWorld (sv_mail (data w)) (clock w) (draws w) (db_up w) (calls w).

Definition mail_put (m : world (mail_db TA TM)) (w : W) : W :=
  mkWorld (mkService (data m) (sv_queue (data w)) (sv_redeemed (data w)) (sv_hub (data w)))
    (clock m) (draws m) (db_up m) (calls m).

Definition queue_view (w : W) : world (ingestion TA Q) :=
  mkWorld (mkIngestion (mailAccount (sv_mail (data w))) (sv_queue (data w)))
    (clock w) (draws w) (db_up w) (calls w).

Definition queue_put (m : world (ingestion TA Q)) (w : W) : W :=
  mkWorld (mkService (mkMailDb (accounts_table (data m)) (messages (sv_mail (data w))) (objects (sv_mail (data w))))
             (queue (data m)) (sv_redeemed (data w)) (sv_hub (data w)))
    (clock m) (draws m) (db_up m) (calls m).

Definition at_mail {A} (p : io (world (mail_db TA TM)) exn A) : M A := zoom mail_view mail_put p.

Definition at_queue {A} (p : io (world (ingestion TA Q)) exn A) : M A := zoom queue_view queue_put p.

(** *** What a handler is given *)

(** What a handler makes of [user.id] when it is not a text: Prisma refuses one that
    is there and drops the condition on one that is not. *)
Context (unidentified : forall A, option json -> M A).

Definition for_user {A} (current : option requestUser) (handler : string -> M A) : M A :=
  match current with
  | Some u => match user_id u with
              | Some (JStr i) => handler i
              | other => unidentified A other
              end
  | None => throw (TypeError "Cannot read properties of undefined (reading 'id')")
  end.

Definition bad_uuid : exn := BadRequestException "Validation failed (uuid is expected)".

(** [@Param(name, ParseUUIDPipe)]; the path has the parameter. *)
Definition uuid_param (name : string) (ps : params) : result exn string :=
  let value := default "" (lookup_param name ps) in
  if isUUID value then Ok value else Err bad_uuid.

(** [@Query(name, new ParseUUIDPipe({ optional: true }))] *)
Definition optional_uuid (name : string) (query : params) : result exn (option string) :=
  match lookup_param name query with
  | None => Ok None
  | Some value => if isUUID value then Ok (Some value) else Err bad_uuid
  end.

(** *** The controllers *)

Definition list_accounts (current : option requestUser) : M answer :=
  for_user current (fun u => let! l := at_mail (listForUser u) in ret (AAccounts l)).

(** The stream of a response is opened in one go once the accounts are known. *)
Definition account_events (response : nat) (current : option requestUser) : M answer :=
  for_user current (fun u =>
    let! l := at_mail (listForUser u) in
    modify (fun w => mkWorld (mkService (sv_mail (data w)) (sv_queue (data w)) (sv_redeemed (data w))
                                (hub_step (sv_hub (data w)) (Opens response (List.map sm_id l))))
                       (clock w) (draws w) (db_up w) (calls w)) ;!
    ret AStream).

Definition preview_account (ps : params) (current : option requestUser) : M answer :=
  let! i := of_result (uuid_param "id" ps) in
  for_user current (fun u => let! p := at_mail (preview reg u i) in ret (APreview p)).

Definition sync_account (storage : context) (ps : params) (current : option requestUser) : M answer :=
  let! i := of_result (uuid_param "id" ps) in
  for_user current (fun u => let! r := at_queue (requestSync redis_ok storage u i) in ret (ASync r)).

(** [listForAccount(user.id, accountId, cursor, take)]: Prisma refuses to take a
    number that is not whole, once the account is found. *)
Definition list_messages (ps query : params) (current : option requestUser) : M answer :=
  let! i := of_result (uuid_param "accountId" ps) in
  let! cursor := of_result (optional_uuid "cursor" query) in
  let limit := Qred (clamped (default NaN (Number_of <$> lookup_param "limit" query))) in
  for_user current (fun u =>
    if decide (Qden limit = 1%positive) then
      let! p := at_mail (listForAccount u i cursor (Z.to_nat (Qnum limit))) in ret (APage p)
    else
      let! account := at_mail (owned_account u i) in
      match account with
      | None => throw (NotFoundException "Account not found")
      | Some _ => throw (Error "PrismaClientValidationError")
      end).

Definition get_message (ps : params) (current : option requestUser) : M answer :=
  let! i := of_result (uuid_param "accountId" ps) in
  let! j := of_result (uuid_param "messageId" ps) in
  for_user current (fun u => let! d := at_mail (getForAccount storage_ok u i j) in ret (ADetail d)).

Definition raw_message (ps : params) (current : option requestUser) : M answer :=
  let! i := of_result (uuid_param "accountId" ps) in
  let! j := of_result (uuid_param "messageId" ps) in
  for_user current (fun u => let! (head, body) := at_mail (raw_route storage_ok u i j) in ret (ARaw head body)).

Definition authorize_route (ps : params) (current : option requestUser) : M answer :=
  for_user current (fun u =>
    let! url := at_mail (authorize hmac randomBytes reg (default "" (lookup_param "provider" ps)) u) in
    ret (AAuthorize url)).

(** What [callback] does before its first [await], the adapter being known: the user
    of the state, and the code. *)
Definition redeem (provider : MailProvider) (query : params) (nowMs : Z) (redeemed : gmap string QArith_base.Q) :
  result exn (string * string) * gmap string QArith_base.Q :=
  let code := query_param "code" query in
  let state := query_param "state" query in
  let error := query_param "error" query in
  if truthy error then
    (Err (BadRequestException (provider_name provider +:+ " declined the request: " +:+ error)), redeemed)
  else if negb (truthy code && truthy state)
  then (Err (BadRequestException "Missing code or state"), redeemed)
  else match OAuthState.verify hmac nowMs redeemed state with
       | (Err e, redeemed') => (Err e, redeemed')
       | (Ok userId, redeemed') => (Ok (userId, code), redeemed')
       end.

Definition callback_route (ps query : params) : M answer :=
  match resolve reg (default "" (lookup_param "provider" ps)) with
  | Err e => throw e
  | Ok (provider, adapter) =>
      let! (userId, code) := perform (fun w =>
        let '(r, redeemed') := redeem provider query (clock w) (sv_redeemed (data w)) in
        (r, mkWorld (mkService (sv_mail (data w)) (sv_queue (data w)) redeemed' (sv_hub (data w)))
              (clock w) (draws w) (db_up w) (calls w))) in
      let! c := at_mail (connect_code randomUUID reg adapter provider userId code query) in
      ret (AConnected c)
  end.

Definition health_route : M answer :=
  let! h := at_mail (checkHealth head_bucket bucket) in ret (AHealth h).

(** *** The table *)

Record route := mkRoute {
  r_method : string;
  r_pattern : list seg;
  r_guarded : bool;                       (* [@UseGuards(JwtAuthGuard)] *)
  r_code : Z;                             (* [@HttpCode], or the default of the method *)
  r_handler : serviceRequest -> params -> option requestUser -> M answer;
}.

Definition ingestion_routes : list route := [
  mkRoute "GET" [Lit "health"] false 200 (fun _ _ _ => health_route);
  mkRoute "GET" [Lit "accounts"] true 200 (fun _ _ => list_accounts);
  mkRoute "GET" [Lit "accounts"; Lit "events"] true 200 (fun rq _ => account_events (q_response rq));
  mkRoute "POST" [Lit "accounts"; Param "id"; Lit "preview"] true 201 (fun _ ps => preview_account ps);
  mkRoute "POST" [Lit "accounts"; Param "id"; Lit "sync"] true 202 (fun rq ps => sync_account (q_storage rq) ps);
  mkRoute "GET" [Lit "oauth"; Param "provider"; Lit "authorize"] true 200 (fun _ ps => authorize_route ps);
  mkRoute "GET" [Lit "oauth"; Param "provider"; Lit "callback"] false 200
    (fun rq ps _ => callback_route ps (q_query rq));
  mkRoute "GET" [Lit "accounts"; Param "accountId"; Lit "messages"] true 200
    (fun rq ps => list_messages ps (q_query rq));
  mkRoute "GET" [Lit "accounts"; Param "accountId"; Lit "messages"; Param "messageId"] true 200
    (fun _ ps => get_message ps);
  mkRoute "GET" [Lit "accounts"; Param "accountId"; Lit "messages"; Param "messageId"; Lit "raw"] true 200
    (fun _ ps => raw_message ps)].

(** The first route that matches. *)
Fixpoint find_route (table : list route) (rq : serviceRequest) : option (route * params) :=
  match table with
  | [] => None
  | r :: table' =>
      match (if bool_decide (q_method rq = r_method r) then match_path (r_pattern r) (q_segments rq) else None) with
      | Some ps => Some (r, ps)
      | None => find_route table' rq
      end
  end.

(** The status and the answer of a request, or what is thrown. *)
Definition serve_route (rq : serviceRequest) (r : route) (ps : params) : M (Z * answer) :=
  let! a := (if r_guarded r then guarded options (q_http rq) (r_handler r rq ps) else r_handler r rq ps None) in
  ret (r_code r, a).

Definition serve (rq : serviceRequest) : M (Z * answer) :=
  match find_route ingestion_routes rq with
  | Some (r, ps) => serve_route rq r ps
  | None => throw (NotFoundException ("Cannot " +:+ q_method rq +:+ " /" +:+ str_join "/" (q_segments rq)))
  end.
End Routes.

#[export] Instance mail_lens {TA TM Q} : Lens (mail_view (TA := TA) (TM := TM) (Q := Q)) mail_put.
Proof.
  split.
  - by intros [m c d u k] t.
  - by intros [[m q r h] c d u k].
  - done.
Qed.

#[export] Instance queue_lens {TA TM Q} : Lens (queue_view (TA := TA) (TM := TM) (Q := Q)) queue_put.
Proof.
  split.
  - by intros [[a q] c d u k] t.
  - by intros [[[a m o] q r h] c d u k].
  - done.
Qed.

(** ** The queue, on behalf of a user *)

Section QueueSteps.
Context {TA Q : Type} `{Table MailAccount TA} `{JobQueueLaws Q}.
Context (redis_ok : nat -> bool) (speaks : string -> Prop).

Abbreviation W := (world (ingestion TA Q)).
Abbreviation owners w := (rows (accounts_table (data w))).

Definition queue_steady (w w' : W) : Prop := keeps_owners (owners w) (owners w').

(** The accounts stay, and so do the jobs of accounts of others. *)
Definition queue_spares (w w' : W) : Prop :=
  accounts_table (data w') = accounts_table (data w) /\
  forall a, a ∈ owners w -> ~ speaks (ma_userId a) ->
    find_job (job_id (ma_id a)) (queue (data w')) = find_job (job_id (ma_id a)) (queue (data w)).

Abbreviation ok p := (rg queue_steady queue_spares p (fun _ _ => True)).

Lemma queue_spares_steady (w w' : W) : queue_spares w w' -> queue_spares w w' /\ rtc queue_steady w w'.
Proof. intros Hw. split; [done|]. apply rtc_once. unfold queue_steady. by rewrite (proj1 Hw). Qed.

(** A command on the job of an account of [u]. *)
Lemma ok_redis {X} (u i name : string) (args : list string) (op : Q -> result exn X * Q) (w : W) :
  speaks u -> (forall q k, k <> job_id i -> find_job k (op q).2 = find_job k q) ->
  owner_of u i (owners w) -> ok (redis redis_ok name args op) w.
Proof.
  intros Hu Hop Ho. apply rg_perform. intros w1 Hw1. split; [|done]. apply queue_spares_steady.
  apply (rtc_stable queue_steady (fun w => owner_of u i (owners w)) w w1) in Hw1;
    [|intros x y; apply owner_of_stable|done].
  destruct (redis_ok _); [|by split]. destruct (op (queue (data w1))) as [r q] eqn:E. split; [done|].
  intros a Ha Hno. simpl. change q with (r, q).2. rewrite <- E. apply Hop. intros Ei%job_id_inj.
  apply Hno. by rewrite (owner_of_all u i _ a Hw1 Ha Ei).
Qed.

Lemma ok_bind_owner_queue {A B} (u i : string) (m : io W exn A) (f : A -> io W exn B) (w : W) :
  owner_of u i (owners w) -> ok m w -> (forall a w', owner_of u i (owners w') -> ok (f a) w') ->
  ok (io_bind m f) w.
Proof.
  intros Ho Hm Hf. apply (rg_bind_stable queue_steady queue_spares (fun w => owner_of u i (owners w))); try done.
  intros s s'. apply owner_of_stable.
Qed.

Lemma ok_add_sync (storage : context) (u i : string) (reason : sync_reason) (w : W) :
  speaks u -> owner_of u i (owners w) -> ok (add_sync redis_ok storage i reason) w.
Proof.
  intros Hu Ho. apply (ok_bind_owner_queue u i); [done| |by intros _ w' _].
  apply (ok_redis u i); [done| |done]. intros q k Hk. cbn [snd].
  destruct (find_job (job_id i) q) eqn:E; [eapply add_taken|eapply add_free]; try exact Hk; by rewrite ?E.
Qed.

Lemma ok_enqueue (storage : context) (u i : string) (reason : sync_reason) (w : W) :
  speaks u -> owner_of u i (owners w) -> ok (enqueueAccountSync redis_ok storage i reason) w.
Proof.
  intros Hu Ho. apply (ok_bind_owner_queue u i); [done|by apply (ok_redis u i)|].
  clear w Ho. intros [j|] w Ho; [|by apply (ok_add_sync _ u)].
  apply (ok_bind_owner_queue u i); [done|by apply (ok_redis u i)|]. clear w Ho. intros st w Ho.
  destruct (pending_state st); [done|].
  apply (ok_bind_owner_queue u i); [done| |intros _ w' Hw'; by apply (ok_add_sync _ u)].
  apply (ok_redis u i); [done| |done]. intros q k Hk.
  destruct (remove_cases (job_id i) q) as [[e ->]|(q' & -> & _ & Hk')]; [done|by apply Hk'].
Qed.

Lemma ok_requestSync (storage : context) (u i : string) (w : W) `{!TableLaws MailAccount TA} :
  speaks u -> NoDup (List.map ma_id (owners w)) -> ok (requestSync redis_ok storage u i) w.
Proof.
  intros Hu Hnd. apply rg_bind, rg_perform. intros w1 Hw1.
  apply (rtc_stable queue_steady (fun w => NoDup (List.map ma_id (owners w))) w w1) in Hw1;
    [|intros x y Hxy; apply Hxy|done].
  split.
  { apply queue_spares_steady. by destruct (db_up w1). }
  intros w2 Hw2. destruct (db_up w1); [|done]. cbn [fst].
  destruct (findFirst _ _) as [a|] eqn:E; [|done]. cbn [snd] in Hw2.
  apply findFirst_Some in E as [Ha Hp]. apply andb_true_iff in Hp as [_ Hown%bool_decide_eq_true].
  apply (rtc_stable queue_steady (fun w => owner_of u (ma_id a) (owners w)) _ w2) in Hw2;
    [|intros x y; apply owner_of_stable|split; [done|by exists a]].
  apply (ok_bind_owner_queue u (ma_id a)); [done|by apply (ok_enqueue _ u)|].
  by intros [jobId alreadyQueued] w' _.
Qed.
End QueueSteps.

(** ** What a request changes *)

Section Isolated.
Context {TA TM Q : Type} `{Table MailAccount TA} `{Table Message TM} `{JobQueueLaws Q} `{Cipher} `{JwtService}
  `{!TableLaws MailAccount TA}.
Context (hmac : string -> string) (randomBytes randomUUID : nat -> string).
Context (storage_ok redis_ok : nat -> bool) (head_bucket : nat -> result exn unit) (bucket : string).
Context (reg : registry (mail_db TA TM)) (options : AuthLibOptions).
Context (isUUID : string -> bool) (Number_of : string -> number).

Abbreviation W := (world (service TA TM Q)).
Abbreviation M := (io W exn).
Context (unidentified : forall A, option json -> M A).

Abbreviation routes := (ingestion_routes hmac randomBytes randomUUID storage_ok redis_ok head_bucket bucket reg
  isUUID Number_of unidentified).
Abbreviation serve' := (serve hmac randomBytes randomUUID storage_ok redis_ok head_bucket bucket reg options
  isUUID Number_of unidentified).

(** The users a request speaks for: at a guarded route, who a token it bears names
    when it verifies; at another, who a state signed by the service names. *)
Definition bears_for (h : httpRequest) (v : string) : Prop :=
  exists now header token p, authorization h = Some header /\ bears header token /\
    verifyAsync (forRootAsync options) now token = Ok p /\ field_of "sub" p = Some (JStr v).

Definition state_for (query : list (string * string)) (v : string) : Prop :=
  exists c, claims_of (from_base64url (part 0 (query_param "state" query))) = Ok c /\ sc_userId c = v /\
    part 1 (query_param "state" query) = sign hmac (part 0 (query_param "state" query)).

Definition speaks (rq : serviceRequest) (v : string) : Prop :=
  match find_route routes rq with
  | Some (r, _) => if r_guarded r then bears_for (q_http rq) v else state_for (q_query rq) v
  | None => False
  end.

Definition accounts_in (w : W) : list MailAccount := rows (mailAccount (sv_mail (data w))).

Definition service_steady (w w' : W) : Prop := keeps_owners (accounts_in w) (accounts_in w').

(** A step of a request, of which [P] are the users it speaks for. *)
Record service_spares (P : string -> Prop) (response : nat) (w w' : W) : Prop := {
  sp_steady : service_steady w w';
  sp_messages : messages (sv_mail (data w')) = messages (sv_mail (data w));
  sp_objects : objects (sv_mail (data w')) = objects (sv_mail (data w));
  sp_accounts v : ~ P v -> same_for v (accounts_in w) (accounts_in w');
  sp_jobs a : a ∈ accounts_in w -> ~ P (ma_userId a) ->
    find_job (job_id (ma_id a)) (sv_queue (data w')) = find_job (job_id (ma_id a)) (sv_queue (data w));
  sp_streams n : n <> response -> sv_hub (data w') !! n = sv_hub (data w) !! n;
}.

Section Parts.
Context (P : string -> Prop) (response : nat).

Abbreviation ok p := (rg service_steady (service_spares P response) p (fun _ _ => True)).

Lemma spares_both (w w' : W) :
  service_spares P response w w' -> service_spares P response w w' /\ rtc service_steady w w'.
Proof. intros Hs. split; [done|]. apply rtc_once, Hs. Qed.

Lemma service_same (w w' : W) :
  sv_mail (data w') = sv_mail (data w) -> sv_queue (data w') = sv_queue (data w) ->
  (forall n, n <> response -> sv_hub (data w') !! n = sv_hub (data w) !! n) ->
  service_spares P response w w'.
Proof.
  intros Em Eq Eh. split; unfold service_steady, accounts_in; by rewrite ?Em, ?Eq.
Qed.

(** A program of the mail services. *)
Lemma ok_mail {A} (p : io (world (mail_db TA TM)) exn A) (w : W) :
  rg steady (spares P) p (fun _ _ => True) (mail_view w) -> ok (at_mail p) w.
Proof.
  intros Hp. apply (rg_zoom mail_view mail_put steady (spares P) _ _ p (fun _ _ => True)); [by intros t t'| |done].
  intros t s (Hst & Hm & Ho & Hv) _. apply spares_both. by split.
Qed.

(** A program of the queue services. *)
Lemma ok_queue {A} (p : io (world (ingestion TA Q)) exn A) (w : W) :
  rg queue_steady (queue_spares P) p (fun _ _ => True) (queue_view w) -> ok (at_queue p) w.
Proof.
  intros Hp.
  apply (rg_zoom queue_view queue_put queue_steady (queue_spares P) _ _ p (fun _ _ => True)); [by intros t t'| |done].
  intros t s (Ha & Hj) _. apply spares_both. cbn [queue_view data accounts_table] in Ha, Hj.
  split; unfold service_steady, accounts_in; cbn [queue_put data sv_mail sv_queue sv_hub mailAccount messages objects];
    by rewrite ?Ha.
Qed.

Lemma ok_then {A B} (m : M A) (f : A -> M B) (w : W) :
  ok m w -> (forall a w', ok (f a) w') -> ok (io_bind m f) w.
Proof. intros Hm Hf. by apply (rg_bind_stable _ _ (fun _ => True)). Qed.

Lemma ok_pipe {A B} (r : result exn A) (f : A -> M B) (w : W) :
  (forall a, ok (f a) w) -> ok (io_bind (of_result r) f) w.
Proof. intros Hf. destruct r as [a|e]; [apply Hf|done]. Qed.

Lemma ok_mail_same {A} (p : io (world (mail_db TA TM)) exn A) (w : W) :
  each_step (fun w w' => data w' = data w) p -> ok (at_mail p) w.
Proof. intros Hp. by apply ok_mail, ok_same. Qed.

Lemma ok_for_user {A} (current : option requestUser) (handler : string -> M A) (w : W) :
  (forall c, current = Some c -> exists u, user_id c = Some (JStr u) /\ P u) ->
  (forall u, P u -> ok (handler u) w) -> ok (for_user unidentified current handler) w.
Proof.
  intros Hc Hh. destruct current as [c|]; [|done]. destruct (Hc c eq_refl) as (u & E & Hu).
  simpl. rewrite E. by apply Hh.
Qed.

Lemma ok_opens (owned : list string) (w : W) :
  ok (modify (fun w => mkWorld (mkService (sv_mail (data w)) (sv_queue (data w)) (sv_redeemed (data w))
        (hub_step (sv_hub (data w)) (Opens response owned))) (clock w) (draws w) (db_up w) (calls w)) : M unit) w.
Proof.
  apply rg_perform. intros w1 _. split; [|done]. apply spares_both, service_same; [done..|].
  intros n Hn. simpl. by rewrite lookup_insert_ne.
Qed.
End Parts.

Lemma find_route_in (table : list (route (TA := TA) (TM := TM) (Q := Q))) (rq : serviceRequest) r ps :
  find_route table rq = Some (r, ps) -> r ∈ table.
Proof.
  induction table as [|r' table IH]; simpl; [done|]. destruct (if bool_decide _ then _ else None).
  - intros [= -> _]. by left.
  - intros Hf. right. by apply IH.
Qed.

(** ** What is behind the guard *)

(** C6: every route but the health check and the provider's callback is behind the
    guard, and a request to one of those that bears no token which verifies is refused
    before anything is read, written or called. *)
Theorem unauthorised_inert (rq : serviceRequest) (r : route) (ps : list (string * string)) (w : W) :
  find_route routes rq = Some (r, ps) ->
  r_pattern r <> [Lit "health"] -> r_pattern r <> [Lit "oauth"; Param "provider"; Lit "callback"] ->
  (forall header token p, authorization (q_http rq) = Some header -> bears header token ->
     verifyAsync (forRootAsync options) (clock w) token <> Ok p) ->
  exists m, run (serve' rq) w = (Err (UnauthorizedException m), w).
Proof.
  intros E Hh Hc Hno. unfold serve. rewrite E. apply find_route_in in E.
  assert (r_guarded r = true) as Hg.
  { unfold ingestion_routes in E.
    repeat (apply elem_of_cons in E as [->|E]; [first [reflexivity | by destruct Hh | by destruct Hc]|]).
    by apply not_elem_of_nil in E. }
  unfold serve_route. rewrite Hg, run_bind. unfold guarded. rewrite run_bind, run_Date_now.
  destruct (canActivate_cases options (clock w) (q_http rq)) as [(h & t & p & Hah & Hb & Hv & _)|(_ & m & ->)].
  - by destruct (Hno h t p Hah Hb).
  - exists m. by rewrite run_throw.
Qed.

(** ** The callback in one step more

    [callback_route] is [OAuthController.callback]: its first step does what the
    controller does before it awaits. *)
Lemma run_callback (ps query : list (string * string)) (w : W) :
  run (callback_route (Q := Q) hmac randomUUID reg ps query) w =
  let '(rest, redeemed') := OAuthState.callback hmac randomUUID reg (default "" (lookup_param "provider" ps)) query
                              (clock w) (sv_redeemed (data w)) in
  run (let! c := at_mail rest in ret (AConnected c))
    (mkWorld (mkService (sv_mail (data w)) (sv_queue (data w)) redeemed' (sv_hub (data w)))
       (clock w) (draws w) (db_up w) (calls w)).
Proof.
  assert (mkWorld (mkService (sv_mail (data w)) (sv_queue (data w)) (sv_redeemed (data w)) (sv_hub (data w)))
       (clock w) (draws w) (db_up w) (calls w) = w) as Ew by (by destruct w as [[] ? ? ? ?]).
  unfold callback_route, OAuthState.callback. destruct (resolve reg _) as [[p a]|e]; [|by rewrite Ew].
  rewrite run_bind, run_perform. unfold redeem. cbv zeta.
  destruct (truthy (query_param "error" query)); [done|]. destruct (negb _); [done|].
  destruct (OAuthState.verify _ _ _ _) as [[u|e] redeemed']; [|done]. done.
Qed.
(** ** Whom a request may touch *)

(** Every adapter keeps its contract, and the tokens that verify name a user. *)
Context (lawful : forall p a, Mail.get reg p = Ok a -> AdapterLaws a).
Context (subjects : forall now t p, verifyAsync (forRootAsync options) now t = Ok p ->
  exists u, field_of "sub" p = Some (JStr u)).

Lemma steady_ids (w w' : W) : service_steady w w' ->
  NoDup (List.map ma_id (accounts_in w)) -> NoDup (List.map ma_id (accounts_in w')).
Proof. intros Hw. apply Hw. Qed.

(** The handlers of the guarded routes. *)
Lemma ok_handlers (rq : serviceRequest) (r : route) (ps : list (string * string)) (current : option requestUser)
    (P : string -> Prop) (w : W) :
  r ∈ routes -> r_guarded r = true ->
  (forall c, current = Some c -> exists u, user_id c = Some (JStr u) /\ P u) ->
  NoDup (List.map ma_id (accounts_in w)) ->
  rg service_steady (service_spares P (q_response rq)) (r_handler r rq ps current) (fun _ _ => True) w.
Proof.
  intros Hr Hg Hc Hnd. unfold ingestion_routes in Hr.
  repeat (apply elem_of_cons in Hr as [->|Hr]; [try discriminate Hg; clear Hg; cbn [r_handler]|]);
    [..|by apply not_elem_of_nil in Hr].
  - apply ok_for_user; [done|]. intros u Hu. apply ok_then; [|done]. apply ok_mail_same. auto with same.
  - apply ok_for_user; [done|]. intros u Hu. apply ok_then; [apply ok_mail_same; auto with same|].
    intros l w'. apply ok_then; [apply ok_opens|done].
  - apply ok_pipe. intros i. apply ok_for_user; [done|]. intros u Hu. apply ok_then; [|done].
    by apply ok_mail, ok_preview.
  - apply ok_pipe. intros i. apply ok_for_user; [done|]. intros u Hu. apply ok_then; [|done].
    by apply ok_queue, ok_requestSync.
  - apply ok_for_user; [done|]. intros u Hu. apply ok_then; [|done]. apply ok_mail_same. auto with same.
  - apply ok_pipe. intros i. apply ok_pipe. intros cursor. apply ok_for_user; [done|]. intros u Hu.
    case_decide; (apply ok_then; [apply ok_mail_same; auto with same|by try intros [a|]]).
  - apply ok_pipe. intros i. apply ok_pipe. intros j. apply ok_for_user; [done|]. intros u Hu.
    apply ok_then; [|done]. apply ok_mail_same. auto with same.
  - apply ok_pipe. intros i. apply ok_pipe. intros j. apply ok_for_user; [done|]. intros u Hu.
    apply ok_then; [apply ok_mail_same; auto with same|]. by intros [head body] w'.
Qed.

Lemma ok_guarded (rq : serviceRequest) (r : route) (ps : list (string * string)) (w : W) :
  r ∈ routes -> r_guarded r = true -> NoDup (List.map ma_id (accounts_in w)) ->
  rg service_steady (service_spares (bears_for (q_http rq)) (q_response rq))
    (guarded options (q_http rq) (r_handler r rq ps)) (fun _ _ => True) w.
Proof.
  intros Hr Hg Hnd. unfold guarded.
  apply (rg_bind_stable _ _ (fun w => NoDup (List.map ma_id (accounts_in w))));
    [intros x y; apply steady_ids|done| |].
  { apply rg_perform. intros w1 _. split; [|done]. by apply spares_both, service_same. }
  clear w Hnd. intros now w Hnd.
  destruct (canActivate_cases options now (q_http rq)) as [(h & t & p & Hh & Hb & Hv & _ & ->)|(_ & m & ->)]; [|done].
  apply ok_handlers; [done|done| |done]. intros c [= <-].
  destruct (subjects _ _ _ Hv) as [u Hu]. exists u. split; [done|]. by exists now, h, t, p.
Qed.

Lemma verify_signed (nowMs : Z) (redeemed redeemed' : gmap string QArith_base.Q) (state u : string) :
  OAuthState.verify hmac nowMs redeemed state = (Ok u, redeemed') ->
  exists c, claims_of (from_base64url (part 0 state)) = Ok c /\ sc_userId c = u /\
    part 1 state = sign hmac (part 0 state).
Proof.
  unfold OAuthState.verify. destruct (negb _); [done|]. case_bool_decide as Hs; [|done]. cbn [negb].
  destruct (claims_of _) as [c|e]; [|done]. destruct (expired _ _); [done|].
  destruct (forget _ _ !! _); intros [= <- _]. by exists c.
Qed.

Lemma redeem_speaks (provider : MailProvider) (query : list (string * string)) (nowMs : Z)
    (redeemed : gmap string QArith_base.Q) (u code : string) :
  (redeem hmac provider query nowMs redeemed).1 = Ok (u, code) -> state_for query u.
Proof.
  unfold redeem. destruct (truthy (query_param "error" query)); [done|]. destruct (negb _); [done|].
  destruct (OAuthState.verify _ _ _ _) as [[u'|e] redeemed'] eqn:E; [|done]. intros [= <- _].
  by eapply verify_signed.
Qed.

Lemma resolve_get (slug : string) (p : MailProvider) (a : MailProviderAdapter (mail_db TA TM)) :
  resolve reg slug = Ok (p, a) -> Mail.get reg p = Ok a.
Proof.
  unfold resolve, Mail.get. destruct (provider_of_key _) as [p'|]; [|done].
  destruct (lookup_adapter reg p') as [a'|] eqn:E; [|done]. intros [= -> ->]. by rewrite E.
Qed.

Lemma ok_callback (rq : serviceRequest) (ps : list (string * string)) (w : W) :
  rg service_steady (service_spares (state_for (q_query rq)) (q_response rq))
    (callback_route (Q := Q) hmac randomUUID reg ps (q_query rq)) (fun _ _ => True) w.
Proof.
  unfold callback_route. destruct (resolve reg _) as [[p a]|e] eqn:E; [|done]. apply resolve_get in E.
  apply rg_bind, rg_perform. intros w1 _.
  destruct (redeem hmac p (q_query rq) (clock w1) (sv_redeemed (data w1))) as [r redeemed'] eqn:Er.
  split; [by apply spares_both, service_same|]. intros w2 _. destruct r as [[u code]|e]; [|done].
  apply ok_then; [|done]. apply ok_mail, ok_connect_code; [done| |done].
  eapply (redeem_speaks p _ (clock w1) (sv_redeemed (data w1))). by rewrite Er.
Qed.

Lemma ok_serve (rq : serviceRequest) (w : W) :
  NoDup (List.map ma_id (accounts_in w)) ->
  rg service_steady (service_spares (speaks rq) (q_response rq)) (serve' rq) (fun _ _ => True) w.
Proof.
  intros Hnd. unfold serve, speaks, serve_route. destruct (find_route routes rq) as [[r ps]|] eqn:E; [|done].
  apply find_route_in in E. apply ok_then; [|done]. destruct (r_guarded r) eqn:Hg; [by apply ok_guarded|].
  unfold ingestion_routes in E.
  repeat (apply elem_of_cons in E as [->|E]; [try discriminate Hg; clear Hg; cbn [r_handler]|]);
    [..|by apply not_elem_of_nil in E].
  - apply ok_then; [|done]. apply ok_mail_same. auto with same.
  - apply ok_callback.
Qed.

Lemma pool_isolated (env : W -> W -> Prop) (rqs : list serviceRequest) (w : W) (c : config)
    (i : nat) (rq : serviceRequest) (p p' : prog W (result exn (Z * answer))) (w' : W) :
  (forall s s', env s s' -> service_steady s s') -> NoDup (List.map ma_id (accounts_in w)) ->
  rtc (cstep env) (List.map serve' rqs, w) c -> rqs !! i = Some rq -> c.1 !! i = Some p ->
  tstep p c.2 = Some (p', w') -> service_spares (speaks rq) (q_response rq) c.2 w'.
Proof.
  intros Henv Hnd Hreach Hi Hp Ht.
  destruct (pool_rg service_steady env
    (fun i => match rqs !! i with Some rq => service_spares (speaks rq) (q_response rq) | None => fun _ _ => True end)
    (fun _ _ _ => True) (List.map serve' rqs, w) c) as [_ Hall]; [| |done|].
  - intros s s' Hs. by apply rtc_once, Henv.
  - intros j q Hq. simpl in Hq. change (List.map serve' rqs) with (serve' <$> rqs) in Hq.
    rewrite list_lookup_fmap in Hq. destruct (rqs !! j) as [rq'|]; [|done]. injection Hq as <-. by apply ok_serve.
  - specialize (Hall i p Hp). simpl in Hall. rewrite Hi in Hall. by apply (rg_tstep _ _ _ _ _ _ _ Hall Ht).
Qed.


(** C1: any number of requests to the service at once, with workers between their
    steps: whatever a step of one of them does, the accounts of every user it does not
    speak for are as they were, and so are the jobs of those accounts, every message,
    every stored object and every stream but its own. *)
Theorem requests_isolated (env : W -> W -> Prop) (rqs : list serviceRequest) (w : W) (c : config)
    (i : nat) (rq : serviceRequest) (p p' : prog W (result exn (Z * answer))) (w' : W) :
  (forall s s', env s s' -> service_steady s s') -> NoDup (List.map ma_id (accounts_in w)) ->
  rtc (cstep env) (List.map serve' rqs, w) c -> rqs !! i = Some rq -> c.1 !! i = Some p ->
  tstep p c.2 = Some (p', w') -> service_spares (speaks rq) (q_response rq) c.2 w'.
Proof. apply pool_isolated. Qed.
End Isolated.

(** ** A concrete service *)

Module Desk.
Definition theirs : MailAccount :=
  mkMailAccount "a2" "u2" GMAIL "g2" "bob@gmail.com" ACTIVE "" 0 None ["read"] None None None None 0 0.

Definition S : Type := service (list MailAccount) (list Message) (gmap string Job).

Definition w0 : world S :=
  mkWorld (mkService (mkMailDb [Vault.box; theirs] [] ∅) ∅ ∅ ∅) 1000 0 true [].

Definition reg : registry Vault.db := Vault.registry_of (Error "x").

Definition unidentified (A : Type) (i : option json) : io (world S) exn A := throw (Error "PrismaClientValidationError").

Definition number_of (s : string) : number := match Providers.Number s with Some n => Finite (inject_Z n) | None => NaN end.

Definition serve (rq : serviceRequest) : io (world S) exn (Z * answer) :=
  Routes.serve (fun p => "mac:" +:+ p) Vault.uuid Vault.uuid (fun _ => true) (fun _ => true) (fun _ => Ok tt) "mail"
    reg Bearer.options (fun s => bool_decide (s <> "events")) number_of unidentified rq.

(** "Sync now" on the mailbox [a1] of the user of the token. *)
Definition sync (authorization : option string) : serviceRequest :=
  mkServiceRequest "POST" ["accounts"; "a1"; "sync"] [] (mkHttpRequest authorization None) None 0.

Lemma lawful (p : MailProvider) (a : MailProviderAdapter Vault.db) : Mail.get reg p = Ok a -> AdapterLaws a.
Proof. intros Ha. destruct p; [|discriminate]. injection Ha as <-. apply Vault.provider_laws. Qed.

Lemma subjects (now : Z) (t : string) (p : json) :
  verifyAsync (forRootAsync Bearer.options) now t = Ok p -> exists u, field_of "sub" p = Some (JStr u).
Proof. simpl. case_bool_decide; [|done]. intros [= <-]. by exists "u1". Qed.

Lemma desk_ids : NoDup (List.map ma_id (accounts_in w0)).
Proof. apply (bool_decide_unpack _). vm_compute. exact I. Qed.

(** The request has looked its account up and found no job of it; then it adds one. *)
Definition before_add : config := schedule [0; 0; 0]%nat ([serve (sync (Some "Bearer H.P.signed"))], w0).

Definition added : config := schedule [0]%nat before_add.
End Desk.

Lemma requests_isolated_witness :
  is_Some (sv_queue (data Desk.added.2) !! "sync-a1") /\
  sv_queue (data Desk.added.2) !! "sync-a2" = sv_queue (data Desk.before_add.2) !! "sync-a2" /\
  same_for "u2" (accounts_in Desk.before_add.2) (accounts_in Desk.added.2).
Proof.
  split; [apply (bool_decide_unpack _); vm_compute; exact I|].
  destruct (schedule_step 0 Desk.before_add) as (p & p' & w' & Hp & Ht & E); [vm_compute; reflexivity|].
  unfold Desk.added. rewrite E.
  cbn [snd].
  set (P := speaks (fun p => "mac:" +:+ p) Vault.uuid Vault.uuid (fun _ => true) (fun _ => true) (fun _ => Ok tt)
              "mail" Desk.reg Bearer.options (fun s => bool_decide (s <> "events")) Desk.number_of Desk.unidentified
              (Desk.sync (Some "Bearer H.P.signed"))).
  assert (Hno : ~ P "u2").
  { intros (now & h & t & q & _ & _ & Hv & Hu). simpl in Hv. case_bool_decide; [|discriminate].
    injection Hv as <-. discriminate Hu. }
  assert (Hs : service_spares P 0 Desk.before_add.2 w').
  { exact (requests_isolated (fun p => "mac:" +:+ p) Vault.uuid Vault.uuid (fun _ => true) (fun _ => true)
      (fun _ => Ok tt) "mail" Desk.reg Bearer.options (fun s => bool_decide (s <> "events")) Desk.number_of
      Desk.unidentified Desk.lawful Desk.subjects (fun _ _ => False) [Desk.sync (Some "Bearer H.P.signed")] Desk.w0
      Desk.before_add 0 (Desk.sync (Some "Bearer H.P.signed")) p p' w'
      (fun s s' (F : False) => match F with end) Desk.desk_ids (schedule_reachable _ _ _) eq_refl Hp Ht). }
  split; [|by apply (sp_accounts _ _ _ _ Hs)].
  apply (sp_jobs _ _ _ _ Hs Desk.theirs); [|exact Hno].
  apply (bool_decide_unpack _). vm_compute. exact I.
Defined.

Lemma unauthorised_inert_witness :
  exists m, run (Desk.serve (Desk.sync (Some "Basic H.P.signed"))) Desk.w0 = (Err (UnauthorizedException m), Desk.w0).
Proof.
  eapply (unauthorised_inert (fun p => "mac:" +:+ p) Vault.uuid Vault.uuid (fun _ => true) (fun _ => true)
    (fun _ => Ok tt) "mail" Desk.reg Bearer.options (fun s => bool_decide (s <> "events")) Desk.number_of
    Desk.unidentified (Desk.sync (Some "Basic H.P.signed"))); [reflexivity|discriminate|discriminate|].
  intros h t p [= <-] Hb _.
  assert (extractBearerToken (q_http (Desk.sync (Some "Basic H.P.signed"))) = Some t /\ truthy t = true) as [E _]
    by (apply extract_iff; eauto).
  vm_compute in E. discriminate E.
Defined.
