(* ===== verification/UsersRoutes.v ===== *)
(** * The routes of user-management

    [services/user-management]: [auth/auth.controller.ts], [users/users.controller.ts]
    and [app.controller.ts] as one table, with what [main.ts] puts in front of it: the
    proxy it trusts and the validation of bodies. *)

From S2P Require Import Prelude Js World Concurrency Json RefreshTokens Auth AuthGuard Startup Routes.

Local Open Scope Z_scope.

Set Default Proof Using "Type*".

(** ** main.ts *)

(** [app.set('trust proxy', 1)] *)
Definition trust_proxy : nat := 1.

(** What Express makes of the address of a request ([req.ip], by proxy-addr): of the
    socket's address and the header [x-forwarded-for], when so many hops are trusted. *)
Class ProxyAddr := { proxyaddr : nat -> option string -> option string -> option string }.

(** A header with a single address, behind one trusted hop. *)
Class ProxyAddrLaws `{ProxyAddr} : Prop := {
  one_hop socket a : truthy a = true -> occurs ","%char a = false -> trim a = a ->
    proxyaddr 1 socket (Some a) = Some a;
}.

(** A request as Express parses it; a missing body is an object without fields. *)
Record usersRequest := mkUsersRequest {
  ur_method : string;
  ur_segments : list string;
  ur_body : list (string * json);
  ur_cookie : option string;
  ur_agent : option string;
  ur_socket : option string;
  ur_forwarded_for : option string;
  ur_http : httpRequest;
}.

(** A field of the body, as a DTO sees it: [null] is as good as missing to the one
    field that may be, and no text to the others. *)
Definition dto_field (name : string) (body : list (string * json)) : field :=
  match snd <$> List.find (fun f => bool_decide (f.1 = name)) body with
  | None => Missing
  | Some (JStr s) => Auth.Str s
  | Some _ => NotAString
  end.

Definition optional_field (name : string) (body : list (string * json)) : field :=
  match snd <$> List.find (fun f => bool_decide (f.1 = name)) body with
  | Some JNull => Missing
  | _ => dto_field name body
  end.

(** [ValidationPipe({ whitelist, forbidNonWhitelisted })]: a body with a field the
    DTO does not declare is refused. *)
Definition whitelisted (names : list string) (body : list (string * json)) : bool :=
  forallb (fun f => bool_decide (f.1 ∈ names)) body.

Definition validated {A} (names : list string) (body : list (string * json)) (dto : result exn A) : result exn A :=
  if whitelisted names body then dto else Err (BadRequestException "Bad Request").

Inductive usersAnswer :=
| UHealth (h : string * string * nat)
| UProfile (u : PublicUser)
| USession (s : Session)
| UNothing.

Section UsersRoutes.
Context {TU TR : Type} `{Table User TU} `{Table RefreshToken TR} `{JwtService} `{ProxyAddr}.
Context (sha256_hex : string -> string) (randomToken randomUUID : nat -> string).
Context (argon2_hash : nat -> string -> string) (argon2_verify : string -> string -> option bool).
Context (jwt_sign : UserRole -> string -> Z -> string).
Context (ttlDays accessTtl : Z) (production : bool) (decoyHash : string) (isEmail : string -> bool).
Context (options : AuthLibOptions).

Abbreviation um := (world (users_db TU TR)).
Abbreviation M := (io um exn).
(** A handler also leaves cookies on its answer, even when it throws. *)
Abbreviation answering A := (prog um (list cookie_op * result exn A)).

Definition ip (rq : usersRequest) : option string := proxyaddr trust_proxy (ur_socket rq) (ur_forwarded_for rq).

Definition plain {A} (m : M A) : answering A := pbind m (fun r => Done ([], r)).

Definition with_cookies (m : M (Session * list cookie_op)) : answering usersAnswer :=
  pbind m (fun r => match r with
                    | Ok (s, c) => Done (c, Ok (USession s))
                    | Err e => Done ([], Err e)
                    end).

(** The body goes through its pipe before the handler begins. *)
Definition piped {A B} (dto : result exn A) (handler : A -> answering B) : answering B :=
  match dto with Ok x => handler x | Err e => Done ([], Err e) end.

Definition register_dto (body : list (string * json)) : result exn Credentials :=
  validated ["email"; "password"] body
    (validate_register isEmail (dto_field "email" body) (dto_field "password" body)).

Definition login_dto (body : list (string * json)) : result exn Credentials :=
  validated ["email"; "password"] body
    (validate_login isEmail (dto_field "email" body) (dto_field "password" body)).

Definition refresh_dto (body : list (string * json)) : result exn (option string) :=
  validated ["refreshToken"] body (validate_refresh (optional_field "refreshToken" body)).

Definition register_handler (rq : usersRequest) : answering usersAnswer :=
  piped (register_dto (ur_body rq)) (fun dto =>
    plain (let! u := register randomUUID argon2_hash dto in ret (UProfile u))).

Definition login_handler (rq : usersRequest) : answering usersAnswer :=
  piped (login_dto (ur_body rq)) (fun dto =>
    with_cookies (login_route sha256_hex randomToken randomUUID argon2_verify jwt_sign ttlDays accessTtl production
                    decoyHash dto (ip rq) (ur_agent rq))).

Definition refresh_handler (rq : usersRequest) : answering usersAnswer :=
  piped (refresh_dto (ur_body rq)) (fun body =>
    with_cookies (refresh_route sha256_hex randomToken randomUUID jwt_sign ttlDays accessTtl production
                    body (ur_cookie rq) (ip rq) (ur_agent rq))).

Definition logout_handler (rq : usersRequest) : answering usersAnswer :=
  piped (refresh_dto (ur_body rq)) (fun body =>
    pbind (logout_route sha256_hex body (ur_cookie rq)) (fun r =>
      Done (r.1, match r.2 with Ok _ => Ok UNothing | Err e => Err e end))).

Definition me_handler (rq : usersRequest) : answering usersAnswer :=
  plain (let! u := guarded options (ur_http rq) me in ret (UProfile u)).

Definition users_health : answering usersAnswer := plain (let! h := users_checkHealth in ret (UHealth h)).

Record users_route := mkUsersRoute {
  us_method : string;
  us_pattern : list seg;
  us_code : Z;
  us_handler : usersRequest -> answering usersAnswer;
}.

Definition users_routes : list users_route := [
  mkUsersRoute "GET" [Lit "health"] 200 (fun _ => users_health);
  mkUsersRoute "GET" [Lit "users"; Lit "me"] 200 me_handler;
  mkUsersRoute "POST" [Lit "auth"; Lit "register"] 201 register_handler;
  mkUsersRoute "POST" [Lit "auth"; Lit "login"] 200 login_handler;
  mkUsersRoute "POST" [Lit "auth"; Lit "refresh"] 200 refresh_handler;
  mkUsersRoute "POST" [Lit "auth"; Lit "logout"] 204 logout_handler].

(** The cookies set, and the status and the answer or what is thrown. *)
Definition serve_users (rq : usersRequest) : answering (Z * usersAnswer) :=
  match List.find (fun r => bool_decide (ur_method rq = us_method r)
                            && (match match_path (us_pattern r) (ur_segments rq) with Some _ => true | None => false end))
          users_routes with
  | Some r => pbind (us_handler r rq) (fun x =>
      Done (x.1, match x.2 with Ok a => Ok (us_code r, a) | Err e => Err e end))
  | None => Done ([], Err (NotFoundException ("Cannot " +:+ ur_method rq +:+ " /" +:+ str_join "/" (ur_segments rq))))
  end.

(** ** The address a session records *)

Context `{!TableLaws User TU} `{!TableLaws RefreshToken TR}.

(** Every session of [w'] was in [w], under the same address, or records one of [P]. *)
Definition records (P : option string -> Prop) (w w' : um) : Prop :=
  forall r', r' ∈ tokens_of w' -> P (rt_ipAddress r') \/
    exists r, r ∈ tokens_of w /\ rt_id r = rt_id r' /\ rt_ipAddress r = rt_ipAddress r'.

Section Records.
Context (P : option string -> Prop).

Abbreviation steps p := (each_step (records P) p).
Abbreviation fit := (fun r => P (rt_ipAddress r)).

Lemma records_same (w w' : um) : refreshToken (data w') = refreshToken (data w) -> records P w w'.
Proof. unfold records, tokens_of. intros -> r Hr. right. by exists r. Qed.

Lemma records_refl (w : um) : records P w w.
Proof. by apply records_same. Qed.

Lemma records_trans (w1 w2 w3 : um) : records P w1 w2 -> records P w2 w3 -> records P w1 w3.
Proof.
  intros Hl Hr r3 Hr3. destruct (Hr r3 Hr3) as [Hp|(r2 & Hr2 & Hi & Ha)]; [by left|].
  destruct (Hl r2 Hr2) as [Hp|(r1 & Hr1 & Hi' & Ha')]; [left; by rewrite <- Ha|].
  right. exists r1. split; [done|]. split; congruence.
Qed.

#[local] Hint Resolve records_refl : core.

#[local] Instance records_keeps : Keeps fit (records P).
Proof.
  split.
  - intros w w' E _ _. apply records_same. by rewrite E.
  - intros p f w Hf r'. unfold tokens_of. cbn [set_tokens with_data data refreshToken]. rewrite elem_update.
    intros (r & Hr & ->). right. exists r. split; [done|]. destruct (p r); [|done]. by destruct (Hf r) as [-> _ _ _ -> _].
  - intros r w Hp _ _ _ r'. unfold tokens_of. cbn [set_tokens with_data data refreshToken]. rewrite elem_insert.
    intros [->|Hr]; [by left|]. right. by exists r'.
  - intros p w r'. unfold tokens_of. cbn [set_tokens with_data data refreshToken]. rewrite elem_delete.
    intros [Hr _]. right. by exists r'.
  - intros u w _. by apply records_same.
Qed.

Lemma records_cookies (m : M (Session * list cookie_op)) : steps m -> steps (with_cookies m).
Proof. intros Hm. apply each_step_pbind; [done|]. by intros [[s c]|e]. Qed.

Lemma records_serve (rq : usersRequest) : P (ip rq) -> steps (serve_users rq).
Proof.
  intros Hp. unfold serve_users. destruct (List.find _ _) as [r|] eqn:E; [|done].
  apply List.find_some in E as [Hr%list_elem_of_In _]. apply each_step_pbind; [|done]. unfold users_routes in Hr.
  repeat (apply elem_of_cons in Hr as [->|Hr]; [cbn [us_handler]|]); [..|by apply not_elem_of_nil in Hr].
  - apply each_step_pbind; [|done]. unfold users_checkHealth.
    assert (forall X (f : users_db TU TR -> result exn X), steps (query (fun d => (f d, d)) : M X)) as Hq.
    { intros X f. apply each_step_perform. intros w. destruct (db_up w); [|done]. by apply records_same. }
    apply each_step_bind; [|done]. apply each_step_bind; [apply Hq|]. intros x. apply each_step_bind; [apply Hq|done].
  - apply each_step_pbind; [|done]. apply each_step_bind; [|done]. unfold guarded.
    apply each_step_bind; [by apply step_Date_now|]. intros now. destruct (canActivate _ _ _) as [[[|]|e] h]; [|done..].
    unfold me. destruct (CurrentUser h) as [u|]; [|done]. destruct (user_id u) as [[]|]; try done.
    law (steps_getPublicProfile fit).
  - unfold register_handler, piped. destruct (register_dto _) as [dto|e]; [|done].
    apply each_step_pbind; [|done]. apply each_step_bind; [law (steps_register _ _ fit)|done].
  - unfold login_handler, piped. destruct (login_dto _) as [dto|e]; [|done].
    apply records_cookies, each_step_bind; [law (steps_login _ _ _ _ _ _ _ _ fit); by intros ? *|done].
  - unfold refresh_handler, piped. destruct (refresh_dto _) as [body|e]; [|done]. apply records_cookies.
    unfold refresh_route. case_match; [|done]. apply each_step_bind; [law (steps_refresh _ _ _ _ _ _ fit); by intros ? *|done].
  - unfold logout_handler, piped. destruct (refresh_dto _) as [body|e]; [|done].
    apply each_step_pbind; [|done]. apply each_step_pbind; [law (steps_logout _ fit)|done].
Qed.
End Records.

(** However requests interleave, and whatever else happens that creates no session, a
    session records the address of a request, or was there before. *)
Lemma served_records (env : um -> um -> Prop) (rqs : list usersRequest) (w : um) (c : config) :
  (forall s s', env s s' -> refreshToken (data s') = refreshToken (data s)) ->
  rtc (cstep env) (List.map serve_users rqs, w) c ->
  records (fun a => exists rq, rq ∈ rqs /\ ip rq = a) w c.2.
Proof.
  intros Henv Hreach. set (P := fun a => exists rq, rq ∈ rqs /\ ip rq = a).
  assert (rtc (records P) w c.2) as Hw.
  { apply (each_step_pool (records P) env (List.map serve_users rqs, w) c); [| |done].
    - intros s s' Hs. by apply records_same, Henv.
    - intros p Hp. simpl in Hp. apply list_elem_of_In, List.in_map_iff in Hp as (rq & <- & Hrq%list_elem_of_In).
      apply records_serve. by exists rq. }
  revert Hw. clear Hreach. clearbody P. generalize c.2. intros w2 Hw. induction Hw as [x|x y z Hxy _ IH]; [by apply records_same|by apply (records_trans P x y z)].
Qed.
End UsersRoutes.
