(* ===== verification/Views.v ===== *)
(** * What the web application renders

    [apps/web/src]: the elements [App.tsx], [auth/LoginForm.tsx],
    [components/AppShell.tsx], [components/ThemeToggle.tsx],
    [accounts/AccountsPanel.tsx], [messages/MessagesPanel.tsx] and
    [messages/MessageSheet.tsx] return, as trees.  A tree has the elements of the
    source in their order, with their properties but for styling ([className], [key],
    the variant of buttons, sizes, placement, [aria-hidden] of icons); a handler is the
    actions it takes, which WebApp gives their meaning. *)

From S2P Require Import Prelude Js World RefreshTokens Auth Mail Accounts Messages.

Set Default Proof Using "Type*".

(** What a handler does. *)
Inductive action :=
| SetEmail (value : string)
| SetPassword (value : string)
| SubmitLogin
| SignOut
| Select (accountId : string)
| RequestSync (accountId : string)
| OpenMessage (messageId : string)
| CloseMessage
| ResetDownload
| Download (accountId messageId : string)
| FetchNextPage
| ChooseTheme (value : string).

Inductive prop :=
| Str (s : string)
| Flag (b : bool)
| Num (z : Z)
| On (actions : list action)
| OnValue (f : string -> list action)     (* [event.target.value], or the chosen value *)
| OnOpenChange (f : bool -> list action)
| Elem (n : node)                         (* an element given to [render] *)
with node :=
| Text (s : string)
| El (tag : string) (props : list (string * prop)) (children : list node).

(** [{condition && element}] *)
Definition when (b : bool) (n : node) : list node := if b then [n] else [].

(** ** Queries and mutations, as TanStack Query hands them to a component *)

Inductive query_result (A : Type) :=
| Pending
| IsError (message : string)
| Success (data : A).
Arguments Pending {A}.
Arguments IsError {A} message.
Arguments Success {A} data.

(** A mutation: [variables] are those of the last call. *)
Inductive mutation (V A : Type) :=
| MIdle
| MPending (variables : V)
| MError (variables : V) (message : string)
| MSuccess (variables : V) (data : A).
Arguments MIdle {V A}.
Arguments MPending {V A} variables.
Arguments MError {V A} variables message.
Arguments MSuccess {V A} variables data.

(** The pages of an infinite query, whether there is a next one, and whether it is
    being fetched. *)
Record pages (A : Type) := mkPages {
  pg_pages : list A;
  hasNextPage : bool;
  isFetchingNextPage : bool;
}.
Arguments mkPages {A} _ _ _.
Arguments pg_pages {A} _.
Arguments hasNextPage {A} _.
Arguments isFetchingNextPage {A} _.

(** What [POST /accounts/:id/sync] answers, as far as the panel reads it. *)
Record SyncRequestResult := mkSyncRequestResult { sr_jobId : string; sr_alreadyQueued : bool }.

Section Views.
(** [new Date(x).toLocaleString(...)], with and without the panel's options. *)
Context (toLocaleShort toLocaleString : string -> string).

(** *** LoginForm.tsx *)

Record login_form := mkLoginForm {
  lf_email : string;
  lf_password : string;
  lf_error : option string;
  lf_pending : bool;
}.

Definition LoginForm (f : login_form) : node :=
  El "div" [] [El "Card" [] [
    El "CardHeader" [] [El "CardTitle" [] [Text "Sign in"];
      El "CardDescription" [] [Text "Use the account you registered with Finlytic."]];
    El "CardContent" [] [El "form" [("onSubmit", On [SubmitLogin])] ([
      El "div" [] [El "Label" [("htmlFor", Str "email")] [Text "Email"];
        El "Input" [("id", Str "email"); ("type", Str "email"); ("value", Str (lf_email f));
          ("required", Flag true); ("autoFocus", Flag true); ("autoComplete", Str "email");
          ("disabled", Flag (lf_pending f)); ("placeholder", Str "you@example.com");
          ("onChange", OnValue (fun v => [SetEmail v]))] []];
      El "div" [] [El "Label" [("htmlFor", Str "password")] [Text "Password"];
        El "Input" [("id", Str "password"); ("type", Str "password"); ("value", Str (lf_password f));
          ("required", Flag true); ("autoComplete", Str "current-password");
          ("disabled", Flag (lf_pending f)); ("onChange", OnValue (fun v => [SetPassword v]))] []];
      El "Button" [("type", Str "submit"); ("disabled", Flag (lf_pending f))]
        [Text (if lf_pending f then "Signing in…" else "Sign in")]] ++
      match lf_error f with
      | Some e => when (truthy e) (El "Alert" [("variant", Str "destructive")] [El "AlertTitle" [] [Text e]])
      | None => []
      end)]]].

(** *** ThemeToggle.tsx *)

Inductive ResolvedTheme := light | dark.

#[export] Instance ResolvedTheme_eq_dec : EqDecision ResolvedTheme.
Proof. solve_decision. Defined.

Inductive ThemePreference := prefer (t : ResolvedTheme) | system.

#[export] Instance ThemePreference_eq_dec : EqDecision ThemePreference.
Proof. solve_decision. Defined.

Definition theme_name (t : ResolvedTheme) : string := match t with light => "light" | dark => "dark" end.

Definition preference_name (p : ThemePreference) : string :=
  match p with prefer t => theme_name t | system => "system" end.

(** [preference === 'system' ? system : preference] *)
Definition resolved (p : ThemePreference) (os : ResolvedTheme) : ResolvedTheme :=
  match p with prefer t => t | system => os end.

Definition OPTIONS : list (ThemePreference * string * string) :=
  [(prefer light, "Light", "Sun"); (prefer dark, "Dark", "Moon"); (system, "System", "Monitor")].

Definition ThemeToggle (preference : ThemePreference) (os : ResolvedTheme) : node :=
  El "DropdownMenu" [] [
    El "DropdownMenuTrigger"
      [("render", Elem (El "Button" [("aria-label", Str ("Theme: " +:+ preference_name preference))] []))]
      [El (if decide (resolved preference os = dark) then "Moon" else "Sun") [] []];
    El "DropdownMenuContent" [] [
      El "DropdownMenuRadioGroup" [("value", Str (preference_name preference));
        ("onValueChange", OnValue (fun v => [ChooseTheme v]))]
        (List.map (fun o => El "DropdownMenuRadioItem" [("value", Str (preference_name o.1.1))]
           [El o.2 [] []; Text o.1.2]) OPTIONS)]].

(** *** AppShell.tsx *)

Definition AppShell (email role : string) (toggle : node) (children : list node) : node :=
  El "div" [] [
    El "header" [] [El "div" [] [
      El "div" [] [El "Mail" [] []; El "h1" [] [Text "Finlytic"]];
      El "div" [] [
        El "div" [] [El "p" [] [Text email]; El "p" [] [Text role]];
        toggle;
        El "Button" [("onClick", On [SignOut])] [El "LogOut" [] []; Text "Sign out"]]]];
    El "main" [] children].

(** *** AccountsPanel.tsx *)

Definition statusLabel (s : AccountStatus) : option string :=
  match s with ACTIVE => None | REAUTH_REQUIRED => Some "reconnect" | DISABLED => Some "disabled" end.

Definition statusVariant (s : AccountStatus) : string :=
  match s with ACTIVE => "default" | REAUTH_REQUIRED => "destructive" | DISABLED => "secondary" end.

Definition formatSyncedAt (value : option string) : string :=
  match value with
  | Some v => if truthy v then "synced " +:+ toLocaleShort v else "never synced"
  | None => "never synced"
  end.

(** [requestSync.isPending && requestSync.variables === account.id] *)
Definition syncing (m : mutation string SyncRequestResult) (id : string) : bool :=
  match m with MPending v => bool_decide (v = id) | _ => false end.

Definition queued (m : mutation string SyncRequestResult) (id : string) : bool :=
  match m with MSuccess v d => bool_decide (v = id) && sr_alreadyQueued d | _ => false end.

(** The two buttons of a row. *)
Definition select_button (selectedId : option string) (a : MailAccountSummary) : node :=
  El "button" [("type", Str "button"); ("aria-current", Flag (bool_decide (selectedId = Some (sm_id a))));
    ("onClick", On [Select (sm_id a)])] [
    El "div" [] (El "span" [] [Text (sm_emailAddress a)] ::
      match statusLabel (sm_status a) with
      | Some l => [El "Badge" [("variant", Str (statusVariant (sm_status a)))] [Text l]]
      | None => []
      end);
    El "p" [] [Text (to_lower (provider_name (sm_provider a)) +:+ " · " +:+ formatSyncedAt (sm_lastSyncedAt a))]].

Definition sync_button (m : mutation string SyncRequestResult) (a : MailAccountSummary) : node :=
  El "Button" [("aria-label", Str ("Sync " +:+ sm_emailAddress a));
    ("disabled", Flag (syncing m (sm_id a) || negb (bool_decide (sm_status a = ACTIVE))));
    ("onClick", On [RequestSync (sm_id a)])] [El "RefreshCw" [] []].

Definition account_row (selectedId : option string) (m : mutation string SyncRequestResult)
    (a : MailAccountSummary) : node :=
  El "div" [] (El "div" [] [select_button selectedId a; sync_button m a] ::
    when (queued m (sm_id a)) (El "p" [] [Text "already queued"])).

Definition AccountsPanel (accounts : query_result (list MailAccountSummary))
    (m : mutation string SyncRequestResult) (selectedId : option string) : node :=
  match accounts with
  | Pending => El "div" [] [El "Skeleton" [] []; El "Skeleton" [] []]
  | IsError e => El "Alert" [("variant", Str "destructive")]
      [El "AlertTitle" [] [Text "Could not load accounts"]; El "AlertDescription" [] [Text e]]
  | Success [] => El "Alert" [] [El "AlertTitle" [] [Text "No mailboxes connected"];
      El "AlertDescription" [] [Text "Visit "; El "code" [] [Text "/oauth/gmail/authorize"];
                                Text " in this tab to connect one."]]
  | Success l => El "Card" [] (List.map (account_row selectedId m) l)
  end.

(** *** MessageSheet.tsx *)

Definition or_else (a b : option string) (c : string) : string :=
  match a with Some x => x | None => match b with Some y => y | None => c end end.

Definition message_body (d : MessageDetail) : list node :=
  [El "div" [] (
    (match md_bodyText d with
     | Some t => if truthy t then El "pre" [] [Text t]
                 else El "p" [] [Text "No readable text body — the message may be HTML-only, or the stored object is missing."]
     | None => El "p" [] [Text "No readable text body — the message may be HTML-only, or the stored object is missing."]
     end) :: when (md_bodyTruncated d) (El "p" [] [Text "Truncated at 256 KB."]))].

Definition download_button (accountId messageId : string) (m : mutation (string * string) unit) : node :=
  let pending := match m with MPending _ => true | _ => false end in
  El "div" [] (El "Button" [("disabled", Flag pending); ("onClick", On [Download accountId messageId])]
      [Text (if pending then "Preparing…" else "Download original")] ::
    match m with MError _ e => [El "p" [] [Text e]] | _ => [] end).

Definition MessageSheet (accountId messageId : option string) (message : query_result MessageDetail)
    (download : mutation (string * string) unit) : node :=
  El "Sheet" [("open", Flag (match messageId with Some _ => true | None => false end));
    ("onOpenChange", OnOpenChange (fun open => if open then [] else [ResetDownload; CloseMessage]))]
    [El "SheetContent" [("side", Str "right")]
      (match message with
       | Pending => [El "div" [] [El "Skeleton" [] []; El "Skeleton" [] []]]
       | IsError e => [El "div" [] [El "Alert" [("variant", Str "destructive")] [El "AlertTitle" [] [Text e]]]]
       | Success d =>
           match accountId, messageId with
           | Some a, Some m =>
               if truthy a && truthy m then
                 [El "SheetHeader" [] [
                    El "SheetTitle" [] [Text (default "No subject" (ms_subject (md_summary d)))];
                    El "SheetDescription" [] [
                      Text (or_else (ms_fromName (md_summary d)) (ms_fromAddress (md_summary d)) "unknown");
                      Text " · "; Text (toLocaleString (ms_sentAt (md_summary d)))]];
                  El "p" [] [Text "to "; Text (default "—" (or_undefined (str_join ", " (md_toAddresses d))))];
                  download_button a m download] ++ message_body d
               else []
           | _, _ => []
           end
       end)].

(** *** MessagesPanel.tsx *)

Definition formatSender (name address : option string) : string := or_else name address "unknown sender".

Definition message_row (m : MessageSummary) : node :=
  El "button" [("type", Str "button"); ("onClick", On [OpenMessage (ms_id m)])] ([
    El "div" [] [El "span" [] [Text (formatSender (ms_fromName m) (ms_fromAddress m))];
                 El "time" [] [Text (toLocaleString (ms_sentAt m))]];
    El "p" [] ((match ms_subject m with Some s => Text s | None => El "span" [] [Text "no subject"] end) ::
               when (ms_hasAttachments m) (El "span" [] [Text "📎"]))] ++
    match ms_snippet m with Some s => when (truthy s) (El "p" [] [Text s]) | None => [] end).

(** [messages.data.pages.flatMap((page) => page.messages)] *)
Definition rows_of (ps : list MessagePage) : list MessageSummary := flat_map mp_messages ps.

Definition MessagesPanel (accountId : option string) (messages : query_result (pages MessagePage))
    (openMessageId : option string) (message : query_result MessageDetail)
    (download : mutation (string * string) unit) : node :=
  if otruthy accountId then
    match messages with
    | Pending => El "div" [] [El "Skeleton" [] []; El "Skeleton" [] []; El "Skeleton" [] []]
    | IsError e => El "Alert" [("variant", Str "destructive")] [El "AlertTitle" [] [Text e]]
    | Success p =>
        match rows_of (pg_pages p) with
        | [] => El "Alert" [] [El "AlertTitle" [] [Text "No messages ingested yet"]]
        | rows => El "div" [] ([El "Card" [] (List.map message_row rows);
            MessageSheet accountId openMessageId message download] ++
            when (hasNextPage p) (El "Button" [("disabled", Flag (isFetchingNextPage p));
              ("onClick", On [FetchNextPage])]
              [Text (if isFetchingNextPage p then "Loading…" else "Load more")]))
        end
    end
  else El "p" [] [Text "Select a mailbox to see its messages."].

(** *** App.tsx *)

Inductive AuthState := Loading | Anonymous | Authenticated (user : PublicUser).

Definition role_name (r : UserRole) : string := match r with USER => "USER" | ADMIN => "ADMIN" end.

Definition App (auth : AuthState) (form : login_form) (toggle accountsPanel messagesPanel : node) : node :=
  match auth with
  | Loading => El "div" [] [Text "Restoring session…"]
  | Anonymous => LoginForm form
  | Authenticated u =>
      AppShell (pu_email u) (role_name (pu_role u)) toggle [El "div" [] [
        El "aside" [] [El "div" [] [El "h2" [] [Text "Mailboxes"];
                                    El "p" [] [Text "Select one to read its messages."]];
                       accountsPanel];
        El "section" [] [El "div" [] [El "h2" [] [Text "Messages"];
                                      El "p" [] [Text "Newest first, paginated by cursor."]];
                         messagesPanel]]]
  end.
End Views.
