(* ===== verification/WebApp.v ===== *)
(** * The web application

    [apps/web/src]: [auth/AuthProvider.tsx] and [auth/auth-context.ts], the state of
    [App.tsx], [auth/LoginForm.tsx] and the panels, [accounts/queries.ts],
    [messages/queries.ts], [messages/download.ts], [theme.ts] and the state of
    [components/ThemeToggle.tsx].  Views has what is rendered; here is what the
    handlers do, what is asked of the services, and what a user can come to see.

    React keeps the state of a component while it stays mounted in its place: that
    of [App] for the life of the page, that of the login form and of the panels from
    the moment they are shown, that of [MessagesPanel] for one key. *)

From S2P Require Import Prelude Js Forms World Concurrency RefreshTokens Auth Mail Accounts MailSync Messages Views.
From S2P Require ApiClient Providers.

Local Open Scope nat_scope.

Set Default Proof Using "Type*".

(** ** Queries *)

(** A query of TanStack Query: its key, whether it is enabled, what it fetches. *)
Record fetch := mkFetch { f_method : string; f_url : string }.
Record query_options := mkQuery { q_key : list (option string); q_enabled : bool; q_fetch : result exn fetch }.

Definition is_some {X} (o : option X) : bool := match o with Some _ => true | None => false end.

Definition useAccounts : query_options :=
  mkQuery [Some "accounts"] true (Ok (mkFetch "GET" "/api/accounts")).

(** [useRequestSync]: the request of the mutation, and the key its success invalidates. *)
Definition requestSync_fetch (accountId : string) : fetch :=
  mkFetch "POST" ("/api/accounts/" +:+ accountId +:+ "/sync").

Definition requestSync_invalidates : list (option string) := [Some "accounts"].

(** The parameters of a page of messages. *)
Definition page_params (pageParam : option string) : list (string * string) :=
  ("limit", "25") :: match pageParam with
                     | Some c => if truthy c then [("cursor", c)] else []
                     | None => []
                     end.

(** [useMessages]: the query of one page. *)
Definition useMessages (accountId pageParam : option string) : query_options :=
  mkQuery [Some "messages"; accountId] (is_some accountId)
    (if otruthy accountId then
       Ok (mkFetch "GET" ("/api/accounts/" +:+ default "" accountId +:+ "/messages?" +:+
                          URLSearchParams (page_params pageParam)))
     else Err (Error "no account selected")).

Definition getNextPageParam (lastPage : MessagePage) : option string := mp_nextCursor lastPage.

Definition useMessage (accountId messageId : option string) : query_options :=
  mkQuery [Some "message"; accountId; messageId] (is_some accountId && is_some messageId)
    (if otruthy accountId && otruthy messageId then
       Ok (mkFetch "GET" ("/api/accounts/" +:+ default "" accountId +:+ "/messages/" +:+ default "" messageId))
     else Err (Error "nothing selected")).

(** ** download.ts *)

(** What is done to the document: an object URL is made of a body, a link is
    clicked, a revocation is scheduled for a later task. *)
Inductive effect :=
| CreateObjectURL (body url : string)
| ClickLink (href download : string)
| RevokeLater (url : string).

Definition raw_fetch (accountId messageId : string) : fetch :=
  mkFetch "GET" ("/api/accounts/" +:+ accountId +:+ "/messages/" +:+ messageId +:+ "/raw").

(** [downloadMessage], once [apiFetch] has settled; [url] is the object URL the
    browser would make, [json_body] of the answer what [response.blob()] resolves
    with. *)
Definition downloadMessage (url messageId : string) (answer : result exn (ApiClient.answer string)) :
  result exn unit * list effect :=
  match answer with
  | Err e => (Err e, [])
  | Ok response =>
      if negb (ApiClient.ok response) then
        (Err (Error (if Nat.eqb (ApiClient.status response) 404
                     then "The original message is no longer stored"
                     else "Could not download the original message")), [])
      else match ApiClient.json_body response with
           | Err e => (Err e, [])
           | Ok blob =>
               (Ok tt, [CreateObjectURL blob url; ClickLink url ("message-" +:+ messageId +:+ ".eml");
                        RevokeLater url])
           end
  end.

(** ** theme.ts and the state of ThemeToggle.tsx *)

(** [localStorage]: the stored value, [None] when any access throws. *)
Abbreviation storage := (option (option string)).

Definition storedPreference (s : storage) : ThemePreference :=
  match s with
  | Some (Some v) => if bool_decide (v = "light") then prefer light
                     else if bool_decide (v = "dark") then prefer dark else system
  | _ => system
  end.

Definition persistPreference (p : ThemePreference) (s : storage) : storage :=
  match s with Some _ => Some (Some (preference_name p)) | None => None end.

Definition systemTheme (prefersDark : bool) : ResolvedTheme := if prefersDark then dark else light.

(** The component, the [dark] class of the document, what the OS prefers and what is
    stored. *)
Record theme_state := mkTheme {
  th_preference : ThemePreference;
  th_system : ResolvedTheme;
  th_class_dark : bool;
  th_prefersDark : bool;
  th_storage : storage;
}.

Definition applyTheme (t : ResolvedTheme) (s : theme_state) : theme_state :=
  mkTheme (th_preference s) (th_system s) (bool_decide (t = dark)) (th_prefersDark s) (th_storage s).

(** The effect that follows a render. *)
Definition theme_effect (s : theme_state) : theme_state :=
  applyTheme (resolved (th_preference s) (th_system s)) s.

(** The component is mounted. *)
Definition theme_mount (prefersDark : bool) (st : storage) (class_ : bool) : theme_state :=
  theme_effect (mkTheme (storedPreference st) (systemTheme prefersDark) class_ prefersDark st).

(** The preference of the item that was chosen. *)
Definition item_preference (v : string) : option ThemePreference :=
  (fun o => o.1.1) <$> List.find (fun o => bool_decide (preference_name o.1.1 = v)) OPTIONS.

Inductive theme_event := ThemeChosen (v : string) | OsChanged (prefersDark : bool) | Reloaded.

Definition theme_step (s : theme_state) (ev : theme_event) : theme_state :=
  match ev with
  | ThemeChosen v =>
      match item_preference v with
      | Some next => theme_effect (mkTheme next (th_system s) (th_class_dark s) (th_prefersDark s)
                                     (persistPreference next (th_storage s)))
      | None => s
      end
  | OsChanged d => theme_effect (mkTheme (th_preference s) (systemTheme d) (th_class_dark s) d (th_storage s))
  | Reloaded => theme_mount (th_prefersDark s) (th_storage s) (th_class_dark s)
  end.

(** ** AuthProvider.tsx *)

(** What [refreshSession] and [login] resolve with, as far as it is read. *)
Record session := mkAppSession { ss_accessToken : string; ss_user : PublicUser }.

(** The [then] of the refresh on mount; a rejection is not handled. *)
Definition restored (r : result exn (option session)) (s : AuthState) : AuthState :=
  match r with
  | Ok (Some x) => Authenticated (ss_user x)
  | Ok None => Anonymous
  | Err _ => s
  end.

(** [signIn], once [login] has settled: the state, and what is thrown to the form. *)
Definition signIn (r : result exn session) (s : AuthState) : AuthState * result exn unit :=
  match r with
  | Ok x => (Authenticated (ss_user x), Ok tt)
  | Err e => (s, Err e)
  end.

(** [signOut], once [logout] has settled, over the keys the query cache holds. *)
Definition signOut (r : result exn unit) (s : AuthState) (cache : list (list (option string))) :
  AuthState * list (list (option string)) * result exn unit :=
  match r with
  | Ok _ => (Anonymous, [], Ok tt)
  | Err e => (s, cache, Err e)
  end.

(** [useAuth] outside of the provider. *)
Definition useAuth {V} (value : option V) : result exn V :=
  match value with
  | Some v => Ok v
  | None => Err (Error "useAuth must be used inside AuthProvider")
  end.

(** ** The page *)

Definition empty_form : login_form := mkLoginForm "" "" None false.

Record page := mkPage {
  pa_auth : AuthState;
  pa_form : login_form;
  pa_selected : option string;
  pa_open : option string;
  pa_cache : list (list (option string));
}.

(** What the components read of their queries and mutations. *)
Record queries := mkQueries {
  qs_accounts : query_result (list MailAccountSummary);
  qs_sync : mutation string SyncRequestResult;
  qs_messages : query_result (pages MessagePage);
  qs_message : query_result MessageDetail;
  qs_download : mutation (string * string) unit;
}.

Definition render (short long : string -> string) (th : theme_state) (q : queries) (p : page) : node :=
  App (pa_auth p) (pa_form p) (ThemeToggle (th_preference th) (th_system th))
    (AccountsPanel short (qs_accounts q) (qs_sync q) (pa_selected p))
    (MessagesPanel long (pa_selected p) (qs_messages q) (pa_open p) (qs_message q) (qs_download q)).

Inductive page_event :=
| RefreshSettled (r : result exn (option session))   (* of the effect on mount *)
| LoginSettled (r : result exn session)              (* of a submitted form *)
| LogoutSettled (r : result exn unit)
| Does (a : action)                                  (* a handler of the page *)
| Caches (key : list (option string)).               (* a query has its answer *)

(** The state of the components that a change of [auth] unmounts is lost. *)
Definition with_auth (s : AuthState) (p : page) : page :=
  match s with
  | Authenticated _ => mkPage s empty_form (pa_selected p)
      (match pa_auth p with Authenticated _ => pa_open p | _ => None end) (pa_cache p)
  | Anonymous => mkPage s (match pa_auth p with Anonymous => pa_form p | _ => empty_form end)
      (pa_selected p) None (pa_cache p)
  | Loading => mkPage s empty_form (pa_selected p) None (pa_cache p)
  end.

Definition with_form (f : login_form) (p : page) : page :=
  mkPage (pa_auth p) f (pa_selected p) (pa_open p) (pa_cache p).

(** The form's [onSubmit] and what follows its [signIn]. *)
Definition submitted (f : login_form) : login_form := mkLoginForm (lf_email f) (lf_password f) None true.

Definition login_settled (r : result exn unit) (f : login_form) : login_form :=
  mkLoginForm (lf_email f) (lf_password f)
    (match r with Ok _ => lf_error f | Err _ => Some "Invalid email or password" end) false.

Definition act (a : action) (p : page) : page :=
  match a with
  | SetEmail v => with_form (mkLoginForm v (lf_password (pa_form p)) (lf_error (pa_form p)) (lf_pending (pa_form p))) p
  | SetPassword v => with_form (mkLoginForm (lf_email (pa_form p)) v (lf_error (pa_form p)) (lf_pending (pa_form p))) p
  | SubmitLogin => with_form (submitted (pa_form p)) p
  | Select i => mkPage (pa_auth p) (pa_form p) (Some i)
      (if decide (pa_selected p = Some i) then pa_open p else None) (pa_cache p)
  | OpenMessage i => mkPage (pa_auth p) (pa_form p) (pa_selected p) (Some i) (pa_cache p)
  | CloseMessage => mkPage (pa_auth p) (pa_form p) (pa_selected p) None (pa_cache p)
  | SignOut | RequestSync _ | ResetDownload | Download _ _ | FetchNextPage | ChooseTheme _ => p
  end.

Definition page_step (p : page) (ev : page_event) : page :=
  match ev with
  | RefreshSettled r => with_auth (restored r (pa_auth p)) p
  | LoginSettled r =>
      let '(s, res) := signIn r (pa_auth p) in
      with_auth s (with_form (login_settled res (pa_form p)) p)
  | LogoutSettled r =>
      let '(s, cache, _) := signOut r (pa_auth p) (pa_cache p) in
      let p' := with_auth s p in
      mkPage (pa_auth p') (pa_form p') (pa_selected p') (pa_open p') cache
  | Does a => act a p
  | Caches key => mkPage (pa_auth p) (pa_form p) (pa_selected p) (pa_open p) (key :: pa_cache p)
  end.

Definition page_run (p : page) (evs : list page_event) : page := fold_left page_step evs p.

Definition opened_page : page := mkPage Loading empty_form None None [].

(** *** What the mounted components ask for

    By the hooks each component calls, in the order of the source; an early return
    leaves the components after it unmounted, but not the hooks before it. *)
Inductive asked :=
| Query (q : query_options)
| Stream (f : fetch).

(** The effect of [useSyncEvents]. *)
Definition useSyncEvents (enabled : bool) : list asked :=
  if negb enabled then [] else [Stream (mkFetch "GET" "/api/accounts/events")].

Definition LoginForm_asks : list asked := [].

(** [useRequestSync] and [useDownloadMessage] are mutations, which ask when they are called. *)
Definition AccountsPanel_asks : list asked := [Query useAccounts].

Definition MessageSheet_asks (accountId messageId : option string) : list asked :=
  [Query (useMessage accountId messageId)].

Definition MessagesPanel_asks (accountId : option string) (messages : query_result (pages MessagePage))
    (openMessageId : option string) : list asked :=
  Query (useMessages accountId None) ::
  (if otruthy accountId then
     match messages with
     | Success ps => match rows_of (pg_pages ps) with
                     | [] => []
                     | _ => MessageSheet_asks accountId openMessageId
                     end
     | _ => []
     end
   else []).

Definition is_authenticated (auth : AuthState) : bool :=
  match auth with Authenticated _ => true | _ => false end.

Definition App_asks (auth : AuthState) (accountsPanel messagesPanel : list asked) : list asked :=
  useSyncEvents (is_authenticated auth) ++
  match auth with
  | Loading => []
  | Anonymous => LoginForm_asks
  | Authenticated _ => accountsPanel ++ messagesPanel
  end.

(** A query that is not enabled is not made. *)
Definition makes (x : asked) : bool := match x with Query o => q_enabled o | Stream _ => true end.

Definition asked_for (q : queries) (p : page) : list asked :=
  List.filter makes
    (App_asks (pa_auth p) AccountsPanel_asks (MessagesPanel_asks (pa_selected p) (qs_messages q) (pa_open p))).

(** ** What the page offers

    A handler is offered by an element that is not disabled. *)
Definition handles (a : action) (p : string * prop) : Prop :=
  match p.2 with
  | On l => In a l
  | OnValue f => exists v, In a (f v)
  | OnOpenChange f => In a (f true) \/ In a (f false)
  | Str _ | Flag _ | Num _ | Elem _ => False
  end.

Definition enabled (props : list (string * prop)) : bool :=
  forallb (fun p => match p.2 with Flag b => negb (String.eqb p.1 "disabled" && b) | _ => true end) props.

Fixpoint some_of {X} (P : X -> Prop) (l : list X) : Prop :=
  match l with [] => False | x :: l' => P x \/ some_of P l' end.

Fixpoint offered (a : action) (n : node) : Prop :=
  match n with
  | Text _ => False
  | El _ props children =>
      (if enabled props then some_of (handles a) props else False)
      \/ (fix any l := match l with [] => False | c :: l' => offered a c \/ any l' end) children
  end.

Lemma some_of_exists {X} (P : X -> Prop) l : some_of P l <-> exists x, x ∈ l /\ P x.
Proof.
  induction l as [|y l IH]; simpl.
  - split; [done|]. intros (x & Hx & _). by apply not_elem_of_nil in Hx.
  - rewrite IH. setoid_rewrite elem_of_cons. naive_solver.
Qed.

Lemma offered_El a t props children :
  offered a (El t props children) <->
  (if enabled props then some_of (handles a) props else False) \/ exists n, n ∈ children /\ offered a n.
Proof.
  simpl. apply or_iff_compat_l. rewrite <- some_of_exists. induction children as [|c l IH]; [done|].
  simpl. by rewrite IH.
Qed.

(** The elements of a list that is mapped. *)
Lemma offered_map {X} a t (f : X -> node) l :
  offered a (El t [] (List.map f l)) <-> exists x, x ∈ l /\ offered a (f x).
Proof.
  rewrite offered_El. setoid_rewrite list_elem_of_fmap. simpl. naive_solver.
Qed.

(** What an element offers, element by element. *)
Ltac offers :=
  cbn [offered some_of handles In fst snd enabled forallb String.eqb Ascii.eqb Bool.eqb andb negb app when].

Lemma toggle_offers th a :
  offered a (ThemeToggle (th_preference th) (th_system th)) <-> exists v, a = ChooseTheme v.
Proof. unfold ThemeToggle, OPTIONS. cbn [List.map]. offers. naive_solver. Qed.

Lemma row_offers short sel m acc a : offered a (account_row short sel m acc) <->
  a = Select (sm_id acc) \/ (a = RequestSync (sm_id acc) /\ syncing m (sm_id acc) = false /\ sm_status acc = ACTIVE).
Proof.
  unfold account_row, select_button, sync_button. generalize (syncing m (sm_id acc)). intros s.
  destruct (decide (sm_status acc = ACTIVE)) as [E|E];
    [rewrite (bool_decide_eq_true_2 _ E)|rewrite (bool_decide_eq_false_2 _ E)];
    destruct s, (statusLabel (sm_status acc)), (queued m (sm_id acc)); offers; cbn [orb]; naive_solver.
Qed.

Lemma accounts_offers short accounts m sel a : offered a (AccountsPanel short accounts m sel) <->
  exists l acc, accounts = Success l /\ acc ∈ l /\ offered a (account_row short sel m acc).
Proof.
  unfold AccountsPanel. destruct accounts as [|e|[|x l]].
  4: { rewrite offered_map. naive_solver. }
  all: offers; split; [tauto|]; intros (l & acc & E & Hin & _); try discriminate.
  injection E as <-. by apply not_elem_of_nil in Hin.
Qed.

Lemma sheet_offers long aid mid q d a : offered a (MessageSheet long aid mid q d) ->
  a = ResetDownload \/ a = CloseMessage \/ exists i j, a = Download i j.
Proof.
  unfold MessageSheet, download_button, message_body.
  destruct q as [|e|x]; [offers; naive_solver..|].
  destruct aid as [i|]; [|offers; naive_solver]. destruct mid as [j|]; [|offers; naive_solver].
  destruct (truthy i && truthy j); [|offers; naive_solver].
  assert (exists n, match md_bodyText x with
     | Some t => if truthy t then El "pre" [] [Text t]
                 else El "p" [] [Text "No readable text body — the message may be HTML-only, or the stored object is missing."]
     | None => El "p" [] [Text "No readable text body — the message may be HTML-only, or the stored object is missing."]
     end = n /\ ~ offered a n) as (n & -> & Hn).
  { eexists. split; [done|]. destruct (md_bodyText x) as [t|]; [destruct (truthy t)|]; simpl; tauto. }
  destruct d, (md_bodyTruncated x); offers; naive_solver.
Qed.

Lemma message_row_offers long m a : offered a (message_row long m) <-> a = OpenMessage (ms_id m).
Proof.
  unfold message_row.
  destruct (ms_subject m) as [subject|], (ms_hasAttachments m); (destruct (ms_snippet m) as [s|]; [destruct (truthy s)|]);
    offers; naive_solver.
Qed.

(** The actions on mailboxes and messages. *)
Definition panel_action (a : action) : Prop :=
  match a with Select _ | RequestSync _ | OpenMessage _ => True | _ => False end.

Lemma messages_offers long sel q open message d a : panel_action a ->
  offered a (MessagesPanel long sel q open message d) <->
  otruthy sel = true /\ exists ps m, q = Success ps /\ m ∈ rows_of (pg_pages ps) /\ a = OpenMessage (ms_id m).
Proof.
  intros Ha. unfold MessagesPanel. destruct (otruthy sel); [|offers; naive_solver].
  destruct q as [|e|ps]; [offers; naive_solver..|].
  destruct (rows_of (pg_pages ps)) as [|m0 l] eqn:E; rewrite <- ?E.
  - offers. split; [tauto|]. intros (_ & ps' & m & [= <-] & Hm & _). rewrite E in Hm. by apply not_elem_of_nil in Hm.
  - assert (offered a (El "Card" [] (List.map (message_row long) (rows_of (pg_pages ps)))) <->
            exists m, m ∈ rows_of (pg_pages ps) /\ a = OpenMessage (ms_id m)) as Hc.
    { rewrite offered_map. by setoid_rewrite message_row_offers. }
    assert (Hs : ~ offered a (MessageSheet long sel open message d)).
    { intros [-> | [-> | (i & j & ->)]]%sheet_offers; exact Ha. }
    revert Hc Hs. generalize (MessageSheet long sel open message d) (El "Card" [] (List.map (message_row long) (rows_of (pg_pages ps)))).
    intros sheet card Hc Hs. destruct (hasNextPage ps), (isFetchingNextPage ps), a; try done; offers; naive_solver.
Qed.

Lemma shown_offers short long th q p a : panel_action a ->
  offered a (render short long th q p) <-> (exists u, pa_auth p = Authenticated u) /\
    (offered a (AccountsPanel short (qs_accounts q) (qs_sync q) (pa_selected p)) \/
     offered a (MessagesPanel long (pa_selected p) (qs_messages q) (pa_open p) (qs_message q) (qs_download q))).
Proof.
  intros Ha. unfold render, App. destruct (pa_auth p) as [| |u].
  - offers. split; [tauto|]. intros ((u & [=]) & _).
  - unfold LoginForm. generalize (pa_form p). intros f.
    destruct (lf_pending f), (lf_error f) as [e|]; try destruct (truthy e); offers;
      (split; [intros H; exfalso; destruct a; naive_solver | intros ((u & [=]) & _)]).
  - unfold AppShell.
    assert (Ht : ~ offered a (ThemeToggle (th_preference th) (th_system th))).
    { intros (v & ->)%toggle_offers. exact Ha. }
    revert Ht. generalize (ThemeToggle (th_preference th) (th_system th))
      (AccountsPanel short (qs_accounts q) (qs_sync q) (pa_selected p))
      (MessagesPanel long (pa_selected p) (qs_messages q) (pa_open p) (qs_message q) (qs_download q)).
    intros toggle accounts messages Ht. destruct a; try done; offers; naive_solver.
Qed.

(** C21: Of the requests, mailboxes and messages a user may act on, the page offers
    exactly these: signed in, a mailbox of the list can be selected, its sync can be
    asked for when it is active and no request for it is on its way, and a message
    can be opened when one of the pages loaded for the selected mailbox has it. *)
Theorem page_offers short long th q p a : panel_action a ->
  offered a (render short long th q p) <->
  (exists u, pa_auth p = Authenticated u) /\
  match a with
  | Select i => exists l acc, qs_accounts q = Success l /\ acc ∈ l /\ sm_id acc = i
  | RequestSync i => syncing (qs_sync q) i = false /\
      exists l acc, qs_accounts q = Success l /\ acc ∈ l /\ sm_id acc = i /\ sm_status acc = ACTIVE
  | OpenMessage i => otruthy (pa_selected p) = true /\
      exists ps m, qs_messages q = Success ps /\ m ∈ rows_of (pg_pages ps) /\ ms_id m = i
  | _ => False
  end.
Proof.
  intros Ha. rewrite shown_offers, accounts_offers, messages_offers by exact Ha.
  setoid_rewrite row_offers. apply and_iff_compat_l. destruct a; try done; naive_solver.
Qed.


(** ** The theme *)

Definition last_choice (evs : list theme_event) (p : ThemePreference) : ThemePreference :=
  fold_left (fun p ev => match ev with ThemeChosen v => default p (item_preference v) | _ => p end) evs p.

(** What holds between two events: the class is that of the theme shown, the icon
    follows the OS, and a storage that works has the preference. *)
Record theme_ok (p : ThemePreference) (s : theme_state) : Prop := {
  ok_class : th_class_dark s = bool_decide (resolved (th_preference s) (th_system s) = dark);
  ok_system : th_system s = systemTheme (th_prefersDark s);
  ok_preference : is_some (th_storage s) = true -> th_preference s = p;
  ok_stored : is_some (th_storage s) = true -> storedPreference (th_storage s) = th_preference s;
}.

Lemma stored_persisted (p : ThemePreference) (s : storage) :
  is_some s = true -> storedPreference (persistPreference p s) = p.
Proof. destruct s; [|done]. by destruct p as [[]|]. Qed.

Lemma persist_some (p : ThemePreference) (s : storage) : is_some (persistPreference p s) = is_some s.
Proof. by destruct s. Qed.

Lemma theme_step_ok (p : ThemePreference) (s : theme_state) (ev : theme_event) :
  theme_ok p s ->
  theme_ok (match ev with ThemeChosen v => default p (item_preference v) | _ => p end) (theme_step s ev) /\
  is_some (th_storage (theme_step s ev)) = is_some (th_storage s).
Proof.
  intros [Hc Hs Hp Hst]. destruct ev as [v|d|]; simpl.
  - destruct (item_preference v) as [next|]; simpl; [|done].
    split; [split; simpl; rewrite ?persist_some; auto using stored_persisted|apply persist_some].
  - split; [split; simpl; auto|done].
  - split; [split; simpl; intros; rewrite ?Hst by done; auto|done].
Qed.

Lemma theme_mount_ok (d : bool) (st : storage) (c : bool) :
  theme_ok (storedPreference st) (theme_mount d st c) /\ is_some (th_storage (theme_mount d st c)) = is_some st.
Proof. by split; [split|]. Qed.

Lemma theme_run_ok (evs : list theme_event) (p : ThemePreference) (s : theme_state) :
  theme_ok p s -> theme_ok (last_choice evs p) (fold_left theme_step evs s) /\
    is_some (th_storage (fold_left theme_step evs s)) = is_some (th_storage s).
Proof.
  revert p s. induction evs as [|ev evs IH]; intros p s Hs; simpl; [done|].
  destruct (theme_step_ok p s ev Hs) as [Hs' E]. destruct (IH _ _ Hs') as [Hr E'].
  split; [exact Hr|congruence].
Qed.

(** Whatever is chosen, however the operating system changes and however often
    the page is reloaded, the [dark] class is on exactly when the dark theme is
    chosen, or the system's is and the operating system prefers dark; and where
    storage works, the choice is the last one made, or the one that was stored. *)
Theorem theme_on_screen (prefersDark : bool) (st : storage) (class_ : bool) (evs : list theme_event) :
  let s := fold_left theme_step evs (theme_mount prefersDark st class_) in
  th_class_dark s = match th_preference s with prefer t => bool_decide (t = dark) | system => th_prefersDark s end /\
  (is_some st = true -> th_preference s = last_choice evs (storedPreference st)).
Proof.
  intros s. destruct (theme_mount_ok prefersDark st class_) as [Hm Em].
  destruct (theme_run_ok evs _ _ Hm) as [[Hc Hs Hp _] E]. subst s. split.
  - rewrite Hc, Hs. destruct (th_preference _); [done|]. simpl. by destruct (th_prefersDark _).
  - intros Hst. apply Hp. congruence.
Qed.

(** ** What can happen to a page

    A tab: its page, whether the refresh of the effect on mount is out, and how many
    sign-outs are. *)
Record tab := mkTab { tb_page : page; tb_refreshing : bool; tb_signouts : nat }.

Definition opened_tab : tab := mkTab opened_page true 0.

(** What can be done to the sign-in form: it can be filled in, unless it is on its
    way, and sent. *)
Definition form_action (f : login_form) (a : action) : Prop :=
  match a with
  | SetEmail _ | SetPassword _ => lf_pending f = false
  | SubmitLogin => True
  | _ => False
  end.

Lemma form_offers f a : offered a (LoginForm f) <-> form_action f a.
Proof.
  unfold LoginForm, form_action. destruct (lf_pending f), (lf_error f) as [e|]; try destruct (truthy e); offers;
    destruct a; naive_solver.
Qed.

Section Tab.
Context (short long : string -> string).

Inductive tab_step : tab -> page_event -> tab -> Prop :=
| TRefresh p n r : tab_step (mkTab p true n) (RefreshSettled r) (mkTab (page_step p (RefreshSettled r)) false n)
| TLogin p b n r : lf_pending (pa_form p) = true ->
    tab_step (mkTab p b n) (LoginSettled r) (mkTab (page_step p (LoginSettled r)) b n)
| TLogout p b n r : tab_step (mkTab p b (S n)) (LogoutSettled r) (mkTab (page_step p (LogoutSettled r)) b n)
| TDoes p b n th q a : offered a (render short long th q p) ->
    tab_step (mkTab p b n) (Does a) (mkTab (act a p) b (match a with SignOut => S n | _ => n end))
(* the answer to a query; one that no mounted component makes any more was aborted by its [signal] *)
| TCaches p b n q o : Query o ∈ asked_for q p ->
    tab_step (mkTab p b n) (Caches (q_key o)) (mkTab (page_step p (Caches (q_key o))) b n).

Inductive tab_run : tab -> list page_event -> tab -> Prop :=
| RunNil t : tab_run t [] t
| RunCons t t' t'' ev evs : tab_step t ev t' -> tab_run t' evs t'' -> tab_run t (ev :: evs) t''.

(** The page says that the session is being restored, and has nothing to act on. *)
Lemma loading_offers th q p a : pa_auth p = Loading -> ~ offered a (render short long th q p).
Proof. intros E. unfold render, App. rewrite E. simpl. tauto. Qed.

(** Nobody signed in: no component that asks is mounted, and the stream is not enabled. *)
Lemma nothing_asked q p : is_authenticated (pa_auth p) = false -> asked_for q p = [].
Proof. unfold asked_for. by destruct (pa_auth p). Qed.

(** Before the refresh of the mount has settled, nothing else can. *)
Lemma opened_first t ev : tab_step opened_tab ev t ->
  exists r, ev = RefreshSettled r /\ t = mkTab (page_step opened_page (RefreshSettled r)) false 0.
Proof.
  intros Hstep. inversion Hstep as [p n r|p b n r Hf|p b n r|p b n th q a Ha|p b n q o Hq]; subst.
  - by eexists.
  - done.
  - by destruct (loading_offers th q opened_page a eq_refl).
  - by apply not_elem_of_nil in Hq.
Qed.

Definition stuck (t : tab) : Prop :=
  pa_auth (tb_page t) = Loading /\ tb_refreshing t = false /\ tb_signouts t = 0 /\
  lf_pending (pa_form (tb_page t)) = false.

Lemma stuck_final t ev t' : stuck t -> ~ tab_step t ev t'.
Proof.
  intros (Hl & Hr & Hs & Hf) Hstep. destruct Hstep as [| | |p b n th q a Ha|p b n q o Hq]; simpl in *; try congruence.
  - by apply (loading_offers th q p a Hl).
  - rewrite nothing_asked in Hq by (by rewrite Hl). by apply not_elem_of_nil in Hq.
Qed.

(** *** What is kept of a session *)

(** Nothing is cached unless someone is signed in, and the session is only restored
    on a page that has shown nothing else. *)
Definition signed_in (p : page) : bool := is_authenticated (pa_auth p).

Definition tab_ok (t : tab) : Prop :=
  (signed_in (tb_page t) = false -> pa_cache (tb_page t) = []) /\
  (tb_refreshing t = true -> pa_auth (tb_page t) = Loading /\ lf_pending (pa_form (tb_page t)) = false /\
                             tb_signouts t = 0).

Lemma with_auth_kept s p : pa_cache (with_auth s p) = pa_cache p /\ pa_auth (with_auth s p) = s.
Proof. by destruct s. Qed.

Lemma act_kept a p : pa_cache (act a p) = pa_cache p /\ pa_auth (act a p) = pa_auth p.
Proof. by destruct a. Qed.

Lemma tab_step_ok t ev t' : tab_ok t -> tab_step t ev t' -> tab_ok t'.
Proof.
  unfold tab_ok, signed_in. intros [Hc Hr] Hstep.
  destruct Hstep as [p n r|p b n r Hf|p b n r|p b n th q a Ha|p b n q o Hq]; cbn [tb_page tb_refreshing tb_signouts] in *.
  - destruct (Hr eq_refl) as (Hl & _). rewrite Hl in Hc. split; [intros _|done].
    cbn [page_step]. by rewrite (proj1 (with_auth_kept _ _)), Hc.
  - assert (b = false) as -> by (destruct b; [destruct (Hr eq_refl) as (_ & ? & _); congruence|done]).
    split; [|done]. destruct r as [x|e]; [done|]. cbn [page_step signIn].
    by rewrite (proj1 (with_auth_kept _ _)), (proj2 (with_auth_kept _ _)).
  - assert (b = false) as -> by (by destruct b; [destruct (Hr eq_refl) as (_ & _ & ?)|]).
    split; [|done]. destruct r as [x|e]; [done|]. cbn [page_step signOut pa_cache pa_auth].
    by rewrite (proj2 (with_auth_kept _ _)).
  - rewrite (proj1 (act_kept a p)), (proj2 (act_kept a p)). split; [exact Hc|]. intros Hb.
    by destruct (loading_offers th q p a (proj1 (Hr Hb))).
  - split; [|exact Hr]. cbn [page_step pa_auth]. intros Hn. rewrite nothing_asked in Hq by done.
    by apply not_elem_of_nil in Hq.
Qed.

Lemma tab_run_ok t evs t' : tab_ok t -> tab_run t evs t' -> tab_ok t'.
Proof. intros Hok Hrun. induction Hrun; eauto using tab_step_ok. Qed.

(** The page of somebody who is not signed in is drawn from the form alone. *)
Lemma signed_out_page th q p : signed_in p = false ->
  render short long th q p = match pa_auth p with
                             | Loading => El "div" [] [Text "Restoring session…"]
                             | _ => LoginForm (pa_form p)
                             end.
Proof. unfold signed_in, render, App. by destruct (pa_auth p). Qed.

(** C24: whatever a user does and however the requests of the page end, while nobody
    is signed in nobody's answers are in the query cache, no mounted component makes
    a query and the event stream is not asked for; what is drawn depends on no answer;
    and all there is to act on is, once it is known that no session can be restored,
    the sign-in form. *)
Theorem signed_out_shows_nothing evs t :
  tab_run opened_tab evs t -> signed_in (tb_page t) = false ->
  pa_cache (tb_page t) = [] /\
  (forall q, asked_for q (tb_page t) = []) /\
  (forall th th' q q', render short long th q (tb_page t) = render short long th' q' (tb_page t)) /\
  (forall th q a, offered a (render short long th q (tb_page t)) <->
     pa_auth (tb_page t) = Anonymous /\ form_action (pa_form (tb_page t)) a).
Proof.
  intros Hrun Hs. destruct (tab_run_ok opened_tab evs t) as [Hc _]; [by split|exact Hrun|].
  split; [by apply Hc|]. split; [intros q; by apply nothing_asked|].
  split; intros; rewrite !signed_out_page by done; [done|].
  unfold signed_in in Hs. destruct (pa_auth (tb_page t)); [simpl; naive_solver|rewrite form_offers; naive_solver|done].
Qed.

(** When the refresh of the effect on mount fails rather than answers (the
    network is down, the gateway unreachable), nothing happens to the page any more:
    it says that the session is being restored, offers nothing and asks for nothing,
    for as long as it is open. *)
Theorem restore_failure_is_final e evs t :
  tab_run opened_tab (RefreshSettled (Err e) :: evs) t ->
  evs = [] /\ pa_auth (tb_page t) = Loading /\ (forall q, asked_for q (tb_page t) = []) /\
  forall th q a, ~ offered a (render short long th q (tb_page t)).
Proof.
  intros Hrun. inversion Hrun as [|t0 t1 t2 ev evs' Hstep Hrest]; subst.
  apply opened_first in Hstep as (r & [= <-] & ->).
  inversion Hrest as [|t0 t1 t2 ev evs' Hstep Hrest']; subst; [|by apply stuck_final in Hstep].
  split; [done|]. split; [done|]. split; [done|]. intros th q a. by apply loading_offers.
Qed.
End Tab.

Lemma select_offered short long th q p i acc u : pa_auth p = Authenticated u ->
  qs_accounts q = Success [acc] -> sm_id acc = i -> offered (Select i) (render short long th q p).
Proof.
  intros E Eq <-. apply shown_offers; [done|]. split; [by eexists|]. left. apply accounts_offers.
  exists [acc], acc. split; [done|]. split; [by apply list_elem_of_singleton|]. apply row_offers. by left.
Qed.

Lemma signout_offered short long th q p u : pa_auth p = Authenticated u -> offered SignOut (render short long th q p).
Proof. intros E. unfold render, App, AppShell. rewrite E. offers. tauto. Qed.

Lemma submit_offered short long th q p : pa_auth p = Anonymous -> offered SubmitLogin (render short long th q p).
Proof. intros E. unfold render, App, LoginForm. rewrite E. offers. tauto. Qed.

(** The selected mailbox is the state of a component that signing out does not
    unmount: after it, and after someone else has signed in on the page, the
    messages of the mailbox the first user had selected are asked for. *)
Theorem selection_survives_signout short long (alice bob : session) (i : string) :
  truthy i = true ->
  exists evs t, tab_run short long opened_tab evs t /\
    evs = [RefreshSettled (Ok (Some alice)); Does (Select i); Does SignOut; LogoutSettled (Ok tt);
           Does SubmitLogin; LoginSettled (Ok bob)] /\
    pa_auth (tb_page t) = Authenticated (ss_user bob) /\ pa_cache (tb_page t) = [] /\
    (forall q, In (Query (useMessages (Some i) None)) (asked_for q (tb_page t))) /\
    q_fetch (useMessages (Some i) None) = Ok (mkFetch "GET" ("/api/accounts/" +:+ i +:+ "/messages?limit=25")).
Proof.
  intros Hi. set (th := theme_mount false None false).
  set (q := mkQueries (Success [mkSummary i GMAIL "" ACTIVE [] None ""]) MIdle Pending Pending MIdle).
  eexists _, _. split; [|split; [reflexivity|]].
  - eapply RunCons; [apply TRefresh|].
    eapply RunCons; [apply (TDoes _ _ _ _ _ th q); by eapply select_offered|].
    eapply RunCons; [apply (TDoes _ _ _ _ _ th q); by eapply signout_offered|].
    eapply RunCons; [apply TLogout|].
    eapply RunCons; [apply (TDoes _ _ _ _ _ th q); by eapply submit_offered|].
    eapply RunCons; [by apply TLogin|]. apply RunNil.
  - split; [done|]. split; [done|]. split; [simpl; auto|]. unfold useMessages. simpl. by rewrite Hi.
Qed.

(** ** Every message of a mailbox

    What the panel has loaded once "Load more" is gone: the pages the query fetched,
    one after the other, each with the cursor of the one before, against the
    service's [MessagesController].  The gateway hands the path on without [/api];
    an account's id is a UUID, so that it stands in the path as it is. *)

(** The handler of [GET accounts/:accountId/messages] and its arguments. *)
Definition list_request (url : string) : option (string * option string * option Z) :=
  match split_on "?"%char url with
  | [path; search] =>
      match split_on "/"%char path with
      | [""; "api"; "accounts"; accountId; "messages"] =>
          let ps := parse_params search in
          Some (accountId, param "cursor" ps, param "limit" ps ≫= Providers.Number)
      | _ => None
      end
  | _ => None
  end.

Definition path_segment (s : string) : Prop := occurs "?"%char s = false /\ occurs "/"%char s = false.

Lemma list_request_url (accountId : string) (pageParam : option string) :
  path_segment accountId -> (forall c, pageParam = Some c -> truthy c = true) ->
  list_request ("/api/accounts/" +:+ accountId +:+ "/messages?" +:+ URLSearchParams (page_params pageParam)) =
    Some (accountId, pageParam, Some 25%Z).
Proof.
  intros [Hq Hs] Hc. unfold list_request.
  replace ("/api/accounts/" +:+ accountId +:+ "/messages?" +:+ URLSearchParams (page_params pageParam))
    with (("/api/accounts/" +:+ accountId +:+ "/messages") +:+ String "?"%char (URLSearchParams (page_params pageParam)))
    by (by rewrite !append_assoc).
  rewrite split_on_app_sep by (rewrite !occurs_app, Hq; done).
  rewrite split_on_no_sep by apply URLSearchParams_query.
  replace ("/api/accounts/" +:+ accountId +:+ "/messages")
    with (str_join "/" [""; "api"; "accounts"; accountId; "messages"]) by done.
  rewrite split_on_join by (done || (repeat constructor; done || exact Hs)).
  rewrite parse_URLSearchParams. destruct pageParam as [c|]; [|done].
  unfold page_params. by rewrite (Hc c eq_refl).
Qed.

Section Panel.
Context {TA TM : Type} `{Table MailAccount TA} `{Table Message TM} `{!TableLaws MailAccount TA} `{!TableLaws Message TM}.
Context (N : nat) (userId accountId : string).

Abbreviation M := (io (world (mail_db TA TM)) exn).

Definition serve (f : fetch) : M MessagePage :=
  match list_request (f_url f) with
  | Some (i, cursor, limit) => list_route userId i cursor limit
  | None => throw (NotFoundException "Cannot GET")
  end.

Fixpoint load_all (fuel : nat) (pageParam : option string) : M (list MessagePage) :=
  match fuel with
  | O => throw (Error "out of fuel")
  | S fuel' =>
      let! f := of_result (q_fetch (useMessages (Some accountId) pageParam)) in
      let! lastPage := serve f in
      match getNextPageParam lastPage with
      | None => ret [lastPage]
      | Some c => let! rest := load_all fuel' (Some c) in ret (lastPage :: rest)
      end
  end.

Definition rows_result (r : result exn (list MessagePage)) : result exn (list MessageSummary) :=
  match r with Ok ps => Ok (rows_of ps) | Err e => Err e end.

(** What holds of the rows a client of the service lists holds of those of the panel. *)
Lemma wp_load_all (fuel : nat) (start : option Message) (Q : result exn (list MessageSummary) -> _ -> Prop) w :
  path_segment accountId -> truthy accountId = true -> mailbox_ok N userId accountId w ->
  (forall s, start = Some s -> s ∈ messages_of w /\ m_accountId s = accountId) ->
  wp (arrives N userId accountId) (all_pages fuel userId accountId (m_id <$> start) 25) Q w ->
  wp (arrives N userId accountId) (load_all fuel (m_id <$> start)) (fun r w' => Q (rows_result r) w') w.
Proof.
  intros Hp Ht. revert start Q w. induction fuel as [|fuel IH]; intros start Q w Hok Hstart Hw; [exact Hw|].
  cbn [load_all all_pages] in *. unfold useMessages. cbn [q_fetch otruthy default]. rewrite Ht.
  change (wp (arrives N userId accountId)
    (let! lastPage := serve (mkFetch "GET" ("/api/accounts/" +:+ accountId +:+ "/messages?" +:+
                                            URLSearchParams (page_params (m_id <$> start)))) in
     match getNextPageParam lastPage with
     | Some c => let! rest := load_all fuel (Some c) in ret (lastPage :: rest)
     | None => ret [lastPage]
     end) (fun r w' => Q (rows_result r) w') w).
  unfold serve. cbn [f_url]. rewrite list_request_url;
    [|done|intros c (s & Es & ->)%fmap_Some; apply (mb_truthy _ _ _ _ Hok), (Hstart s Es)].
  unfold list_route. change (clamp_limit (Some 25%Z)) with 25%nat.
  assert (1 <= 25)%nat as H25 by lia.
  pose proof (wp_listForAccount N userId accountId 25 H25 start w Hok Hstart) as Hpage.
  apply rg_bind. eapply rg_mono; [|exact (rg_and _ _ _ _ _ _ Hpage (rg_bind_inv _ _ _ _ _ _ Hw))].
  intros r w' [(page & -> & w1 & l & Hk & Hk' & Hok1 & Hok' & (_ & _ & Hl) & ->) Hrest].
  unfold getNextPageParam. cbn [mp_nextCursor mp_messages] in *.
  assert (Hdone : forall ms c, wp (arrives N userId accountId) (ret ms) Q w' ->
    wp (arrives N userId accountId) (ret [mkMessagePage ms c]) (fun r w' => Q (rows_result r) w') w').
  { intros ms c Hms w2 Hw2. cbn [rows_result rows_of flat_map mp_messages]. rewrite app_nil_r. by apply Hms. }
  destruct (Nat.ltb 25 (length l)); [|by apply Hdone].
  unfold last_id in *. destruct (last (take 25 l)) as [s|] eqn:Hlast; [|by apply Hdone].
  cbn [fmap option_fmap option_map] in *.
  assert (s ∈ l) as Hs.
  { apply last_Some in Hlast as [p Hl']. rewrite <- (take_drop 25 l), Hl'. set_solver. }
  apply rg_bind. eapply rg_mono; [|apply (IH (Some s)); [done| |exact (rg_bind_inv _ _ _ _ _ _ Hrest)]].
  - by intros [ps|e] w2.
  - intros s' [= <-]. destruct (proj1 (Hl s) Hs) as (Hm & Ha & _). split; [by apply Hk'|done].
Qed.

Lemma wp_panel w :
  path_segment accountId -> truthy accountId = true -> mailbox_ok N userId accountId w ->
  wp (arrives N userId accountId) (load_all (S N) None)
    (fun r w' => mailbox_ok N userId accountId w' /\ keeps w w' /\
       exists ms, rows_result r = Ok (List.map message_summary ms) /\ all_of accountId None w w' ms) w.
Proof.
  intros Hp Ht Hok.
  exact (wp_load_all (S N) None _ w Hp Ht Hok ltac:(done)
    (wp_all_pages N userId accountId 25 ltac:(lia) (S N) None [] w Hok ltac:(done) (NoDup_nil_2)
       ltac:(intros m Hm; by inversion Hm) ltac:(simpl; lia))).
Qed.

(** C19: a user who loads every page of a mailbox of theirs has a row for every
    message that was there when they began, once, newest first, and for nothing of
    another mailbox, whatever arrives between the requests; no page is a failure, and
    loading ends. *)
Theorem panel_shows_all w (c : config) (r : result exn (list MessagePage)) :
  path_segment accountId -> truthy accountId = true -> mailbox_ok N userId accountId w ->
  rtc (cstep (arrives N userId accountId)) ([load_all (S N) None], w) c -> c.1 = [Done r] ->
  exists ps ms, r = Ok ps /\ rows_of ps = List.map message_summary ms /\
    StronglySorted newer ms /\ NoDup (List.map m_id ms) /\
    (forall m, m ∈ ms -> m ∈ messages_of c.2 /\ m_accountId m = accountId) /\
    (forall m, m ∈ messages_of w -> m_accountId m = accountId -> m ∈ ms).
Proof.
  intros Hp Ht Hok Hreach Hr.
  destruct (alone_rg _ _ _ _ _ _ (wp_panel w Hp Ht Hok) Hreach Hr) as (_ & _ & ms & E & Hs & Hnd & Hin & Hall).
  destruct r as [ps|e]; [|done]. injection E as E. exists ps, ms. split; [done|]. split; [done|].
  split; [done|]. split; [done|]. split; [|intros m Hm Ha; by apply Hall].
  intros m Hm. destruct (Hin m Hm) as (Hm' & Ha & _). by split.
Qed.
End Panel.

(** ** Concrete pages *)

Module Screen.
Definition user (i : string) : PublicUser := mkPublicUser i (i +:+ "@b.c") USER true "".

Definition box (i : string) (s : AccountStatus) : MailAccountSummary := mkSummary i GMAIL "a@b.c" s [] None "".

Definition th : theme_state := theme_mount false None false.

(** Two mailboxes, of which one must be reconnected; the other is selected. *)
Definition signed : page := mkPage (Authenticated (user "u1")) empty_form (Some "a1") None [].

Definition q : queries :=
  mkQueries (Success [box "a1" ACTIVE; box "a2" REAUTH_REQUIRED]) MIdle Pending Pending MIdle.

(** A mailbox of thirty messages: two pages. *)
Definition many : list Message :=
  List.map (fun i => Inbox.mail (string_of_Z (Z.of_nat i)) (Z.of_nat i) None) (List.seq 1 30).

Definition w : world Vault.db := mkWorld (mkMailDb [Mailbox.box] many empty) 1000 0 true [].

Definition thirty : nat := 30.

Lemma thirty_messages : mailbox_ok thirty "u1" "a1" w.
Proof.
  split; [done|done| | |unfold thirty; vm_compute; lia].
  - apply (bool_decide_unpack _). vm_compute. exact I.
  - intros m Hm. assert (Forall (fun m => truthy (m_id m) = true) many) as Hall.
    { apply (bool_decide_unpack _). vm_compute. exact I. }
    by apply (proj1 (Forall_forall _ _) Hall).
Qed.

Definition loaded : result exn (list MessagePage) :=
  Eval vm_compute in fst (run (load_all "u1" "a1" 31 None) w).
End Screen.

Lemma page_offers_witness :
  offered (RequestSync "a1") (render id id Screen.th Screen.q Screen.signed) /\
  ~ offered (RequestSync "a2") (render id id Screen.th Screen.q Screen.signed).
Proof.
  split.
  - apply (page_offers id id Screen.th Screen.q Screen.signed (RequestSync "a1") I).
    split; [by eexists|]. split; [done|]. eexists _, (Screen.box "a1" ACTIVE). split; [reflexivity|].
    split; [by left|done].
  - intros H. apply (page_offers id id Screen.th Screen.q Screen.signed (RequestSync "a2") I) in H.
    destruct H as (_ & _ & l & acc & [= <-] & Hin & Hid & Hs).
    apply elem_of_cons in Hin as [-> | ->%list_elem_of_singleton]; discriminate.
Defined.

Lemma theme_on_screen_witness :
  th_preference (fold_left theme_step [ThemeChosen "dark"; OsChanged false; Reloaded]
    (theme_mount false (Some None) false)) = prefer dark.
Proof.
  exact (proj2 (theme_on_screen false (Some None) false [ThemeChosen "dark"; OsChanged false; Reloaded]) eq_refl).
Defined.

Lemma signed_out_shows_nothing_witness :
  exists t, tab_run id id opened_tab [RefreshSettled (Ok None)] t /\ pa_cache (tb_page t) = [].
Proof.
  assert (Hrun : tab_run id id opened_tab [RefreshSettled (Ok None)]
    (mkTab (page_step opened_page (RefreshSettled (Ok None))) false 0)).
  { eapply RunCons; [apply TRefresh|apply RunNil]. }
  eexists. split; [exact Hrun|]. exact (proj1 (signed_out_shows_nothing id id _ _ Hrun eq_refl)).
Defined.

Lemma restore_failure_is_final_witness :
  exists t, tab_run id id opened_tab [RefreshSettled (Err (TypeError "Failed to fetch"))] t /\
    pa_auth (tb_page t) = Loading.
Proof.
  assert (Hrun : tab_run id id opened_tab [RefreshSettled (Err (TypeError "Failed to fetch"))]
    (mkTab opened_page false 0)).
  { eapply RunCons; [apply TRefresh|apply RunNil]. }
  eexists. split; [exact Hrun|].
  exact (proj1 (proj2 (restore_failure_is_final id id (TypeError "Failed to fetch") [] _ Hrun))).
Defined.

Lemma selection_survives_signout_witness :
  exists evs t, tab_run id id opened_tab evs t /\ In (Query (useMessages (Some "a1") None)) (asked_for Screen.q (tb_page t)).
Proof.
  destruct (selection_survives_signout id id (mkAppSession "t1" (Screen.user "u1"))
    (mkAppSession "t2" (Screen.user "u2")) "a1" eq_refl) as (evs & t & Hrun & _ & _ & _ & Hin & _).
  by exists evs, t.
Defined.

Lemma panel_shows_all_witness :
  exists ps, Screen.loaded = Ok ps /\ length ps = 2 /\ NoDup (List.map ms_id (rows_of ps)).
Proof.
  destruct (panel_shows_all 30 "u1" "a1" Screen.w
    (schedule (replicate 4 0%nat) ([load_all "u1" "a1" 31 None], Screen.w)) Screen.loaded)
    as (ps & ms & E & Er & _ & Hnd & _).
  - split; reflexivity.
  - reflexivity.
  - exact Screen.thirty_messages.
  - apply schedule_reachable.
  - vm_compute. reflexivity.
  - exists ps. split; [exact E|]. split; [injection E as <-; reflexivity|].
    rewrite Er, List.map_map. exact Hnd.
Defined.
