(* ===== verification/NewMail.v ===== *)
(** * From the provider to the page

    A sync that ends well, and the list of messages a user loads after it: what
    MailSync, Queue and WebApp show of [sync/mail-sync.processor.ts],
    [messages/message-ingestion.service.ts] and [messages/queries.ts], put together. *)

From S2P Require Import Prelude Js Concurrency World Json Mail Accounts Logging MailSync Messages Views Queue SyncWorker WebApp.

Set Default Proof Using "Type*".

(** ** What a sync does beside ingesting *)

Section Kept.
Context {TA TM : Type} `{TableLaws MailAccount TA} `{TableLaws Message TM} `{Cipher}.

Abbreviation D := (mail_db TA TM).
Abbreviation M := (io (world D) exn).

(** The messages stay as they are, and no random id is drawn twice. *)
Definition mail_kept (w w' : world D) : Prop :=
  messages (data w') = messages (data w) /\ (draws w <= draws w')%nat.

#[export] Instance mail_kept_preorder : PreOrder mail_kept.
Proof.
  split; [by split|]. intros w1 w2 w3 [E1 L1] [E2 L2]. split; [by etrans|lia].
Qed.

Lemma kept_outside {A} (p : M A) : outside p -> each_step mail_kept p.
Proof.
  unfold outside. induction p as [a|B op k IH]; [done|]. intros [Hop Hk].
  split; [|intros b; by apply IH]. intros w. destruct (Hop w) as (E & _ & Hd). split; [by rewrite E|done].
Qed.

Lemma kept_accounts {X} (op : TA -> result exn X * TA) : each_step mail_kept (on_accounts op).
Proof.
  apply each_step_perform. intros w. destruct (db_up w); [|done].
  by destruct (op (mailAccount (data w))).
Qed.

Lemma kept_now : each_step mail_kept (Date_now : M Z).
Proof. by apply each_step_perform. Qed.

Lemma kept_of_result {A} (r : result exn A) : each_step mail_kept (of_result r : M A).
Proof. by destruct r. Qed.

Lemma kept_encrypt (t : string) (p : CipherPurpose) : each_step mail_kept (encrypt t p : M string).
Proof. apply each_step_bind; [|done]. apply each_step_perform. intros w. split; [done|simpl; lia]. Qed.

#[local] Hint Resolve each_step_bind each_step_try kept_outside kept_accounts kept_now kept_of_result
  kept_encrypt outside_refreshAccessToken : kept.

Lemma kept_reauth {A} (i reason : string) (e : exn) :
  each_step mail_kept (markReauthRequired i reason ;! throw e : M A).
Proof. apply each_step_bind; [apply kept_accounts|done]. Qed.

Lemma kept_store_tokens (account : MailAccount) (ts : OAuthTokens) :
  each_step mail_kept (store_tokens account ts : M string).
Proof.
  unfold store_tokens, encrypt_optional. apply each_step_bind; [apply kept_encrypt|]. intros a.
  apply each_step_bind; [|intros r; apply each_step_bind; [apply kept_accounts|done]].
  repeat case_match; try done. apply each_step_bind; [apply kept_encrypt|done].
Qed.

Lemma kept_with_adapter {A} (reg : registry D) (p : MailProvider) (f : MailProviderAdapter D -> M A) :
  lawful reg -> (forall a, AdapterLaws a -> each_step mail_kept (f a)) ->
  each_step mail_kept (let! a := of_result (get reg p) in f a).
Proof.
  intros Hreg Hf. destruct (get reg p) as [a|e] eqn:Ha; [|done]. apply Hf. by eapply Hreg.
Qed.

Lemma kept_getConnection (reg : registry D) (account : MailAccount) :
  lawful reg -> each_step mail_kept (getConnection reg account).
Proof.
  intros Hreg. unfold getConnection. apply each_step_bind; [apply kept_now|]. intros now.
  case_match; (apply each_step_bind; [|done]); [apply kept_of_result|].
  unfold refresh_access. destruct (ma_refreshTokenEnc account) as [enc|]; [|apply kept_reauth].
  destruct (truthy enc); [|apply kept_reauth].
  apply kept_with_adapter; [done|]. intros a Ha.
  apply each_step_bind; [|intros ts; apply kept_store_tokens]. apply each_step_try.
  - apply each_step_bind; [apply kept_of_result|]. intros t. auto with kept.
  - intros e. case_match; first [done|apply kept_reauth].
Qed.

(** ** What a sync asks of the provider *)

Section Asked.
Context (reg : registry D) (fuel : nat) (account : MailAccount) (a : MailProviderAdapter D).

(** The first page of an initial sync. *)
Definition recent (c : ProviderConnection) : M (list string) :=
  let! _ := getProfile a c in
  let! page := listMessageIds a c None INITIAL_BATCH in
  ret (lp_messageIds page).

(** The changes since a cursor, or the first page when the provider has dropped it. *)
Definition changed (c : ProviderConnection) (cursor : string) : M (list string) :=
  let! result := collect fuel a c cursor None [] cursor in
  match result with
  | CursorInvalid => update_account (ma_id account) (set_cursor None) ;! recent c
  | Changes ids _ => ret ids
  | OutOfFuel => throw (Error "out of fuel")
  end.

(** The connection of the sync, and the ids it is given. *)
Definition asked : M (ProviderConnection * list string) :=
  let! c := getConnection reg account in
  let! ids := match ma_syncCursor account with
              | Some cursor => if truthy cursor then changed c cursor else recent c
              | None => recent c
              end in
  ret (c, ids).

Lemma kept_recent (c : ProviderConnection) : AdapterLaws a -> each_step mail_kept (recent c).
Proof.
  intros Ha. apply each_step_bind; [apply kept_outside, outside_getProfile|]. intros p.
  apply each_step_bind; [apply kept_outside, outside_listMessageIds|done].
Qed.

Lemma kept_collect (n : nat) (c : ProviderConnection) (cursor : string) (t : option string)
    (ids : list string) (k : string) :
  AdapterLaws a -> each_step mail_kept (collect n a c cursor t ids k).
Proof.
  intros Ha. revert t ids k. induction n as [|n IH]; intros t ids k; [done|]. simpl.
  apply each_step_bind; [apply kept_outside, outside_listChangedMessageIds|]. intros page.
  destruct (cp_cursorInvalid page); [done|]. case_match; [apply IH|done].
Qed.

Lemma kept_asked : lawful reg -> AdapterLaws a -> each_step mail_kept asked.
Proof.
  intros Hreg Ha. apply each_step_bind; [by apply kept_getConnection|]. intros c.
  assert (forall cursor, each_step mail_kept (changed c cursor)) as Hchanged.
  { intros cursor. apply each_step_bind; [by apply kept_collect|]. intros [ids k| |]; [done| |done].
    apply each_step_bind; [apply kept_accounts|intros _; by apply kept_recent]. }
  apply each_step_bind; [|done]. repeat case_match; [apply Hchanged|by apply kept_recent..].
Qed.
End Asked.

(** ** What becomes of it *)

Section Synced.
Context (randomUUID randomHex : nat -> string).
Context (simpleParser : string -> result exn Parsed) (storage_ok : nat -> bool).
Context (reg : registry D) (Hreg : lawful reg) (fuel : nat).

Abbreviation ingestion := (ingestAll randomUUID simpleParser storage_ok).

(** The ids were asked for, then ingested, and nothing was done to the rows after. *)
Definition ingested (account : MailAccount) (a : MailProviderAdapter D) (c : ProviderConnection)
    (ids : M (list string)) (w w' : world D) : Prop :=
  exists l counts w2 w3, run ids w = (Ok l, w2) /\
    run (ingestion (ma_id account) a c l) w2 = (Ok counts, w3) /\ mail_kept w3 w'.

Lemma kept_run {A} (p : M A) (w w' : world D) (r : result exn A) :
  each_step mail_kept p -> run p w = (r, w') -> mail_kept w w'.
Proof.
  intros Hp Hr. pose proof (each_step_run mail_kept p w Hp) as Hs. rewrite Hr in Hs. simpl in Hs.
  clear Hr. induction Hs as [x|x y z Hxy _ IH]; [reflexivity|]. by transitivity y.
Qed.

Lemma initial_ingests (account : MailAccount) (a : MailProviderAdapter D) (c : ProviderConnection)
    (o : SyncOutcome) (w w' : world D) :
  run (initialSync randomUUID simpleParser storage_ok account a c) w = (Ok o, w') ->
  ingested account a c (recent a c) w w'.
Proof.
  unfold initialSync. intros (p & w1 & Hp & H5)%run_bind_ok. apply run_bind_ok in H5 as (page & w2 & Hl & H6).
  apply run_bind_ok in H6 as (counts & w3 & Hi & H7). exists (lp_messageIds page), counts, w2, w3.
  split; [|split; [done|]].
  - unfold recent. by rewrite run_bind, Hp, run_bind, Hl, run_ret.
  - apply run_bind_ok in H7 as (u & w4 & Hu & [= _ <-]). eapply kept_run; [|exact Hu]. apply kept_accounts.
Qed.

Lemma incremental_ingests (account : MailAccount) (a : MailProviderAdapter D) (c : ProviderConnection)
    (cursor : string) (o : SyncOutcome) (w w' : world D) :
  run (incrementalSync randomUUID simpleParser storage_ok fuel account a c cursor) w = (Ok o, w') ->
  ingested account a c (changed fuel account a c cursor) w w'.
Proof.
  unfold incrementalSync. intros (r & w1 & Hr & H5)%run_bind_ok.
  destruct r as [ids k| |]; [| |done].
  - apply run_bind_ok in H5 as (counts & w3 & Hi & H6). exists ids, counts, w1, w3.
    split; [|split; [done|]]; [unfold changed; by rewrite run_bind, Hr, run_ret|].
    apply run_bind_ok in H6 as (u & w4 & Hu & [= _ <-]). eapply kept_run; [|exact Hu]. apply kept_accounts.
  - apply run_bind_ok in H5 as (u & w2 & Hu & H6).
    apply initial_ingests in H6 as (ids & counts & w3 & w4 & Hl & H7). exists ids, counts, w3, w4.
    split; [|done]. unfold changed. by rewrite run_bind, Hr, run_bind, Hu.
Qed.

Lemma sync_ingests (account : MailAccount) (a : MailProviderAdapter D) (o : SyncOutcome) (w w' : world D) :
  get reg (ma_provider account) = Ok a ->
  run (sync_active randomUUID simpleParser storage_ok reg fuel account) w = (Ok o, w') ->
  exists c ids counts w2 w3, run (asked reg fuel account a) w = (Ok (c, ids), w2) /\
    run (ingestion (ma_id account) a c ids) w2 = (Ok counts, w3) /\ mail_kept w3 w'.
Proof.
  unfold sync_active, asked. intros Ha (c & w1 & Hc & H5)%run_bind_ok. rewrite Ha in H5.
  apply run_bind_ok in H5 as (a' & w1' & [= <- <-] & H6). apply run_bind_ok in H6 as (out & wo & Ho & H7).
  assert (mail_kept wo w') as Hk.
  { apply run_bind_ok in H7 as (now & wn & [= _ <-] & H8).
    apply run_bind_ok in H8 as (u & wu & Hu & [= _ <-]). eapply kept_run; [|exact Hu]. apply kept_accounts. }
  rewrite run_bind, Hc.
  assert (forall p, ingested account a c p w1 wo -> exists ids counts w2 w3,
    run (let! ids := p in ret (c, ids)) w1 = (Ok (c, ids), w2) /\
    run (ingestion (ma_id account) a c ids) w2 = (Ok counts, w3) /\ mail_kept w3 w') as Hgo.
  { intros p (ids & counts & w2 & w3 & Hp & Hi & Hk3). exists ids, counts, w2, w3.
    split; [by rewrite run_bind, Hp, run_ret|]. split; [done|by transitivity wo]. }
  exists c. destruct (ma_syncCursor account) as [cursor|]; [destruct (truthy cursor)|].
  - by apply Hgo, (incremental_ingests account a c cursor out).
  - by apply Hgo, (initial_ingests account a c out).
  - by apply Hgo, (initial_ingests account a c out).
Qed.

(** A job that completes: what was asked when it started, and what its rows are then. *)
Lemma process_ingests (job : Job) (account : MailAccount) (a : MailProviderAdapter D) (o : SyncOutcome)
    (w w' : world D) :
  (forall n m, randomUUID n = randomUUID m -> n = m) -> fresh_ids randomUUID w ->
  findFirst (has_account_id (jd_accountId (j_data job))) (mailAccount (data w)) = Some account ->
  get reg (ma_provider account) = Ok a -> (forall c, answers_by_id a c) ->
  run (process randomUUID randomHex simpleParser storage_ok reg fuel job) w = (Ok o, w') ->
  exists c ids w1 w2, data w1 = data w /\ clock w1 = clock w /\
    (exists entry, calls w1 = ("log", entry) :: calls w) /\
    run (asked reg fuel account a) w1 = (Ok (c, ids), w2) /\
    (forall m, m ∈ messages_of w -> m ∈ messages_of w') /\
    forall i, i ∈ ids -> has_message (ma_id account) i w' \/
      i ∈ reported_gone randomUUID simpleParser storage_ok a c (ma_id account) ids w2.
Proof.
  intros Hinj Hfresh Hfind Ha Hans Hrun. pose proof (Hreg _ _ Ha) as Hlaws.
  destruct (run_process randomUUID randomHex simpleParser storage_ok reg fuel job w)
    as (w1 & Hd & Hu & Hcl & Hdr & E & text & Hc).
  rewrite E in Hrun. unfold syncAccount, find_account, on_accounts in Hrun. rewrite run_bind, run_query in Hrun.
  destruct (db_up w1); [|done]. cbn [fst snd] in Hrun.
  replace (with_data _ w1) with w1 in Hrun by (by destruct w1 as [[] ? ? ? ?]).
  rewrite Hd, Hfind in Hrun. destruct (bool_decide _); [|by rewrite run_throw in Hrun].
  rewrite run_try in Hrun.
  destruct (run (sync_active _ _ _ _ _ account) w1) as [[o'|e] wz] eqn:Es.
  2:{ rewrite run_bind in Hrun. by destruct (run (update_account _ _) wz) as [[]]. }
  injection Hrun as -> <-.
  apply (sync_ingests account a o) in Es as (c & ids & [[[f cr] sk] gone] & w2 & w3 & Hasked & Hi & Hk); [|done].
  assert (mail_kept w1 w2) as [E2 L2] by (by eapply kept_run; [apply kept_asked|exact Hasked]).
  assert (fresh_ids randomUUID w2) as Hfresh2.
  { intros n m Hn. unfold messages_of. rewrite E2, Hd. apply Hfresh. lia. }
  apply (run_ingestAll randomUUID simpleParser storage_ok Hinj a c) in Hi as ((Hin & _) & _ & _ & Hall); [|done|done].
  destruct Hk as [E3 _]. exists c, ids, w1, w2. split; [done|]. split; [done|]. split; [by eexists|].
  split; [done|]. unfold has_message, messages_of in *. rewrite E3. split; [|done].
  intros m Hm. apply Hin. by rewrite E2, Hd.
Qed.

(** C20: new mail reaches the page: once the job of a sync has completed, a user who loads
    the messages of the mailbox has a row for each that the provider named when the job ran,
    unless the provider reported it gone in this run, and for each there was before, whatever else arrives
    while the pages are loaded. *)
Theorem synced_mail_shown (N : nat) (userId : string) (job : Job) (account : MailAccount)
    (a : MailProviderAdapter D) (o : SyncOutcome) (w w' : world D) (cf : config)
    (r : result exn (list MessagePage)) :
  (forall n m, randomUUID n = randomUUID m -> n = m) -> fresh_ids randomUUID w ->
  findFirst (has_account_id (jd_accountId (j_data job))) (mailAccount (data w)) = Some account ->
  get reg (ma_provider account) = Ok a -> (forall c, answers_by_id a c) ->
  run (process randomUUID randomHex simpleParser storage_ok reg fuel job) w = (Ok o, w') ->
  path_segment (ma_id account) -> truthy (ma_id account) = true ->
  mailbox_ok N userId (ma_id account) w' ->
  rtc (cstep (arrives N userId (ma_id account))) ([load_all userId (ma_id account) (S N) None], w') cf ->
  cf.1 = [Done r] ->
  exists c ids w1 w2 ps ms, data w1 = data w /\ clock w1 = clock w /\
    (exists entry, calls w1 = ("log", entry) :: calls w) /\
    run (asked reg fuel account a) w1 = (Ok (c, ids), w2) /\
    r = Ok ps /\ rows_of ps = List.map message_summary ms /\
    (forall i, i ∈ ids ->
       (exists m, m ∈ ms /\ is_message (ma_id account) i m = true) \/
       i ∈ reported_gone randomUUID simpleParser storage_ok a c (ma_id account) ids w2) /\
    forall m, m ∈ messages_of w -> m_accountId m = ma_id account -> m ∈ ms.
Proof.
  intros Hinj Hfresh Hfind Ha Hans Hrun Hp Ht Hok Hreach Hr.
  destruct (process_ingests job account a o w w' Hinj Hfresh Hfind Ha Hans Hrun)
    as (c & ids & w1 & w2 & Hd & Hcl & Hlog & Hasked & Hkeep & Hall).
  destruct (alone_rg _ _ _ _ _ _ (wp_panel N userId (ma_id account) w' Hp Ht Hok) Hreach Hr)
    as (_ & _ & ms & E & _ & _ & _ & Hshown).
  destruct r as [ps|e]; [|done]. injection E as E. exists c, ids, w1, w2, ps, ms.
  do 6 (split; [done|]). split.
  - intros i Hi. destruct (Hall i Hi) as [(m & Hm & Hk)|Hg]; [left|by right].
    exists m. split; [|done]. apply Hshown; [done| |done].
    by apply andb_true_iff in Hk as [Hk _]; apply bool_decide_eq_true in Hk.
  - intros m Hm Hi. apply Hshown; [by apply Hkeep|done|done].
Qed.
End Synced.
End Kept.

(** ** A concrete morning

    The first sync of a mailbox of which the provider names three messages and has two. *)

Module Morning.
Definition hex (n : nat) : string := "hex".

Definition ran : result exn SyncOutcome * world Vault.db :=
  Eval vm_compute in
    run (process Mailbox.uuid hex Mailbox.simpleParser Mailbox.storage_ok Mailbox.reg 3 Jobs.job) Mailbox.w0.

Definition loaded : result exn (list MessagePage) :=
  Eval vm_compute in fst (run (load_all "u1" "a1" 3 None) ran.2).

Lemma synced_mailbox : mailbox_ok 2 "u1" "a1" ran.2.
Proof.
  split; [reflexivity|reflexivity| | |unfold messages_of; simpl; lia].
  - apply (bool_decide_unpack _). vm_compute. exact I.
  - intros m Hm. assert (Forall (fun m => truthy (m_id m) = true) (messages_of ran.2)) as Hall
      by (repeat constructor).
    by apply (proj1 (Forall_forall _ _) Hall).
Qed.
End Morning.

Lemma synced_mail_shown_witness :
  exists ps, Morning.loaded = Ok ps /\ length (rows_of ps) = 2.
Proof.
  destruct (synced_mail_shown Mailbox.uuid Morning.hex Mailbox.simpleParser Mailbox.storage_ok Mailbox.reg
    Mailbox.lawful_reg 3 2 "u1" Jobs.job Mailbox.box Mailbox.provider
    (mkOutcome "a1" "initial" 3 2 0 1) Mailbox.w0 Morning.ran.2
    (schedule (replicate 4 0) ([load_all "u1" "a1" 3 None], Morning.ran.2)) Morning.loaded)
    as (c & ids & w1 & w2 & ps & ms & _ & _ & _ & _ & E & _).
  - exact Mailbox.uuid_inj.
  - intros n m _ Hm. inversion Hm.
  - reflexivity.
  - reflexivity.
  - intros c i r w w' E. injection E as E _. case_bool_decide; [discriminate|]. by injection E as <-.
  - vm_compute. reflexivity.
  - split; reflexivity.
  - reflexivity.
  - exact Morning.synced_mailbox.
  - apply schedule_reachable.
  - vm_compute. reflexivity.
  - exists ps. split; [exact E|]. injection E as <-. reflexivity.
Defined.
