(* ===== verification/Widgets.v ===== *)
(** * The widgets of the web application

    [apps/web/src/components/ui]: the components that the views are made of, from the
    properties and the children they are given to the elements of Base UI
    ([MenuPrimitive], [SheetPrimitive], ...), of Lucide and of HTML they return.  An
    object of properties is a list of them, in no order; one that is [undefined] is
    left out, as React treats it. *)

From S2P Require Import Prelude Js World RefreshTokens Auth Mail Accounts Messages Views WebApp.

Set Default Proof Using "Type*".

Abbreviation properties := (list (string * prop)).

Definition prop_of (name : string) (ps : properties) : option prop :=
  snd <$> List.find (fun p => bool_decide (p.1 = name)) ps.

Definition text_of (name : string) (ps : properties) : option string :=
  match prop_of name ps with Some (Str s) => Some s | _ => None end.

(** [{ name: d, ...ps }.name]: the default of a parameter. *)
Definition or_default (name : string) (d : prop) (ps : properties) : prop := default d (prop_of name ps).

(** [name={value}] *)
Definition given (name : string) (value : option prop) : properties :=
  match value with Some v => [(name, v)] | None => [] end.

(** [({ names, ...rest })] *)
Definition rest (names : list string) (ps : properties) : properties :=
  List.filter (fun p => negb (bool_decide (p.1 ∈ names))) ps.

(** [{ ...own, ...ps }] *)
Definition spread (own ps : properties) : properties :=
  List.filter (fun p => is_none (prop_of p.1 ps)) own ++ ps.

(** *** Class names

    [cn] of the package of that name, and [cva] of class-variance-authority: of the base
    classes, the classes of each variant, the variants by default, and what is chosen. *)

Abbreviation variants := (list (string * list (string * string))).

Class ClassNames := {
  cn : list (option string) -> string;
  cva : string -> variants -> list (string * string) -> list (string * option string) -> string;
}.

(** *** Base UI's hooks

    [mergeProps], and [useRender] without its defaults: the tag, the properties, the
    children, the element to render instead, and the state. *)
Class Rendering := {
  mergeProps : properties -> properties -> properties;
  useRender : string -> properties -> list node -> option prop -> properties -> node;
}.

(** Objects that share no property are joined; and without an element to render
    instead, the tag is rendered with the properties, and attributes for the state. *)
Class RenderingLaws `{Rendering} : Prop := {
  merge_disjoint ps qs : (forall p q, p ∈ ps -> q ∈ qs -> p.1 <> q.1) -> mergeProps ps qs = ps ++ qs;
  render_default tag ps children state : exists attributes,
    Forall (fun p => starts_with "data-" p.1 = true /\ exists s, p.2 = Str s) attributes /\
    useRender tag ps children None state = El tag (spread attributes ps) children;
}.

Section Widgets.
Context `{ClassNames} `{Rendering}.

(** The [className] of an element with classes of its own, given more by the caller. *)
Definition classes (own : string) (ps : properties) : string * prop :=
  ("className", Str (cn [Some own; text_of "className" ps])).

(** ** alert.tsx *)

Definition alert_variants : variants :=
  [("variant", [
    ("default", "bg-card text-card-foreground");
    ("destructive", "bg-card text-destructive *:data-[slot=alert-description]:text-destructive/90 *:[svg]:text-current")])].

Definition alertVariants (variant : option string) : string :=
  cva "group/alert relative grid w-full gap-0.5 rounded-lg border px-2.5 py-2 text-left text-sm has-data-[slot=alert-action]:relative has-data-[slot=alert-action]:pr-18 has-[>svg]:grid-cols-[auto_1fr] has-[>svg]:gap-x-2 *:[svg]:row-span-2 *:[svg]:translate-y-0.5 *:[svg]:text-current *:[svg:not([class*='size-'])]:size-4"
    alert_variants [("variant", "default")] [("variant", variant)].

Definition Alert (ps : properties) (children : list node) : node :=
  El "div" (spread [("data-slot", Str "alert"); ("role", Str "alert");
    classes (alertVariants (text_of "variant" ps)) ps] (rest ["className"; "variant"] ps)) children.

Definition AlertTitle (ps : properties) (children : list node) : node :=
  El "div" (spread [("data-slot", Str "alert-title"); classes
    "font-medium group-has-[>svg]/alert:col-start-2 [&_a]:underline [&_a]:underline-offset-3 [&_a]:hover:text-foreground" ps]
    (rest ["className"] ps)) children.

Definition AlertDescription (ps : properties) (children : list node) : node :=
  El "div" (spread [("data-slot", Str "alert-description"); classes
    "text-sm text-balance text-muted-foreground md:text-pretty [&_a]:underline [&_a]:underline-offset-3 [&_a]:hover:text-foreground [&_p:not(:last-child)]:mb-4" ps]
    (rest ["className"] ps)) children.

Definition AlertAction (ps : properties) (children : list node) : node :=
  El "div" (spread [("data-slot", Str "alert-action"); classes "absolute top-2 right-2" ps]
    (rest ["className"] ps)) children.

(** ** badge.tsx *)

Definition badge_variants : variants :=
  [("variant", [
    ("default", "bg-primary text-primary-foreground [a]:hover:bg-primary/80");
    ("secondary", "bg-secondary text-secondary-foreground [a]:hover:bg-secondary/80");
    ("destructive", "bg-destructive/10 text-destructive focus-visible:ring-destructive/20 dark:bg-destructive/20 dark:focus-visible:ring-destructive/40 [a]:hover:bg-destructive/20");
    ("outline", "border-border text-foreground [a]:hover:bg-muted [a]:hover:text-muted-foreground");
    ("ghost", "hover:bg-muted hover:text-muted-foreground dark:hover:bg-muted/50");
    ("link", "text-primary underline-offset-4 hover:underline")])].

Definition badgeVariants (variant : option string) : string :=
  cva "group/badge inline-flex h-5 w-fit shrink-0 items-center justify-center gap-1 overflow-hidden rounded-4xl border border-transparent px-2 py-0.5 text-xs font-medium whitespace-nowrap transition-all focus-visible:border-ring focus-visible:ring-[3px] focus-visible:ring-ring/50 has-data-[icon=inline-end]:pr-1.5 has-data-[icon=inline-start]:pl-1.5 aria-invalid:border-destructive aria-invalid:ring-destructive/20 dark:aria-invalid:ring-destructive/40 [&>svg]:pointer-events-none [&>svg]:size-3!"
    badge_variants [("variant", "default")] [("variant", variant)].

Definition Badge (ps : properties) (children : list node) : node :=
  let variant := or_default "variant" (Str "default") ps in
  useRender "span"
    (mergeProps [classes (badgeVariants (Some (default "default" (text_of "variant" ps)))) ps]
       (rest ["className"; "variant"; "render"] ps))
    children (prop_of "render" ps) [("slot", Str "badge"); ("variant", variant)].

(** ** button.tsx *)

Definition button_variants : variants :=
  [("variant", [
    ("default", "bg-primary text-primary-foreground hover:bg-primary/80");
    ("outline", "border-border bg-background hover:bg-muted hover:text-foreground aria-expanded:bg-muted aria-expanded:text-foreground dark:border-input dark:bg-input/30 dark:hover:bg-input/50");
    ("secondary", "bg-secondary text-secondary-foreground hover:bg-[color-mix(in_oklch,var(--secondary),var(--foreground)_5%)] aria-expanded:bg-secondary aria-expanded:text-secondary-foreground");
    ("ghost", "hover:bg-muted hover:text-foreground aria-expanded:bg-muted aria-expanded:text-foreground dark:hover:bg-muted/50");
    ("destructive", "bg-destructive/10 text-destructive hover:bg-destructive/20 focus-visible:border-destructive/40 focus-visible:ring-destructive/20 dark:bg-destructive/20 dark:hover:bg-destructive/30 dark:focus-visible:ring-destructive/40");
    ("link", "text-primary underline-offset-4 hover:underline")]);
   ("size", [
    ("default", "h-8 gap-1.5 px-2.5 has-data-[icon=inline-end]:pr-2 has-data-[icon=inline-start]:pl-2");
    ("xs", "h-6 gap-1 rounded-[min(var(--radius-md),10px)] px-2 text-xs in-data-[slot=button-group]:rounded-lg has-data-[icon=inline-end]:pr-1.5 has-data-[icon=inline-start]:pl-1.5 [&_svg:not([class*='size-'])]:size-3");
    ("sm", "h-7 gap-1 rounded-[min(var(--radius-md),12px)] px-2.5 text-[0.8rem] in-data-[slot=button-group]:rounded-lg has-data-[icon=inline-end]:pr-1.5 has-data-[icon=inline-start]:pl-1.5 [&_svg:not([class*='size-'])]:size-3.5");
    ("lg", "h-9 gap-1.5 px-2.5 has-data-[icon=inline-end]:pr-2 has-data-[icon=inline-start]:pl-2");
    ("icon", "size-8");
    ("icon-xs", "size-6 rounded-[min(var(--radius-md),10px)] in-data-[slot=button-group]:rounded-lg [&_svg:not([class*='size-'])]:size-3");
    ("icon-sm", "size-7 rounded-[min(var(--radius-md),12px)] in-data-[slot=button-group]:rounded-lg");
    ("icon-lg", "size-9")])].

Definition buttonVariants (variant size className : option string) : string :=
  cva "group/button inline-flex shrink-0 items-center justify-center rounded-lg border border-transparent bg-clip-padding text-sm font-medium whitespace-nowrap transition-all outline-none select-none focus-visible:border-ring focus-visible:ring-3 focus-visible:ring-ring/50 active:not-aria-[haspopup]:translate-y-px disabled:pointer-events-none disabled:opacity-50 aria-invalid:border-destructive aria-invalid:ring-3 aria-invalid:ring-destructive/20 dark:aria-invalid:border-destructive/50 dark:aria-invalid:ring-destructive/40 [&_svg]:pointer-events-none [&_svg]:shrink-0 [&_svg:not([class*='size-'])]:size-4"
    button_variants [("variant", "default"); ("size", "default")]
    [("variant", variant); ("size", size); ("className", className)].

Definition Button (ps : properties) (children : list node) : node :=
  El "ButtonPrimitive" (spread [("data-slot", Str "button"); ("className", Str (cn [Some (buttonVariants
      (Some (default "default" (text_of "variant" ps))) (Some (default "default" (text_of "size" ps)))
      (text_of "className" ps))]))]
    (rest ["className"; "variant"; "size"] ps)) children.

(** ** card.tsx *)

Definition Card (ps : properties) (children : list node) : node :=
  El "div" (spread [("data-slot", Str "card"); ("data-size", or_default "size" (Str "default") ps); classes
    "group/card flex flex-col gap-(--card-spacing) overflow-hidden rounded-xl bg-card py-(--card-spacing) text-sm text-card-foreground ring-1 ring-foreground/10 [--card-spacing:--spacing(4)] has-data-[slot=card-footer]:pb-0 has-[>img:first-child]:pt-0 data-[size=sm]:[--card-spacing:--spacing(3)] data-[size=sm]:has-data-[slot=card-footer]:pb-0 *:[img:first-child]:rounded-t-xl *:[img:last-child]:rounded-b-xl" ps]
    (rest ["className"; "size"] ps)) children.

Definition CardHeader (ps : properties) (children : list node) : node :=
  El "div" (spread [("data-slot", Str "card-header"); classes
    "group/card-header @container/card-header grid auto-rows-min items-start gap-1 rounded-t-xl px-(--card-spacing) has-data-[slot=card-action]:grid-cols-[1fr_auto] has-data-[slot=card-description]:grid-rows-[auto_auto] [.border-b]:pb-(--card-spacing)" ps]
    (rest ["className"] ps)) children.

Definition CardTitle (ps : properties) (children : list node) : node :=
  El "div" (spread [("data-slot", Str "card-title"); classes
    "font-heading text-base leading-snug font-medium group-data-[size=sm]/card:text-sm" ps]
    (rest ["className"] ps)) children.

Definition CardDescription (ps : properties) (children : list node) : node :=
  El "div" (spread [("data-slot", Str "card-description"); classes "text-sm text-muted-foreground" ps]
    (rest ["className"] ps)) children.

Definition CardAction (ps : properties) (children : list node) : node :=
  El "div" (spread [("data-slot", Str "card-action"); classes
    "col-start-2 row-span-2 row-start-1 self-start justify-self-end" ps]
    (rest ["className"] ps)) children.

Definition CardContent (ps : properties) (children : list node) : node :=
  El "div" (spread [("data-slot", Str "card-content"); classes "px-(--card-spacing)" ps]
    (rest ["className"] ps)) children.

Definition CardFooter (ps : properties) (children : list node) : node :=
  El "div" (spread [("data-slot", Str "card-footer"); classes
    "flex items-center rounded-b-xl border-t bg-muted/50 p-(--card-spacing)" ps]
    (rest ["className"] ps)) children.

(** ** input.tsx, label.tsx, skeleton.tsx *)

Definition Input (ps : properties) (children : list node) : node :=
  El "InputPrimitive" (spread (given "type" (prop_of "type" ps) ++ [("data-slot", Str "input"); classes
    "h-8 w-full min-w-0 rounded-lg border border-input bg-transparent px-2.5 py-1 text-base transition-colors outline-none file:inline-flex file:h-6 file:border-0 file:bg-transparent file:text-sm file:font-medium file:text-foreground placeholder:text-muted-foreground focus-visible:border-ring focus-visible:ring-3 focus-visible:ring-ring/50 disabled:pointer-events-none disabled:cursor-not-allowed disabled:bg-input/50 disabled:opacity-50 aria-invalid:border-destructive aria-invalid:ring-3 aria-invalid:ring-destructive/20 md:text-sm dark:bg-input/30 dark:disabled:bg-input/80 dark:aria-invalid:border-destructive/50 dark:aria-invalid:ring-destructive/40" ps])
    (rest ["className"; "type"] ps)) children.

Definition Label (ps : properties) (children : list node) : node :=
  El "label" (spread [("data-slot", Str "label"); classes
    "flex items-center gap-2 text-sm leading-none font-medium select-none group-data-[disabled=true]:pointer-events-none group-data-[disabled=true]:opacity-50 peer-disabled:cursor-not-allowed peer-disabled:opacity-50" ps]
    (rest ["className"] ps)) children.

Definition Skeleton (ps : properties) (children : list node) : node :=
  El "div" (spread [("data-slot", Str "skeleton"); classes "animate-pulse rounded-md bg-muted" ps]
    (rest ["className"] ps)) children.

(** ** dropdown-menu.tsx *)

Definition DropdownMenu (ps : properties) (children : list node) : node :=
  El "MenuPrimitive.Root" (spread [("data-slot", Str "dropdown-menu")] ps) children.

Definition DropdownMenuPortal (ps : properties) (children : list node) : node :=
  El "MenuPrimitive.Portal" (spread [("data-slot", Str "dropdown-menu-portal")] ps) children.

Definition DropdownMenuTrigger (ps : properties) (children : list node) : node :=
  El "MenuPrimitive.Trigger" (spread [("data-slot", Str "dropdown-menu-trigger")] ps) children.

Definition DropdownMenuContent (ps : properties) (children : list node) : node :=
  El "MenuPrimitive.Portal" [] [
    El "MenuPrimitive.Positioner" [("className", Str "isolate z-50 outline-none");
        ("align", or_default "align" (Str "start") ps); ("alignOffset", or_default "alignOffset" (Num 0) ps);
        ("side", or_default "side" (Str "bottom") ps); ("sideOffset", or_default "sideOffset" (Num 4) ps)] [
      El "MenuPrimitive.Popup" (spread [("data-slot", Str "dropdown-menu-content"); classes
        "z-50 max-h-(--available-height) w-(--anchor-width) min-w-32 origin-(--transform-origin) overflow-x-hidden overflow-y-auto rounded-lg bg-popover p-1 text-popover-foreground shadow-md ring-1 ring-foreground/10 duration-100 outline-none data-[side=bottom]:slide-in-from-top-2 data-[side=inline-end]:slide-in-from-left-2 data-[side=inline-start]:slide-in-from-right-2 data-[side=left]:slide-in-from-right-2 data-[side=right]:slide-in-from-left-2 data-[side=top]:slide-in-from-bottom-2 data-open:animate-in data-open:fade-in-0 data-open:zoom-in-95 data-closed:animate-out data-closed:overflow-hidden data-closed:fade-out-0 data-closed:zoom-out-95" ps]
        (rest ["align"; "alignOffset"; "side"; "sideOffset"; "className"] ps)) children]].

Definition DropdownMenuGroup (ps : properties) (children : list node) : node :=
  El "MenuPrimitive.Group" (spread [("data-slot", Str "dropdown-menu-group")] ps) children.

Definition DropdownMenuLabel (ps : properties) (children : list node) : node :=
  El "MenuPrimitive.GroupLabel" (spread ([("data-slot", Str "dropdown-menu-label")] ++
    given "data-inset" (prop_of "inset" ps) ++ [classes
    "px-1.5 py-1 text-xs font-medium text-muted-foreground data-inset:pl-7" ps])
    (rest ["className"; "inset"] ps)) children.

Definition DropdownMenuItem (ps : properties) (children : list node) : node :=
  El "MenuPrimitive.Item" (spread ([("data-slot", Str "dropdown-menu-item")] ++
    given "data-inset" (prop_of "inset" ps) ++ [("data-variant", or_default "variant" (Str "default") ps); classes
    "group/dropdown-menu-item relative flex cursor-default items-center gap-1.5 rounded-md px-1.5 py-1 text-sm outline-hidden select-none focus:bg-accent focus:text-accent-foreground not-data-[variant=destructive]:focus:**:text-accent-foreground data-inset:pl-7 data-[variant=destructive]:text-destructive data-[variant=destructive]:focus:bg-destructive/10 data-[variant=destructive]:focus:text-destructive dark:data-[variant=destructive]:focus:bg-destructive/20 data-disabled:pointer-events-none data-disabled:opacity-50 [&_svg]:pointer-events-none [&_svg]:shrink-0 [&_svg:not([class*='size-'])]:size-4 data-[variant=destructive]:*:[svg]:text-destructive" ps])
    (rest ["className"; "inset"; "variant"] ps)) children.

Definition DropdownMenuSub (ps : properties) (children : list node) : node :=
  El "MenuPrimitive.SubmenuRoot" (spread [("data-slot", Str "dropdown-menu-sub")] ps) children.

Definition DropdownMenuSubTrigger (ps : properties) (children : list node) : node :=
  El "MenuPrimitive.SubmenuTrigger" (spread ([("data-slot", Str "dropdown-menu-sub-trigger")] ++
    given "data-inset" (prop_of "inset" ps) ++ [classes
    "flex cursor-default items-center gap-1.5 rounded-md px-1.5 py-1 text-sm outline-hidden select-none focus:bg-accent focus:text-accent-foreground not-data-[variant=destructive]:focus:**:text-accent-foreground data-inset:pl-7 data-popup-open:bg-accent data-popup-open:text-accent-foreground data-open:bg-accent data-open:text-accent-foreground [&_svg]:pointer-events-none [&_svg]:shrink-0 [&_svg:not([class*='size-'])]:size-4" ps])
    (rest ["className"; "inset"] ps))
    (children ++ [El "ChevronRightIcon" [("className", Str "ml-auto")] []]).

Definition DropdownMenuSubContent (ps : properties) (children : list node) : node :=
  DropdownMenuContent (spread [("data-slot", Str "dropdown-menu-sub-content"); classes
    "w-auto min-w-[96px] rounded-lg bg-popover p-1 text-popover-foreground shadow-lg ring-1 ring-foreground/10 duration-100 data-[side=bottom]:slide-in-from-top-2 data-[side=left]:slide-in-from-right-2 data-[side=right]:slide-in-from-left-2 data-[side=top]:slide-in-from-bottom-2 data-open:animate-in data-open:fade-in-0 data-open:zoom-in-95 data-closed:animate-out data-closed:fade-out-0 data-closed:zoom-out-95" ps;
    ("align", or_default "align" (Str "start") ps); ("alignOffset", or_default "alignOffset" (Num (-3)) ps);
    ("side", or_default "side" (Str "right") ps); ("sideOffset", or_default "sideOffset" (Num 0) ps)]
    (rest ["align"; "alignOffset"; "side"; "sideOffset"; "className"] ps)) children.

Definition DropdownMenuCheckboxItem (ps : properties) (children : list node) : node :=
  El "MenuPrimitive.CheckboxItem" (spread ([("data-slot", Str "dropdown-menu-checkbox-item")] ++
    given "data-inset" (prop_of "inset" ps) ++ [classes
    "relative flex cursor-default items-center gap-1.5 rounded-md py-1 pr-8 pl-1.5 text-sm outline-hidden select-none focus:bg-accent focus:text-accent-foreground focus:**:text-accent-foreground data-inset:pl-7 data-disabled:pointer-events-none data-disabled:opacity-50 [&_svg]:pointer-events-none [&_svg]:shrink-0 [&_svg:not([class*='size-'])]:size-4" ps] ++
    given "checked" (prop_of "checked" ps))
    (rest ["className"; "checked"; "inset"] ps))
    (El "span" [("className", Str "pointer-events-none absolute right-2 flex items-center justify-center");
        ("data-slot", Str "dropdown-menu-checkbox-item-indicator")]
       [El "MenuPrimitive.CheckboxItemIndicator" [] [El "CheckIcon" [] []]] :: children).

Definition DropdownMenuRadioGroup (ps : properties) (children : list node) : node :=
  El "MenuPrimitive.RadioGroup" (spread [("data-slot", Str "dropdown-menu-radio-group")] ps) children.

Definition DropdownMenuRadioItem (ps : properties) (children : list node) : node :=
  El "MenuPrimitive.RadioItem" (spread ([("data-slot", Str "dropdown-menu-radio-item")] ++
    given "data-inset" (prop_of "inset" ps) ++ [classes
    "relative flex cursor-default items-center gap-1.5 rounded-md py-1 pr-8 pl-1.5 text-sm outline-hidden select-none focus:bg-accent focus:text-accent-foreground focus:**:text-accent-foreground data-inset:pl-7 data-disabled:pointer-events-none data-disabled:opacity-50 [&_svg]:pointer-events-none [&_svg]:shrink-0 [&_svg:not([class*='size-'])]:size-4" ps])
    (rest ["className"; "inset"] ps))
    (El "span" [("className", Str "pointer-events-none absolute right-2 flex items-center justify-center");
        ("data-slot", Str "dropdown-menu-radio-item-indicator")]
       [El "MenuPrimitive.RadioItemIndicator" [] [El "CheckIcon" [] []]] :: children).

Definition DropdownMenuSeparator (ps : properties) (children : list node) : node :=
  El "MenuPrimitive.Separator" (spread [("data-slot", Str "dropdown-menu-separator"); classes "-mx-1 my-1 h-px bg-border" ps]
    (rest ["className"] ps)) children.

Definition DropdownMenuShortcut (ps : properties) (children : list node) : node :=
  El "span" (spread [("data-slot", Str "dropdown-menu-shortcut"); classes
    "ml-auto text-xs tracking-widest text-muted-foreground group-focus/dropdown-menu-item:text-accent-foreground" ps]
    (rest ["className"] ps)) children.

(** ** sheet.tsx *)

Definition Sheet (ps : properties) (children : list node) : node :=
  El "SheetPrimitive.Root" (spread [("data-slot", Str "sheet")] ps) children.

Definition SheetTrigger (ps : properties) (children : list node) : node :=
  El "SheetPrimitive.Trigger" (spread [("data-slot", Str "sheet-trigger")] ps) children.

Definition SheetClose (ps : properties) (children : list node) : node :=
  El "SheetPrimitive.Close" (spread [("data-slot", Str "sheet-close")] ps) children.

Definition SheetPortal (ps : properties) (children : list node) : node :=
  El "SheetPrimitive.Portal" (spread [("data-slot", Str "sheet-portal")] ps) children.

Definition SheetOverlay (ps : properties) (children : list node) : node :=
  El "SheetPrimitive.Backdrop" (spread [("data-slot", Str "sheet-overlay"); classes
    "fixed inset-0 z-50 bg-black/10 transition-opacity duration-150 data-ending-style:opacity-0 data-starting-style:opacity-0 supports-backdrop-filter:backdrop-blur-xs" ps]
    (rest ["className"] ps)) children.

Definition close_button : node :=
  El "SheetPrimitive.Close" [("data-slot", Str "sheet-close");
    ("render", Elem (Button [("variant", Str "ghost"); ("className", Str "absolute top-3 right-3"); ("size", Str "icon-sm")] []))]
    [El "XIcon" [] []; El "span" [("className", Str "sr-only")] [Text "Close"]].

Definition SheetContent (ps : properties) (children : list node) : node :=
  let showCloseButton := match prop_of "showCloseButton" ps with Some (Flag b) => b | _ => true end in
  SheetPortal [] [
    SheetOverlay [] [];
    El "SheetPrimitive.Popup" (spread [("data-slot", Str "sheet-content"); ("data-side", or_default "side" (Str "right") ps); classes
      "fixed z-50 flex flex-col gap-4 bg-popover bg-clip-padding text-sm text-popover-foreground shadow-lg transition duration-200 ease-in-out data-ending-style:opacity-0 data-starting-style:opacity-0 data-[side=bottom]:inset-x-0 data-[side=bottom]:bottom-0 data-[side=bottom]:h-auto data-[side=bottom]:border-t data-[side=bottom]:data-ending-style:translate-y-[2.5rem] data-[side=bottom]:data-starting-style:translate-y-[2.5rem] data-[side=left]:inset-y-0 data-[side=left]:left-0 data-[side=left]:h-full data-[side=left]:w-3/4 data-[side=left]:border-r data-[side=left]:data-ending-style:translate-x-[-2.5rem] data-[side=left]:data-starting-style:translate-x-[-2.5rem] data-[side=right]:inset-y-0 data-[side=right]:right-0 data-[side=right]:h-full data-[side=right]:w-3/4 data-[side=right]:border-l data-[side=right]:data-ending-style:translate-x-[2.5rem] data-[side=right]:data-starting-style:translate-x-[2.5rem] data-[side=top]:inset-x-0 data-[side=top]:top-0 data-[side=top]:h-auto data-[side=top]:border-b data-[side=top]:data-ending-style:translate-y-[-2.5rem] data-[side=top]:data-starting-style:translate-y-[-2.5rem] data-[side=left]:sm:max-w-sm data-[side=right]:sm:max-w-sm" ps]
      (rest ["className"; "side"; "showCloseButton"] ps)) (children ++ when showCloseButton close_button)].

Definition SheetHeader (ps : properties) (children : list node) : node :=
  El "div" (spread [("data-slot", Str "sheet-header"); classes "flex flex-col gap-0.5 p-4" ps]
    (rest ["className"] ps)) children.

Definition SheetFooter (ps : properties) (children : list node) : node :=
  El "div" (spread [("data-slot", Str "sheet-footer"); classes "mt-auto flex flex-col gap-2 p-4" ps]
    (rest ["className"] ps)) children.

Definition SheetTitle (ps : properties) (children : list node) : node :=
  El "SheetPrimitive.Title" (spread [("data-slot", Str "sheet-title"); classes "font-heading text-base font-medium text-foreground" ps]
    (rest ["className"] ps)) children.

Definition SheetDescription (ps : properties) (children : list node) : node :=
  El "SheetPrimitive.Description" (spread [("data-slot", Str "sheet-description"); classes "text-sm text-muted-foreground" ps]
    (rest ["className"] ps)) children.

(** ** A page, down to the elements *)

(** A component by its name, with the properties it reads instead of passing them on. *)
Record widget := mkWidget {
  wg_name : string;
  wg_reads : list string;
  wg_render : properties -> list node -> node;
}.

Definition widgets : list widget := [
  mkWidget "Alert" ["className"; "variant"] Alert;
  mkWidget "AlertTitle" ["className"] AlertTitle;
  mkWidget "AlertDescription" ["className"] AlertDescription;
  mkWidget "AlertAction" ["className"] AlertAction;
  mkWidget "Badge" ["className"; "variant"; "render"] Badge;
  mkWidget "Button" ["className"; "variant"; "size"] Button;
  mkWidget "Card" ["className"; "size"] Card;
  mkWidget "CardHeader" ["className"] CardHeader;
  mkWidget "CardTitle" ["className"] CardTitle;
  mkWidget "CardDescription" ["className"] CardDescription;
  mkWidget "CardAction" ["className"] CardAction;
  mkWidget "CardContent" ["className"] CardContent;
  mkWidget "CardFooter" ["className"] CardFooter;
  mkWidget "Input" ["className"] Input;
  mkWidget "Label" ["className"] Label;
  mkWidget "Skeleton" ["className"] Skeleton;
  mkWidget "DropdownMenu" [] DropdownMenu;
  mkWidget "DropdownMenuPortal" [] DropdownMenuPortal;
  mkWidget "DropdownMenuTrigger" [] DropdownMenuTrigger;
  mkWidget "DropdownMenuContent" ["align"; "alignOffset"; "side"; "sideOffset"; "className"] DropdownMenuContent;
  mkWidget "DropdownMenuGroup" [] DropdownMenuGroup;
  mkWidget "DropdownMenuLabel" ["className"; "inset"] DropdownMenuLabel;
  mkWidget "DropdownMenuItem" ["className"; "inset"; "variant"] DropdownMenuItem;
  mkWidget "DropdownMenuSub" [] DropdownMenuSub;
  mkWidget "DropdownMenuSubTrigger" ["className"; "inset"] DropdownMenuSubTrigger;
  mkWidget "DropdownMenuSubContent" ["align"; "alignOffset"; "side"; "sideOffset"; "className"] DropdownMenuSubContent;
  mkWidget "DropdownMenuCheckboxItem" ["className"; "inset"] DropdownMenuCheckboxItem;
  mkWidget "DropdownMenuRadioGroup" [] DropdownMenuRadioGroup;
  mkWidget "DropdownMenuRadioItem" ["className"; "inset"] DropdownMenuRadioItem;
  mkWidget "DropdownMenuSeparator" ["className"] DropdownMenuSeparator;
  mkWidget "DropdownMenuShortcut" ["className"] DropdownMenuShortcut;
  mkWidget "Sheet" [] Sheet;
  mkWidget "SheetTrigger" [] SheetTrigger;
  mkWidget "SheetClose" [] SheetClose;
  mkWidget "SheetPortal" [] SheetPortal;
  mkWidget "SheetOverlay" ["className"] SheetOverlay;
  mkWidget "SheetContent" ["className"; "side"; "showCloseButton"] SheetContent;
  mkWidget "SheetHeader" ["className"] SheetHeader;
  mkWidget "SheetFooter" ["className"] SheetFooter;
  mkWidget "SheetTitle" ["className"] SheetTitle;
  mkWidget "SheetDescription" ["className"] SheetDescription].

Definition widget_of (tag : string) : option widget :=
  List.find (fun w => bool_decide (wg_name w = tag)) widgets.

(** [createElement(tag, ps, ...children)], rendered *)
Definition rendered (tag : string) (ps : properties) (children : list node) : node :=
  match widget_of tag with Some w => wg_render w ps children | None => El tag ps children end.

Fixpoint expand (n : node) : node :=
  match n with
  | Text s => Text s
  | El tag ps children =>
      rendered tag (List.map (fun p => (p.1, expand_prop p.2)) ps) (List.map expand children)
  end
with expand_prop (p : prop) : prop :=
  match p with Elem n => Elem (expand n) | _ => p end.
End Widgets.

(** ** Trees *)

(** Induction on a tree, with what is known of all its children. *)
Fixpoint node_children_ind (P : node -> Prop) (HT : forall s, P (Text s))
    (HE : forall tag ps children, Forall P children -> P (El tag ps children)) (n : node) : P n :=
  match n with
  | Text s => HT s
  | El tag ps children => HE tag ps children
      ((fix all (l : list node) : Forall P l :=
          match l with [] => @List.Forall_nil _ P | c :: l' => @List.Forall_cons _ P c l' (node_children_ind P HT HE c) (all l') end)
         children)
  end.

(** [n] is in the tree of the last. *)
Inductive inside (n : node) : node -> Prop :=
| inside_here : inside n n
| inside_child tag ps children c : c ∈ children -> inside n c -> inside n (El tag ps children).

(** ** Properties *)

(** A property without a handler, and properties that change nothing of what is offered. *)
Definition plain (v : prop) : bool :=
  match v with On _ | OnValue _ | OnOpenChange _ => false | _ => true end.

Definition quiet (ps : properties) : Prop := Forall (fun p => plain p.2 = true /\ p.1 <> "disabled") ps.

(** React's convention: a property that holds a handler is called on-something. *)
Definition by_convention (ps : properties) : bool := forallb (fun p => plain p.2 || starts_with "on" p.1) ps.

(** ... and a badge is never told to render as something else. *)
Fixpoint conventional (n : node) : bool :=
  match n with
  | Text _ => true
  | El tag ps children =>
      by_convention ps && (negb (bool_decide (tag = "Badge")) || is_none (prop_of "render" ps))
      && forallb conventional children
  end.

Lemma prop_of_app (name : string) (ps qs : properties) :
  prop_of name (ps ++ qs) = match prop_of name ps with Some v => Some v | None => prop_of name qs end.
Proof. unfold prop_of. induction ps as [|p ps IH]; [done|]. simpl. by case_bool_decide. Qed.

Lemma prop_of_filter (name : string) (f : string -> bool) (ps : properties) :
  prop_of name (List.filter (fun p => f p.1) ps) = if f name then prop_of name ps else None.
Proof.
  unfold prop_of. induction ps as [|[n v] ps IH]; [by destruct (f name)|]. simpl.
  destruct (f n) eqn:E; simpl; case_bool_decide as Hn; subst; rewrite ?E in *; rewrite ?IH; try done; by destruct (f name).
Qed.

Lemma prop_of_rest (name : string) (names : list string) (ps : properties) :
  name ∉ names -> prop_of name (rest names ps) = prop_of name ps.
Proof. 
  intros Hn. etransitivity; [apply (prop_of_filter name (fun x => negb (@bool_decide _ (decide_rel elem_of x names))))|].
  cbv beta. by rewrite bool_decide_eq_false_2.
 Qed.

(** What is spread last wins. *)
Lemma prop_of_spread (name : string) (own ps : properties) :
  prop_of name (spread own ps) = match prop_of name ps with Some v => Some v | None => prop_of name own end.
Proof.
  unfold spread. rewrite prop_of_app.
  pose proof (prop_of_filter name (fun n => is_none (prop_of n ps)) own) as E. cbv beta in E. rewrite E.
  destruct (prop_of name ps); [done|]. simpl. by destruct (prop_of name own).
Qed.

Lemma prop_of_in (name : string) (v : prop) (ps : properties) : prop_of name ps = Some v -> (name, v) ∈ ps.
Proof.
  unfold prop_of. destruct (List.find _ ps) as [[n w]|] eqn:E; [|done]. intros [= <-].
  apply List.find_some in E as [Hin E]. simpl in E. case_bool_decide; subst; [|done]. by apply list_elem_of_In.
Qed.

Lemma by_convention_plain (name : string) (v : prop) (ps : properties) :
  by_convention ps = true -> starts_with "on" name = false -> (name, v) ∈ ps -> plain v = true.
Proof.
  unfold by_convention. rewrite forallb_forall. intros Hp Hn Hin. apply list_elem_of_In in Hin.
  specialize (Hp _ Hin). cbn [fst snd] in Hp. by rewrite Hn, orb_false_r in Hp.
Qed.

Lemma or_default_plain (name : string) (d : prop) (ps : properties) :
  by_convention ps = true -> starts_with "on" name = false -> plain d = true -> plain (or_default name d ps) = true.
Proof.
  intros Hp Hn Hd. unfold or_default. destruct (prop_of name ps) as [v|] eqn:E; [|done].
  by eapply by_convention_plain, prop_of_in.
Qed.

Lemma quiet_given (name key : string) (ps : properties) :
  by_convention ps = true -> starts_with "on" key = false -> name <> "disabled" -> quiet (given name (prop_of key ps)).
Proof.
  intros Hp Hk Hn. unfold given. destruct (prop_of key ps) as [v|] eqn:E; [|constructor].
  constructor; [|constructor]. split; [|done]. by eapply by_convention_plain, prop_of_in.
Qed.

Lemma quiet_app (ps qs : properties) : quiet ps -> quiet qs -> quiet (ps ++ qs).
Proof. apply Forall_app_2. Qed.

Lemma quiet_cons (name : string) (v : prop) (ps : properties) :
  plain v = true -> name <> "disabled" -> quiet ps -> quiet ((name, v) :: ps).
Proof. by constructor. Qed.

Lemma quiet_nil : quiet [].
Proof. constructor. Qed.

(** ** What is offered *)

(** The handlers of two elements, and whether they are disabled. *)
Definition same_acts (ps qs : properties) : Prop :=
  enabled ps = enabled qs /\ forall a, some_of (handles a) ps <-> some_of (handles a) qs.

Lemma plain_handles (a : action) (p : string * prop) : plain p.2 = true -> ~ handles a p.
Proof. destruct p as [n []]; cbn; auto; discriminate. Qed.

Lemma some_of_app {X} (P : X -> Prop) (l l' : list X) : some_of P (l ++ l') <-> some_of P l \/ some_of P l'.
Proof. induction l as [|x l IH]; simpl; [tauto|]. rewrite IH. tauto. Qed.

Lemma enabled_cons (n : string) (v : prop) (ps : properties) :
  enabled ((n, v) :: ps) = match v with Flag b => negb (String.eqb n "disabled" && b) | _ => true end && enabled ps.
Proof. done. Qed.

Lemma enabled_app (ps qs : properties) : enabled (ps ++ qs) = enabled ps && enabled qs.
Proof. apply forallb_app. Qed.

Lemma quiet_acts (ps : properties) : quiet ps -> enabled ps = true /\ forall a, ~ some_of (handles a) ps.
Proof.
  induction 1 as [|[n v] ps [Hv Hn] _ [IHe IHa]]; [split; [done|by intros a []]|]. split.
  - rewrite enabled_cons, IHe. apply String.eqb_neq in Hn. cbn [fst] in Hn. rewrite Hn. by destruct v.
  - intros a [Ha|Ha]; [by apply (plain_handles a (n, v))|by apply (IHa a)].
Qed.

Lemma acts_spread (own ps : properties) : quiet own -> same_acts (spread own ps) ps.
Proof.
  intros Hq. unfold spread, same_acts.
  assert (quiet (List.filter (fun p => is_none (prop_of p.1 ps)) own)) as Hf.
  { unfold quiet in *. rewrite Forall_forall in *. intros p Hp%list_elem_of_In. apply List.filter_In in Hp as [Hp _].
    by apply Hq, list_elem_of_In. }
  apply quiet_acts in Hf as [He Ha]. split; [by rewrite enabled_app, He|].
  intros a. rewrite some_of_app. specialize (Ha a). tauto.
Qed.

Lemma acts_rest (names : list string) (ps : properties) :
  by_convention ps = true -> forallb (fun n => negb (starts_with "on" n) && negb (String.eqb n "disabled")) names = true ->
  same_acts (rest names ps) ps.
Proof.
  intros Hp Hn. rewrite forallb_forall in Hn. unfold rest. induction ps as [|[n v] ps IH]; [done|].
  cbn [by_convention forallb fst snd] in Hp. apply andb_true_iff in Hp as [Hv Hp]. specialize (IH Hp) as [He Ha].
  cbn [List.filter fst]. case_bool_decide as Hin; cbn [negb].
  - apply list_elem_of_In, Hn, andb_true_iff in Hin as [Ho Hd]. apply negb_true_iff in Ho, Hd.
    rewrite Ho, orb_false_r in Hv. split.
    + rewrite He, enabled_cons. cbn [fst] in Hd. rewrite Hd. by destruct v.
    + intros a. rewrite Ha. simpl. pose proof (plain_handles a (n, v) Hv). tauto.
  - split; [by rewrite !enabled_cons, He|]. intros a. simpl. by rewrite Ha.
Qed.

Lemma offered_acts (a : action) (t t' : string) (ps qs : properties) (children : list node) :
  same_acts ps qs -> offered a (El t ps children) <-> offered a (El t' qs children).
Proof. intros [He Ha]. rewrite !offered_El, He. destruct (enabled qs); [by rewrite Ha|done]. Qed.

(** An element that renders another tag, with properties of its own. *)
Lemma host_offers (a : action) (t t' : string) (own ps qs : properties) (children : list node) :
  quiet own -> same_acts ps qs -> offered a (El t (spread own ps) children) <-> offered a (El t' qs children).
Proof.
  intros Hq Hs. rewrite (offered_acts a t t' (spread own ps) ps children) by (by apply acts_spread).
  by apply offered_acts.
Qed.

(** Elements beside the children, which offer nothing. *)
Lemma led_offers (a : action) (t : string) (ps : properties) (n : node) (children : list node) :
  ~ offered a n -> offered a (El t ps (n :: children)) <-> offered a (El t ps children).
Proof. intros Hn. rewrite !offered_El. setoid_rewrite elem_of_cons. naive_solver. Qed.

Lemma trailed_offers (a : action) (t : string) (ps : properties) (children after : list node) :
  Forall (fun n => ~ offered a n) after -> offered a (El t ps (children ++ after)) <-> offered a (El t ps children).
Proof. rewrite !offered_El, Forall_forall. intros Hn. setoid_rewrite elem_of_app. naive_solver. Qed.

(** An element around another. *)
Lemma wrapped_offers (a : action) (t : string) (ps : properties) (n : node) :
  quiet ps -> offered a (El t ps [n]) <-> offered a n.
Proof.
  intros [He Ha]%quiet_acts. rewrite offered_El, He. setoid_rewrite list_elem_of_singleton. specialize (Ha a). naive_solver.
Qed.

Lemma same_acts_refl (ps : properties) : same_acts ps ps.
Proof. done. Qed.

Lemma same_acts_trans (ps qs rs : properties) : same_acts ps qs -> same_acts qs rs -> same_acts ps rs.
Proof. intros [He Ha] [He' Ha']. split; [congruence|]. intros a. by rewrite Ha. Qed.

(** Own properties of a widget, which depend on those it is given. *)
Ltac quietly := repeat first
  [ assumption | reflexivity | discriminate | apply quiet_nil | apply quiet_given | apply quiet_cons
  | apply quiet_app | apply or_default_plain ].

Lemma by_convention_rest (names : list string) (ps : properties) :
  by_convention ps = true -> by_convention (rest names ps) = true.
Proof. unfold by_convention. rewrite !forallb_forall. intros Hp p [Hin _]%List.filter_In. by apply Hp. Qed.

Lemma by_convention_spread (own ps : properties) :
  quiet own -> by_convention ps = true -> by_convention (spread own ps) = true.
Proof.
  unfold by_convention, spread, quiet. rewrite forallb_app, Forall_forall. intros Hq ->. rewrite andb_true_r.
  apply forallb_forall. intros p [Hin%list_elem_of_In _]%List.filter_In. by rewrite (proj1 (Hq p Hin)).
Qed.

Section Offers.
Context `{ClassNames} `{RenderingLaws}.

Lemma close_offers_nothing (a : action) : ~ offered a close_button.
Proof. simpl. tauto. Qed.

Lemma content_offers (a : action) (t : string) (ps : properties) (children : list node) :
  by_convention ps = true -> offered a (DropdownMenuContent ps children) <-> offered a (El t ps children).
Proof.
  intros Hp. unfold DropdownMenuContent. rewrite !wrapped_offers by quietly.
  apply host_offers; [quietly|by apply acts_rest].
Qed.

Lemma badge_renders (ps : properties) (children : list node) :
  prop_of "render" ps = None -> exists attributes,
    Forall (fun p => starts_with "data-" p.1 = true /\ exists s, p.2 = Str s) attributes /\
    Badge ps children = El "span" (spread attributes ([classes (badgeVariants (Some (default "default" (text_of "variant" ps)))) ps] ++
      rest ["className"; "variant"; "render"] ps)) children.
Proof.
  intros Hr. unfold Badge. rewrite Hr, merge_disjoint; [apply render_default|].
  intros p q ->%list_elem_of_singleton Hq E. apply list_elem_of_In, List.filter_In in Hq as [_ Hq].
  rewrite <- E in Hq. discriminate Hq.
Qed.

Lemma badge_offers (a : action) (t : string) (ps : properties) (children : list node) :
  by_convention ps = true -> prop_of "render" ps = None -> offered a (Badge ps children) <-> offered a (El t ps children).
Proof.
  intros Hp (attributes & Hq & ->)%(badge_renders _ children). apply host_offers.
  - eapply Forall_impl; [exact Hq|]. intros [n v] [Hd [s Hs]]. cbn [fst snd] in *. subst v.
    split; [reflexivity|]. cbn [fst]. intros ->. discriminate Hd.
  - change (same_acts ([classes (badgeVariants (Some (default "default" (text_of "variant" ps)))) ps] ++
      rest ["className"; "variant"; "render"] ps) ps).
    apply same_acts_trans with (rest ["className"; "variant"; "render"] ps); [|by apply acts_rest].
    split; [done|]. intros b. rewrite some_of_app. cbn. tauto.
Qed.

(** What a widget offers is what it is given. *)
Lemma widget_offers (a : action) (w : widget) (ps : properties) (children : list node) :
  w ∈ widgets -> by_convention ps = true -> (wg_name w = "Badge" -> prop_of "render" ps = None) ->
  offered a (wg_render w ps children) <-> offered a (El (wg_name w) ps children).
Proof.
  intros Hw Hp Hr. unfold widgets in Hw.
  repeat (apply elem_of_cons in Hw as [->|Hw];
    [cbn [wg_render wg_name] in *; try (apply host_offers; [quietly|first [apply same_acts_refl|by apply acts_rest]])|]);
    [..|by apply not_elem_of_nil in Hw].
  - by apply badge_offers; auto.
  - by apply content_offers.
  - unfold DropdownMenuSubTrigger. rewrite trailed_offers by (repeat constructor; simpl; tauto).
    apply host_offers; [quietly|by apply acts_rest].
  - unfold DropdownMenuSubContent. rewrite (content_offers a "div").
    + apply host_offers; [quietly|by apply acts_rest].
    + apply by_convention_spread; [quietly|by apply by_convention_rest].
  - unfold DropdownMenuCheckboxItem. rewrite led_offers by (simpl; tauto).
    apply host_offers; [quietly|by apply acts_rest].
  - unfold DropdownMenuRadioItem. rewrite led_offers by (simpl; tauto).
    apply host_offers; [quietly|by apply acts_rest].
  - unfold SheetContent, SheetPortal. rewrite led_offers by (simpl; tauto). rewrite wrapped_offers by (repeat constructor; done).
    rewrite trailed_offers by (destruct (match prop_of _ ps with Some (Flag b) => b | _ => true end);
                               repeat constructor; apply close_offers_nothing).
    apply host_offers; [quietly|by apply acts_rest].
Qed.

(** ** The page *)

Lemma conventional_El (tag : string) (ps : properties) (children : list node) :
  conventional (El tag ps children) = true <->
  by_convention ps = true /\ (tag = "Badge" -> prop_of "render" ps = None) /\ forall n, n ∈ children -> conventional n = true.
Proof.
  cbn [conventional]. rewrite !andb_true_iff, orb_true_iff, negb_true_iff, bool_decide_eq_false.
  rewrite forallb_forall. setoid_rewrite <- list_elem_of_In. destruct (prop_of "render" ps); simpl; naive_solver.
Qed.

(** Expanding the elements among the properties changes no handler. *)
Lemma acts_expand (ps : properties) : same_acts (List.map (fun p => (p.1, expand_prop p.2)) ps) ps.
Proof.
  induction ps as [|[n v] ps [He Ha]]; [done|]. cbn [List.map fst snd]. split.
  - rewrite !enabled_cons, He. by destruct v.
  - intros a. cbn [some_of]. rewrite Ha. by destruct v.
Qed.

Lemma by_convention_expand (ps : properties) :
  by_convention (List.map (fun p => (p.1, expand_prop p.2)) ps) = by_convention ps.
Proof. induction ps as [|[n v] ps IH]; [done|]. unfold by_convention in *. cbn [List.map forallb fst snd]. rewrite IH. by destruct v. Qed.

Lemma prop_of_expand (name : string) (ps : properties) :
  prop_of name ps = None -> prop_of name (List.map (fun p => (p.1, expand_prop p.2)) ps) = None.
Proof.
  unfold prop_of. induction ps as [|[n v] ps IH]; [done|]. cbn [List.map List.find fst]. by case_bool_decide.
Qed.

Lemma expand_offers (a : action) (n : node) : conventional n = true -> offered a (expand n) <-> offered a n.
Proof.
  induction n as [s|tag ps children IH] using node_children_ind; [done|].
  intros (Hp & Hb & Hc)%conventional_El. cbn [expand]. unfold rendered.
  assert (offered a (El tag (List.map (fun p => (p.1, expand_prop p.2)) ps) (List.map expand children)) <->
          offered a (El tag ps children)) as <-.
  { rewrite (offered_acts a tag tag _ ps) by apply acts_expand. rewrite !offered_El. apply or_iff_compat_l.
    setoid_rewrite list_elem_of_fmap. rewrite Forall_forall in IH. naive_solver. }
  destruct (widget_of tag) as [w|] eqn:E; [|done]. apply List.find_some in E as [Hw%list_elem_of_In E%bool_decide_eq_true].
  subst tag. apply widget_offers; [done|by etransitivity; [apply by_convention_expand|]|]. intros Hn. by apply prop_of_expand, Hb.
Qed.
End Offers.

(** *** The views keep to the convention *)

Section Views.
Context (short long : string -> string).

Lemma conventional_map {X} (f : X -> node) (l : list X) :
  (forall x, conventional (f x) = true) -> forallb conventional (List.map f l) = true.
Proof. intros Hf. apply forallb_forall. intros n (x & <- & _)%List.in_map_iff. apply Hf. Qed.

Lemma conventional_card {X} (f : X -> node) (l : list X) :
  (forall x, conventional (f x) = true) -> conventional (El "Card" [] (List.map f l)) = true.
Proof. intros Hf. cbn. by apply conventional_map. Qed.

Lemma form_conventional (f : login_form) : conventional (LoginForm f) = true.
Proof. unfold LoginForm. destruct (lf_error f) as [e|]; [destruct (truthy e)|]; reflexivity. Qed.

Lemma toggle_conventional (p : ThemePreference) (os : ResolvedTheme) : conventional (ThemeToggle p os) = true.
Proof. unfold ThemeToggle. destruct (decide _); reflexivity. Qed.

Lemma row_conventional (selected : option string) m (x : MailAccountSummary) :
  conventional (account_row short selected m x) = true.
Proof.
  unfold account_row, select_button, sync_button. destruct (statusLabel _), (queued m _); reflexivity.
Qed.

Lemma accounts_conventional l m selected : conventional (AccountsPanel short l m selected) = true.
Proof.
  destruct l as [|e|[|x l]]; [reflexivity..|]. apply conventional_card. intros y. apply row_conventional.
Qed.

Lemma sheet_conventional i j d m : conventional (MessageSheet long i j d m) = true.
Proof.
  unfold MessageSheet, download_button, message_body. destruct d as [|e|d]; [reflexivity..|].
  destruct i as [i|], j as [j|]; try reflexivity. destruct (truthy i && truthy j); [|reflexivity].
  destruct (md_bodyText d) as [t|]; [destruct (truthy t)|]; destruct (md_bodyTruncated d), m; reflexivity.
Qed.

Lemma message_row_conventional x : conventional (message_row long x) = true.
Proof.
  unfold message_row. destruct (ms_subject x), (ms_hasAttachments x), (ms_snippet x) as [t|]; try destruct (truthy t); reflexivity.
Qed.

Lemma messages_conventional i l j d m : conventional (MessagesPanel long i l j d m) = true.
Proof.
  unfold MessagesPanel. destruct (otruthy i); [|reflexivity]. destruct l as [|e|p]; [reflexivity..|].
  destruct (rows_of (pg_pages p)) as [|x rows]; [reflexivity|].
  pose proof (conventional_card _ (x :: rows) message_row_conventional) as Hc.
  pose proof (sheet_conventional i j d m) as Hs. revert Hc Hs. generalize (El "Card" [] (List.map (message_row long) (x :: rows))) (MessageSheet long i j d m).
  intros card sheet Hc Hs. destruct (hasNextPage p); cbn; by rewrite Hc, Hs.
Qed.

Lemma page_conventional th q p : conventional (render short long th q p) = true.
Proof.
  unfold render, App. destruct (pa_auth p) as [| |u]; [reflexivity|apply form_conventional|].
  pose proof (toggle_conventional (th_preference th) (th_system th)) as Ht.
  pose proof (accounts_conventional (qs_accounts q) (qs_sync q) (pa_selected p)) as Ha.
  pose proof (messages_conventional (pa_selected p) (qs_messages q) (pa_open p) (qs_message q) (qs_download q)) as Hm.
  revert Ht Ha Hm. generalize (ThemeToggle (th_preference th) (th_system th))
    (AccountsPanel short (qs_accounts q) (qs_sync q) (pa_selected p))
    (MessagesPanel long (pa_selected p) (qs_messages q) (pa_open p) (qs_message q) (qs_download q)).
  intros toggle accounts messages Ht Ha Hm. cbn. by rewrite Ht, Ha, Hm.
Qed.
End Views.

(** ** What a widget passes on *)

(** One element of [n] has the children given, in their order and maybe with others
    beside them, and every property of [ps] but those of [names]. *)
Definition passes (names : list string) (ps : properties) (children : list node) (n : node) : Prop :=
  exists tag qs before after, inside (El tag qs (before ++ children ++ after)) n /\
    forall name v, name ∉ names -> prop_of name ps = Some v -> prop_of name qs = Some v.

Lemma passes_child (names : list string) (ps : properties) (children l : list node) (tag : string)
    (qs : properties) (n : node) : n ∈ l -> passes names ps children n -> passes names ps children (El tag qs l).
Proof.
  intros Hn (t & rs & before & after & Hi & Hp). exists t, rs, before, after. split; [|done]. by eapply inside_child.
Qed.

(** A property that is read may be passed on by name. *)
Lemma passes_host (names read : list string) (own ps : properties) (tag : string) (before children after : list node) :
  (forall name v, name ∉ names -> name ∈ read -> prop_of name ps = Some v -> prop_of name own = Some v) ->
  passes names ps children (El tag (spread own (rest read ps)) (before ++ children ++ after)).
Proof.
  intros Hr. exists tag, (spread own (rest read ps)), before, after. split; [constructor|].
  intros name v Hn Hv. rewrite prop_of_spread. destruct (decide (name ∈ read)) as [Hin|Hnot].
  - unfold rest. pose proof (prop_of_filter name (fun x => negb (@bool_decide _ (decide_rel elem_of x read))) ps) as E.
    cbv beta in E. rewrite E, bool_decide_eq_true_2 by done. by apply Hr.
  - by rewrite prop_of_rest, Hv.
Qed.

Lemma passes_led (names read : list string) (own ps : properties) (tag : string) (before children : list node) :
  (forall name v, name ∉ names -> name ∈ read -> prop_of name ps = Some v -> prop_of name own = Some v) ->
  passes names ps children (El tag (spread own (rest read ps)) (before ++ children)).
Proof. intros Hr. pose proof (passes_host names read own ps tag before children [] Hr) as Hh. by rewrite app_nil_r in Hh. Qed.

Lemma rest_nil (ps : properties) : rest [] ps = ps.
Proof.
  unfold rest. induction ps as [|p ps IH]; [done|]. cbn [List.filter].
  rewrite bool_decide_eq_false_2 by apply not_elem_of_nil. cbn [negb]. by rewrite IH.
Qed.

(** The properties come from others. *)
Lemma passes_from (names : list string) (ps qs : properties) (children : list node) (n : node) :
  (forall name v, name ∉ names -> prop_of name ps = Some v -> prop_of name qs = Some v) ->
  passes names qs children n -> passes names ps children n.
Proof. intros Hq (t & rs & before & after & Hi & Hp). exists t, rs, before, after. split; [done|]. auto. Qed.

Section Passing.
Context `{ClassNames} `{RenderingLaws}.

Lemma content_passes (ps : properties) (children : list node) :
  passes ["align"; "alignOffset"; "side"; "sideOffset"; "className"] ps children (DropdownMenuContent ps children).
Proof.
  unfold DropdownMenuContent. do 2 (eapply passes_child; [apply list_elem_of_singleton; reflexivity|]).
  apply (passes_led _ _ _ _ _ []). intros name v Hn Hin. by destruct (Hn Hin).
Qed.

(** Every widget hands what its caller gives it to one element: each property it
    does not read itself, with the caller's value even where the widget has a value of
    its own, and the children in their order. *)
Theorem widgets_pass_on (w : widget) (ps : properties) (children : list node) :
  w ∈ widgets -> (wg_name w = "Badge" -> prop_of "render" ps = None) ->
  passes (wg_reads w) ps children (wg_render w ps children).
Proof.
  intros Hw Hr.
  assert (forall names own tag, passes names ps children (El tag (spread own (rest names ps)) children)) as Hhost.
  { intros names own tag. apply (passes_led names names own ps tag []). intros name v Hn Hin. by destruct (Hn Hin). }
  assert (forall own tag, passes [] ps children (El tag (spread own ps) children)) as Hwhole.
  { intros own tag. rewrite <- (rest_nil ps) at 2. apply Hhost. }
  unfold widgets in Hw.
  repeat (apply elem_of_cons in Hw as [->|Hw];
    [cbn [wg_render wg_reads wg_name] in *; try first [apply Hhost|apply Hwhole]|]);
    [..|by apply not_elem_of_nil in Hw].
  - destruct (badge_renders ps children (Hr eq_refl)) as (attributes & _ & ->).
    eexists _, _, [], []. rewrite app_nil_r. split; [constructor|]. intros name v Hn Hv.
    rewrite prop_of_spread, prop_of_app, (prop_of_rest _ _ _ Hn), Hv. unfold prop_of, classes. simpl.
    case_bool_decide; [subst; by destruct Hn; left|done].
  - apply (passes_led _ _ _ _ _ []).
    intros name v Hn Hin Hv. assert (name = "type") as -> by set_solver. by rewrite prop_of_app, Hv.
  - by apply content_passes.
  - apply (passes_host _ _ _ _ _ [] _ [_]). intros name v Hn Hin. by destruct (Hn Hin).
  - unfold DropdownMenuSubContent. eapply passes_from; [|by apply content_passes].
    intros name v Hn Hv. by rewrite prop_of_spread, prop_of_rest, Hv.
  - apply (passes_led _ _ _ _ _ [_]).
    intros name v Hn Hin Hv. assert (name = "checked") as -> by set_solver.
    rewrite Hv. by destruct (prop_of "inset" ps).
  - apply (passes_led _ _ _ _ _ [_]). intros name v Hn Hin. by destruct (Hn Hin).
  - unfold SheetContent, SheetPortal. eapply passes_child; [right; by left|].
    apply (passes_host _ _ _ _ _ [] _ _). intros name v Hn Hin. by destruct (Hn Hin).
Qed.
End Passing.

(** ** What reaches the browser *)

Lemma inside_trans (n m k : node) : inside n m -> inside m k -> inside n k.
Proof. intros Hn Hm. induction Hm as [|tag ps l c Hc _ IH]; [done|]. by apply (inside_child _ _ _ _ c). Qed.

Section Page.
Context `{ClassNames} `{RenderingLaws} (short long : string -> string).

(** An element that is no widget stays where it is. *)
Lemma inside_plain (n c : node) (tag : string) (ps : properties) (children : list node) :
  widget_of tag = None -> c ∈ children -> inside n (expand c) -> inside n (expand (El tag ps children)).
Proof.
  intros Ht Hc Hn. cbn [expand]. unfold rendered. rewrite Ht. apply (inside_child _ _ _ _ (expand c)); [|done].
  apply list_elem_of_fmap. by exists c.
Qed.

(** To the [k]th child of an element that is no widget. *)
Ltac down k := eapply inside_plain; [reflexivity|apply (list_elem_of_lookup_2 _ k); reflexivity|].

(** C23: the elements that the page comes down to offer the user exactly what the
    components of the page do: no widget swallows a handler, adds one, or offers what
    its caller has disabled. *)
Theorem page_offers_expanded th q p a :
  offered a (expand (render short long th q p)) <-> offered a (render short long th q p).
Proof. apply expand_offers, page_conventional. Qed.

(** A message that is open is in a dialog with a close button, and what the
    dialog's own [onOpenChange] does when it closes leaves the page as it is but
    without an open message. *)
Theorem open_sheet_closes th q p u i ps j :
  pa_auth p = Authenticated u -> pa_selected p = Some i -> truthy i = true -> pa_open p = Some j ->
  qs_messages q = Success ps -> rows_of (pg_pages ps) <> [] ->
  exists qs children f,
    inside (El "SheetPrimitive.Root" qs children) (expand (render short long th q p)) /\
    prop_of "open" qs = Some (Flag true) /\ prop_of "onOpenChange" qs = Some (OnOpenChange f) /\
    inside close_button (El "SheetPrimitive.Root" qs children) /\
    page_run p (List.map Does (f false)) = mkPage (pa_auth p) (pa_form p) (pa_selected p) None (pa_cache p).
Proof.
  intros Hu Hi Ht Hj Hm Hne. unfold render, App, AppShell, MessagesPanel. rewrite Hu, Hi, Hm. cbn [otruthy default from_option].
  unfold Datatypes.id. rewrite Ht. destruct (rows_of (pg_pages ps)) as [|x rows]; [done|].
  generalize (ThemeToggle (th_preference th) (th_system th)) (AccountsPanel short (qs_accounts q) (qs_sync q) (Some i)).
  intros toggle accounts. unfold MessageSheet. rewrite Hj.
  match goal with |- context [El "SheetContent" ?r ?c] => generalize c end. intros content.
  eexists _, _, _. split; [|split; [|split; [|split]]].
  - down 1. down 0. down 1. down 1. down 1. constructor.
  - reflexivity.
  - reflexivity.
  - apply (inside_trans _ (SheetContent [("side", Str "right")] (List.map expand content))).
    + unfold SheetContent, SheetPortal. eapply inside_child; [right; left; reflexivity|].
      eapply inside_child; [apply elem_of_app; right; left; reflexivity|constructor].
    + eapply inside_child; [left; reflexivity|constructor].
  - cbn. by rewrite Hu, Hi.
Qed.
End Page.

(** ** A concrete rendering *)

Module Rendered.
#[export] Instance class_names : ClassNames := {
  cn l := str_join " " (omap Datatypes.id l);
  cva base vs defaults chosen :=
    str_join " " (base :: omap (fun g =>
      let value := default (default "" (snd <$> List.find (fun d => String.eqb d.1 g.1) defaults))
                     (default None (snd <$> List.find (fun d => String.eqb d.1 g.1) chosen)) in
      snd <$> List.find (fun v => String.eqb v.1 value) g.2) vs);
}.

Definition attribute (p : string * prop) : option (string * prop) :=
  match p.2 with Str s => Some ("data-" +:+ p.1, Str s) | _ => None end.

#[export] Instance rendering : Rendering := {
  mergeProps ps qs := ps ++ qs;
  useRender tag ps children render state :=
    match render with
    | Some (Elem (El t qs l)) => El t (spread qs ps) (l ++ children)
    | _ => El tag (spread (omap attribute state) ps) children
    end;
}.

#[export] Instance rendering_laws : RenderingLaws.
Proof.
  split; [done|]. intros tag ps children state. exists (omap attribute state). split; [|done].
  rewrite Forall_forall. intros p ([n v] & _ & Hp)%list_elem_of_omap. destruct v; try discriminate.
  injection Hp as <-. split; [reflexivity|by eexists].
Qed.

(** A message of the first mailbox is open, and being fetched. *)
Definition reading : page := mkPage (Authenticated (Screen.user "u1")) empty_form (Some "a1") (Some "m1") [].

Definition row : MessageSummary := message_summary (Inbox.mail "m1" 1 None).

Definition q : queries :=
  mkQueries (Success [Screen.box "a1" ACTIVE]) MIdle (Success (mkPages [mkMessagePage [row] None] false false)) Pending MIdle.
End Rendered.

#[export] Existing Instance Rendered.class_names.
#[export] Existing Instance Rendered.rendering.
#[export] Existing Instance Rendered.rendering_laws.

Lemma widgets_pass_on_witness :
  prop_of "data-slot" match Button [("data-slot", Str "mine")] [] with El _ ps _ => ps | Text _ => [] end = Some (Str "mine") /\
  passes ["className"; "variant"; "size"] [("data-slot", Str "mine")] [] (Button [("data-slot", Str "mine")] []).
Proof.
  split; [reflexivity|].
  refine (widgets_pass_on (mkWidget "Button" ["className"; "variant"; "size"] Button) [("data-slot", Str "mine")] [] _ _);
    [|discriminate].
  repeat first [left; reflexivity|right].
Defined.

Lemma page_offers_expanded_witness :
  offered (Select "a1") (expand (render Datatypes.id Datatypes.id Screen.th Rendered.q Rendered.reading)).
Proof.
  apply (page_offers_expanded Datatypes.id Datatypes.id Screen.th Rendered.q Rendered.reading).
  by apply (select_offered _ _ _ _ _ _ (Screen.box "a1" ACTIVE) (Screen.user "u1")).
Defined.

Lemma open_sheet_closes_witness :
  exists n, inside close_button n /\
    inside n (expand (render Datatypes.id Datatypes.id Screen.th Rendered.q Rendered.reading)).
Proof.
  destruct (open_sheet_closes Datatypes.id Datatypes.id Screen.th Rendered.q Rendered.reading (Screen.user "u1") "a1"
    (mkPages [mkMessagePage [Rendered.row] None] false false) "m1" eq_refl eq_refl eq_refl eq_refl eq_refl)
    as (qs & children & f & Hin & _ & _ & Hclose & _); [discriminate|].
  by eexists.
Defined.
