(* ===== verification/Ingress.v ===== *)
(** * From a client, through the gateway, to a service

    What [services/gateway] forwards, as the routes of [services/email-ingestion] and
    [services/user-management] receive it: whom a request can act for, which address
    a session records, and where the page sends a user who has no mailbox yet
    ([apps/web/src/accounts/AccountsPanel.tsx]). *)

From S2P Require Import Prelude Js World Concurrency Forms Json Url StaticFiles RateLimit RefreshTokens Auth Sessions Gateway.
From S2P Require Import Mail Accounts AuthGuard Startup Queue Ownership Routes UsersRoutes Views.

Local Open Scope Z_scope.

Set Default Proof Using "Type*".

(** ** What Express makes of a forwarded request *)

(** [decodeURIComponent] of each segment; one that cannot be decoded is refused. *)
Fixpoint decode_segments (segs : list string) : option (list string) :=
  match segs with
  | [] => Some []
  | s :: segs' =>
      match decodeURIComponent s, decode_segments segs' with
      | Some d, Some ds => Some (d :: ds)
      | _, _ => None
      end
  end.

(** The path and the query of a request target. *)
Definition cut_query (t : string) : string * string :=
  match split_on "?"%char t with
  | path :: rest => (path, str_join "?" rest)
  | [] => (t, "")
  end.

Definition segments_of (t : string) : option (list string) :=
  decode_segments (drop 1 (split_on "/"%char (cut_query t).1)).

Definition to_ingestion (fresh : string) (response : nat) (u : Upstream) : option serviceRequest :=
  (fun segs => mkServiceRequest (default "GET" (up_method u)) segs (parse_params (cut_query (up_path u)).2)
     (mkHttpRequest (header "authorization" (up_headers u)) None)
     (Some (Logging.mkRequestStore (service_request_id fresh (header "x-request-id" (up_headers u))))) response)
  <$> segments_of (up_path u).

(** The body is what arrives, parsed; [socket] is the gateway's address. *)
Definition to_users (socket : option string) (body : list (string * json)) (u : Upstream) : option usersRequest :=
  (fun segs => mkUsersRequest (default "GET" (up_method u)) segs body (header "cookie" (up_headers u))
     (header "user-agent" (up_headers u)) socket (header "x-forwarded-for" (up_headers u))
     (mkHttpRequest (header "authorization" (up_headers u)) None))
  <$> segments_of (up_path u).

(** A path that nothing has to be decoded in. *)
Lemma decode_segments_plain (segs : list string) :
  Forall (fun s => decodeURIComponent s = Some s) segs -> decode_segments segs = Some segs.
Proof. induction 1 as [|s segs Hs _ IH]; [done|]. simpl. by rewrite Hs, IH. Qed.

Section Ingress.
Context {KeyObject : Type} (createPublicKey : string -> result exn KeyObject)
  (verify : string -> KeyObject -> string -> bool)
  (base64url utf8 : string -> string) (JSON_parse : string -> result exn json)
  (stringify : json -> string) (String_of : option json -> string)
  (parse_host : string -> option string) (parse_other : string -> string -> option url)
  (cwd : string) (stat : string -> option Stats) (config : GatewayConfig).

Abbreviation handle' := (Gateway.handle createPublicKey verify base64url utf8 JSON_parse stringify String_of
  parse_host parse_other cwd stat config).
Abbreviation gateway' := (gateway (KeyObject := KeyObject)).

(** ** The address of a session *)

Section Address.
Context {TU TR : Type} `{Table User TU} `{Table RefreshToken TR} `{JwtService} `{ProxyAddrLaws}.
Context `{!TableLaws User TU} `{!TableLaws RefreshToken TR}.
Context (sha256_hex : string -> string) (randomToken randomUUID : nat -> string).
Context (argon2_hash : nat -> string -> string) (argon2_verify : string -> string -> option bool).
Context (jwt_sign : UserRole -> string -> Z -> string).
Context (ttlDays accessTtl : Z) (production : bool) (decoyHash : string) (isEmail : string -> bool).
Context (options : AuthLibOptions).

Abbreviation um := (world (users_db TU TR)).
Abbreviation serve_users' := (serve_users sha256_hex randomToken randomUUID argon2_hash argon2_verify jwt_sign
  ttlDays accessTtl production decoyHash isEmail options).

(** A request of a client at [a] that the gateway has forwarded to user-management. *)
Definition came_from (a : string) (rq : usersRequest) : Prop :=
  exists req rid now (g g' : gateway') u socket body,
    remoteAddress req = Some a /\ handle' req rid now g = (Forward u, g') /\ to_users socket body u = Some rq.

(** An address as a socket reports it. *)
Definition plain_address (a : string) : Prop := truthy a = true /\ occurs ","%char a = false /\ trim a = a.

Lemma forwarded_ip (a : string) (rq : usersRequest) : came_from a rq -> plain_address a -> ip rq = Some a.
Proof.
  intros (req & rid & now & g & g' & u & socket & body & Ha & Hh & Hu) (Ht & Hc & Htr).
  apply handle_Forward_proxy in Hh as (route & Hp). apply proxy_Forward in Hp as [_ Hup].
  unfold to_users in Hu. destruct (segments_of _) as [segs|]; [|done]. injection Hu as <-.
  unfold ip. cbn [ur_socket ur_forwarded_for]. rewrite Hup, !header_set_ne by done. rewrite header_set, Ha.
  by apply one_hop.
Qed.

(** C4: whatever a client writes in [x-forwarded-for] and however requests interleave,
    a session of user-management that was not there before records the address of the
    socket of a client whose request the gateway forwarded. *)
Theorem sessions_record_client (env : um -> um -> Prop) (clients : list (string * usersRequest)) (w : um) (c : Concurrency.config)
    (r : RefreshToken) :
  (forall s s', env s s' -> refreshToken (data s') = refreshToken (data s)) ->
  (forall a rq, (a, rq) ∈ clients -> came_from a rq /\ plain_address a) ->
  rtc (cstep env) (List.map (fun x => serve_users' x.2) clients, w) c -> r ∈ tokens_of c.2 ->
  (exists r0, r0 ∈ tokens_of w /\ rt_id r0 = rt_id r /\ rt_ipAddress r0 = rt_ipAddress r) \/
  exists a rq, (a, rq) ∈ clients /\ rt_ipAddress r = Some a.
Proof.
  intros Henv Hc Hreach Hr.
  rewrite <- (List.map_map snd serve_users') in Hreach.
  destruct (served_records _ _ _ _ _ _ _ _ _ _ _ _ env (List.map snd clients) w c Henv Hreach r Hr)
    as [(rq & Hrq & Hip)|Hold]; [right|by left].
  apply list_elem_of_In, List.in_map_iff in Hrq as ([a rq'] & <- & Hin%list_elem_of_In).
  exists a, rq'. split; [done|]. destruct (Hc a rq' Hin) as [Hfrom Hplain].
  rewrite <- Hip. by apply forwarded_ip.
Qed.
End Address.

(** ** Whose mailboxes a request changes *)

Section Mailboxes.
Context {TA TM Q : Type} `{Table MailAccount TA} `{Table Message TM} `{JobQueueLaws Q} `{Cipher} `{JwtService}
  `{!TableLaws MailAccount TA}.
Context (hmac : string -> string) (randomBytes randomUUID : nat -> string).
Context (storage_ok redis_ok : nat -> bool) (head_bucket : nat -> result exn unit) (bucket : string).
Context (reg : registry (mail_db TA TM)) (options : AuthLibOptions).
Context (isUUID : string -> bool) (Number_of : string -> number).

Abbreviation W := (world (service TA TM Q)).
Context (unidentified : forall A, option json -> io W exn A).

Abbreviation serve' := (Routes.serve hmac randomBytes randomUUID storage_ok redis_ok head_bucket bucket reg options
  isUUID Number_of unidentified).
Abbreviation speaks' := (speaks hmac randomBytes randomUUID storage_ok redis_ok head_bucket bucket reg options
  isUUID Number_of unidentified).

(** *** Without a token *)

(** The routes of mailboxes: their first segment, as the gateway routes it. *)
Lemma segments_of_target (segs : list string) (q : string) :
  segs <> [] -> Forall (fun s => occurs "/"%char s = false /\ occurs "?"%char s = false) segs ->
  Forall (fun s => decodeURIComponent s = Some s) segs -> segments_of (target segs q) = Some segs.
Proof.
  intros Hne Hs Hd. unfold segments_of, cut_query.
  assert (Forall (fun s => occurs "/"%char s = false) segs) as Hs1 by (eapply Forall_impl; [exact Hs|]; by intros s []).
  assert (occurs "?"%char ("/" +:+ str_join "/" segs) = false) as Hq.
  { rewrite occurs_app. simpl. clear Hne Hs1 Hd. induction Hs as [|s segs [_ Hs] Hl IH]; [done|].
    destruct segs as [|s' segs]; [done|]. change (str_join "/" (s :: s' :: segs)) with (s +:+ "/" +:+ str_join "/" (s' :: segs)).
    rewrite !occurs_app, Hs. simpl. exact IH. }
  assert ((match split_on "?"%char (target segs q) with p :: rest => (p, str_join "?" rest) | [] => (target segs q, "") end).1
    = "/" +:+ str_join "/" segs) as ->.
  { unfold target. destruct (truthy q).
    - change ("?" +:+ q) with (String "?"%char q). rewrite <- append_assoc. by rewrite split_on_app_sep.
    - by rewrite append_nil_r, split_on_no_sep. }
  change ("/" +:+ str_join "/" segs) with ("" +:+ String "/"%char (str_join "/" segs)).
  rewrite split_on_app_sep by done. cbn [drop]. rewrite split_on_join by done. by apply decode_segments_plain.
Qed.

(** The texts a tree shows. *)
Fixpoint texts (n : node) : list string :=
  match n with
  | Text x => [x]
  | El _ _ children => flat_map texts children
  end.

(** The page tells a user without a mailbox to visit a path in the tab; but a
    navigation carries no access token, which the page holds in memory: the gateway
    lets it through, and the service refuses it and does nothing. *)
Theorem authorize_hint_refused (toLocale : string -> string) (m : mutation string Views.SyncRequestResult)
    (selected : option string) (req : Request) (rid fresh : string) (response : nat) (now : Z) (g : gateway')
    (base : url) :
  let path := "/oauth/gmail/authorize" in
  In path (texts (AccountsPanel toLocale (Success []) m selected)) /\
    (cache_ok createPublicKey (cached g) -> method req = Some "GET" -> rawUrl req = Some path ->
     header "authorization" (reqHeaders req) = None ->
     Limiter.allowed (Limiter.check Limiter.WINDOW_MS (default "unknown" (remoteAddress req)) "GET" path now
                        (counters g)).1 = true ->
     new_URL_absolute parse_host parse_other (emailIngestionUrl config) = Some base -> protocol base = "http" ->
     exists u g' rq, handle' req rid now g = (Forward u, g') /\ to_ingestion fresh response u = Some rq /\
       forall w, run (serve' rq) w = (Err (UnauthorizedException "Missing access token"), w)).
Proof.
  split; [simpl; auto|]. intros Hc Hm Hurl Hauth Hallow Hbase Hhttp.
  destruct (plain_request_forwarded createPublicKey verify base64url utf8 JSON_parse stringify String_of parse_host
    parse_other cwd stat config req rid now g (Gateway.mkRoute "/oauth" (emailIngestionUrl config) false None)
    ["oauth"; "gmail"; "authorize"] "" base) as (u & g' & Hh & _ & Hpath & Hmeth); try done.
  { split; [by rewrite Hm|]. split; [reflexivity|]. done. }
  assert (header "authorization" (up_headers u) = None) as Hup.
  { apply handle_Forward_proxy in Hh as (route & Hp). apply proxy_Forward in Hp as [_ ->].
    rewrite !header_set_ne by done. rewrite header_forwardable; [done|by apply (bool_decide_unpack _)|done]. }
  eexists u, g', _. split; [exact Hh|]. unfold to_ingestion. rewrite Hpath, Hmeth, Hm, Hup.
  split; [reflexivity|]. intros w.
  match goal with |- context [serve' ?rq] => set (rq0 := rq) end.
  assert (exists h, find_route (ingestion_routes hmac randomBytes randomUUID storage_ok redis_ok head_bucket bucket reg
      isUUID Number_of unidentified) rq0 =
    Some (Routes.mkRoute "GET" [Lit "oauth"; Param "provider"; Lit "authorize"] true 200 h, [("provider", "gmail")]))
    as [h Hf] by (eexists; reflexivity).
  unfold Routes.serve. rewrite Hf. unfold serve_route. rewrite run_bind. cbn [r_guarded r_handler]. unfold guarded.
  by rewrite run_bind, run_Date_now.
Qed.

(** *** With a token *)

(** A token that verifies for somebody is one the guard takes. *)
Lemma bears_for_canActivate (h : httpRequest) (v : string) :
  bears_for options h v -> exists now request role,
    canActivate options now h = (Ok true, request) /\
    request_user request = Some (mkRequestUser (Some (JStr v)) role).
Proof.
  intros (now & header & t & p & Hh & Hb & Hv & Hs).
  assert (extractBearerToken h = Some t /\ truthy t = true) as [Et Ht] by (apply extract_iff; eauto).
  exists now, (with_user p h), (field_of "role" p). unfold canActivate. rewrite Et. cbn [otruthy default from_option].
  rewrite Ht. unfold Datatypes.id. rewrite Hv. split; [by destruct p|]. cbn [with_user request_user]. by rewrite Hs.
Qed.

(** The payload [@nestjs/jwt] answers is the one the token holds; every adapter keeps
    its contract; the tokens that verify name a user. *)
Context (verified_payload : forall o now t p, verifyAsync o now t = Ok p ->
  exists h s sig, split_on "."%char t = [h; s; sig] /\ decodeSegment base64url utf8 JSON_parse s = Ok p).
Context (lawful : forall p a, Mail.get reg p = Ok a -> AdapterLaws a).
Context (subjects : forall now t p, verifyAsync (forRootAsync options) now t = Ok p ->
  exists u, field_of "sub" p = Some (JStr u)).

(** The gateway has verified, for [v], the token the request carried at [now]. *)
Definition vouched (req : Request) (now : Z) (v : string) : Prop :=
  exists who, verified_for createPublicKey verify base64url utf8 JSON_parse config req now who /\ Gateway.id who = v.

(** C2: a request, whatever its headers, comes through a route of the gateway that
    requires a token.  Unless the gateway has verified for it a token of [v], or it brings
    back a state the service has signed for [v], no step of it changes an account of [v]
    or the job of one, whatever other requests and the workers do meanwhile. *)
Theorem changes_need_token (env : W -> W -> Prop) (rqs : list serviceRequest) (w0 : W) (c : Concurrency.config)
    (i response : nat) (req : Request) (rid fresh v : string) (now : Z) (g g' : gateway') (u : Upstream)
    (url : Url.url) (route : Route) (rq : serviceRequest) (p p' : prog W (result exn (Z * answer))) (w' : W) :
  new_URL parse_host parse_other (default "/" (rawUrl req)) gateway_invalid = Some url ->
  matchRoute (buildRoutes config) (pathname url) = Some route -> requiresAuth route = true ->
  cache_ok createPublicKey (cached g) -> handle' req rid now g = (Forward u, g') ->
  to_ingestion fresh response u = Some rq -> rqs !! i = Some rq ->
  (forall s s', env s s' -> service_steady s s') -> NoDup (List.map ma_id (accounts_in w0)) ->
  rtc (cstep env) (List.map serve' rqs, w0) c -> c.1 !! i = Some p -> tstep p c.2 = Some (p', w') ->
  ~ vouched req now v -> ~ state_for hmac (q_query rq) v ->
  same_for v (accounts_in c.2) (accounts_in w') /\
  forall a, a ∈ accounts_in c.2 -> ma_userId a = v ->
    find_job (job_id (ma_id a)) (sv_queue (data w')) = find_job (job_id (ma_id a)) (sv_queue (data c.2)).
Proof.
  intros Hurl Hroute Hreq Hcache Hh Hrq Hi Henv Hnd Hreach Hp Ht Hnv Hns.
  pose proof (pool_isolated hmac randomBytes randomUUID storage_ok redis_ok head_bucket bucket reg options isUUID
    Number_of unidentified lawful subjects env rqs w0 c i rq p p' w' Henv Hnd Hreach Hi Hp Ht) as Hs.
  assert (~ speaks' rq v) as Hno.
  { unfold speaks. destruct (find_route _ rq) as [[r ps]|]; [|by intros []]. destruct (r_guarded r); [|exact Hns].
    intros Hb. apply Hnv. apply bears_for_canActivate in Hb as (now' & request & role & Hcan & Huser).
    unfold to_ingestion in Hrq. destruct (segments_of _) as [segs|]; [|done]. injection Hrq as <-.
    cbn [q_http] in Hcan.
    destruct (guard_gateway_user createPublicKey verify base64url utf8 JSON_parse stringify String_of parse_host
      parse_other cwd stat config options verified_payload req rid now now' g g' u url route request) as (who & Hwho & E);
      try done.
    rewrite Huser in E. injection E as -> _. by exists who. }
  split; [by apply (sp_accounts _ _ _ _ Hs)|]. intros a Ha <-. by apply (sp_jobs _ _ _ _ Hs).
Qed.
End Mailboxes.
End Ingress.

(** ** A concrete deployment *)

Module Gate.
(** The last hops of [x-forwarded-for], before the socket. *)
#[export] Instance proxy_addr : ProxyAddr := {
  proxyaddr hops socket forwarded :=
    match hops, forwarded with
    | Datatypes.S n, Some h =>
        match rev (List.map trim (split_on ","%char h)) !! n with Some a => Some a | None => socket end
    | _, _ => socket
    end;
}.

#[export] Instance proxy_addr_laws : ProxyAddrLaws.
Proof. split. intros socket a _ Hc Ht. simpl. rewrite split_on_no_sep by done. simpl. by rewrite Ht. Qed.

(** A login whose client claims to be somebody else's address. *)
Definition login : Request :=
  mkRequest (Some "POST") (Some "/api/auth/login") [("x-forwarded-for", One "1.2.3.4")] (Some "10.0.0.1").

Definition login_body : list (string * json) := [("email", JStr "alice@example.com"); ("password", JStr "correct horse")].

Definition upstream (req : Request) : Upstream :=
  match Edge.handle' req "rid" 99000 (mkGateway ∅ None) with
  | (Forward u, _) => u
  | _ => Edge.me_upstream
  end.

Definition login_rq : usersRequest :=
  default (mkUsersRequest "" [] [] None None None None (mkHttpRequest None None))
    (to_users (Some "172.18.0.2") login_body (upstream login)).

Definition serve (rq : usersRequest) :=
  serve_users (TU := list User) (TR := list RefreshToken) Concrete.sha256_hex Concrete.randomToken Concrete.randomUUID
    Concrete.argon2_hash Concrete.argon2_verify Concrete.jwt_sign 7 900 true "decoy" (fun _ => true) Bearer.options rq.

Definition after_login : Concurrency.config :=
  schedule (repeat 0%nat 20) (List.map (fun x => serve x.2) [("10.0.0.1", login_rq)], Concrete.w0).

(** "Sync now", from the page of [u1]; and a navigation to the start of the consent. *)
Definition sync : Request :=
  mkRequest (Some "POST") (Some "/api/accounts/a1/sync") [("authorization", One "Bearer H.P.signed")] (Some "10.0.0.1").

Definition visit : Request := mkRequest (Some "GET") (Some "/oauth/gmail/authorize") [] (Some "10.0.0.1").

Definition sync_rq : serviceRequest :=
  default (Desk.sync None) (to_ingestion "fresh" 0 (upstream sync)).

(** The account is found and no job of it; the request is about to add one. *)
Definition before_add : Concurrency.config := schedule [0; 0; 0]%nat ([Desk.serve sync_rq], Desk.w0).
End Gate.

#[export] Existing Instance Gate.proxy_addr.
#[export] Existing Instance Gate.proxy_addr_laws.

Lemma sessions_record_client_witness :
  List.map rt_ipAddress (tokens_of Gate.after_login.2) = [None; None; None; Some "10.0.0.1"] /\
  forall r, r ∈ tokens_of Gate.after_login.2 ->
    (exists r0, r0 ∈ tokens_of Concrete.w0 /\ rt_id r0 = rt_id r /\ rt_ipAddress r0 = rt_ipAddress r) \/
    exists a rq, (a, rq) ∈ [("10.0.0.1", Gate.login_rq)] /\ rt_ipAddress r = Some a.
Proof.
  split; [vm_compute; reflexivity|]. intros r.
  refine (sessions_record_client Edge.createPublicKey Edge.verify Edge.plain Edge.plain Edge.JSON_parse Edge.stringify
    Edge.String_of Edge.parse_host Edge.parse_other "/" Edge.stat Edge.config Concrete.sha256_hex Concrete.randomToken
    Concrete.randomUUID Concrete.argon2_hash Concrete.argon2_verify Concrete.jwt_sign 7 900 true "decoy" (fun _ => true)
    Bearer.options (fun _ _ => False) [("10.0.0.1", Gate.login_rq)] Concrete.w0 Gate.after_login r _ _
    (schedule_reachable _ _ _)).
  - by intros s s' [].
  - intros a rq E%list_elem_of_singleton. injection E as -> ->. split; [|by repeat split].
    exists Gate.login, "rid", 99000, (mkGateway ∅ None), (Edge.handle' Gate.login "rid" 99000 (mkGateway ∅ None)).2,
      (Gate.upstream Gate.login), (Some "172.18.0.2"), Gate.login_body.
    split; [reflexivity|]. split; vm_compute; reflexivity.
Defined.

Lemma changes_need_token_witness :
  exists p' w', tstep (default (Done (Err (Error ""))) (Gate.before_add.1 !! 0%nat)) Gate.before_add.2 = Some (p', w') /\
    same_for "u2" (accounts_in Gate.before_add.2) (accounts_in w') /\
    forall a, a ∈ accounts_in Gate.before_add.2 -> ma_userId a = "u2" ->
      find_job (job_id (ma_id a)) (sv_queue (data w')) = find_job (job_id (ma_id a)) (sv_queue (data Gate.before_add.2)).
Proof.
  destruct (schedule_step 0 Gate.before_add) as (p & p' & w' & Hp & Ht & _); [vm_compute; reflexivity|].
  rewrite Hp. exists p', w'. split; [exact Ht|].
  refine (changes_need_token Edge.createPublicKey Edge.verify Edge.plain Edge.plain Edge.JSON_parse Edge.stringify
    Edge.String_of Edge.parse_host Edge.parse_other "/" Edge.stat Edge.config
    (fun p => "mac:" +:+ p) Vault.uuid Vault.uuid (fun _ => true) (fun _ => true) (fun _ => Ok tt) "mail"
    Desk.reg Bearer.options (fun s => bool_decide (s <> "events")) Desk.number_of Desk.unidentified
    Bearer.verified_payload Desk.lawful Desk.subjects (fun _ _ => False) [Gate.sync_rq] Desk.w0 Gate.before_add 0 0
    Gate.sync "rid" "fresh" "u2" 99000 (mkGateway ∅ None)
    (Edge.handle' Gate.sync "rid" 99000 (mkGateway ∅ None)).2 (Gate.upstream Gate.sync)
    (mkUrl "http" "gateway.invalid" ["api"; "accounts"; "a1"; "sync"] "" None)
    (Gateway.mkRoute "/api/accounts" "http://mail:3002" true (Some "/api")) Gate.sync_rq p p' w'
    _ _ _ _ _ _ _ _ Desk.desk_ids (schedule_reachable _ _ _) Hp Ht _ _); try reflexivity.
  - by intros s s' [].
  - intros (who & (t & Hb & h & s & sig & hd & pl & key & exp & Hs & _ & _ & _ & _ & Hd & _ & _ & _ & _ & Hsub & _) & Hid).
    vm_compute in Hb. injection Hb as <-. vm_compute in Hs. injection Hs as <- <- <-. injection Hd as <-. rewrite Hid in Hsub. discriminate Hsub.
  - intros (c & _ & _ & Hs). vm_compute in Hs. discriminate Hs.
Defined.

Lemma authorize_hint_refused_witness :
  exists u g' rq, Edge.handle' Gate.visit "rid" 99000 (mkGateway ∅ None) = (Forward u, g') /\
    to_ingestion "fresh" 0 u = Some rq /\
    forall w, run (Desk.serve rq) w = (Err (UnauthorizedException "Missing access token"), w).
Proof.
  refine (proj2 (authorize_hint_refused Edge.createPublicKey Edge.verify Edge.plain Edge.plain Edge.JSON_parse
    Edge.stringify Edge.String_of Edge.parse_host Edge.parse_other "/" Edge.stat Edge.config
    (fun p => "mac:" +:+ p) Vault.uuid Vault.uuid (fun _ => true) (fun _ => true) (fun _ => Ok tt) "mail"
    Desk.reg Bearer.options (fun s => bool_decide (s <> "events")) Desk.number_of Desk.unidentified
    (fun s => s) MIdle None Gate.visit "rid" "fresh" 0 99000 (mkGateway ∅ None) (mkUrl "http" "mail:3002" [""] "" None))
    _ _ _ _ _ _ _); try reflexivity; exact I.
Defined.
