(* ===== verification/Tokens.v ===== *)
(** * An access token, from its issue to its last use

    [services/user-management/src/auth/auth.module.ts] and [auth/token.service.ts]: the
    options tokens are signed with; and what the gateway
    ([services/gateway/src/jwt.ts]) and the guard of the services
    ([packages/auth-lib]) make of a token that a sign-in has answered. *)

From S2P Require Import Prelude Js World Concurrency Json Views Url RefreshTokens Auth Sessions Gateway AuthGuard Startup.
From Stdlib Require Import QArith.

Local Open Scope Z_scope.

Set Default Proof Using "Type*".

(** ** auth.module.ts *)

Record SignOptions := mkSignOptions {
  so_algorithm : string;
  so_expiresIn : value;
  so_issuer : string;
  so_audience : string;
}.

Record AuthModuleOptions := mkAuthModuleOptions {
  am_privateKey : string;
  am_signOptions : SignOptions;
  am_verifyOptions : JwtModuleOptions;       (* with the public key *)
}.

(** The factory of [JwtModule.registerAsync]. *)
Definition jwt_module_options (readFileSync : string -> result exn string) (resolve : string -> string)
    (env : list (string * value)) : result exn AuthModuleOptions :=
  rbind (readFileSync (resolve (text (get env "JWT_PRIVATE_KEY_PATH")))) (fun privateKey =>
  rbind (readFileSync (resolve (text (get env "JWT_PUBLIC_KEY_PATH")))) (fun publicKey =>
  Ok (mkAuthModuleOptions privateKey
        (mkSignOptions "RS256" (get env "JWT_ACCESS_TOKEN_TTL_SECONDS") (text (get env "JWT_ISSUER"))
           (text (get env "JWT_AUDIENCE")))
        (mkJwtOptions publicKey ["RS256"] (text (get env "JWT_ISSUER")) (text (get env "JWT_AUDIENCE")))))).

(** ** token.service.ts *)

(** [JwtService.signAsync(payload, { subject })] at a time in milliseconds; the payload
    has texts only. *)
Class JwtSigner := {
  signAsync : AuthModuleOptions -> list (string * string) -> string -> Z -> string;
}.

(** [TokenService.issueAccessToken], for a role and a subject. *)
Definition access_token `{JwtSigner} (options : AuthModuleOptions) (role : UserRole) (subject : string) (now : Z) : string :=
  signAsync options [("role", role_name role)] subject now.

(** What signing adds to the payload, and its names; the fields have others. *)
Definition registered : list string := ["sub"; "exp"; "iss"; "aud"].

Definition claims (o : SignOptions) (n : Z) (fields : list (string * string)) (subject : string) (now : Z) (payload : json) : Prop :=
  (forall name v, (name, v) ∈ fields -> Json.get name payload = Ok (Some (JStr v))) /\
  Json.get "sub" payload = Ok (Some (JStr subject)) /\
  Json.get "exp" payload = Ok (Some (JNum (inject_Z (now / 1000 + n)))) /\
  Json.get "iss" payload = Ok (Some (JStr (so_issuer o))) /\ Json.get "aud" payload = Ok (Some (JStr (so_audience o))).

Lemma plain_role (r : string) : NoDup (registered ++ List.map fst [("role", r)]).
Proof. apply (bool_decide_unpack _). vm_compute. exact I. Qed.

Lemma get_field (name : string) (payload : json) (v : option json) : Json.get name payload = Ok v -> field_of name payload = v.
Proof. unfold field_of. by intros ->. Qed.

Lemma claims_checked (config : GatewayConfig) (o : SignOptions) (n : Z) (role : string) (subject : string) (at_ now : Z) (payload : json) :
  claims o n [("role", role)] subject at_ payload -> so_issuer o = issuer config -> so_audience o = audience config ->
  checkClaims config payload now =
    if bool_decide (now / 1000 < at_ / 1000 + n) then Ok (mkAuthenticatedUser subject role)
    else Err (TokenError "Token expired").
Proof.
  intros (Hf & Hs & He & Hi & Ha) Ei Ea. unfold checkClaims. rewrite He. cbn [as_number].
  assert (Qle_bool (inject_Z (at_ / 1000 + n)) (inject_Z (now / 1000)) = negb (bool_decide (now / 1000 < at_ / 1000 + n))) as ->.
  { apply eq_true_iff_eq. rewrite Qle_bool_iff, negb_true_iff, bool_decide_eq_false, <- Zle_Qle. lia. }
  destruct (bool_decide (now / 1000 < at_ / 1000 + n)); cbn [negb]; [|done].
  rewrite (get_field _ _ _ Hi), (get_field _ _ _ Ha), (get_field _ _ _ Hs), Ei, Ea. cbn [as_string].
  rewrite !bool_decide_eq_true_2 by done. cbn [negb].
  rewrite (get_field _ _ _ (Hf "role" role ltac:(by left))). done.
Qed.

Section Tokens.
Context {KeyObject : Type} (createPublicKey : string -> result exn KeyObject)
  (verify : string -> KeyObject -> string -> bool)
  (base64url utf8 : string -> string) (JSON_parse : string -> result exn json)
  (String_of : option json -> string) (config : GatewayConfig).
(** The public key of a private one. *)
Context (pair : string -> KeyObject -> Prop).

Abbreviation decode := (decodeSegment base64url utf8 JSON_parse).

(** What a JSON web token is made of. *)
Definition made_of (t : string) (header payload : json) (key : KeyObject) : Prop :=
  exists h p sig, split_on "."%char t = [h; p; sig] /\ decode h = Ok header /\ decode p = Ok payload /\
    verify (h +:+ "." +:+ p) key (base64url sig) = true.

(** @nestjs/jwt on signing and verifying: a token has the claims of its options and is
    signed by the private key; and one that its key has signed with an allowed
    algorithm verifies until it expires. *)
Class SigningLaws `{JwtSigner} `{JwtService} : Prop := {
  signed_claims o fields subject now n key :
    NoDup (registered ++ List.map fst fields) ->
    so_expiresIn (am_signOptions o) = Num n -> pair (am_privateKey o) key ->
    exists header payload,
      made_of (signAsync o fields subject now) header payload key /\
      Json.get "alg" header = Ok (Some (JStr (so_algorithm (am_signOptions o)))) /\
      claims (am_signOptions o) n fields subject now payload;
  signed_plain o fields subject now : occurs " "%char (signAsync o fields subject now) = false;
  verifies o now t header payload key alg exp :
    createPublicKey (jm_publicKey o) = Ok key -> made_of t header payload key ->
    Json.get "alg" header = Ok (Some (JStr alg)) -> alg ∈ jm_algorithms o ->
    Json.get "exp" payload = Ok (Some (JNum (inject_Z exp))) -> now / 1000 < exp ->
    field_of "iss" payload = Some (JStr (jm_issuer o)) -> field_of "aud" payload = Some (JStr (jm_audience o)) ->
    verifyAsync o now t = Ok payload;
  verified_holds o now t payload : verifyAsync o now t = Ok payload ->
    exists h p sig, split_on "."%char t = [h; p; sig] /\ decode p = Ok payload;
}.

Section Accepted.
Context `{SigningLaws} `{!JwtLaws}.

(** What the gateway makes of a token. *)
Lemma gateway_lifetime (o : AuthModuleOptions) (n : Z) (r : UserRole) (subject : string) (at_ now : Z)
    (key : KeyObject) (c : option (string * KeyObject)) :
  so_algorithm (am_signOptions o) = "RS256" -> so_expiresIn (am_signOptions o) = Num n ->
  so_issuer (am_signOptions o) = issuer config -> so_audience (am_signOptions o) = audience config ->
  createPublicKey (publicKey config) = Ok key -> pair (am_privateKey o) key -> cache_ok createPublicKey c ->
  (verifyAccessToken createPublicKey verify base64url utf8 JSON_parse String_of config
     (access_token o r subject at_) now c).1 =
    if bool_decide (now / 1000 < at_ / 1000 + n) then Ok (mkAuthenticatedUser subject (role_name r))
    else Err (TokenError "Token expired").
Proof.
  intros Halg Hn Hi Ha Hkey Hpair Hc.
  destruct (signed_claims o [("role", role_name r)] subject at_ n key (plain_role _) Hn Hpair)
    as (header & payload & (h & p & sig & Hsp & Hh & Hp & Hv) & Hal & Hcl).
  unfold verifyAccessToken, access_token. rewrite Hsp, Hh, Hal, Halg. cbn [as_string].
  rewrite bool_decide_eq_true_2 by done. cbn [negb].
  destruct (publicKeyFor_spec createPublicKey (publicKey config) c Hc) as [Hk _]. rewrite Hkey in Hk.
  destruct (publicKeyFor createPublicKey (publicKey config) c) as [k c']. cbn [fst] in Hk. subst k.
  rewrite Hv, Hp. cbn [negb fst]. by apply (claims_checked _ _ _ _ _ _ _ _ Hcl).
Qed.

(** What the guard of a service makes of it. *)
Lemma guard_lifetime (o : AuthModuleOptions) (n : Z) (r : UserRole) (subject : string) (at_ now : Z)
    (key : KeyObject) (options : AuthLibOptions) :
  so_algorithm (am_signOptions o) = "RS256" -> so_expiresIn (am_signOptions o) = Num n ->
  so_issuer (am_signOptions o) = al_issuer options -> so_audience (am_signOptions o) = al_audience options ->
  createPublicKey (al_publicKey options) = Ok key -> pair (am_privateKey o) key ->
  let request := mkHttpRequest (Some ("Bearer " +:+ access_token o r subject at_)) None in
  canActivate options now request =
    if bool_decide (now / 1000 < at_ / 1000 + n)
    then (Ok true, mkHttpRequest (authorization request)
                     (Some (mkRequestUser (Some (JStr subject)) (Some (JStr (role_name r))))))
    else (Err (UnauthorizedException "Invalid or expired access token"), request).
Proof.
  intros Halg Hn Hi Ha Hkey Hpair request.
  destruct (signed_claims o [("role", role_name r)] subject at_ n key (plain_role _) Hn Hpair)
    as (header & payload & Hmade & Hal & (Hf & Hs & He & Hiss & Haud)).
  pose proof (signed_plain o [("role", role_name r)] subject at_) as Hsp.
  fold (access_token o r subject at_) in Hmade, Hsp. set (t := access_token o r subject at_) in *.
  assert (truthy t = true) as Ht.
  { destruct Hmade as (h & p & sig & Et & _). destruct t; [discriminate Et|done]. }
  unfold canActivate, extractBearerToken. cbn [authorization request].
  change ("Bearer " +:+ t) with ("Bearer" +:+ String " "%char t).
  rewrite split_on_app_sep, split_on_no_sep by done. cbn [List.hd_error].
  rewrite bool_decide_eq_true_2 by done. cbn [lookup list_lookup otruthy default from_option].
  unfold Datatypes.id. rewrite Ht. case_bool_decide as Hlt.
  - rewrite (verifies (forRootAsync options) now t header payload key "RS256" (at_ / 1000 + n)).
    + destruct payload; try discriminate. unfold with_user.
      by rewrite (get_field _ _ _ Hs), (get_field _ _ _ (Hf "role" (role_name r) ltac:(by left))).
    + done.
    + done.
    + by rewrite Hal, Halg.
    + by left.
    + done.
    + done.
    + by rewrite (get_field _ _ _ Hiss), Hi.
    + by rewrite (get_field _ _ _ Haud), Ha.
  - destruct (verifyAsync (forRootAsync options) now t) as [p'|e] eqn:Hv; [|done].
    destruct (verified_holds _ _ _ _ Hv) as (h & p & sig & Hsplit & Hp).
    destruct Hmade as (h' & p0 & sig' & Hsplit' & _ & Hp' & _). rewrite Hsplit in Hsplit'. injection Hsplit' as <- <- <-.
    rewrite Hp in Hp'. injection Hp' as ->.
    destruct (verified_claims _ _ _ _ Hv) as (_ & _ & Hexp). destruct (Hexp (inject_Z (at_ / 1000 + n))).
    + by rewrite (get_field _ _ _ He).
    + apply Qle_bool_iff. rewrite <- Zle_Qle. lia.
Qed.

(** ** From a sign-in to the services *)

Section SignIn.
Context {TU TR : Type} `{TableLaws User TU} `{TableLaws RefreshToken TR}.
Context (sha256_hex : string -> string) (randomToken randomUUID : nat -> string).
Context (argon2_verify : string -> string -> option bool) (ttlDays : Z) (decoyHash : string).
Context (readFileSync : string -> result exn string) (resolve : string -> string).

(** C3: the access token a sign-in answers names its user, to the gateway and to the
    guard of every service that are configured as user-management is, from then on for
    exactly the number of seconds the answer says, and after that to neither. *)
Theorem access_token_lifetime (env : list (string * value)) (o : AuthModuleOptions) (accessTtl : Z) (key : KeyObject)
    (options : AuthLibOptions) (dto : Credentials) (meta : ClientMeta) (u : User) (w : world (users_db TU TR)) :
  jwt_module_options readFileSync resolve env = Ok o -> get env "JWT_ACCESS_TOKEN_TTL_SECONDS" = Num accessTtl ->
  createPublicKey (publicKey config) = Ok key -> pair (am_privateKey o) key ->
  issuer config = text (get env "JWT_ISSUER") -> audience config = text (get env "JWT_AUDIENCE") ->
  options = mkAuthLibOptions (publicKey config) (issuer config) (audience config) ->
  db_wf w -> db_up w = true -> account dto w = Some u -> authenticates argon2_verify dto u = true ->
  (forall i j r, r ∈ tokens_of w -> rt_id r <> randomUUID i /\ rt_tokenHash r <> sha256_hex (randomToken j)) ->
  exists answer w',
    run (login sha256_hex randomToken randomUUID argon2_verify (access_token o) ttlDays accessTtl decoyHash dto meta) w
      = (Ok answer, w') /\ sessionUser answer = toPublicUser u /\
    forall now c, cache_ok createPublicKey c ->
      let alive := bool_decide (now / 1000 < clock w / 1000 + expiresIn answer) in
      (verifyAccessToken createPublicKey verify base64url utf8 JSON_parse String_of config (accessToken answer) now c).1
        = (if alive then Ok (mkAuthenticatedUser (u_id u) (role_name (u_role u))) else Err (TokenError "Token expired")) /\
      (canActivate options now (mkHttpRequest (Some ("Bearer " +:+ accessToken answer)) None)).1
        = (if alive then Ok true else Err (UnauthorizedException "Invalid or expired access token")) /\
      (alive = true ->
       request_user (canActivate options now (mkHttpRequest (Some ("Bearer " +:+ accessToken answer)) None)).2
         = Some (mkRequestUser (Some (JStr (u_id u))) (Some (JStr (role_name (u_role u)))))).
Proof.
  intros Ho Hn Hkey Hpair Hi Ha -> Hwf Hup Hacc Hauth Hfresh.
  assert (so_algorithm (am_signOptions o) = "RS256" /\ so_expiresIn (am_signOptions o) = Num accessTtl /\
    so_issuer (am_signOptions o) = issuer config /\ so_audience (am_signOptions o) = audience config) as (Halg & Hexp & Hiss & Haud).
  { unfold jwt_module_options, rbind in Ho. destruct (readFileSync _); [|done]. destruct (readFileSync _); [|done].
    injection Ho as <-. by rewrite Hi, Ha. }
  destruct (run_login_accepted sha256_hex randomToken randomUUID argon2_verify (access_token o) ttlDays accessTtl decoyHash
    dto meta u w Hwf Hup Hacc Hauth) as (w' & Hrun & _).
  { intros r Hr. apply (Hfresh _ _ r Hr). }
  eexists _, w'. split; [exact Hrun|]. split; [done|]. intros now c Hc. cbn [accessToken expiresIn]. cbv zeta.
  pose proof (gateway_lifetime o accessTtl (u_role u) (u_id u) (clock w) now key c Halg Hexp Hiss Haud Hkey Hpair Hc) as ->.
  pose proof (guard_lifetime o accessTtl (u_role u) (u_id u) (clock w) now key
    (mkAuthLibOptions (publicKey config) (issuer config) (audience config)) Halg Hexp Hiss Haud Hkey Hpair) as ->.
  destruct (bool_decide _); done.
Qed.
End SignIn.
End Accepted.
End Tokens.

(** ** A concrete signer *)

Module Mint.
(** What a segment holds: an algorithm, or the fields, the subject, the expiry, the
    issuer and the audience of a payload; as a number in binary. *)
Abbreviation segment := (string + list (string * string) * string * Z * string * string)%type.

Fixpoint bits (p : positive) : string :=
  match p with xH => "" | xO q => String "0" (bits q) | xI q => String "1" (bits q) end.

Fixpoint unbits (s : string) : positive :=
  match s with
  | EmptyString => xH
  | String c s' => if Ascii.eqb c "1" then xI (unbits s') else xO (unbits s')
  end.

Lemma unbits_bits (p : positive) : unbits (bits p) = p.
Proof. induction p as [p IH|p IH|]; simpl; by rewrite ?IH. Qed.

Lemma occurs_bits (c : Ascii.ascii) (p : positive) :
  ascii_eqb "0" c = false -> ascii_eqb "1" c = false -> occurs c (bits p) = false.
Proof. intros H0 H1. induction p as [p IH|p IH|]; cbn [bits occurs]; by rewrite ?IH, ?H0, ?H1. Qed.

Definition document (x : segment) : json :=
  match x with
  | inl alg => JObj [("alg", JStr alg)]
  | inr (fields, subject, exp, iss, aud) =>
      JObj ([("sub", JStr subject); ("exp", JNum (inject_Z exp)); ("iss", JStr iss); ("aud", JStr aud)] ++
            List.map (fun f => (f.1, JStr f.2)) fields)
  end.

Definition JSON_parse (s : string) : result exn json :=
  match decode (A := segment) (unbits s) with
  | Some x => Ok (document x)
  | None => Err (SyntaxError "Unexpected token")
  end.

Definition print (x : segment) : string := bits (encode x).

Lemma parse_print (x : segment) : JSON_parse (print x) = Ok (document x).
Proof. unfold JSON_parse, print. by rewrite unbits_bits, decode_encode. Qed.

Lemma get_document (name : string) (v : json) (fields : list (string * json)) :
  NoDup (List.map fst fields) -> (name, v) ∈ fields -> Json.get name (JObj fields) = Ok (Some v).
Proof.
  intros Hnd Hin. cbn [Json.get]. do 2 f_equal. induction fields as [|[n w] fields IH]; [by apply not_elem_of_nil in Hin|].
  cbn [List.map fst] in Hnd. apply NoDup_cons in Hnd as [Hn Hnd]. cbn [List.find fst]. case_bool_decide as E.
  - subst n. apply elem_of_cons in Hin as [[= ->]|Hin]; [done|]. destruct Hn. apply list_elem_of_fmap. by exists (name, v).
  - apply elem_of_cons in Hin as [[= -> _]|Hin]; [done|]. by apply IH.
Qed.

#[export] Instance signer : JwtSigner := {
  signAsync o fields subject now :=
    print (inl (so_algorithm (am_signOptions o))) +:+ "." +:+
    print (inr (fields, subject,
      now / 1000 + match so_expiresIn (am_signOptions o) with Num n => n | _ => 0 end,
      so_issuer (am_signOptions o), so_audience (am_signOptions o))) +:+ "." +:+ print (inl (am_privateKey o));
}.

Definition same (s : string) : string := s.

(** A signature is the key itself. *)
Definition verify (data key signature : string) : bool := bool_decide (signature = print (inl key)).

(** [jsonwebtoken.verify] *)
Definition verified (o : JwtModuleOptions) (now : Z) (t : string) : result exn json :=
  match split_on "."%char t with
  | [h; p; sig] =>
      match decodeSegment same same JSON_parse h, decodeSegment same same JSON_parse p with
      | Ok header, Ok payload =>
          match field_of "alg" header, as_number (field_of "exp" payload) with
          | Some (JStr alg), Some exp =>
              if bool_decide (alg ∈ jm_algorithms o) && verify (h +:+ "." +:+ p) (jm_publicKey o) (same sig)
                 && negb (Qle_bool exp (inject_Z (now / 1000)))
                 && bool_decide (as_string (field_of "iss" payload) = Some (jm_issuer o))
                 && bool_decide (as_string (field_of "aud" payload) = Some (jm_audience o))
              then Ok payload else Err (TokenError "invalid token")
          | _, _ => Err (TokenError "invalid token")
          end
      | _, _ => Err (TokenError "invalid token")
      end
  | _ => Err (TokenError "jwt malformed")
  end.

#[export] Instance jwt : JwtService := {
  verifyAsync := verified;
  signed_by key algs t := exists h p sig header payload alg,
    split_on "."%char t = [h; p; sig] /\ decodeSegment same same JSON_parse h = Ok header /\
    decodeSegment same same JSON_parse p = Ok payload /\ field_of "alg" header = Some (JStr alg) /\ alg ∈ algs /\
    verify (h +:+ "." +:+ p) key (same sig) = true;
}.

Lemma verified_inv (o : JwtModuleOptions) (now : Z) (t : string) (payload : json) :
  verified o now t = Ok payload -> exists h p sig header alg exp,
    split_on "."%char t = [h; p; sig] /\ decodeSegment same same JSON_parse h = Ok header /\
    decodeSegment same same JSON_parse p = Ok payload /\ field_of "alg" header = Some (JStr alg) /\
    alg ∈ jm_algorithms o /\ verify (h +:+ "." +:+ p) (jm_publicKey o) (same sig) = true /\
    field_of "exp" payload = Some (JNum exp) /\ Qle_bool exp (inject_Z (now / 1000)) = false /\
    field_of "iss" payload = Some (JStr (jm_issuer o)) /\ field_of "aud" payload = Some (JStr (jm_audience o)).
Proof.
  unfold verified. destruct (split_on _ t) as [|h [|p [|sig [|]]]]; try done.
  destruct (decodeSegment same same JSON_parse h) as [header|] eqn:Eh; [|done].
  destruct (decodeSegment same same JSON_parse p) as [pl|] eqn:Ep; [|done].
  destruct (field_of "alg" header) as [[]|] eqn:Ea; try done.
  destruct (field_of "exp" pl) as [[]|] eqn:Ee; try done. cbn [as_number].
  destruct (bool_decide (_ ∈ _)) eqn:E1; [|done]. destruct (verify _ _ _) eqn:E2; [|done].
  destruct (Qle_bool _ _) eqn:E3; [done|]. apply bool_decide_eq_true in E1. cbn [andb negb].
  case_bool_decide as E4; [|done]. case_bool_decide as E5; [|done]. intros [= <-].
  apply as_string_Some in E4, E5. naive_solver.
Qed.

#[export] Instance jwt_laws : JwtLaws.
Proof.
  split; intros o now t p (h & s & sig & header & alg & exp & Hs & Hh & Hp & Ha & Hin & Hv & He & Hq & Hi & Hu)%verified_inv.
  - by exists h, s, sig, header, p, alg.
  - do 2 (split; [done|]). rewrite He. intros e [= <-]. by rewrite Hq.
Qed.

Definition createPublicKey (pem : string) : result exn string := Ok pem.

#[export] Instance signing_laws : SigningLaws createPublicKey verify same same JSON_parse eq.
Proof.
  split.
  - intros o fields subject now n key Hnd Hn <-.
    exists (document (inl (so_algorithm (am_signOptions o)))),
      (document (inr (fields, subject, now / 1000 + n, so_issuer (am_signOptions o), so_audience (am_signOptions o)))).
    split; [|split; [reflexivity|]].
    + eexists _, _, _. cbn [signAsync signer]. rewrite Hn.
      split; [|split; [apply parse_print|split; [apply parse_print|by apply bool_decide_eq_true]]].
      assert (forall u, "." +:+ u = String "."%char u) as Hdot by done.
      by rewrite !Hdot, split_on_app_sep, split_on_app_sep, split_on_no_sep by (by apply occurs_bits).
    + assert (forall name v, (name, v) ∈ [("sub", JStr subject); ("exp", JNum (inject_Z (now / 1000 + n)));
          ("iss", JStr (so_issuer (am_signOptions o))); ("aud", JStr (so_audience (am_signOptions o)))]
            ++ List.map (fun f => (f.1, JStr f.2)) fields ->
          Json.get name (document (inr (fields, subject, now / 1000 + n, so_issuer (am_signOptions o), so_audience (am_signOptions o))))
            = Ok (Some v)) as Hget.
      { intros name v. apply get_document. rewrite List.map_app, List.map_map. exact Hnd. }
      split; [|repeat split; apply Hget; repeat first [left; reflexivity|right]].
      intros name v Hin. apply Hget, elem_of_app. right. apply list_elem_of_fmap. by exists (name, v).
  - intros o fields subject now. cbn [signAsync signer]. rewrite !occurs_app. unfold print. rewrite !occurs_bits by done. done.
  - intros o now t header payload key alg exp [= <-] (h & p & sig & Hs & Hh & Hp & Hv) Ha Hin He Hlt Hi Hu.
    cbn [verifyAsync jwt]. unfold verified. rewrite Hs, Hh, Hp, (get_field _ _ _ Ha), (get_field _ _ _ He), Hv, Hi, Hu.
    cbn [as_string as_number]. rewrite !bool_decide_eq_true_2 by done.
    destruct (Qle_bool (inject_Z exp) (inject_Z (now / 1000))) eqn:E; [|done].
    apply Qle_bool_iff in E. rewrite <- Zle_Qle in E. lia.
  - intros o now t p (h & s & sig & header & alg & exp & Hs & Hh & Hp & _)%verified_inv. by exists h, s, sig.
Qed.

Definition env : list (string * value) :=
  [("JWT_PRIVATE_KEY_PATH", Startup.Str "private.pem"); ("JWT_PUBLIC_KEY_PATH", Startup.Str "public.pem");
   ("JWT_ACCESS_TOKEN_TTL_SECONDS", Num 900); ("JWT_ISSUER", Startup.Str "finlytic"); ("JWT_AUDIENCE", Startup.Str "web")].

Definition readFileSync (path : string) : result exn string := Ok "pem".

Definition options : AuthModuleOptions :=
  mkAuthModuleOptions "pem" (mkSignOptions "RS256" (Num 900) "finlytic" "web") (mkJwtOptions "pem" ["RS256"] "finlytic" "web").
End Mint.

(** Signed in at the first second: accepted in the 900th, refused in the 901st. *)
Lemma access_token_lifetime_witness :
  exists answer w',
    run (login Concrete.sha256_hex Concrete.randomToken Concrete.randomUUID Concrete.argon2_verify
           (@access_token Mint.signer Mint.options) 7 900 "decoy" (mkCredentials "alice@example.com" "correct horse")
           Concrete.no_meta) Concrete.w0 = (Ok answer, w') /\
    (verifyAccessToken Mint.createPublicKey Mint.verify Mint.same Mint.same Mint.JSON_parse Edge.String_of Edge.config
       (accessToken answer) 900999 None).1 = Ok (mkAuthenticatedUser "u1" "USER") /\
    (verifyAccessToken Mint.createPublicKey Mint.verify Mint.same Mint.same Mint.JSON_parse Edge.String_of Edge.config
       (accessToken answer) 901000 None).1 = Err (TokenError "Token expired").
Proof.
  destruct (@access_token_lifetime string Mint.createPublicKey Mint.verify Mint.same Mint.same Mint.JSON_parse
    Edge.String_of Edge.config eq Mint.signer Mint.jwt Mint.signing_laws Mint.jwt_laws _ _ _ _ _ _
    Concrete.sha256_hex Concrete.randomToken Concrete.randomUUID Concrete.argon2_verify 7 "decoy" Mint.readFileSync
    (fun p => p) Mint.env Mint.options 900 "pem" (mkAuthLibOptions "pem" "finlytic" "web")
    (mkCredentials "alice@example.com" "correct horse") Concrete.no_meta Concrete.alice Concrete.w0)
    as (answer & w' & Hrun & _ & Hlife); try reflexivity.
  - exact Concrete.w0_wf.
  - intros i j r Hr. apply (Concrete.tokens_fresh i j r Hr).
  - exists answer, w'. split; [exact Hrun|].
    assert (expiresIn answer = 900) as He by (vm_compute in Hrun; injection Hrun as <- _; reflexivity).
    split.
    + destruct (Hlife 900999 None I) as [-> _]. rewrite He. reflexivity.
    + destruct (Hlife 901000 None I) as [-> _]. rewrite He. reflexivity.
Defined.
