(* ===== verification/Download.v ===== *)
(** * The original of a message, from the store to the disk

    [messages/messages.controller.ts] (the [raw] route) and [getStream] of
    [storage/object-storage.service.ts] of email-ingestion, the body of a forwarded
    request in [services/gateway/src/proxy.ts], and [messages/download.ts] of the web
    application: three pipes in a row, each of which can break. *)

From S2P Require Import Prelude Js World Concurrency Json RefreshTokens Auth Gateway Mail Accounts MailSync Messages WebApp.
From S2P Require ApiClient.

Local Open Scope Z_scope.

Set Default Proof Using "Type*".

(** ** Streams *)

(** What reading a body reports, in order. *)
Inductive signal := Data (chunk : string) | Ended | Failed.

(** [pipeline(source, sink)]: the chunks that have gone through, and whether it has
    resolved ([true]) or rejected. *)
Fixpoint pipeline (source : list signal) : list string * option bool :=
  match source with
  | Data c :: source' => let '(chunks, settled) := pipeline source' in (c :: chunks, settled)
  | Ended :: _ => ([], Some true)
  | Failed :: _ => ([], Some false)
  | [] => ([], None)
  end.

Inductive fate := Open | Finished | Destroyed.

(** A response on its way out. *)
Record outgoing := mkOutgoing {
  og_status : Z;
  og_headers : headers;
  og_chunks : list string;
  og_fate : fate;
}.

(** [res.writeHead(status, headers)], and [pipeline(source, res)] whose rejection is
    answered by [res.destroy()]. *)
Definition stream_response (status : Z) (hs : headers) (source : list signal) : outgoing :=
  let '(chunks, settled) := pipeline source in
  mkOutgoing status hs chunks
    (match settled with Some true => Finished | Some false => Destroyed | None => Open end).

(** HTTP: the body of a response is complete when its sender has finished it, and it
    has the length the head declares. *)
Definition complete (o : outgoing) : bool :=
  match header "content-length" (og_headers o) with
  | Some n => bool_decide (n = string_of_Z (Z.of_nat (String.length (str_join "" (og_chunks o)))))
  | None => true
  end.

(** What the other end of a connection reads of a response, when the connection is cut
    after so many chunks, or is not. *)
Definition arrives (cut : option nat) (o : outgoing) : list signal :=
  match cut with
  | Some n => List.map Data (take n (og_chunks o)) ++ [Failed]
  | None => List.map Data (og_chunks o) ++
      match og_fate o with
      | Finished => if complete o then [Ended] else [Failed]
      | Destroyed => [Failed]
      | Open => []
      end
  end.

(** ** The three programs *)

(** The [raw] route, once [getStream] has answered. *)
Definition raw_stream (head : list (string * string)) (source : list signal) : outgoing :=
  stream_response 200 (List.map (fun h => (h.1, One h.2)) head) source.

(** The status of an exception that a handler throws. *)
Definition status_of (e : exn) : Z :=
  match e with
  | BadRequestException _ => 400
  | UnauthorizedException _ => 401
  | ForbiddenException _ => 403
  | NotFoundException _ => 404
  | ConflictException _ => 409
  | BadGatewayException _ => 502
  | ServiceUnavailableException _ => 503
  | _ => 500
  end.

(** The callback of [request] in [proxy.ts], on what it reads of the service's answer. *)
Definition relay (statusCode : option Z) (hs : headers) (source : list signal) : outgoing :=
  stream_response (default 502 statusCode) (forwardable hs) source.

(** [fetch]: the answer, and what its [blob()] settles with, if it does. *)
Definition fetched (cut : option nat) (o : outgoing) : option (ApiClient.answer string) :=
  match pipeline (arrives cut o) with
  | (chunks, Some true) => Some (ApiClient.mkAnswer (Z.to_nat (og_status o)) (Ok (str_join "" chunks)))
  | (_, Some false) => Some (ApiClient.mkAnswer (Z.to_nat (og_status o)) (Err (TypeError "network error")))
  | (_, None) => None
  end.

(** ** Streams that end *)

Lemma pipeline_data (chunks : list string) (rest : list signal) :
  pipeline (List.map Data chunks ++ rest) = (chunks ++ (pipeline rest).1, (pipeline rest).2).
Proof. induction chunks as [|c l IH]; simpl; [by destruct (pipeline rest)|]. by rewrite IH. Qed.

(** A pipeline resolves when everything has gone through, and only then. *)
Lemma pipeline_resolved (cut : option nat) (o : outgoing) (chunks : list string) :
  pipeline (arrives cut o) = (chunks, Some true) <->
  cut = None /\ og_fate o = Finished /\ complete o = true /\ chunks = og_chunks o.
Proof.
  unfold arrives. destruct cut as [n|].
  - rewrite pipeline_data. split; [done|by intros [? _]].
  - rewrite pipeline_data. destruct (og_fate o); [|destruct (complete o)|]; simpl; rewrite ?app_nil_r; naive_solver.
Qed.

Lemma stream_finished (status : Z) (hs : headers) (source : list signal) :
  og_fate (stream_response status hs source) = Finished <->
  pipeline source = (og_chunks (stream_response status hs source), Some true).
Proof. unfold stream_response. by destruct (pipeline source) as [l [[|]|]]. Qed.

Lemma fetched_status (cut : option nat) (o : outgoing) (a : ApiClient.answer string) :
  fetched cut o = Some a -> ApiClient.status a = Z.to_nat (og_status o).
Proof. unfold fetched. destruct (pipeline _) as [l [[|]|]]; by intros [= <-]. Qed.

Lemma stream_status (status : Z) (hs : headers) (source : list signal) :
  og_status (stream_response status hs source) = status /\ og_headers (stream_response status hs source) = hs.
Proof. unfold stream_response. by destruct (pipeline source). Qed.

Lemma relay_status (status : Z) (hs : headers) (source : list signal) : og_status (relay (Some status) hs source) = status.
Proof. apply stream_status. Qed.

Lemma fetched_body (cut : option nat) (o : outgoing) (status : nat) (blob : string) :
  fetched cut o = Some (ApiClient.mkAnswer status (Ok blob)) ->
  og_fate o = Finished /\ blob = str_join "" (og_chunks o) /\ status = Z.to_nat (og_status o).
Proof.
  unfold fetched. destruct (pipeline _) as [l [[|]|]] eqn:E; try done. intros [= <- <-].
  by apply pipeline_resolved in E as (_ & Hf & _ & ->).
Qed.

Section Download.
Context {TA TM : Type} `{TableLaws MailAccount TA} `{TableLaws Message TM}.
(** Whether the store answers, how it sends an object, and what an exception looks
    like as JSON. *)
Context (storage_ok : nat -> bool) (sends : string -> list signal) (error_json : exn -> string).

Abbreviation D := (mail_db TA TM).

(** What the service answers a request for the original of a message. *)
Definition raw_answer (r : result exn (list (string * string) * string)) : outgoing :=
  match r with
  | Ok (head, body) => raw_stream head (sends body)
  | Err e => mkOutgoing (status_of e) [] [error_json e] Finished
  end.

(** A download by a user, with what may become of the two connections. *)
Definition download (userId accountId messageId url : string) (cut_service cut_client : option nat) (w : world D) :
  option (result exn unit * list effect) :=
  let answer := raw_answer (run (raw_route storage_ok userId accountId messageId) w).1 in
  let forwarded := relay (Some (og_status answer)) (og_headers answer) (arrives cut_service answer) in
  (fun a => downloadMessage url messageId (Ok a)) <$> fetched cut_client forwarded.

(** A store sends an object in pieces, and says that it is done only when it is. *)
Definition honest : Prop :=
  forall body, exists chunks rest, sends body = List.map Data chunks ++ rest /\
    (rest = [Ended] /\ str_join "" chunks = body \/ rest = [Failed] \/ rest = []).

(** The file of an original. *)
Definition saved (messageId url body : string) : list effect :=
  [CreateObjectURL body url; ClickLink url ("message-" +:+ messageId +:+ ".eml"); RevokeLater url].

Lemma run_raw_ok (userId accountId messageId body : string) (hs : list (string * string)) (w w' : world D) :
  run (raw_route storage_ok userId accountId messageId) w = (Ok (hs, body), w') ->
  owns userId accountId w /\ exists m, m ∈ messages_of w /\ m_id m = messageId /\ m_accountId m = accountId /\
    objects (data w) !! m_rawObjectKey m = Some body.
Proof.
  unfold raw_route, rawObjectKeyFor, owned_message. rewrite run_bind, run_bind, run_query.
  destruct (db_up w); [|done]. cbn [fst snd].
  destruct (findFirst _ (messages (data w))) as [m|] eqn:E; [|by rewrite run_throw].
  rewrite run_ret, run_try, run_bind. unfold getStream, get_object. rewrite run_bind, run_perform. cbn [data calls with_data]. cbv zeta.
  destruct (storage_ok _); [|by case_bool_decide; rewrite run_throw].
  destruct (objects (data w) !! m_rawObjectKey m) as [b|] eqn:Eo; [|by case_bool_decide; rewrite run_throw].
  rewrite !run_ret. intros [= _ <- _]. apply findFirst_Some in E as [Hm Hp].
  apply andb_true_iff in Hp as [[Hi%bool_decide_eq_true Ha%bool_decide_eq_true]%andb_true_iff Ho%owned_rows].
  split; [done|]. by exists m.
Qed.

Lemma honest_finished (status : Z) (hs : headers) (body : string) :
  honest -> og_fate (stream_response status hs (sends body)) = Finished ->
  str_join "" (og_chunks (stream_response status hs (sends body))) = body.
Proof.
  intros Hs Hfin. apply stream_finished in Hfin. destruct (Hs body) as (chunks & rest & Hsend & Hrest).
  rewrite Hsend, pipeline_data in Hfin. injection Hfin as Hl Hr.
  destruct Hrest as [[-> Hbody]|[-> | ->]]; [|discriminate Hr..].
  rewrite Hsend, <- Hl. simpl. by rewrite app_nil_r.
Qed.

(** C22: however its pieces arrive and wherever a connection breaks, a download saves
    nothing and fails, or saves the whole original that is stored for the message asked
    for, which is in an account of the user. *)
Theorem download_all_or_nothing (userId accountId messageId url : string) (cut_service cut_client : option nat)
    (w : world D) (r : result exn unit) (effects : list effect) :
  honest -> download userId accountId messageId url cut_service cut_client w = Some (r, effects) ->
  (effects = [] /\ exists e, r = Err e) \/
  exists m body, owns userId accountId w /\ m ∈ messages_of w /\ m_id m = messageId /\ m_accountId m = accountId /\
    objects (data w) !! m_rawObjectKey m = Some body /\ r = Ok tt /\ effects = saved messageId url body.
Proof.
  intros Hs. unfold download. destruct (run _ w) as [[[hs body]|e] w'] eqn:Hrun; cbn [fst].
  2:{ intros (a & Ha & E)%fmap_Some. left. revert E.
      assert (ApiClient.ok a = false) as Hok.
      { unfold ApiClient.ok. rewrite (fetched_status _ _ _ Ha), relay_status. by destruct e. }
      unfold downloadMessage. rewrite Hok. cbn [negb]. intros [= -> ->]. split; [done|by eexists]. }
  intros (a & Ha & E)%fmap_Some. destruct a as [status [blob|e]].
  2:{ left. unfold downloadMessage in E. cbn [ApiClient.json_body] in E.
      destruct (negb _); injection E as -> ->; (split; [done|by eexists]). }
  right. apply run_raw_ok in Hrun as (Ho & m & Hm & Hi & Hacc & Hobj). exists m, body.
  do 5 (split; [done|]). cbn [raw_answer] in Ha.
  apply fetched_body in Ha as (Hfin & -> & ->). unfold raw_stream in E.
  rewrite relay_status, (proj1 (stream_status _ _ _)) in E.
  apply stream_finished, pipeline_resolved in Hfin as (_ & Hfin & _ & Hchunks).
  apply (honest_finished _ _ _ Hs) in Hfin.
  assert (str_join "" (og_chunks (relay (Some 200) (og_headers (raw_stream hs (sends body)))
    (arrives cut_service (raw_stream hs (sends body))))) = body) as Hc.
  { etransitivity; [|exact Hfin]. f_equal. unfold raw_stream in Hchunks |- *.
    by rewrite (proj1 (stream_status _ _ _)) in Hchunks. }
  unfold raw_stream in Hc. rewrite Hc in E. by injection E as -> ->.
Qed.

Lemma stream_whole (status : Z) (hs : headers) (source : list signal) (chunks : list string) :
  pipeline source = (chunks, Some true) -> stream_response status hs source = mkOutgoing status hs chunks Finished.
Proof. unfold stream_response. by intros ->. Qed.

(** The declared length of an original is its own. *)
Lemma raw_length (messageId body : string) (drop_ : headers -> headers) :
  drop_ = (fun hs => hs) \/ drop_ = forwardable ->
  match header "content-length" (drop_ (List.map (fun h => (h.1, One h.2)) (raw_head messageId (ob_contentLength (streamed body))))) with
  | Some n => n = string_of_Z (Z.of_nat (String.length body))
  | None => True
  end.
Proof. intros [-> | ->]; unfold raw_head; simpl; by case_bool_decide. Qed.

(** When nothing breaks, the file is saved. *)
Theorem download_delivers (userId accountId url body : string) (chunks : list string) (m : Message) (w : world D) :
  db_up w = true -> owns userId accountId w -> NoDup (List.map m_id (messages_of w)) ->
  m ∈ messages_of w -> m_accountId m = accountId -> storage_ok (length (calls w)) = true ->
  objects (data w) !! m_rawObjectKey m = Some body ->
  sends body = List.map Data chunks ++ [Ended] -> str_join "" chunks = body ->
  download userId accountId (m_id m) url None None w = Some (Ok tt, saved (m_id m) url body).
Proof.
  intros Hup Ho Hnd Hm Ha Hst Hobj Hsend Hbody.
  destruct (run_raw storage_ok userId accountId m w Hup Ho Hnd Hm Ha) as (w' & Hrun & _).
  rewrite Hst, Hobj in Hrun. unfold download. rewrite Hrun. cbn [fst raw_answer]. unfold raw_stream.
  rewrite (stream_whole _ _ (sends body) chunks) by (by rewrite Hsend, pipeline_data; simpl; rewrite app_nil_r).
  cbn [og_status og_headers]. unfold relay.
  assert (forall status drop_, drop_ = (fun hs => hs) \/ drop_ = forwardable ->
    pipeline (arrives None (mkOutgoing status (drop_ (List.map (fun h => (h.1, One h.2)) (raw_head (m_id m) (ob_contentLength (streamed body))))) chunks Finished))
      = (chunks, Some true)) as Hwire.
  { intros status drop_ Hd. apply pipeline_resolved. do 2 (split; [done|]). split; [|done].
    unfold complete. cbn [og_headers og_chunks]. rewrite Hbody. pose proof (raw_length (m_id m) body drop_ Hd) as Hl.
    destruct (header _ _); [by apply bool_decide_eq_true|done]. }
  rewrite (stream_whole _ _ _ chunks) by (apply (Hwire 200 (fun hs => hs)); by left).
  unfold fetched. rewrite (Hwire _ forwardable) by (by right). cbn [og_status]. by rewrite Hbody.
Qed.
End Download.

(** The head that is relayed is the one of the state machine of an exchange. *)
Lemma relay_exchange (stringify : json -> string) (requestId : string) (statusCode : option Z) (hs : headers) (source : list signal) :
  writes (on_events stringify requestId [UpstreamResponse statusCode hs]) =
    [(og_status (relay statusCode hs source), write_head requestId (og_headers (relay statusCode hs source)))].
Proof. unfold relay. by destruct (stream_status (default 502 statusCode) (forwardable hs) source) as [-> ->]. Qed.

(** ** A concrete download *)

Module Wire.
Definition sends (body : string) : list signal := [Data body; Ended].

Lemma sends_honest : honest sends.
Proof. intros body. exists [body], [Ended]. split; [reflexivity|by left]. Qed.

Definition get (cut_service cut_client : option nat) : option (result exn unit * list effect) :=
  download Mailbox.storage_ok sends (fun _ => "error") "u1" "a1" "x" "blob:1" cut_service cut_client Inbox.w0.
End Wire.

Lemma download_all_or_nothing_witness :
  exists r effects, Wire.get None None = Some (r, effects) /\
    exists m body, m_id m = "x" /\ effects = saved (m_id m) "blob:1" body.
Proof.
  exists (Ok tt), (saved "x" "blob:1" "From: bob"). split; [vm_compute; reflexivity|].
  destruct (download_all_or_nothing Mailbox.storage_ok Wire.sends (fun _ => "error") "u1" "a1" "x" "blob:1" None None
    Inbox.w0 (Ok tt) (saved "x" "blob:1" "From: bob") Wire.sends_honest) as [[E _]|(m & body & _ & _ & Hm & _ & _ & _ & E)].
  - vm_compute. reflexivity.
  - discriminate E.
  - exists m, body. split; [exact Hm|]. rewrite Hm. exact E.
Defined.

(** Cut at any of its two connections, it saves nothing. *)
Example download_cut : Wire.get (Some 1%nat) None = Some (Err (TypeError "network error"), []) /\
  Wire.get None (Some 0%nat) = Some (Err (TypeError "network error"), []).
Proof. split; vm_compute; reflexivity. Qed.

Lemma download_delivers_witness : Wire.get None None = Some (Ok tt, saved "x" "blob:1" "From: bob").
Proof.
  refine (download_delivers Mailbox.storage_ok Wire.sends (fun _ => "error") "u1" "a1" "blob:1" "From: bob" ["From: bob"]
    (Inbox.mail "x" 5 (Some "text/x")) Inbox.w0 _ _ _ _ _ _ _ _ _); try reflexivity.
  - exists Mailbox.box. split; [by left|done].
  - apply (bool_decide_unpack _). vm_compute. exact I.
  - left.
Defined.
