(* ===== verification/Processes.v ===== *)
(** * Processes, from start to stop

    [services/gateway/src/main.ts], [services/user-management/src/main.ts],
    [services/email-ingestion/src/main.ts] and [main.worker.ts], with the hooks of the
    providers ([prisma/prisma.service.ts], [auth.service.ts],
    [refresh-token-cleanup.service.ts], [object-storage.service.ts],
    [sync-events.service.ts]): in which order a process sets itself up, what must have
    worked before it serves anyone, and how it ends. *)

From S2P Require Import Prelude Js RateLimit Timers World Concurrency Json RefreshTokens Auth Cleanup Mail Gateway Logging.
From S2P Require Import Startup UsersRoutes.
From Stdlib Require QArith.

Set Default Proof Using "Type*".

(** ** The gateway *)

(** The connections of a process that serves HTTP, each with whether a request of it is
    being answered, and whether [server.close] has been called. *)
Record server_process := mkServerProcess {
  nd_process : process;
  nd_open : gmap nat bool;
  nd_closing : bool;
}.

Inductive os_signal := SIGINT | SIGTERM.

Definition signal_name (s : os_signal) : string := match s with SIGINT => "SIGINT" | SIGTERM => "SIGTERM" end.

Definition on_process (f : process -> process) (n : server_process) : server_process :=
  mkServerProcess (f (nd_process n)) (nd_open n) (nd_closing n).

(** [process.exit(code)] *)
Definition exit (code : Z) (p : process) : process :=
  mkProcess (stdout p) (exitCode p) (exits p) false (Some code).

(** The callback of [server.close]: it is called when no connection is left. *)
Definition settle (n : server_process) : server_process :=
  if nd_closing n && bool_decide (nd_open n = ∅) then on_process (exit 0) n else n.

(** [server.close(callback)]: no new connections are accepted, idle ones are closed. *)
Definition close_server (n : server_process) : server_process :=
  settle (mkServerProcess (mkProcess (stdout (nd_process n)) (exitCode (nd_process n)) (exits (nd_process n)) false
                    (exited (nd_process n)))
            (filter (fun c => c.2 = true) (nd_open n)) true).

(** The handler of a signal. *)
Definition on_signal (s : os_signal) (now : Z) (n : server_process) : server_process :=
  close_server (on_process (print (log now info "shutting down" [("signal", Some (JStr (signal_name s)))])) n).

(** What happens to a process: clients connect, ask, are answered and leave; it is
    signalled; an error escapes; time passes. *)
Inductive server_event :=
| Connects (c : nat)
| Asks (c : nat)
| Answered (c : nat)
| Leaves (c : nat)
| Signalled (s : os_signal) (at_ : Z)
| Escapes (kind : crash) (reason : logged + string) (at_ : Z)
| Reaches (at_ : Z).

#[export] Instance leaves_dec (c : nat) (ev : server_event) : Decision (ev = Leaves c).
Proof.
  refine (match ev with Leaves d => cast_if (decide (d = c)) | _ => right _ end); congruence.
Defined.

Section Gateway.
Context (fresh_stack : string -> option string).

Definition server_step (n : server_process) (ev : server_event) : server_process :=
  if exited (nd_process n) then n else
  match ev with
  | Connects c =>
      if accepting (nd_process n) && bool_decide (nd_open n !! c = None)
      then mkServerProcess (nd_process n) (<[c := false]> (nd_open n)) (nd_closing n) else n
  | Asks c => mkServerProcess (nd_process n) (alter (fun _ => true) c (nd_open n)) (nd_closing n)
  | Answered c => mkServerProcess (nd_process n) (alter (fun _ => false) c (nd_open n)) (nd_closing n)
  | Leaves c => settle (mkServerProcess (nd_process n) (delete c (nd_open n)) (nd_closing n))
  | Signalled s at_ => on_signal s at_ n
  | Escapes kind reason at_ => on_process (gateway_die fresh_stack kind reason at_) n
  | Reaches at_ => on_process (elapse at_) n
  end.

Definition server_run (n : server_process) (evs : list server_event) : server_process := fold_left server_step evs n.

(** [main.ts]: [bound] is what binding the port comes to, [now] when it has. *)
Definition gateway_main (readFileSync : string -> result exn string) (resolve : string -> string)
    (thrown : exn -> logged + string) (env : string -> option string)
    (bound : option Z -> result exn unit) (now : Z) : server_process :=
  let p := mkProcess [] None [] false None in
  match loadConfig readFileSync resolve env with
  | Err _ => mkServerProcess (exit 1 p) ∅ false          (* no handler yet: the stack goes to stderr *)
  | Ok (port, config) =>
      match bound port with
      | Err e => mkServerProcess (gateway_die fresh_stack uncaughtException (thrown e) now p) ∅ false
      | Ok _ =>
          let line := log now info "listening"
            [("port", Some (match port with Some n => JNum (QArith_base.inject_Z n) | None => JNull end))] in
          mkServerProcess (mkProcess [line] None [] true None) ∅ false
      end
  end.
End Gateway.

(** *** The end of a gateway *)

Section Drains.
Context (fresh_stack : string -> option string).

Abbreviation run' := (server_run fresh_stack).

(** A process that is on its way out, or that has gone because nobody is left. *)
Record draining (n : server_process) : Prop := {
  dr_closing : nd_closing n = true;
  dr_accepting : accepting (nd_process n) = false;
  dr_timers : exits (nd_process n) = [];
  dr_exited : exited (nd_process n) = (if bool_decide (nd_open n = ∅) then Some 0%Z else None);
}.

Lemma settle_draining (n : server_process) :
  nd_closing n = true -> accepting (nd_process n) = false -> exits (nd_process n) = [] ->
  exited (nd_process n) = None -> draining (settle n).
Proof.
  intros Hc Ha Hx He. unfold settle. rewrite Hc. simpl.
  destruct (bool_decide (nd_open n = ∅)) eqn:E; split; simpl; rewrite ?E; done.
Qed.

Lemma settle_open (n : server_process) : nd_open (settle n) = nd_open n.
Proof. unfold settle. by case_match. Qed.

Lemma alter_nobody (f : bool -> bool) (c : nat) (m : gmap nat bool) : alter f c m = ∅ <-> m = ∅.
Proof. rewrite !map_empty. by setoid_rewrite lookup_alter_None. Qed.

Lemma draining_alter (f : bool -> bool) (c : nat) (n : server_process) :
  draining n -> draining (mkServerProcess (nd_process n) (alter f c (nd_open n)) (nd_closing n)).
Proof.
  intros [Hc Ha Hx He]. split; simpl; [done..|]. rewrite He.
  by rewrite (bool_decide_ext (alter f c (nd_open n) = ∅) (nd_open n = ∅)) by apply alter_nobody.
Qed.

(** Neither another signal nor an error. *)
Definition quiet (ev : server_event) : Prop :=
  match ev with Signalled _ _ | Escapes _ _ _ => False | _ => True end.

(** One event: the process stays on its way out, and one client less is connected if one
    leaves. *)
Lemma draining_step (n : server_process) (ev : server_event) : draining n -> quiet ev ->
  draining (server_step fresh_stack n ev) /\
  forall c, is_Some (nd_open (server_step fresh_stack n ev) !! c) <-> is_Some (nd_open n !! c) /\ ev <> Leaves c.
Proof.
  intros Hn Hq. pose proof Hn as [Hc Ha Hx He]. unfold server_step. rewrite He.
  destruct (bool_decide (nd_open n = ∅)) eqn:E; [|destruct ev as [c'|c'|c'|c'|s t|k r t|t]]; try done.
  - apply bool_decide_eq_true in E. split; [done|]. intros c. rewrite E, lookup_empty.
    split; [by intros []|by intros [[] _]].
  - rewrite Ha. split; [done|]. naive_solver.
  - split; [by apply draining_alter|]. intros c. simpl. rewrite lookup_alter_is_Some. naive_solver.
  - split; [by apply draining_alter|]. intros c. simpl. rewrite lookup_alter_is_Some. naive_solver.
  - split; [by apply settle_draining|]. intros c. rewrite settle_open. simpl.
    rewrite lookup_delete_is_Some. naive_solver.
  - assert (elapse t (nd_process n) = nd_process n) as Hel.
    { unfold elapse. rewrite Hx. by destruct (exited _). }
    unfold on_process. rewrite Hel. destruct n. split; [done|]. naive_solver.
Qed.

Lemma draining_run (evs : list server_event) (n : server_process) : draining n -> Forall quiet evs ->
  draining (run' n evs) /\
  forall c, is_Some (nd_open (run' n evs) !! c) <-> is_Some (nd_open n !! c) /\ Leaves c ∉ evs.
Proof.
  intros Hn Hq. revert n Hn. induction Hq as [|ev evs Hev Hq IH]; intros n Hn; simpl.
  { split; [done|]. intros c. rewrite elem_of_nil. naive_solver. }
  destruct (draining_step n ev Hn Hev) as [Hn' Hc]. destruct (IH _ Hn') as [Hd Hc'].
  split; [done|]. intros c. rewrite Hc', Hc, not_elem_of_cons. naive_solver.
Qed.

Lemma leaves_or_stays (c : nat) (evs : list server_event) : Leaves c ∈ evs \/ Leaves c ∉ evs.
Proof.
  destruct (decide (Exists (fun ev => ev = Leaves c) evs)) as [He|He]; rewrite Exists_exists in He;
    [left|right]; naive_solver.
Qed.

(** A process that serves. *)
Record serving (n : server_process) : Prop := {
  sv_closing : nd_closing n = false;
  sv_timers : exits (nd_process n) = [];
  sv_exited : exited (nd_process n) = None;
}.

Lemma signal_draining (s : os_signal) (t : Z) (n : server_process) : serving n ->
  draining (server_step fresh_stack n (Signalled s t)) /\
  nd_open (server_step fresh_stack n (Signalled s t)) = filter (fun c => c.2 = true) (nd_open n).
Proof.
  intros [Hc Hx He]. unfold server_step. rewrite He. unfold on_signal, close_server.
  split; [by apply settle_draining|by rewrite settle_open].
Qed.

(** C25: a gateway that is told to stop takes no new connections and drops the idle ones;
    it exits with code 0 as soon as the last client that was being answered has left, and
    no sooner: one that stays, as the event stream of an open page does, keeps it. *)
Theorem gateway_drains (s : os_signal) (t : Z) (n : server_process) (evs : list server_event) :
  serving n -> Forall quiet evs ->
  let n' := run' n (Signalled s t :: evs) in
  accepting (nd_process n') = false /\
  (forall c, is_Some (nd_open n' !! c) <-> nd_open n !! c = Some true /\ Leaves c ∉ evs) /\
  (exited (nd_process n') = Some 0%Z <-> forall c, nd_open n !! c = Some true -> Leaves c ∈ evs) /\
  (exited (nd_process n') = None <-> exists c, nd_open n !! c = Some true /\ Leaves c ∉ evs).
Proof.
  intros Hn Hq. cbv zeta. change (run' n (Signalled s t :: evs)) with (run' (server_step fresh_stack n (Signalled s t)) evs).
  destruct (signal_draining s t n Hn) as [Hd Ho]. destruct (draining_run evs _ Hd Hq) as [[_ Ha _ He] Hc].
  set (n' := run' _ evs) in *.
  assert (forall c, is_Some (nd_open n' !! c) <-> nd_open n !! c = Some true /\ Leaves c ∉ evs) as Hopen.
  { intros c. rewrite Hc, Ho. apply and_iff_compat_r. split.
    - intros [b Hb]. apply map_lookup_filter_Some in Hb as [Hb E]. simpl in E. by subst.
    - intros Hb. exists true. by apply map_lookup_filter_Some. }
  split; [done|]. split; [done|]. rewrite He. destruct (bool_decide (nd_open n' = ∅)) eqn:E.
  - apply bool_decide_eq_true in E. rewrite E in Hopen. split; split; try done.
    + intros _ c Hb. destruct (leaves_or_stays c evs) as [|Hl]; [done|].
      destruct (proj2 (Hopen c) (conj Hb Hl)) as [x Hx]. by rewrite lookup_empty in Hx.
    + intros [c Hb]. apply Hopen in Hb as [x Hx]. by rewrite lookup_empty in Hx.
  - apply bool_decide_eq_false, map_choose in E as (c & x & Hx).
    assert (is_Some (nd_open n' !! c)) as Hs by by eexists. apply Hopen in Hs as [Hb Hl].
    split; split; try done; [|by exists c]. intros Hall. by destruct Hl; apply Hall.
Qed.
End Drains.

(** A gateway that cannot read its configuration, or bind its port, ends with code 1 and
    has accepted nobody; only the second says so on a line.  Otherwise it serves. *)
Theorem gateway_starts fresh_stack readFileSync resolve thrown env bound (now later : Z) :
  (now + 50 <= later)%Z ->
  let n := gateway_main fresh_stack readFileSync resolve thrown env bound now in
  match loadConfig readFileSync resolve env with
  | Err _ => exited (nd_process n) = Some 1%Z /\ stdout (nd_process n) = []
  | Ok (port, _) =>
      length (stdout (nd_process n)) = 1 /\
      match bound port with
      | Ok _ => serving n /\ accepting (nd_process n) = true
      | Err _ => accepting (nd_process n) = false /\ exited (elapse later (nd_process n)) = Some 1%Z
      end
  end.
Proof.
  intros Hl. unfold gateway_main. destruct (loadConfig _ _ _) as [[port config]|e]; [|done].
  cbv zeta. destruct (bound port); [by repeat split|]. split; [done|]. split; [done|].
  unfold elapse. simpl. by rewrite (proj2 (Z.leb_le _ _) Hl).
Qed.

(** *** The sweep of the rate limiter *)

(** [createGatewayServer]: [setInterval(() => limiter.prune(), WINDOW_MS)]. *)
Definition prunes (start : Z) (turns : list Z) : list Z :=
  ticks Limiter.WINDOW_MS turns (setInterval Limiter.WINDOW_MS start).

Lemma recent_keys_mono (lo lo' : Z) (cs : list Limiter.rl_call) : (lo <= lo')%Z ->
  length (omap (Limiter.recent_key lo') cs) <= length (omap (Limiter.recent_key lo) cs).
Proof.
  intros Hlo. induction cs as [|c cs IH]; [done|]. cbn.
  change (list_omap _ _ (Limiter.recent_key ?l) cs) with (omap (Limiter.recent_key l) cs).
  destruct c as [cl m p now|now]; cbn; [|done].
  destruct (Z.ltb_spec lo' now), (Z.ltb_spec lo now); cbn [length]; lia.
Qed.

(** However long the gateway has run, and however many clients it has seen, it remembers no
    more counters than it was asked for in the last two windows, give or take a turn of
    its event loop. *)
Theorem limiter_memory (gap start now t : Z) (turns : list Z) (cs : list Limiter.rl_call) :
  (0 <= gap)%Z -> brisk gap start turns ->
  (start + Limiter.WINDOW_MS + gap <= now <= default start (last turns))%Z ->
  Limiter.chronological t cs ->
  (forall p, p ∈ prunes start turns -> (p <= now)%Z -> Limiter.CPrune p ∈ cs) ->
  size (Limiter.counters_after Limiter.WINDOW_MS cs ∅) <=
  length (omap (Limiter.recent_key (now - 2 * Limiter.WINDOW_MS - gap)) cs).
Proof.
  intros Hg Hb Hn Hc Hp.
  destruct (ticks_regularly Limiter.WINDOW_MS ltac:(done) gap start now turns Hg Hb Hn) as (p & Hin & Hr).
  destruct (list_elem_of_split _ _ (Hp p Hin (proj2 Hr))) as (pre & post & ->).
  etransitivity; [by apply (Limiter.memory_bounded Limiter.WINDOW_MS p t)|]. apply recent_keys_mono. lia.
Qed.

(** ** The services

    Nest creates the providers of a module, calls their hooks and binds the port; the
    programs of [main.ts] configure the application in between. *)

Record ValidationPipeOptions := mkPipe { whitelist : bool; forbidNonWhitelisted : bool; transform : bool }.

(** An application before it listens: the service its logger writes for, the middleware
    (the id of a request, of a fresh one and of its header), the proxies it trusts,
    whether signals call the hooks of destruction, and its global pipes. *)
Record application := mkApplication {
  ap_logger : option string;
  ap_middleware : list (string -> option string -> string);
  ap_trustProxy : option nat;
  ap_shutdownHooks : bool;
  ap_pipes : list ValidationPipeOptions;
}.

Definition created : application := mkApplication None [] None false [].

Definition useLogger (service : string) (a : application) : application :=
  mkApplication (Some service) (ap_middleware a) (ap_trustProxy a) (ap_shutdownHooks a) (ap_pipes a).

Definition use (m : string -> option string -> string) (a : application) : application :=
  mkApplication (ap_logger a) (ap_middleware a ++ [m]) (ap_trustProxy a) (ap_shutdownHooks a) (ap_pipes a).

Definition set_trust_proxy (hops : nat) (a : application) : application :=
  mkApplication (ap_logger a) (ap_middleware a) (Some hops) (ap_shutdownHooks a) (ap_pipes a).

Definition enableShutdownHooks (a : application) : application :=
  mkApplication (ap_logger a) (ap_middleware a) (ap_trustProxy a) true (ap_pipes a).

Definition useGlobalPipes (p : ValidationPipeOptions) (a : application) : application :=
  mkApplication (ap_logger a) (ap_middleware a) (ap_trustProxy a) (ap_shutdownHooks a) (ap_pipes a ++ [p]).

(** Why [bootstrap] does not go on: Nest ends the process when it cannot create the
    application ([abortOnError]), and rejects when it cannot start it. *)
Inductive stop := Aborts | Rejects (e : exn).

(** What Nest does with the providers [I] of a module: it creates them, or the process
    ends; it calls their hooks, in an order of its own, before it binds the port.  What
    becomes of an error of a hook in [createApplicationContext], which does both, is its
    own affair too. *)
Class Nest (I : Type) := {
  create_app : I -> result exn unit * I;
  init_app : list (io I exn unit) -> io I exn unit;
  bind_port : application -> value -> result exn unit;
  context_throws : exn -> stop;
}.

Class NestLaws (I : Type) `{Nest I} : Prop := {
  init_all hooks i i' : run (init_app hooks) i = (Ok tt, i') ->
    exists order, order ≡ₚ hooks /\ run (for_each order (fun h => h)) i = (Ok tt, i');
}.

(** A process on its way up: its output and its end, the application, the providers, and
    the port once it listens. *)
Record boot (I : Type) := mkBoot {
  bt_process : process;
  bt_app : application;
  bt_providers : I;
  bt_listening : option value;
}.

Arguments mkBoot {I} _ _ _ _.
Arguments bt_process {I} _.
Arguments bt_app {I} _.
Arguments bt_providers {I} _.
Arguments bt_listening {I} _.

Section Main.
Context {I : Type} `{Nest I}.
Context (thrown : exn -> logged + string) (fresh_stack : string -> option string) (now : Z).

Abbreviation B := (io (boot I) stop unit).

Definition configure (f : application -> application) : B :=
  modify (fun b => mkBoot (bt_process b) (f (bt_app b)) (bt_providers b) (bt_listening b)).

Definition log_line (service context msg : string) : B :=
  modify (fun b => mkBoot
    (print (call_logger service now None Log (AValue (JStr msg)) [AValue (JStr context)]) (bt_process b))
    (bt_app b) (bt_providers b) (bt_listening b)).

(** [NestFactory.create(Module)] *)
Definition create_step : B :=
  perform (fun b => let '(r, i) := create_app (bt_providers b) in
    (match r with Ok _ => Ok tt | Err _ => Err Aborts end,
     mkBoot (bt_process b) created i (bt_listening b))).

Definition init_step (failure : exn -> stop) (hooks : list (io I exn unit)) : B :=
  perform (fun b => let '(r, i) := run (init_app hooks) (bt_providers b) in
    (match r with Ok _ => Ok tt | Err e => Err (failure e) end,
     mkBoot (bt_process b) (bt_app b) i (bt_listening b))).

Definition bind_step (port : value) : B :=
  perform (fun b => match bind_port (bt_app b) port with
    | Ok _ => (Ok tt, mkBoot (bt_process b) (bt_app b) (bt_providers b) (Some port))
    | Err e => (Err (Rejects e), b)
    end).

(** [app.listen(port)] *)
Definition listen (hooks : list (io I exn unit)) (port : value) : B :=
  init_step Rejects hooks ;! bind_step port.

(** [NestFactory.createApplicationContext(Module)] creates and starts in one. *)
Definition create_context (hooks : list (io I exn unit)) : B :=
  create_step ;! init_step context_throws hooks.

Definition port_text (port : value) : string :=
  match port with Num n => string_of_Z n | Str s => s | Undefined => "undefined" end.

Definition strict_pipe : ValidationPipeOptions := mkPipe true true true.

(** [bootstrap] of [user-management]. *)
Definition users_bootstrap (hooks : list (io I exn unit)) (port : value) : B :=
  create_step ;!
  configure (useLogger "user-management") ;!
  configure (use service_request_id) ;!
  configure (set_trust_proxy trust_proxy) ;!
  configure enableShutdownHooks ;!
  configure (useGlobalPipes strict_pipe) ;!
  listen hooks port ;!
  log_line "user-management" "Bootstrap" ("user-management listening on http://localhost:" +:+ port_text port).

(** [bootstrap] of [email-ingestion]. *)
Definition ingestion_bootstrap (hooks : list (io I exn unit)) (port : value) : B :=
  create_step ;!
  configure (useLogger "email-ingestion") ;!
  configure (use service_request_id) ;!
  configure enableShutdownHooks ;!
  configure (useGlobalPipes strict_pipe) ;!
  listen hooks port ;!
  log_line "email-ingestion" "Bootstrap" ("email-ingestion listening on http://localhost:" +:+ port_text port).

(** [bootstrap] of its worker. *)
Definition worker_bootstrap (hooks : list (io I exn unit)) : B :=
  create_context hooks ;!
  configure (useLogger "email-ingestion-worker") ;!
  configure enableShutdownHooks ;!
  log_line "email-ingestion-worker" "Worker" "email-ingestion worker started — waiting for jobs".

(** [installCrashHandlers(logger); void bootstrap()] *)
Definition main (service : string) (bootstrap : B) (providers : I) : boot I :=
  let '(r, b) := run bootstrap (mkBoot (mkProcess [] None [] false None) created providers None) in
  let become p := mkBoot p (bt_app b) (bt_providers b) (bt_listening b) in
  match r with
  | Ok _ => b
  | Err Aborts => become (exit 1 (bt_process b))
  | Err (Rejects e) => become (die fresh_stack service None unhandledRejection (thrown e) now (bt_process b))
  end.
End Main.

(** *** The hooks of the providers *)

(** [PrismaService.onModuleInit] and [onModuleDestroy] of both services: [$connect] asks
    the database. *)
Definition connect_hook {I} (up : I -> bool) (set_connected : bool -> I -> I) : io I exn unit :=
  perform (fun i => if up i then (Ok tt, set_connected true i) else (Err DbUnavailable, i)).

Definition disconnect_hook {I} (set_connected : bool -> I -> I) : io I exn unit := modify (set_connected false).

(** A hook that keeps what it has made. *)
Definition keep_hook {I W X} (world_of : I -> W) (set_world : W -> I -> I) (m : io W exn X) (keep : X -> I -> I) :
  io I exn unit :=
  let! x := zoom world_of set_world m in modify (keep x).

(** The providers of [user-management] that have a state of their own: the database, the
    connection to it, the timer of the sweeps, and the hash of nobody's password. *)
Record users_providers (TU TR : Type) := mkUsersProviders {
  up_world : world (users_db TU TR);
  up_connected : bool;
  up_timer : timer;
  up_decoyHash : option string;
}.

Arguments mkUsersProviders {TU TR} _ _ _ _.
Arguments up_world {TU TR} _.
Arguments up_connected {TU TR} _.
Arguments up_timer {TU TR} _.
Arguments up_decoyHash {TU TR} _.

Section UsersHooks.
Context {TU TR : Type}.
Context (argon2_hash : nat -> string -> string) (randomHex : nat -> string).

Abbreviation I := (users_providers TU TR).

Definition up_set_world (w : world (users_db TU TR)) (i : I) : I :=
  mkUsersProviders w (up_connected i) (up_timer i) (up_decoyHash i).

Definition up_set_connected (b : bool) (i : I) : I :=
  mkUsersProviders (up_world i) b (up_timer i) (up_decoyHash i).

Definition up_set_timer (t : timer) (i : I) : I :=
  mkUsersProviders (up_world i) (up_connected i) t (up_decoyHash i).

Definition up_set_decoyHash (h : string) (i : I) : I :=
  mkUsersProviders (up_world i) (up_connected i) (up_timer i) (Some h).

Definition users_prisma_init : io I exn unit := connect_hook (fun i => db_up (up_world i)) up_set_connected.

(** [RefreshTokenCleanupService.onModuleInit] *)
Definition cleanup_init : io I exn unit :=
  keep_hook up_world up_set_world Date_now (fun now => up_set_timer (arm now)).

(** [AuthService.onModuleInit] *)
Definition auth_init : io I exn unit :=
  keep_hook up_world up_set_world (Auth.onModuleInit argon2_hash randomHex) up_set_decoyHash.

Definition users_hooks : list (io I exn unit) := [users_prisma_init; cleanup_init; auth_init].

(** [onModuleDestroy] of the same. *)
Definition users_prisma_destroy : io I exn unit := disconnect_hook up_set_connected.
Definition cleanup_destroy : io I exn unit := modify (fun i => up_set_timer (disarm (up_timer i)) i).

Definition users_destroy_hooks : list (io I exn unit) := [users_prisma_destroy; cleanup_destroy].

Definition users_ready (i : I) : Prop :=
  up_connected i = true /\ is_Some (up_timer i) /\ is_Some (up_decoyHash i).
End UsersHooks.

(** The providers of [email-ingestion], and of its worker: the database, the connection to
    it, what the store of objects has logged, and the subscription to the queue. *)
Record ingestion_providers (TA TM : Type) := mkIngestionProviders {
  ip_world : world (mail_db TA TM);
  ip_connected : bool;
  ip_bucket : option (list string);
  ip_events : option redis_connection;
}.

Arguments mkIngestionProviders {TA TM} _ _ _ _.
Arguments ip_world {TA TM} _.
Arguments ip_connected {TA TM} _.
Arguments ip_bucket {TA TM} _.
Arguments ip_events {TA TM} _.

Section IngestionHooks.
Context {TA TM : Type} (head_bucket create_bucket : nat -> result exn unit) (env : list (string * value)).

Abbreviation I := (ingestion_providers TA TM).

Definition ip_set_world (w : world (mail_db TA TM)) (i : I) : I :=
  mkIngestionProviders w (ip_connected i) (ip_bucket i) (ip_events i).

Definition ip_set_connected (b : bool) (i : I) : I :=
  mkIngestionProviders (ip_world i) b (ip_bucket i) (ip_events i).

Definition ip_set_bucket (lines : list string) (i : I) : I :=
  mkIngestionProviders (ip_world i) (ip_connected i) (Some lines) (ip_events i).

Definition ip_set_events (c : option redis_connection) (i : I) : I :=
  mkIngestionProviders (ip_world i) (ip_connected i) (ip_bucket i) c.

Definition ingestion_prisma_init : io I exn unit := connect_hook (fun i => db_up (ip_world i)) ip_set_connected.

(** [ObjectStorageService.onModuleInit] *)
Definition storage_init : io I exn unit :=
  keep_hook ip_world ip_set_world (Startup.onModuleInit head_bucket create_bucket (text (Startup.get env "S3_BUCKET")))
    ip_set_bucket.

(** [SyncEventsService.onModuleInit] *)
Definition sync_events_init : io I exn unit := modify (ip_set_events (Some (connection env))).

Definition ingestion_hooks : list (io I exn unit) := [ingestion_prisma_init; storage_init; sync_events_init].

(** [onModuleDestroy] of the same. *)
Definition ingestion_prisma_destroy : io I exn unit := disconnect_hook ip_set_connected.
Definition sync_events_destroy : io I exn unit := modify (ip_set_events None).

Definition ingestion_destroy_hooks : list (io I exn unit) := [ingestion_prisma_destroy; sync_events_destroy].

Definition ingestion_ready (i : I) : Prop :=
  ip_connected i = true /\ is_Some (ip_bucket i) /\ ip_events i = Some (connection env).
End IngestionHooks.

(** *** Hooks in any order *)

Lemma run_connect {I} (up : I -> bool) (set : bool -> I -> I) (i i' : I) :
  run (connect_hook up set) i = (Ok tt, i') -> up i = true /\ i' = set true i.
Proof. unfold connect_hook. rewrite run_perform. destruct (up i); [by intros [= <-]|done]. Qed.

Lemma run_keep {I W X} (world_of : I -> W) (set_world : W -> I -> I) `{!Lens world_of set_world}
    (m : io W exn X) (keep : X -> I -> I) (i i' : I) :
  run (keep_hook world_of set_world m keep) i = (Ok tt, i') -> exists x w, i' = keep x (set_world w i).
Proof.
  unfold keep_hook. rewrite run_bind, (run_zoom world_of set_world) by exact _. destruct (run m (world_of i)) as [[x|e] w]; [|done].
  cbn [fst snd]. rewrite run_modify. intros [= <-]. by exists x, w.
Qed.

(** What one hook establishes and no other spoils holds after all of them, whatever their
    order. *)
Lemma hooks_establish {I} (hooks order : list (io I exn unit)) (P : I -> Prop) h i i' :
  order ≡ₚ hooks -> h ∈ hooks ->
  (forall x x', run h x = (Ok tt, x') -> P x') ->
  (forall g x x', g ∈ hooks -> run g x = (Ok tt, x') -> P x -> P x') ->
  run (for_each order (fun g => g)) i = (Ok tt, i') -> P i'.
Proof.
  intros Hperm Hh He Hk. assert (forall g, g ∈ order -> g ∈ hooks) as Hin by (intros g; by rewrite Hperm).
  assert (h ∈ order) as Ho by (by rewrite Hperm). clear Hperm Hh.
  assert (forall l x x', (forall g, g ∈ l -> g ∈ hooks) -> P x ->
    run (for_each l (fun g => g)) x = (Ok tt, x') -> P x') as Hall.
  { induction l as [|g l IH]; intros x x' Hl Hx; simpl; [by rewrite run_ret; intros [= <-]|].
    rewrite run_bind. destruct (run g x) as [[[]|e] y] eqn:E; [|done]. apply IH.
    - intros g' Hg'. apply Hl. by right.
    - apply (Hk g x y); [apply Hl; by left|done|done]. }
  revert i Hin Ho. induction order as [|g l IH]; intros i Hin Ho; simpl; [by apply not_elem_of_nil in Ho|].
  rewrite run_bind. destruct (run g i) as [[[]|e] y] eqn:E; [|done].
  apply elem_of_cons in Ho as [->|Ho].
  - apply Hall; [intros g' Hg'; apply Hin; by right|by apply (He i)].
  - apply IH; [intros g' Hg'; apply Hin; by right|done].
Qed.

#[export] Instance up_world_lens {TU TR} : Lens (@up_world TU TR) up_set_world.
Proof. split; [done|by intros []|done]. Qed.

#[export] Instance ip_world_lens {TA TM} : Lens (@ip_world TA TM) ip_set_world.
Proof. split; [done|by intros []|done]. Qed.

Section IngestionReady.
Context {TA TM : Type} (head_bucket create_bucket : nat -> result exn unit) (env : list (string * value)).

Abbreviation I := (ingestion_providers TA TM).
Abbreviation hooks := (ingestion_hooks (TA := TA) (TM := TM) head_bucket create_bucket env).

Lemma ingestion_hook_monotone (P : I -> Prop) g (x x' : I) :
  (forall i, P i -> P (ip_set_connected true i)) -> (forall w i, P i -> P (ip_set_world w i)) ->
  (forall l i, P i -> P (ip_set_bucket l i)) -> (forall i, P i -> P (ip_set_events (Some (connection env)) i)) ->
  g ∈ hooks -> run g x = (Ok tt, x') -> P x -> P x'.
Proof.
  intros Hc Hw Hb He Hg Hrun Hx. unfold ingestion_hooks in Hg.
  repeat (apply elem_of_cons in Hg as [->|Hg]); [| | |by apply not_elem_of_nil in Hg].
  - apply run_connect in Hrun as [_ ->]. by apply Hc.
  - apply run_keep in Hrun as (l & w & ->); [|exact _]. by apply Hb, Hw.
  - unfold sync_events_init in Hrun. rewrite run_modify in Hrun. injection Hrun as <-. by apply He.
Qed.

Lemma ingestion_hooks_ready (order : list (io I exn unit)) (i i' : I) :
  order ≡ₚ hooks -> run (for_each order (fun h => h)) i = (Ok tt, i') -> ingestion_ready env i'.
Proof.
  intros Hperm Hrun. split; [|split].
  - apply (hooks_establish hooks order (fun i => ip_connected i = true) ingestion_prisma_init i); [done|by left|..|done].
    + intros x x' E. by apply run_connect in E as [_ ->].
    + intros g x x' Hg E Hx. by apply (ingestion_hook_monotone (fun i => ip_connected i = true) g x x').
  - apply (hooks_establish hooks order (fun i => is_Some (ip_bucket i)) (storage_init head_bucket create_bucket env) i);
      [done|right; by left|..|done].
    + intros x x' E. apply run_keep in E as (l & w & ->); [by eexists|exact _].
    + intros g x x' Hg E Hx. by apply (ingestion_hook_monotone (fun i => is_Some (ip_bucket i)) g x x').
  - apply (hooks_establish hooks order (fun i => ip_events i = Some (connection env)) (sync_events_init env) i);
      [done|do 2 right; by left|..|done].
    + intros x x' E. unfold sync_events_init in E. rewrite run_modify in E. by injection E as <-.
    + intros g x x' Hg E Hx. by apply (ingestion_hook_monotone (fun i => ip_events i = Some (connection env)) g x x').
Qed.
End IngestionReady.

Section Ready.
Context {TU TR : Type} (argon2_hash : nat -> string -> string) (randomHex : nat -> string).

Abbreviation I := (users_providers TU TR).
Abbreviation hooks := (users_hooks (TU := TU) (TR := TR) argon2_hash randomHex).

(** What each hook of [user-management] sets, and that none unsets it. *)
Lemma users_hook_monotone (P : I -> Prop) g (x x' : I) :
  (forall i, P i -> P (up_set_connected true i)) -> (forall w i, P i -> P (up_set_world w i)) ->
  (forall t i, P i -> P (up_set_timer (Some t) i)) -> (forall h i, P i -> P (up_set_decoyHash h i)) ->
  g ∈ hooks -> run g x = (Ok tt, x') -> P x -> P x'.
Proof.
  intros Hc Hw Ht Hd Hg Hrun Hx. unfold users_hooks in Hg.
  repeat (apply elem_of_cons in Hg as [->|Hg]); [| | |by apply not_elem_of_nil in Hg].
  - apply run_connect in Hrun as [_ ->]. by apply Hc.
  - apply run_keep in Hrun as (now & w & ->); [|exact _]. by apply Ht, Hw.
  - apply run_keep in Hrun as (h & w & ->); [|exact _]. by apply Hd, Hw.
Qed.

Lemma users_hooks_ready (order : list (io I exn unit)) (i i' : I) :
  order ≡ₚ hooks -> run (for_each order (fun h => h)) i = (Ok tt, i') -> users_ready i'.
Proof.
  intros Hperm Hrun. split; [|split].
  - apply (hooks_establish hooks order (fun i => up_connected i = true) users_prisma_init i); [done|by left|..|done].
    + intros x x' E. by apply run_connect in E as [_ ->].
    + intros g x x' Hg E Hx. by apply (users_hook_monotone (fun i => up_connected i = true) g x x').
  - apply (hooks_establish hooks order (fun i => is_Some (up_timer i)) cleanup_init i); [done|right; by left|..|done].
    + intros x x' E. apply run_keep in E as (now & w & ->); [by eexists|exact _].
    + intros g x x' Hg E Hx. by apply (users_hook_monotone (fun i => is_Some (up_timer i)) g x x').
  - apply (hooks_establish hooks order (fun i => is_Some (up_decoyHash i)) (auth_init argon2_hash randomHex) i);
      [done|do 2 right; by left|..|done].
    + intros x x' E. apply run_keep in E as (h & w & ->); [by eexists|exact _].
    + intros g x x' Hg E Hx. by apply (users_hook_monotone (fun i => is_Some (up_decoyHash i)) g x x').
Qed.
End Ready.

(** *** What a process that serves has done *)

(** The applications as they are when they are started. *)
Definition users_application : application :=
  mkApplication (Some "user-management") [service_request_id] (Some 1%nat) true [strict_pipe].

Definition ingestion_application : application :=
  mkApplication (Some "email-ingestion") [service_request_id] None true [strict_pipe].

Section Served.
Context {I : Type} `{NestLaws I}.
Context (thrown : exn -> logged + string) (fresh_stack : string -> option string) (now : Z).

(** How an application comes up: created, its hooks called, its port bound. *)
Definition comes_up (a : application) (hooks : list (io I exn unit)) (port : value) (b : boot I) :
  result stop unit * boot I :=
  match create_app (bt_providers b) with
  | (Err _, i) => (Err Aborts, mkBoot (bt_process b) created i (bt_listening b))
  | (Ok _, i) =>
      match run (init_app hooks) i with
      | (Err e, i') => (Err (Rejects e), mkBoot (bt_process b) a i' (bt_listening b))
      | (Ok _, i') =>
          match bind_port a port with
          | Err e => (Err (Rejects e), mkBoot (bt_process b) a i' (bt_listening b))
          | Ok _ => (Ok tt, mkBoot (bt_process b) a i' (Some port))
          end
      end
  end.

Definition announce (service context msg : string) (r : result stop unit * boot I) : result stop unit * boot I :=
  match r with
  | (Ok _, b) => run (log_line now service context msg) b
  | (Err e, b) => (Err e, b)
  end.

Lemma run_configure (f : application -> application) (b : boot I) :
  run (configure f) b = (Ok tt, mkBoot (bt_process b) (f (bt_app b)) (bt_providers b) (bt_listening b)).
Proof. unfold configure. by rewrite run_modify. Qed.

Lemma run_listen (hooks : list (io I exn unit)) (port : value) (b : boot I) :
  run (listen hooks port) b =
  match run (init_app hooks) (bt_providers b) with
  | (Err e, i) => (Err (Rejects e), mkBoot (bt_process b) (bt_app b) i (bt_listening b))
  | (Ok _, i) =>
      match bind_port (bt_app b) port with
      | Err e => (Err (Rejects e), mkBoot (bt_process b) (bt_app b) i (bt_listening b))
      | Ok _ => (Ok tt, mkBoot (bt_process b) (bt_app b) i (Some port))
      end
  end.
Proof.
  unfold listen, init_step, bind_step. rewrite run_bind, run_perform.
  destruct (run (init_app hooks) (bt_providers b)) as [[u|e] i]; [|done]. rewrite run_perform. cbn.
  by destruct (bind_port _ _).
Qed.

(** Run a [bootstrap] up to the line it ends with. *)
Ltac come_up :=
  unfold comes_up, announce, create_step; rewrite run_bind, run_perform; destruct (create_app _) as [[?|?] ?]; [|done];
  repeat (cbv beta iota; rewrite run_bind, run_configure);
  cbv beta iota; rewrite run_bind, run_listen;
  cbn [bt_process bt_app bt_providers bt_listening]; destruct (run (init_app _) _) as [[?|?] ?]; [|done];
  by destruct (bind_port _ _).

Lemma run_users_bootstrap hooks port b :
  run (users_bootstrap now hooks port) b =
  announce "user-management" "Bootstrap" ("user-management listening on http://localhost:" +:+ port_text port)
    (comes_up users_application hooks port b).
Proof. unfold users_bootstrap. come_up. Qed.

Lemma run_ingestion_bootstrap hooks port b :
  run (ingestion_bootstrap now hooks port) b =
  announce "email-ingestion" "Bootstrap" ("email-ingestion listening on http://localhost:" +:+ port_text port)
    (comes_up ingestion_application hooks port b).
Proof. unfold ingestion_bootstrap. come_up. Qed.

Definition begins (providers : I) : boot I := mkBoot (mkProcess [] None [] false None) created providers None.

(** A process that listens is configured and its providers are ready. *)
Definition listens_ready (a : application) (ready : I -> Prop) (port : value) (b : boot I) : Prop :=
  forall p, bt_listening b = Some p -> p = port /\ bt_app b = a /\ ready (bt_providers b).

(** Every state on the way up. *)
Definition reached (bootstrap : io (boot I) stop unit) (providers : I) (b : boot I) : Prop :=
  exists rest, rtc (fun c c' => tstep c.1 c.2 = Some c') (bootstrap, begins providers) (rest, b).

Section WayUp.
Context (a : application) (ready : I -> Prop) (port : value).

Abbreviation safe := (listens_ready a ready port).

Lemma not_listening (b : boot I) : bt_listening b = None -> safe b.
Proof. by intros E p Hp; rewrite E in Hp. Qed.

Lemma along_configure (f : application -> application) (m : io (boot I) stop unit) (b : boot I) :
  bt_listening b = None -> along safe m (mkBoot (bt_process b) (f (bt_app b)) (bt_providers b) None) ->
  along safe (configure f ;! m) b.
Proof.
  intros E Hm. apply along_bind; [by apply along_perform; apply not_listening|].
  intros u b'. rewrite run_configure, E. by intros [= _ <-].
Qed.

Lemma along_create (m : io (boot I) stop unit) (b : boot I) :
  bt_listening b = None -> (forall i, along safe m (mkBoot (bt_process b) created i None)) ->
  along safe (create_step ;! m) b.
Proof.
  intros E Hm. apply along_bind.
  - apply along_perform; [by apply not_listening|]. destruct (create_app _). by apply not_listening.
  - intros u b'. unfold create_step. rewrite run_perform, E. destruct (create_app _) as [[?|?] i]; [|done].
    intros [= _ <-]. apply Hm.
Qed.

Lemma along_listen (hooks : list (io I exn unit)) (m : io (boot I) stop unit) (b : boot I) :
  (forall order i i', order ≡ₚ hooks -> run (for_each order (fun h => h)) i = (Ok tt, i') -> ready i') ->
  bt_listening b = None -> bt_app b = a ->
  (forall i, ready i -> along safe m (mkBoot (bt_process b) a i (Some port))) ->
  along safe (listen hooks port ;! m) b.
Proof.
  intros Hready E Ha Hm. pose proof (init_all hooks (bt_providers b)) as Hall. apply along_bind.
  - apply along_bind.
    + apply along_perform; [by apply not_listening|]. destruct (run (init_app hooks) _). by apply not_listening.
    + intros u b'. unfold init_step. rewrite run_perform.
      destruct (run (init_app hooks) (bt_providers b)) as [[[]|e] i]; [|done]. intros [= _ <-].
      destruct (Hall i eq_refl) as (order & Hperm & Hord). rewrite E.
      apply along_perform; [by apply not_listening|]. cbn [bt_app bt_process bt_providers bt_listening].
      destruct (bind_port _ _); [|by apply not_listening]. intros p [= <-].
      split; [done|]. split; [done|]. by eapply Hready.
  - intros u b'. rewrite run_listen. destruct (run (init_app hooks) (bt_providers b)) as [[[]|e] i]; [|done].
    destruct (Hall i eq_refl) as (order & Hperm & Hord). rewrite Ha.
    destruct (bind_port a port); [|done]. intros [= _ <-]. by eapply Hm, Hready.
Qed.

Lemma along_log (service context msg : string) (b : boot I) :
  safe b -> along safe (log_line now service context msg) b.
Proof. intros Hb. by apply along_perform. Qed.
End WayUp.

(** A process that serves is configured, its hooks have run, and it goes on; one that does
    not serve is over once the line of its crash has left. *)
Definition serves_or_ends (a : application) (ready : I -> Prop) (port : value) (b : boot I) : Prop :=
  match bt_listening b with
  | Some p => p = port /\ bt_app b = a /\ ready (bt_providers b) /\
      exited (bt_process b) = None /\ exits (bt_process b) = [] /\ length (stdout (bt_process b)) = 1%nat
  | None => exited (elapse (now + 50) (bt_process b)) = Some 1%Z
  end.

Lemma main_serves_or_ends (service context msg : string) (a : application) (ready : I -> Prop)
    (hooks : list (io I exn unit)) (port : value) (bootstrap : io (boot I) stop unit) (providers : I) :
  (forall order i i', order ≡ₚ hooks -> run (for_each order (fun h => h)) i = (Ok tt, i') -> ready i') ->
  run bootstrap (begins providers) = announce service context msg (comes_up a hooks port (begins providers)) ->
  serves_or_ends a ready port (main thrown fresh_stack now service bootstrap providers).
Proof.
  intros Hready Hrun. unfold main. change (mkBoot (mkProcess [] None [] false None) created providers None) with (begins providers).
  rewrite Hrun. unfold comes_up. cbn [begins bt_providers bt_process bt_app bt_listening].
  destruct (create_app providers) as [[?|?] i]; [|done].
  pose proof (init_all hooks i) as Hall. destruct (run (init_app hooks) i) as [[[]|e] i'].
  - destruct (bind_port a port); cbn [announce].
    + unfold log_line. rewrite run_modify. destruct (Hall i' eq_refl) as (order & Hperm & Hord).
      split; [done|]. split; [done|]. split; [by apply (Hready order i)|]. by repeat split.
    + unfold serves_or_ends. cbn. by rewrite Z.leb_refl.
  - unfold serves_or_ends. cbn. by rewrite Z.leb_refl.
Qed.
End Served.

(** What the steps of a bootstrap keep. *)
Ltac go_up :=
  apply along_create; [done|]; intros ?;
  repeat (apply along_configure; [done|]; cbn [bt_process bt_app bt_providers bt_listening]).

Section Services.
Context {TU TR TA TM : Type} `{NestLaws (users_providers TU TR)} `{NestLaws (ingestion_providers TA TM)}.
Context (thrown : exn -> logged + string) (fresh_stack : string -> option string) (now : Z) (port : value).

Lemma users_way_up (argon2_hash : nat -> string -> string) (randomHex : nat -> string)
    (providers : users_providers TU TR) :
  along (listens_ready users_application users_ready port)
    (users_bootstrap now (users_hooks argon2_hash randomHex) port) (begins providers).
Proof.
  unfold users_bootstrap. go_up. apply along_listen; [|done|done|].
  - intros order j j'. apply users_hooks_ready.
  - intros i' Hi. apply along_log. by intros p [= <-].
Qed.

Lemma ingestion_way_up (head_bucket create_bucket : nat -> result exn unit) (env : list (string * value))
    (providers : ingestion_providers TA TM) :
  along (listens_ready ingestion_application (ingestion_ready env) port)
    (ingestion_bootstrap now (ingestion_hooks head_bucket create_bucket env) port) (begins providers).
Proof.
  unfold ingestion_bootstrap. go_up. apply along_listen; [|done|done|].
  - intros order j j'. apply ingestion_hooks_ready.
  - intros i' Hi. apply along_log. by intros p [= <-].
Qed.

(** C26: user-management serves nobody before it has reached the database, armed the timer
    of its sweeps and hashed the password of nobody, in whatever order Nest calls the
    hooks, nor before every request has an id, one proxy is trusted, the hooks of the
    shutdown are enabled and bodies are validated: in every state its [bootstrap] goes
    through, the port is bound only if all of this is so already.  When any of it fails
    the process ends with code 1. *)
Theorem users_serves_ready (argon2_hash : nat -> string -> string) (randomHex : nat -> string)
    (providers : users_providers TU TR) :
  let bootstrap := users_bootstrap now (users_hooks argon2_hash randomHex) port in
  (forall b, reached bootstrap providers b -> listens_ready users_application users_ready port b) /\
  serves_or_ends now users_application users_ready port
    (main thrown fresh_stack now "user-management" bootstrap providers).
Proof.
  split; [intros b [rest Hb]; by eapply along_reached, Hb; apply users_way_up|].
  eapply main_serves_or_ends; [|apply run_users_bootstrap]. intros order i i'. apply users_hooks_ready.
Qed.

(** The same of email-ingestion: the database, the bucket and the subscription. *)
Theorem ingestion_serves_ready (head_bucket create_bucket : nat -> result exn unit) (env : list (string * value))
    (providers : ingestion_providers TA TM) :
  let bootstrap := ingestion_bootstrap now (ingestion_hooks head_bucket create_bucket env) port in
  (forall b, reached bootstrap providers b -> listens_ready ingestion_application (ingestion_ready env) port b) /\
  serves_or_ends now ingestion_application (ingestion_ready env) port
    (main thrown fresh_stack now "email-ingestion" bootstrap providers).
Proof.
  split; [intros b [rest Hb]; by eapply along_reached, Hb; apply ingestion_way_up|].
  eapply main_serves_or_ends; [|apply run_ingestion_bootstrap]. intros order i i'. apply ingestion_hooks_ready.
Qed.

(** A worker that goes on has the same; one that does not ends with code 1. *)
Theorem worker_works_ready (head_bucket create_bucket : nat -> result exn unit) (env : list (string * value))
    (providers : ingestion_providers TA TM) :
  let b := main thrown fresh_stack now "email-ingestion-worker"
             (worker_bootstrap now (ingestion_hooks head_bucket create_bucket env)) providers in
  (ingestion_ready env (bt_providers b) /\ ap_shutdownHooks (bt_app b) = true /\
   exited (bt_process b) = None /\ exits (bt_process b) = []) \/
  exited (elapse (now + 50) (bt_process b)) = Some 1%Z.
Proof.
  cbv zeta. unfold main, worker_bootstrap, create_context, create_step, init_step.
  rewrite run_bind, run_bind, run_perform.
  destruct (create_app _) as [[?|?] i]; [|by right]. cbv beta iota. rewrite run_perform.
  pose proof (init_all (ingestion_hooks head_bucket create_bucket env) i) as Hall. cbn [bt_providers].
  destruct (run (init_app _) i) as [[[]|e] i'].
  - cbv beta iota. do 2 (rewrite run_bind, run_configure; cbv beta iota). unfold log_line. rewrite run_modify.
    destruct (Hall i' eq_refl) as (order & Hperm & Hord). left. split; [by eapply ingestion_hooks_ready|done].
  - cbv beta iota. right. destruct (context_throws e); [done|]. cbn. by rewrite Z.leb_refl.
Qed.
End Services.

(** *** On the way down *)

Section Stops.
Context {TU TR : Type}.

Abbreviation I := (users_providers TU TR).

Lemma users_destroy_monotone (P : I -> Prop) g (x x' : I) :
  (forall i, P i -> P (up_set_connected false i)) -> (forall i, P i -> P (up_set_timer None i)) ->
  g ∈ users_destroy_hooks -> run g x = (Ok tt, x') -> P x -> P x'.
Proof.
  intros Hc Ht Hg E Hx. repeat (apply elem_of_cons in Hg as [->|Hg]); [..|by apply not_elem_of_nil in Hg];
    unfold users_prisma_destroy, disconnect_hook, cleanup_destroy in E; rewrite run_modify in E;
    injection E as <-; auto.
Qed.

(** Whatever the order of the hooks: no sweep is started any more, and the database is let
    go. *)
Theorem users_stops (order : list (io I exn unit)) (i i' : I) (later : Z) :
  order ≡ₚ users_destroy_hooks -> run (for_each order (fun h => h)) i = (Ok tt, i') ->
  (turn SWEEP_INTERVAL_MS later (up_timer i')).1 = false /\ up_connected i' = false.
Proof.
  intros Hperm Hrun. split.
  - apply (hooks_establish users_destroy_hooks order (fun i => (turn SWEEP_INTERVAL_MS later (up_timer i)).1 = false) cleanup_destroy i);
      [done|right; by left|..|done].
    + intros x x' E. unfold cleanup_destroy in E. rewrite run_modify in E. by injection E as <-.
    + intros g x x'. by apply (users_destroy_monotone (fun i => (turn SWEEP_INTERVAL_MS later (up_timer i)).1 = false)).
  - apply (hooks_establish users_destroy_hooks order (fun i => up_connected i = false) users_prisma_destroy i);
      [done|by left|..|done].
    + intros x x' E. unfold users_prisma_destroy, disconnect_hook in E. rewrite run_modify in E. by injection E as <-.
    + intros g x x'. by apply (users_destroy_monotone (fun i => up_connected i = false)).
Qed.
End Stops.

(** ** Concrete processes *)

Module Up.
(** A Nest that calls the hooks in the order they are declared in, on a machine whose
    ports are free. *)
#[export] Instance nest {I} : Nest I := {
  create_app := fun i => (Ok tt, i);
  init_app := fun hooks => for_each hooks (fun h => h);
  bind_port := fun _ _ => Ok tt;
  context_throws := Rejects;
}.

#[export] Instance nest_laws {I} : NestLaws I.
Proof. split. intros hooks i i' Hrun. by exists hooks. Qed.

Definition thrown (e : exn) : logged + string := inl (AnError "Error" (message e) None).

Definition providers (up : bool) : users_providers (list User) (list RefreshToken) :=
  mkUsersProviders (mkWorld (mkUsersDb [] []) 1000 0 up []) false None None.

Definition started (up : bool) : boot (users_providers (list User) (list RefreshToken)) :=
  main thrown (fun _ => None) 2000 "user-management"
    (users_bootstrap 2000 (users_hooks (fun _ p => p) (fun _ => "nobody")) (Num 3001)) (providers up).

Definition ingestion (up : bool) : ingestion_providers (list MailAccount) (list Message) :=
  mkIngestionProviders (mkWorld (mkMailDb [] [] ∅) 1000 0 up []) false None None.

(** A gateway with a client who reads the event stream, one whose request is answered
    soon, and an idle one. *)
Definition busy : server_process :=
  mkServerProcess (mkProcess [] None [] true None) {[1 := true; 2 := true; 3 := false]} false.
End Up.

Import Up.

Lemma gateway_drains_witness :
  exited (nd_process (server_run (fun _ => None) busy [Signalled SIGTERM 0; Answered 2; Leaves 2; Connects 4])) = None /\
  exited (nd_process (server_run (fun _ => None) busy [Signalled SIGTERM 0; Answered 2; Leaves 2; Connects 4; Leaves 1])) = Some 0%Z.
Proof.
  assert (serving busy) as Hs by by split. split.
  - apply (gateway_drains (fun _ => None) SIGTERM 0 busy [Answered 2; Leaves 2; Connects 4] Hs); [by repeat constructor|].
    exists 1. split; [reflexivity|]. set_solver.
  - apply (gateway_drains (fun _ => None) SIGTERM 0 busy [Answered 2; Leaves 2; Connects 4; Leaves 1] Hs); [by repeat constructor|].
    intros c Hc. unfold busy in Hc. simpl in Hc.
    repeat (apply lookup_insert_Some in Hc as [[<- Hb]|[_ Hc]]; [set_solver|]).
    apply lookup_singleton_Some in Hc as [<- Hb]. discriminate.
Defined.

Lemma gateway_starts_witness :
  exited (elapse 60 (nd_process (gateway_main (fun _ => None) (fun _ => Ok "key") (fun p => p) thrown (fun _ => Some "1")
    (fun _ => Err (Error "EADDRINUSE")) 0))) = Some 1%Z.
Proof.
  exact (proj2 (proj2 (gateway_starts (fun _ => None) (fun _ => Ok "key") (fun p => p) thrown (fun _ => Some "1")
    (fun _ => Err (Error "EADDRINUSE")) 0 60 ltac:(lia)))).
Defined.

(** With the database, and without it. *)
Lemma users_serves_ready_witness :
  users_ready (bt_providers (started true)) /\ exited (elapse 2050 (bt_process (started false))) = Some 1%Z.
Proof.
  split.
  - refine (proj1 (proj2 (proj2 (proj2 (users_serves_ready
      thrown (fun _ => None) 2000 (Num 3001) (fun _ p => p) (fun _ => "nobody") (providers true)))))).
  - exact (proj2 (users_serves_ready
      thrown (fun _ => None) 2000 (Num 3001) (fun _ p => p) (fun _ => "nobody") (providers false))).
Defined.

Lemma users_stops_witness :
  up_connected (run (for_each (users_destroy_hooks (TU := list User) (TR := list RefreshToken)) (fun h => h))
    (bt_providers (started true))).2 = false.
Proof.
  eapply (users_stops users_destroy_hooks (bt_providers (started true)) _ 0); [reflexivity|].
  vm_compute. reflexivity.
Defined.

Lemma ingestion_serves_ready_witness :
  serves_or_ends 2000 ingestion_application (ingestion_ready []) (Num 3002)
    (main thrown (fun _ => None) 2000 "email-ingestion"
       (ingestion_bootstrap 2000 (ingestion_hooks (fun _ => Err (Error "NotFound")) (fun _ => Ok tt) []) (Num 3002))
       (ingestion true)).
Proof.
  exact (proj2 (ingestion_serves_ready thrown (fun _ => None) 2000 (Num 3002) (fun _ => Err (Error "NotFound")) (fun _ => Ok tt) []
    (ingestion true))).
Defined.

Lemma worker_works_ready_witness :
  let b := main thrown (fun _ => None) 2000 "email-ingestion-worker"
             (worker_bootstrap 2000 (ingestion_hooks (fun _ => Ok tt) (fun _ => Ok tt) [])) (ingestion false) in
  (ingestion_ready [] (bt_providers b) /\ ap_shutdownHooks (bt_app b) = true /\
   exited (bt_process b) = None /\ exits (bt_process b) = []) \/
  exited (elapse 2050 (bt_process b)) = Some 1%Z.
Proof.
  exact (worker_works_ready thrown (fun _ => None) 2000 (fun _ => Ok tt) (fun _ => Ok tt) [] (ingestion false)).
Defined.

Lemma limiter_memory_witness :
  size (Limiter.counters_after Limiter.WINDOW_MS
    [Limiter.CCheck "a" "GET" "/x" 5; Limiter.CPrune 60000; Limiter.CCheck "b" "GET" "/x" 60020; Limiter.CPrune 120000] ∅) <= 2.
Proof.
  refine (limiter_memory 30000 0 150000 0 [30000; 60000; 90000; 120000; 150000]%Z
    [Limiter.CCheck "a" "GET" "/x" 5; Limiter.CPrune 60000; Limiter.CCheck "b" "GET" "/x" 60020; Limiter.CPrune 120000] _ _ _ _ _).
  - lia.
  - simpl. lia.
  - unfold Limiter.WINDOW_MS. simpl. lia.
  - simpl. repeat split; lia.
  - intros p Hin _. change (p ∈ [60000; 120000]%Z) in Hin.
    repeat (apply elem_of_cons in Hin as [->|Hin]; [by repeat constructor|]). by apply not_elem_of_nil in Hin.
Defined.
